(** * MMM-Sonos node helper: hybrid push/poll state synchronisation

    A shallow embedding of the hybrid-mode part of the MagicMirror
    node helper (adaptive polling, subscription health check, guarded
    rediscovery, push-event handlers and the three control commands),
    together with the properties the specification states about it.

    The helper is one JavaScript object whose methods run to completion
    on a single thread.  Every method, and every promise continuation or
    timer callback it registers, is embedded as one computation in a
    state-and-trace monad: the state holds the fields of [this], the
    part of the Sonos listener the helper reads and writes, and the
    store of health-record objects; the trace lists, in program order,
    the calls that leave the helper (timers, device calls, socket
    notifications, log lines).

    An asynchronous method is split where it awaits: the part that runs
    at the call, which returns what the continuation closes over, and
    one definition per continuation.  [this.groupHealth] maps a group id
    to a reference into the store, because [pollGroup] keeps the record
    object it looked up at the call and writes to it when the fetches
    have settled, even when a teardown has replaced the map in
    between. *)

From Stdlib Require Import ZArith Bool Lia Ascii String.
From Stdlib Require DecimalString DecimalPos.
From stdpp Require Import base option list strings gmap fin_maps.

Open Scope Z_scope.

(** ** Data *)

(** A group as delivered by [getAllGroups()].  Only the fields the
    helper reads are kept. *)
Record Group := mkGroup { ID : string; Name : string; host : string }.

(** Object identities: timers, device handles and health records are
    JavaScript objects; each is named by the number it got when it was
    created. *)
Definition TimerId := nat.
Definition loc := nat.

(** A device handle.  [group.CoordinatorDevice()] builds a new object on
    every call, so a handle carries its own identity next to the host it
    talks to. *)
Record Device := mkDevice { dev_obj : nat; dev_host : string }.

(** A track as reported by [currentTrack()] or a [CurrentTrack] event.
    [title], [artist], [album] and [duration] are the fields the helper
    compares; [uri] and [position] stand for the ones it ignores. *)
Record Track := mkTrack {
  title : string; artist : string; album : string; duration : Z;
  uri : string; position : Z
}.

(** One entry of [this.groupHealth].  [null] is [None]. *)
Record Health := mkHealth {
  device : option Device;
  playState : string;
  consecutiveFailures : Z;
  lastTrack : option Track;
  lastVolume : option Z;
  lastMuted : option bool
}.

Record Timeouts := mkTimeouts {
  t_discovery : option Z; t_subscribe : option Z;
  t_apiCall : option Z; t_getAllGroups : option Z
}.

Definition DEFAULT_TIMEOUTS : Timeouts :=
  {| t_discovery := Some 10000; t_subscribe := Some 5000;
     t_apiCall := Some 5000; t_getAllGroups := Some 10000 |}.

(** The configuration payload of [SONOS_START].  A missing key is
    [None]. *)
Record Config := mkConfig {
  cfg_debug : bool;
  cfg_pollingIntervalPlaying : option Z;
  cfg_pollingIntervalIdle : option Z;
  cfg_subscriptionCheckInterval : option Z;
  cfg_autoResubscribe : bool;
  cfg_maxConsecutiveFailures : option Z;
  cfg_timeouts : option Timeouts
}.

(** [x || d] on a number that may be missing: [undefined] and [0] are
    falsy. *)
Definition or_default (x : option Z) (d : Z) : Z :=
  match x with
  | Some v => if v =? 0 then d else v
  | None => d
  end.

(** [x ?? d]: only a missing value takes the default. *)
Definition nullish_default (x : option Z) (d : Z) : Z :=
  match x with Some v => v | None => d end.

(** ** JavaScript values

    A string is a sequence of UTF-16 code units; the strings of this
    model hold the code units below U+0100, one [ascii] each.

    Numbers are the integers, [NaN] and the two infinities.  An [Int z]
    stands for the double of that value; the helper only ever clamps
    such a number against 0 and 100 or prints it.  Fractional numbers
    are left out: [parseInt] reads the digits in front of the decimal
    point or exponent of their string form, which is again an
    integer. *)
Inductive JsNumber := NaN | Infinity (negative : bool) | Int (z : Z).

Inductive JsValue :=
| JUndefined | JNull
| JBool (b : bool)
| JNumber (n : JsNumber)
| JString (s : string).

(** ** Trace *)

Inductive EventName := CurrentTrack | Volume | Muted | PlayState | ErrorEvent.

(** The callbacks handed to [setTimeout] and [setInterval]. *)
Inductive Callback := RestartDiscovery | PollTimerFired | SubscriptionCheckTick.

Inductive DeviceOp :=
| currentTrack | getVolume | getMuted | getCurrentState
| togglePlayback | next | setVolume (v : JsNumber).

Inductive Notification :=
| SET_SONOS_CURRENT_TRACK (g : Group) (t : Track)
| SET_SONOS_VOLUME (g : Group) (v : Z)
| SET_SONOS_MUTE (g : Group) (m : bool)
| SET_SONOS_PLAY_STATE (g : Group) (s : string).

Inductive LogLevel := LError | LWarn | LLog | LDebug.

Inductive LogMsg :=
| MsgHandlingListenerError
| MsgRediscoveryInProgress
| MsgTriggeringFullRediscovery
| MsgClearingHealthCheckTimer
| MsgClearingPollTimeout (was : option TimerId)
| MsgCleaningUp
| MsgSchedulingPoll (ms : Z)
| MsgPollTimerFired
| MsgPollChainStopped
| MsgPollingGroups (n : nat)
| MsgNoHealthState (g : string)
| MsgPollFailed (g : string) (failures maxFailures : Z)
| MsgPollResults (g : string) (track vol mute state : bool)
| MsgPollTrack (g : string) (t : string) (changed : bool)
| MsgAutoResubscribeDisabled
| MsgHealthCheckStarted (ms : Z)
| MsgHealthCheckTriggered
| MsgSkippingCheckNotPlaying
| MsgNoGroupsToCheck
| MsgRunningHealthCheck (n : nat)
| MsgListenerSubscriptions (n : nat)
| MsgNoDeviceReference (g : string)
| MsgDeviceInfo (g : string) (h : string)
| MsgNoDeviceSubscription (g : string)
| MsgAttemptingRenewal (g : string)
| MsgRenewalSucceeded (g : string)
| MsgRenewalFailed (g : string)
| MsgPushTrack (g : string) (t : string)
| MsgPushVolume (g : string) (v : Z)
| MsgPushMuted (g : string) (m : bool)
| MsgPushState (g : string) (s : string)
| MsgGroupNotFound (groupId : string)
| MsgInvalidVolume
| MsgToggled (g : string)
| MsgSkipped (g : string)
| MsgVolumeSet (g : string) (v : Z)
| MsgCommandFailed (op : DeviceOp)
| MsgRegisteringHybrid (g : string) (h : string)
| MsgSubscriptionCreated (g : string)
| MsgSubscribeFailed (g : string)
| MsgHybridPollingDisabled
| MsgHybridAdaptivePolling (playing idle : Z).

(** An exception that no [try] or [catch] of the helper handles. *)
Inductive Exception := TypeError.

(** What leaves the helper.  A device call carries the deadline given to
    [withTimeout] when it is made under one; [EThrow] is an exception
    that leaves the method that raised it. *)
Inductive Effect :=
| ESetTimeout (t : TimerId) (cb : Callback) (ms : Z)
| ESetInterval (t : TimerId) (cb : Callback) (ms : Z)
| EClearTimeout (t : TimerId)
| EClearInterval (t : TimerId)
| ERemoveAllListeners (d : Device) (e : EventName)
| EOn (d : Device) (e : EventName) (g : Group)
| EStopListener
| ESubscribeTo (d : Device)
| ERenewAllSubscriptions (d : Device) (g : Group) (deadline : Z)
| EDeviceCall (d : Device) (op : DeviceOp) (deadline : option (option Z))
| ESendSocketNotification (n : Notification)
| EDiscoverGroups
| ELog (lvl : LogLevel) (m : LogMsg)
| EThrow (e : Exception).

(** ** State *)

Record State := mkState {
  config : option Config;
  debug : bool;
  asyncDevice : bool;
  subscribedDevices : list Device;
  groupsById : gmap string Group;
  groups : list Group;
  groupHealth : gmap string loc;
  subscriptionCheckTimer : option TimerId;
  pollTimeout : option TimerId;
  isRediscovering : bool;
  (* the Sonos listener singleton *)
  listening : bool;
  deviceSubscriptions : option (list Device);
  (* the object store: health records by identity, next fresh identity *)
  heap : gmap loc Health;
  nextObj : nat
}.

Definition set_config (v : option Config) (s : State) : State :=
  mkState v (debug s) (asyncDevice s) (subscribedDevices s) (groupsById s) (groups s)
    (groupHealth s) (subscriptionCheckTimer s) (pollTimeout s) (isRediscovering s)
    (listening s) (deviceSubscriptions s) (heap s) (nextObj s).
Definition set_asyncDevice (v : bool) (s : State) : State :=
  mkState (config s) (debug s) v (subscribedDevices s) (groupsById s) (groups s)
    (groupHealth s) (subscriptionCheckTimer s) (pollTimeout s) (isRediscovering s)
    (listening s) (deviceSubscriptions s) (heap s) (nextObj s).
Definition set_subscribedDevices (v : list Device) (s : State) : State :=
  mkState (config s) (debug s) (asyncDevice s) v (groupsById s) (groups s)
    (groupHealth s) (subscriptionCheckTimer s) (pollTimeout s) (isRediscovering s)
    (listening s) (deviceSubscriptions s) (heap s) (nextObj s).
Definition set_groups (v : list Group) (s : State) : State :=
  mkState (config s) (debug s) (asyncDevice s) (subscribedDevices s) (groupsById s) v
    (groupHealth s) (subscriptionCheckTimer s) (pollTimeout s) (isRediscovering s)
    (listening s) (deviceSubscriptions s) (heap s) (nextObj s).
Definition set_groupHealth (v : gmap string loc) (s : State) : State :=
  mkState (config s) (debug s) (asyncDevice s) (subscribedDevices s) (groupsById s) (groups s)
    v (subscriptionCheckTimer s) (pollTimeout s) (isRediscovering s)
    (listening s) (deviceSubscriptions s) (heap s) (nextObj s).
Definition set_subscriptionCheckTimer (v : option TimerId) (s : State) : State :=
  mkState (config s) (debug s) (asyncDevice s) (subscribedDevices s) (groupsById s) (groups s)
    (groupHealth s) v (pollTimeout s) (isRediscovering s)
    (listening s) (deviceSubscriptions s) (heap s) (nextObj s).
Definition set_pollTimeout (v : option TimerId) (s : State) : State :=
  mkState (config s) (debug s) (asyncDevice s) (subscribedDevices s) (groupsById s) (groups s)
    (groupHealth s) (subscriptionCheckTimer s) v (isRediscovering s)
    (listening s) (deviceSubscriptions s) (heap s) (nextObj s).
Definition set_isRediscovering (v : bool) (s : State) : State :=
  mkState (config s) (debug s) (asyncDevice s) (subscribedDevices s) (groupsById s) (groups s)
    (groupHealth s) (subscriptionCheckTimer s) (pollTimeout s) v
    (listening s) (deviceSubscriptions s) (heap s) (nextObj s).
Definition set_deviceSubscriptions (v : option (list Device)) (s : State) : State :=
  mkState (config s) (debug s) (asyncDevice s) (subscribedDevices s) (groupsById s) (groups s)
    (groupHealth s) (subscriptionCheckTimer s) (pollTimeout s) (isRediscovering s)
    (listening s) v (heap s) (nextObj s).
Definition set_heap (v : gmap loc Health) (s : State) : State :=
  mkState (config s) (debug s) (asyncDevice s) (subscribedDevices s) (groupsById s) (groups s)
    (groupHealth s) (subscriptionCheckTimer s) (pollTimeout s) (isRediscovering s)
    (listening s) (deviceSubscriptions s) v (nextObj s).
Definition set_nextObj (v : nat) (s : State) : State :=
  mkState (config s) (debug s) (asyncDevice s) (subscribedDevices s) (groupsById s) (groups s)
    (groupHealth s) (subscriptionCheckTimer s) (pollTimeout s) (isRediscovering s)
    (listening s) (deviceSubscriptions s) (heap s) v.

(** ** The monad: state passing with a trace *)

Definition M (A : Type) : Type := State → A * State * list Effect.

Definition result {A} (r : A * State * list Effect) : A := r.1.1.
Definition final {A} (r : A * State * list Effect) : State := r.1.2.
Definition trace {A} (r : A * State * list Effect) : list Effect := r.2.

#[global] Instance M_ret : MRet M := λ A a s, (a, s, []).
#[global] Instance M_bind : MBind M := λ A B f m s,
  let '(a, s1, t1) := m s in
  let '(b, s2, t2) := f a s1 in
  (b, s2, t1 ++ t2).

Definition get : M State := λ s, (s, s, []).
Definition modify (f : State → State) : M unit := λ s, (tt, f s, []).
Definition emit (e : Effect) : M unit := λ s, (tt, s, [e]).
Definition skip : M unit := mret tt.

(** [xs.forEach(f)] *)
Fixpoint forEach {A} (f : A → M unit) (xs : list A) : M unit :=
  match xs with
  | [] => skip
  | x :: xs' => f x ;; forEach f xs'
  end.

(** A new object identity. *)
Definition fresh : M nat := λ s, (nextObj s, set_nextObj (S (nextObj s)) s, []).

Definition Log (lvl : LogLevel) (m : LogMsg) : M unit := emit (ELog lvl m).

Definition debugLog (m : LogMsg) : M unit :=
  s ← get;
  if debug s then Log LDebug m else skip.

Definition setTimeout (cb : Callback) (ms : Z) : M TimerId :=
  t ← fresh; emit (ESetTimeout t cb ms) ;; mret t.

Definition setInterval (cb : Callback) (ms : Z) : M TimerId :=
  t ← fresh; emit (ESetInterval t cb ms) ;; mret t.

Definition CoordinatorDevice (g : Group) : M Device :=
  o ← fresh; mret (mkDevice o (host g)).

Definition removeDeviceListeners (d : Device) : M unit :=
  emit (ERemoveAllListeners d CurrentTrack) ;;
  emit (ERemoveAllListeners d Volume) ;;
  emit (ERemoveAllListeners d Muted) ;;
  emit (ERemoveAllListeners d PlayState) ;;
  emit (ERemoveAllListeners d ErrorEvent).

(** ** Recovery: [triggerRediscovery] *)

Definition triggerRediscovery : M unit :=
  s ← get;
  if isRediscovering s then
    debugLog MsgRediscoveryInProgress
  else
    modify (set_isRediscovering true) ;;
    Log LWarn MsgTriggeringFullRediscovery ;;
    debugLog MsgClearingHealthCheckTimer ;;
    match subscriptionCheckTimer s with
    | Some t => emit (EClearInterval t) ;; modify (set_subscriptionCheckTimer None)
    | None => skip
    end ;;
    debugLog (MsgClearingPollTimeout (pollTimeout s)) ;;
    match pollTimeout s with
    | Some t => emit (EClearTimeout t) ;; modify (set_pollTimeout None)
    | None => skip
    end ;;
    debugLog MsgCleaningUp ;;
    forEach removeDeviceListeners (subscribedDevices s) ;;
    modify (set_subscribedDevices []) ;;
    modify (set_groupHealth ∅) ;;
    modify (set_groups []) ;;
    (if listening s then emit EStopListener else skip) ;;
    match deviceSubscriptions s with
    | Some _ => modify (set_deviceSubscriptions (Some []))
    | None => skip
    end ;;
    modify (set_asyncDevice false) ;;
    setTimeout RestartDiscovery 2000 ;;
    skip.

(** The body of the timer set at the end of [triggerRediscovery]. *)
Definition restartDiscovery : M unit :=
  modify (set_isRediscovering false) ;;
  emit EDiscoverGroups.

Definition handleListenerError : M unit :=
  Log LError MsgHandlingListenerError ;;
  triggerRediscovery.

(** ** The health store *)

Definition set_device (v : option Device) (h : Health) : Health :=
  mkHealth v (playState h) (consecutiveFailures h) (lastTrack h) (lastVolume h) (lastMuted h).
Definition set_playState (v : string) (h : Health) : Health :=
  mkHealth (device h) v (consecutiveFailures h) (lastTrack h) (lastVolume h) (lastMuted h).
Definition set_consecutiveFailures (v : Z) (h : Health) : Health :=
  mkHealth (device h) (playState h) v (lastTrack h) (lastVolume h) (lastMuted h).
Definition set_lastTrack (v : option Track) (h : Health) : Health :=
  mkHealth (device h) (playState h) (consecutiveFailures h) v (lastVolume h) (lastMuted h).
Definition set_lastVolume (v : option Z) (h : Health) : Health :=
  mkHealth (device h) (playState h) (consecutiveFailures h) (lastTrack h) v (lastMuted h).
Definition set_lastMuted (v : option bool) (h : Health) : Health :=
  mkHealth (device h) (playState h) (consecutiveFailures h) (lastTrack h) (lastVolume h) v.

(** A write through a reference to a health record: the object is
    changed in place, whether or not [this.groupHealth] still points to
    it. *)
Definition updHealth (l : loc) (f : Health → Health) : M unit :=
  modify (λ s, set_heap (alter f l (heap s)) s).

(** A read through a reference to a health record.  A reference always
    points to a record; the [None] branch is there for totality. *)
Definition withHealth (l : loc) (k : Health → M unit) : M unit :=
  s ← get;
  match heap s !! l with
  | Some h => k h
  | None => skip
  end.

(** [Object.values(this.groupHealth)] *)
Definition healthValues (s : State) : list Health :=
  omap (λ kl, heap s !! kl.2) (map_to_list (groupHealth s)).

(** ** Adaptive polling *)

Definition isAnyGroupPlaying (s : State) : bool :=
  existsb (λ h, String.eqb (playState h) "playing") (healthValues s).

Definition getPollingInterval (s : State) : Z :=
  let playingInterval := or_default (config s ≫= cfg_pollingIntervalPlaying) 15000 in
  let idleInterval := or_default (config s ≫= cfg_pollingIntervalIdle) 60000 in
  if isAnyGroupPlaying s then playingInterval else idleInterval.

Definition schedulePoll : M unit :=
  s ← get;
  match pollTimeout s with
  | Some t => emit (EClearTimeout t)
  | None => skip
  end ;;
  let interval := getPollingInterval s in
  debugLog (MsgSchedulingPoll interval) ;;
  t ← setTimeout PollTimerFired interval;
  modify (set_pollTimeout (Some t)).

(** The outcome of one promise given to [Promise.allSettled]. *)
Inductive Settled (A : Type) := Fulfilled (value : A) | Rejected.
Arguments Fulfilled {A} value.
Arguments Rejected {A}.

Definition fulfilled {A} (r : Settled A) : bool :=
  match r with Fulfilled _ => true | Rejected => false end.

(** The four results of one group's poll, in the order of the source:
    track, volume, mute, state.  [currentTrack()] may resolve to a falsy
    value, which is [Fulfilled None]. *)
Record PollResults := mkResults {
  r_track : Settled (option Track);
  r_volume : Settled Z;
  r_muted : Settled bool;
  r_state : Settled string
}.

Definition anySucceeded (r : PollResults) : bool :=
  fulfilled (r_track r) || fulfilled (r_volume r) ||
  fulfilled (r_muted r) || fulfilled (r_state r).

Definition allSucceeded (r : PollResults) : bool :=
  fulfilled (r_track r) && fulfilled (r_volume r) &&
  fulfilled (r_muted r) && fulfilled (r_state r).

(** What the continuation of [pollGroup] closes over. *)
Record PendingPoll := mkPending {
  pp_group : Group;
  pp_health : loc;
  pp_maxFailures : Z
}.

Definition apiTimeout (s : State) : option Z :=
  t_apiCall (default DEFAULT_TIMEOUTS (config s ≫= cfg_timeouts)).

Definition maxFailures (s : State) : Z :=
  or_default (config s ≫= cfg_maxConsecutiveFailures) 3.

(** [pollGroup], up to the point where the four fetches are in flight. *)
Definition pollGroup (group : Group) : M (option PendingPoll) :=
  dev ← CoordinatorDevice group;
  s ← get;
  match groupHealth s !! ID group with
  | None => debugLog (MsgNoHealthState (Name group)) ;; mret None
  | Some health =>
      let deadline := Some (apiTimeout s) in
      emit (EDeviceCall dev currentTrack deadline) ;;
      emit (EDeviceCall dev getVolume deadline) ;;
      emit (EDeviceCall dev getMuted deadline) ;;
      emit (EDeviceCall dev getCurrentState deadline) ;;
      mret (Some (mkPending group health (maxFailures s)))
  end.

(** The four-field comparison of the poll: title, artist, album and
    duration, nothing else. *)
Definition trackChanged (last : option Track) (track : Track) : bool :=
  match last with
  | None => true
  | Some lt =>
      negb (String.eqb (title lt) (title track)) ||
      negb (String.eqb (artist lt) (artist track)) ||
      negb (String.eqb (album lt) (album track)) ||
      negb (duration lt =? duration track)
  end.

(** [pollGroup]'s continuation, run when all four fetches have settled. *)
Definition pollGroup_then (p : PendingPoll) (results : PollResults) : M unit :=
  let group := pp_group p in
  let health := pp_health p in
  if negb (anySucceeded results) then
    updHealth health (λ h, set_consecutiveFailures (consecutiveFailures h + 1) h) ;;
    withHealth health (λ h,
      Log LError (MsgPollFailed (Name group) (consecutiveFailures h) (pp_maxFailures p)) ;;
      if consecutiveFailures h >=? pp_maxFailures p then triggerRediscovery else skip)
  else
    updHealth health (set_consecutiveFailures 0) ;;
    debugLog (MsgPollResults (Name group) (fulfilled (r_track results))
                (fulfilled (r_volume results)) (fulfilled (r_muted results))
                (fulfilled (r_state results))) ;;
    match r_track results with
    | Fulfilled (Some track) =>
        withHealth health (λ h,
          let changed := trackChanged (lastTrack h) track in
          debugLog (MsgPollTrack (Name group) (title track) changed) ;;
          if changed then
            updHealth health (set_lastTrack (Some track)) ;;
            emit (ESendSocketNotification (SET_SONOS_CURRENT_TRACK group track))
          else skip)
    | _ => skip
    end ;;
    match r_volume results with
    | Fulfilled volume =>
        withHealth health (λ h,
          if negb (bool_decide (lastVolume h = Some volume)) then
            updHealth health (set_lastVolume (Some volume)) ;;
            emit (ESendSocketNotification (SET_SONOS_VOLUME group volume))
          else skip)
    | Rejected => skip
    end ;;
    match r_muted results with
    | Fulfilled isMuted =>
        withHealth health (λ h,
          if negb (bool_decide (lastMuted h = Some isMuted)) then
            updHealth health (set_lastMuted (Some isMuted)) ;;
            emit (ESendSocketNotification (SET_SONOS_MUTE group isMuted))
          else skip)
    | Rejected => skip
    end ;;
    match r_state results with
    | Fulfilled state =>
        withHealth health (λ h,
          if negb (String.eqb (playState h) state) then
            updHealth health (set_playState state) ;;
            emit (ESendSocketNotification (SET_SONOS_PLAY_STATE group state))
          else skip)
    | Rejected => skip
    end.

(** [xs.map(f)] for an effectful [f]. *)
Fixpoint mapM {A B} (f : A → M B) (xs : list A) : M (list B) :=
  match xs with
  | [] => mret []
  | x :: xs' => y ← f x; ys ← mapM f xs'; mret (y :: ys)
  end.

Definition pollAllGroups : M (list (option PendingPoll)) :=
  s ← get;
  debugLog (MsgPollingGroups (length (groups s))) ;;
  mapM pollGroup (groups s).

(** The body of the timer set by [schedulePoll], up to the point where
    every group's fetches are in flight. *)
Definition pollTimerFired : M (list (option PendingPoll)) :=
  debugLog MsgPollTimerFired ;;
  pollAllGroups.

(** The [finally] callback of the poll cycle. *)
Definition pollCycleFinally : M unit :=
  s ← get;
  match pollTimeout s with
  | Some _ => schedulePoll
  | None => debugLog MsgPollChainStopped
  end.

(** ** Subscription health check *)

(** [listener._deviceSubscriptions?.find(sub => sub.device === device)]:
    handles are compared by identity. *)
Definition findDeviceSubscription (s : State) (d : Device) : option Device :=
  deviceSubscriptions s ≫= List.find (λ sub, Nat.eqb (dev_obj sub) (dev_obj d)).

Definition renewTimeout (s : State) : Z :=
  or_default (t_apiCall (default DEFAULT_TIMEOUTS (config s ≫= cfg_timeouts))) 5000.

Definition renewDeviceSubscriptions (dev : Device) (group : Group) : M unit :=
  debugLog (MsgDeviceInfo (Name group) (dev_host dev)) ;;
  s ← get;
  match findDeviceSubscription s dev with
  | None =>
      debugLog (MsgNoDeviceSubscription (Name group)) ;;
      triggerRediscovery
  | Some sub =>
      debugLog (MsgAttemptingRenewal (Name group)) ;;
      emit (ERenewAllSubscriptions sub group (renewTimeout s))
  end.

(** The two continuations of the renewal promise: [then] when it
    resolved in time, [catch] when it rejected or timed out. *)
Definition renewal_then (group : Group) : M unit :=
  debugLog (MsgRenewalSucceeded (Name group)).

Definition renewal_catch (group : Group) : M unit :=
  Log LWarn (MsgRenewalFailed (Name group)) ;;
  triggerRediscovery.

(** The device handle stored for a group: [None] when
    [!health || !health.device]. *)
Definition storedDevice (s : State) (group : Group) : option Device :=
  l ← groupHealth s !! ID group; h ← heap s !! l; device h.

(** The body of the [forEach] of the health check, for one group. *)
Definition checkGroup (group : Group) : M unit :=
  s ← get;
  match storedDevice s group with
  | None =>
      debugLog (MsgNoDeviceReference (Name group)) ;;
      triggerRediscovery
  | Some dev => renewDeviceSubscriptions dev group
  end.

(** The body of the interval timer of the health check. *)
Definition subscriptionCheckTick : M unit :=
  debugLog MsgHealthCheckTriggered ;;
  s ← get;
  if negb (isAnyGroupPlaying s) then
    debugLog MsgSkippingCheckNotPlaying
  else if Nat.eqb (length (groups s)) 0 then
    debugLog MsgNoGroupsToCheck
  else
    debugLog (MsgRunningHealthCheck (length (groups s))) ;;
    debugLog (MsgListenerSubscriptions (length (default [] (deviceSubscriptions s)))) ;;
    forEach checkGroup (groups s).

Definition autoResubscribe (s : State) : bool :=
  match config s with Some c => cfg_autoResubscribe c | None => false end.

Definition startSubscriptionHealthCheck : M unit :=
  s ← get;
  if negb (autoResubscribe s) then
    debugLog MsgAutoResubscribeDisabled
  else
    match subscriptionCheckTimer s with
    | Some t => emit (EClearInterval t)
    | None => skip
    end ;;
    let checkInterval := or_default (config s ≫= cfg_subscriptionCheckInterval) 300000 in
    t ← setInterval SubscriptionCheckTick checkInterval;
    modify (set_subscriptionCheckTimer (Some t)) ;;
    Log LLog (MsgHealthCheckStarted checkInterval).

(** ** Push events: the handlers of [attachEventHandlers] *)

(** [if (health) health.f = v] for the record of [groupId]. *)
Definition syncHealth (groupId : string) (f : Health → Health) : M unit :=
  s ← get;
  match groupHealth s !! groupId with
  | Some health => updHealth health f
  | None => skip
  end.

Definition onCurrentTrack (group : Group) (track : Track) : M unit :=
  Log LLog (MsgPushTrack (Name group) (title track)) ;;
  syncHealth (ID group) (set_lastTrack (Some track)) ;;
  emit (ESendSocketNotification (SET_SONOS_CURRENT_TRACK group track)).

Definition onVolume (group : Group) (volume : Z) : M unit :=
  debugLog (MsgPushVolume (Name group) volume) ;;
  syncHealth (ID group) (set_lastVolume (Some volume)) ;;
  emit (ESendSocketNotification (SET_SONOS_VOLUME group volume)).

Definition onMuted (group : Group) (isMuted : bool) : M unit :=
  debugLog (MsgPushMuted (Name group) isMuted) ;;
  syncHealth (ID group) (set_lastMuted (Some isMuted)) ;;
  emit (ESendSocketNotification (SET_SONOS_MUTE group isMuted)).

Definition onPlayState (group : Group) (state : string) : M unit :=
  Log LLog (MsgPushState (Name group) state) ;;
  syncHealth (ID group) (set_playState state) ;;
  emit (ESendSocketNotification (SET_SONOS_PLAY_STATE group state)).

Definition attachEventHandlers (group : Group) (dev : Device) : M unit :=
  removeDeviceListeners dev ;;
  s ← get;
  (if existsb (λ d, Nat.eqb (dev_obj d) (dev_obj dev)) (subscribedDevices s)
   then skip
   else modify (set_subscribedDevices (subscribedDevices s ++ [dev]))) ;;
  emit (EOn dev ErrorEvent group) ;;
  emit (EOn dev CurrentTrack group) ;;
  emit (EOn dev Volume group) ;;
  emit (EOn dev Muted group) ;;
  emit (EOn dev PlayState group).

(** ** Control commands *)

(** [this.groupsById] is a plain object ([{}]): [this.groupsById[groupId]]
    finds the object's own properties, which the map holds, and after
    them the members every object inherits from [Object.prototype].
    Those are functions (and, under [__proto__], the prototype itself):
    truthy, and without a [CoordinatorDevice] method.  The own
    properties are written under group ids, which are taken to differ
    from [__proto__] (writing under that key would replace the
    prototype instead). *)
Definition objectPrototypeNames : list string :=
  ["constructor"; "hasOwnProperty"; "isPrototypeOf"; "propertyIsEnumerable";
   "toLocaleString"; "toString"; "valueOf"; "__proto__";
   "__defineGetter__"; "__defineSetter__"; "__lookupGetter__"; "__lookupSetter__"]%string.

Inductive Property := OwnProperty (g : Group) | Inherited | Undefined.

Definition getProperty (groupsById : gmap string Group) (groupId : string) : Property :=
  match groupsById !! groupId with
  | Some g => OwnProperty g
  | None =>
      if bool_decide (groupId ∈ objectPrototypeNames) then Inherited else Undefined
  end.

(** [group.CoordinatorDevice()] on what the lookup gave: on an
    inherited member the call throws, [group.CoordinatorDevice] being
    [undefined]. *)
Definition handleTogglePlayPause (groupId : string) : M unit :=
  s ← get;
  match getProperty (groupsById s) groupId with
  | Undefined => Log LError (MsgGroupNotFound groupId)
  | Inherited => emit (EThrow TypeError)
  | OwnProperty group =>
      sonos ← CoordinatorDevice group;
      emit (EDeviceCall sonos togglePlayback None)
  end.

Definition handleNext (groupId : string) : M unit :=
  s ← get;
  match getProperty (groupsById s) groupId with
  | Undefined => Log LError (MsgGroupNotFound groupId)
  | Inherited => emit (EThrow TypeError)
  | OwnProperty group =>
      sonos ← CoordinatorDevice group;
      emit (EDeviceCall sonos next None)
  end.

(** The continuations of the three command promises only log. *)
Definition command_then (m : LogMsg) : M unit := debugLog m.
Definition command_catch (op : DeviceOp) : M unit := Log LError (MsgCommandFailed op).

(** *** [parseInt(v, 10)], [Math.min], [Math.max], [isNaN] *)

Definition decimal (z : Z) : string :=
  DecimalString.NilZero.string_of_int (Z.to_int z).

(** [Number::toString] on an integer.  A double of magnitude at most
    2^53 prints its digits.  A larger one prints the shortest decimal
    that reads back as the same double, and of several the closest: in
    full while that decimal is below 10^21 (zeros stand for the digits
    after its last), and in exponent form from 10^21 on.  An integer
    that no double holds is not a Number: the search finds no shorter
    decimal for it and it is printed as it is. *)

(** The double nearest to a natural number: 53 significant bits, and a
    tie goes to the even one. *)
Definition roundToDouble (n : Z) : Z :=
  let b := Z.log2 n in
  if b <? 53 then n
  else
    let sh := b - 52 in
    let q := n / 2 ^ sh in
    let r := n mod 2 ^ sh in
    let half := 2 ^ (sh - 1) in
    if (half <? r) || ((r =? half) && Z.odd q) then (q + 1) * 2 ^ sh else q * 2 ^ sh.

Definition digitCount (n : Z) : Z := Z.of_nat (String.length (decimal n)).

(** The two multiples of 10^(digits - k) around [v] are the decimals of
    [k] digits nearest to it; the search takes the first [k] at which
    one of them reads back as [v].  Seventeen digits are enough for
    every double. *)
Fixpoint shortestFrom (fuel : nat) (k : Z) (v : Z) : Z :=
  match fuel with
  | O => v
  | S fuel' =>
      let unit := 10 ^ (digitCount v - k) in
      let lo := v / unit * unit in
      let hi := lo + unit in
      match roundToDouble lo =? v, roundToDouble hi =? v with
      | true, true =>
          if v - lo <? hi - v then lo
          else if hi - v <? v - lo then hi
          else if Z.even (lo / unit) then lo else hi
      | true, false => lo
      | false, true => hi
      | false, false => shortestFrom fuel' (k + 1) v
      end
  end.

Definition shortestDecimal (v : Z) : Z := shortestFrom 17 1 v.

Fixpoint stripTrailingZeros (s : string) : string :=
  match s with
  | EmptyString => EmptyString
  | String c rest =>
      match stripTrailingZeros rest with
      | EmptyString => if Ascii.eqb c "0" then EmptyString else String c EmptyString
      | rest' => String c rest'
      end
  end.

(** [d.ddde+n]: the digits up to the last that is not zero, and the
    exponent of the first. *)
Definition exponentForm (c : Z) : string :=
  let digits := decimal c in
  match stripTrailingZeros digits with
  | String d EmptyString => String d EmptyString
  | String d rest => String d (String "." rest)
  | EmptyString => EmptyString
  end ++ "e+" ++ decimal (Z.of_nat (String.length digits) - 1).

Definition numberToString (z : Z) : string :=
  if Z.abs z <=? 2 ^ 53 then decimal z
  else
    let c := shortestDecimal (Z.abs z) in
    if c <? 10 ^ 21 then decimal (Z.sgn z * c)
    else (if z <? 0 then "-" else "") ++ exponentForm c.

Definition ToString (v : JsValue) : string :=
  match v with
  | JUndefined => "undefined"
  | JNull => "null"
  | JBool true => "true"
  | JBool false => "false"
  | JNumber NaN => "NaN"
  | JNumber (Infinity false) => "Infinity"
  | JNumber (Infinity true) => "-Infinity"
  | JNumber (Int z) => numberToString z
  | JString s => s
  end.

(** [StrWhiteSpaceChar] below U+0100: TAB, LF, VT, FF, CR, SP and the
    no-break space U+00A0. *)
Definition isWhiteSpace (c : ascii) : bool :=
  let n := nat_of_ascii c in
  (Nat.leb 9 n && Nat.leb n 13) || Nat.eqb n 32 || Nat.eqb n 160.

Fixpoint trimStart (s : string) : string :=
  match s with
  | String c s' => if isWhiteSpace c then trimStart s' else s
  | EmptyString => EmptyString
  end.

Definition digitValue (c : ascii) : option Z :=
  let n := nat_of_ascii c in
  if Nat.leb 48 n && Nat.leb n 57 then Some (Z.of_nat n - 48) else None.

(** The value of the longest prefix of decimal digits; [None] when there
    is no digit. *)
Fixpoint leadingDigits (s : string) (acc : option Z) : option Z :=
  match s with
  | String c s' =>
      match digitValue c with
      | Some d => leadingDigits s' (Some (10 * default 0 acc + d))
      | None => acc
      end
  | EmptyString => acc
  end.

(** [parseInt] on the string form of its argument, radix 10: leading
    white space, an optional sign, then the longest run of digits; [NaN]
    when there is none.  The result is the mathematical integer read;
    where JavaScript would round it to a double (beyond 2^53) the
    helper's clamp gives the same number either way. *)
Definition parseIntOfString (inputString : string) : JsNumber :=
  let str := trimStart inputString in
  let '(sign, str) :=
    match str with
    | String "-" rest => (-1, rest)
    | String "+" rest => (1, rest)
    | _ => (1, str)
    end in
  match leadingDigits str None with
  | None => NaN
  | Some m => Int (sign * m)
  end.

(** [parseInt(v, 10)] *)
Definition parseInt (v : JsValue) : JsNumber := parseIntOfString (ToString v).

Definition Math_min (a b : JsNumber) : JsNumber :=
  match a, b with
  | NaN, _ | _, NaN => NaN
  | Infinity true, _ | _, Infinity true => Infinity true
  | Infinity false, x | x, Infinity false => x
  | Int x, Int y => Int (Z.min x y)
  end.

Definition Math_max (a b : JsNumber) : JsNumber :=
  match a, b with
  | NaN, _ | _, NaN => NaN
  | Infinity false, _ | _, Infinity false => Infinity false
  | Infinity true, x | x, Infinity true => x
  | Int x, Int y => Int (Z.max x y)
  end.

Definition isNaN (n : JsNumber) : bool :=
  match n with NaN => true | _ => false end.

Definition handleSetVolume (groupId : string) (volume : JsValue) : M unit :=
  s ← get;
  match getProperty (groupsById s) groupId with
  | Undefined => Log LError (MsgGroupNotFound groupId)
  | found =>
      let volume := Math_max (Int 0) (Math_min (Int 100) (parseInt volume)) in
      if isNaN volume then
        Log LError MsgInvalidVolume
      else
        match found with
        | OwnProperty group =>
            sonos ← CoordinatorDevice group;
            emit (EDeviceCall sonos (setVolume volume) None)
        | _ => emit (EThrow TypeError)
        end
  end.

(** ** Hybrid start-up: [setListenersHybrid] *)

Definition initialHealth : Health :=
  {| device := None; playState := "unknown"; consecutiveFailures := 0;
     lastTrack := None; lastVolume := None; lastMuted := None |}.

(** [this.groupHealth[group.ID] = { ... }]: a new record object. *)
Definition initGroupHealth (group : Group) : M unit :=
  l ← fresh;
  modify (λ s, set_heap (<[l := initialHealth]> (heap s)) s) ;;
  modify (λ s, set_groupHealth (<[ID group := l]> (groupHealth s)) s).

Definition subscribeGroup (group : Group) : M (Group * Device) :=
  Log LLog (MsgRegisteringHybrid (Name group) (host group)) ;;
  dev ← CoordinatorDevice group;
  emit (ESubscribeTo dev) ;;
  mret (group, dev).

(** [setListenersHybrid], up to the point where every subscription is
    in flight. *)
Definition setListenersHybrid (gs : list Group) : M (list (Group * Device)) :=
  modify (set_groups gs) ;;
  s ← get;
  forEach removeDeviceListeners (subscribedDevices s) ;;
  modify (set_subscribedDevices []) ;;
  match pollTimeout s with
  | Some t => emit (EClearTimeout t) ;; modify (set_pollTimeout None)
  | None => skip
  end ;;
  modify (set_groupHealth ∅) ;;
  forEach initGroupHealth gs ;;
  mapM subscribeGroup gs.

(** The continuation of one group's [subscribeTo]: on success the handle
    is stored in the group's record and the handlers are attached; when
    the record is gone the assignment throws and the [catch] logs. *)
Definition subscribed_then (group : Group) (dev : Device) : M unit :=
  debugLog (MsgSubscriptionCreated (Name group)) ;;
  s ← get;
  match groupHealth s !! ID group with
  | Some l => updHealth l (set_device (Some dev)) ;; attachEventHandlers group dev
  | None => Log LError (MsgSubscribeFailed (Name group))
  end.

Definition subscribed_catch (group : Group) : M unit :=
  Log LError (MsgSubscribeFailed (Name group)).

(** The continuation of [Promise.allSettled(subscribePromises)]. *)
Definition hybridStarted : M unit :=
  s ← get;
  let playingInterval := nullish_default (config s ≫= cfg_pollingIntervalPlaying) 15000 in
  let idleInterval := nullish_default (config s ≫= cfg_pollingIntervalIdle) 60000 in
  (if playingInterval =? 0 then
     Log LLog MsgHybridPollingDisabled
   else
     Log LLog (MsgHybridAdaptivePolling playingInterval idleInterval) ;;
     schedulePoll) ;;
  startSubscriptionHealthCheck.

(** * The rest of the helper

    Start-up and shutdown, discovery with its retries, the selection of
    groups by room, the first fetch of every group, and the polling-only
    and events-only modes.  These methods use fields and calls the
    hybrid part does not: the remaining keys of the configuration, the
    interval timers and failure counts of polling-only mode and the
    variables its timer callbacks close over.  [Helper] adds them to
    [State]; a computation of the hybrid part runs on it through
    [lift], and its effects appear wrapped in [Core]. *)

(** ** Data *)

(** A member of a zone group; [ZoneName] may be missing. *)
Record ZoneMember := mkZoneMember { ZoneName : option string }.

(** A group as [getAllGroups()] delivers it: the fields of [Group] and
    the list of members. *)
Record ZoneGroup := mkZoneGroup { zg_group : Group; ZoneGroupMember : list ZoneMember }.

(** The keys of the [SONOS_START] payload that [Config] does not hold.
    [rooms] is an array or missing. *)
Record Settings := mkSettings {
  cfg_rooms : option (list JsValue);
  cfg_listenWithPolling : bool;
  cfg_hybridMode : bool;
  cfg_pollingTime : option Z
}.

(** The variables [lastTrack], [lastVolume], [lastMute] and [lastState]
    that one group's interval callback closes over.  [lastMute] holds
    the strings 'muted' and 'unmuted'. *)
Record PollCell := mkPollCell {
  c_lastTrack : option Track;
  c_lastVolume : option Z;
  c_lastMute : option string;
  c_lastState : option string
}.

Definition emptyCell : PollCell := mkPollCell None None None None.

Definition set_c_lastTrack (v : option Track) (c : PollCell) : PollCell :=
  mkPollCell v (c_lastVolume c) (c_lastMute c) (c_lastState c).
Definition set_c_lastVolume (v : option Z) (c : PollCell) : PollCell :=
  mkPollCell (c_lastTrack c) v (c_lastMute c) (c_lastState c).
Definition set_c_lastMute (v : option string) (c : PollCell) : PollCell :=
  mkPollCell (c_lastTrack c) (c_lastVolume c) v (c_lastState c).
Definition set_c_lastState (v : option string) (c : PollCell) : PollCell :=
  mkPollCell (c_lastTrack c) (c_lastVolume c) (c_lastMute c) v.

(** What the interval callback of polling-only mode closes over. *)
Record PollingClosure := mkPollingClosure {
  pc_group : Group;
  pc_sonos : Device;
  pc_cell : loc;
  pc_maxFailures : Z;
  pc_apiTimeout : option Z
}.

(** One entry of the [SET_SONOS_GROUPS] payload. *)
Record Item := mkItem {
  it_group : ZoneGroup;
  it_track : option Track;
  it_state : string;
  it_volume : Z;
  it_isMuted : bool
}.

(** ** Trace *)

(** The two events of the listener singleton the helper handles. *)
Inductive ListenerEvent := ZonesChanged | ListenerFailure.

(** The callbacks handed to [setTimeout] and [setInterval] outside the
    hybrid part: the retry of a failed discovery, the retry after
    [setGroups] failed, and the poll of polling-only mode. *)
Inductive HelperCallback :=
| RetryDiscovery (attempts : Z)
| RediscoverGroups
| PollingTick (c : PollingClosure).

Inductive HelperMsg :=
| HMsgListenerError
| HMsgStoppedListeners
| HMsgStopListenersFailed
| HMsgUnsupported (id : string)
| HMsgZonesChanged
| HMsgGetGroupsFailed (seconds : Z)
| HMsgFetchFailed (op : DeviceOp) (g : string)
| HMsgAllGroupsFailed
| HMsgNoValidGroups
| HMsgPollingMode
| HMsgHybridMode
| HMsgEventsMode
| HMsgSetGroupsError
| HMsgRegisteringPolling (g : string) (h : string)
| HMsgAllPollingFailed (g : string) (count : JsNumber) (maxFailures : Z)
| HMsgMaxFailuresReached (g : string)
| HMsgTrackChanged (g : string) (h : string) (t : string) (a : string)
| HMsgTrackFailed (g : string)
| HMsgVolumeChanged (g : string) (h : string) (v : Z)
| HMsgVolumeFailed (g : string)
| HMsgMuteChanged (g : string) (h : string) (label : string)
| HMsgMuteFailed (g : string)
| HMsgStateChanged (g : string) (h : string) (st : string)
| HMsgStateFailed (g : string)
| HMsgPollingRediscovery
| HMsgRegisteringListeners (g : string) (h : string)
| HMsgDeviceError (g : string) (h : string).

Inductive Output :=
| Core (e : Effect)
| OSetTimeout (t : TimerId) (cb : HelperCallback) (ms : Z)
| OSetInterval (t : TimerId) (cb : HelperCallback) (ms : option Z)
| OListenerRemoveAllListeners (e : ListenerEvent)
| OListenerOn (e : ListenerEvent)
| ODiscover (deadline : option Z)
| OListenerSubscribeTo (d : Device) (deadline : option Z)
| OGetAllGroups (d : Device) (deadline : option Z)
| OOn (d : Device) (e : EventName) (g : Group)
| OSendGroups (items : gmap string Item)
| OLog (lvl : LogLevel) (m : HelperMsg).

(** ** State *)

Record Helper := mkHelper {
  core : State;
  settings : Settings;
  pollingIntervals : list TimerId;
  pollingFailureCounts : gmap string JsNumber;
  (* the closure variables of the interval callbacks, by identity *)
  cells : gmap loc PollCell
}.

Definition set_core (v : State) (h : Helper) : Helper :=
  mkHelper v (settings h) (pollingIntervals h) (pollingFailureCounts h) (cells h).
Definition set_settings (v : Settings) (h : Helper) : Helper :=
  mkHelper (core h) v (pollingIntervals h) (pollingFailureCounts h) (cells h).
Definition set_pollingIntervals (v : list TimerId) (h : Helper) : Helper :=
  mkHelper (core h) (settings h) v (pollingFailureCounts h) (cells h).
Definition set_pollingFailureCounts (v : gmap string JsNumber) (h : Helper) : Helper :=
  mkHelper (core h) (settings h) (pollingIntervals h) v (cells h).
Definition set_cells (v : gmap loc PollCell) (h : Helper) : Helper :=
  mkHelper (core h) (settings h) (pollingIntervals h) (pollingFailureCounts h) v.

Definition set_debug (v : bool) (s : State) : State :=
  mkState (config s) v (asyncDevice s) (subscribedDevices s) (groupsById s) (groups s)
    (groupHealth s) (subscriptionCheckTimer s) (pollTimeout s) (isRediscovering s)
    (listening s) (deviceSubscriptions s) (heap s) (nextObj s).
Definition set_groupsById (v : gmap string Group) (s : State) : State :=
  mkState (config s) (debug s) (asyncDevice s) (subscribedDevices s) v (groups s)
    (groupHealth s) (subscriptionCheckTimer s) (pollTimeout s) (isRediscovering s)
    (listening s) (deviceSubscriptions s) (heap s) (nextObj s).

(** ** The monad on [Helper] *)

Definition N (A : Type) : Type := Helper → A * Helper * list Output.

Definition resultH {A} (r : A * Helper * list Output) : A := r.1.1.
Definition finalH {A} (r : A * Helper * list Output) : Helper := r.1.2.
Definition traceH {A} (r : A * Helper * list Output) : list Output := r.2.

#[global] Instance N_ret : MRet N := λ A a h, (a, h, []).
#[global] Instance N_bind : MBind N := λ A B f m h,
  let '(a, h1, t1) := m h in
  let '(b, h2, t2) := f a h1 in
  (b, h2, t1 ++ t2).

Definition getH : N Helper := λ h, (h, h, []).
Definition modifyH (f : Helper → Helper) : N unit := λ h, (tt, f h, []).
Definition out (o : Output) : N unit := λ h, (tt, h, [o]).
Definition skipH : N unit := mret tt.

(** A computation of the hybrid part, run on the helper. *)
Definition lift {A} (m : M A) : N A := λ h,
  let '(a, s, t) := m (core h) in (a, set_core s h, Core <$> t).

Fixpoint forEachH {A} (f : A → N unit) (xs : list A) : N unit :=
  match xs with
  | [] => skipH
  | x :: xs' => f x ;; forEachH f xs'
  end.

Fixpoint mapMH {A B} (f : A → N B) (xs : list A) : N (list B) :=
  match xs with
  | [] => mret []
  | x :: xs' => y ← f x; ys ← mapMH f xs'; mret (y :: ys)
  end.

Definition logH (lvl : LogLevel) (m : HelperMsg) : N unit := out (OLog lvl m).

Definition debugLogH (m : HelperMsg) : N unit :=
  h ← getH;
  if debug (core h) then logH LDebug m else skipH.

(** [this.config?.timeouts || DEFAULT_TIMEOUTS] *)
Definition helperTimeouts (h : Helper) : Timeouts :=
  default DEFAULT_TIMEOUTS (config (core h) ≫= cfg_timeouts).

(** ** [init] and the listener's error handler *)

Definition init : N unit :=
  out (OListenerRemoveAllListeners ListenerFailure) ;;
  out (OListenerOn ListenerFailure).

Definition onListenerFailure : N unit :=
  logH LError HMsgListenerError ;;
  lift handleListenerError.

(** ** [stop] *)

(** The three lines that [stop], [setListenersPolling] and
    [triggerPollingRediscovery] share: every polling interval is
    cleared, and the list and the failure counts are replaced by empty
    ones. *)
Definition clearPollingIntervals : N unit :=
  h ← getH;
  forEachH (λ id, out (Core (EClearInterval id))) (pollingIntervals h) ;;
  modifyH (set_pollingIntervals []) ;;
  modifyH (set_pollingFailureCounts ∅).

Definition stop : N unit :=
  lift (modify (set_isRediscovering false)) ;;
  h ← getH;
  lift (match subscriptionCheckTimer (core h) with
        | Some t => emit (EClearInterval t) ;; modify (set_subscriptionCheckTimer None)
        | None => skip
        end) ;;
  lift (match pollTimeout (core h) with
        | Some t => emit (EClearTimeout t) ;; modify (set_pollTimeout None)
        | None => skip
        end) ;;
  clearPollingIntervals ;;
  lift (modify (set_groupHealth ∅)) ;;
  lift (modify (set_groups [])) ;;
  lift (forEach removeDeviceListeners (subscribedDevices (core h))) ;;
  lift (modify (set_subscribedDevices [])) ;;
  if listening (core h) then out (Core EStopListener) else skipH.

(** The continuations of [listener.stopListener()] in [stop] and in the
    [catch] of [discoverGroups]. *)
Definition stopListener_then : N unit := debugLogH HMsgStoppedListeners.
Definition stopListener_catch : N unit := logH LError HMsgStopListenersFailed.

(** ** Discovery: [discoverGroups] *)

(** What the continuations of one call of [discoverGroups] close over. *)
Record PendingDiscovery := mkPendingDiscovery {
  pd_attempts : Z;
  pd_timeouts : Timeouts
}.

(** [discoverGroups], up to the point where its continuations are
    attached to [this.asyncDevice]. *)
Definition discoverGroups (attempts : Z) : N PendingDiscovery :=
  h ← getH;
  let timeouts := helperTimeouts h in
  (if asyncDevice (core h) then skipH
   else
     out (ODiscover (t_discovery timeouts)) ;;
     lift (modify (set_asyncDevice true))) ;;
  mret (mkPendingDiscovery attempts timeouts).

(** The continuation of the discovery itself, run once per discovery
    when a device was found. *)
Definition discovered_then (timeouts : Timeouts) (device : Device) : N unit :=
  out (OListenerRemoveAllListeners ZonesChanged) ;;
  out (OListenerOn ZonesChanged) ;;
  out (OListenerSubscribeTo device (t_subscribe timeouts)).

Definition onZonesChanged : N PendingDiscovery :=
  logH LLog HMsgZonesChanged ;;
  discoverGroups 0.

(** The first continuation of a call: the device is there. *)
Definition asyncDevice_then (p : PendingDiscovery) (device : Device) : N unit :=
  out (OGetAllGroups device (t_getAllGroups (pd_timeouts p))).

(** The [catch] of a call: anything before it rejected, timed out or
    threw. *)
Definition discoverGroups_catch (p : PendingDiscovery) : N unit :=
  let attempts := pd_attempts p + 1 in
  let timeout := Z.min (attempts ^ 2) 30 in
  logH LError (HMsgGetGroupsFailed timeout) ;;
  h ← getH;
  (if listening (core h) then out (Core EStopListener) else skipH) ;;
  lift (modify (set_asyncDevice false)) ;;
  t ← lift fresh;
  out (OSetTimeout t (RetryDiscovery attempts) (timeout * 1000)).

(** The bodies of the timers: the retry set by the [catch], the retry
    set when [setGroups] failed, and the restart set by a teardown
    ([RestartDiscovery], which the hybrid part leaves as a call). *)
Definition retryDiscovery (attempts : Z) : N PendingDiscovery := discoverGroups attempts.

Definition rediscoverGroups : N PendingDiscovery := discoverGroups 0.

Definition restartDiscoveryH : N PendingDiscovery :=
  lift (modify (set_isRediscovering false)) ;;
  discoverGroups 0.

(** ** Selection by room: [shouldIncludeGroup] *)

(** The capital letters below U+0100: A to Z, and À to Þ without the
    multiplication sign U+00D7. *)
Definition isCapital (c : ascii) : bool :=
  let n := nat_of_ascii c in
  (Nat.leb 65 n && Nat.leb n 90) ||
  (Nat.leb 192 n && Nat.leb n 222 && negb (Nat.eqb n 215)).

(** [toLowerCase] on one code unit: the small letter of a capital is 32
    places on; every other code unit below U+0100 is kept (ß, ÿ and µ
    are small letters already). *)
Definition lowerCodeUnit (c : ascii) : ascii :=
  if isCapital c then ascii_of_nat (nat_of_ascii c + 32) else c.

Fixpoint toLowerCase (s : string) : string :=
  match s with
  | EmptyString => EmptyString
  | String c s' => String (lowerCodeUnit c) (toLowerCase s')
  end.

(** [m.ZoneName] as a condition: a missing or empty name is falsy. *)
Definition namedZone (m : ZoneMember) : option string :=
  match ZoneName m with
  | Some EmptyString => None
  | Some name => Some name
  | None => None
  end.

(** [typeof r === 'string'] *)
Definition stringRoom (r : JsValue) : option string :=
  match r with JString s => Some s | _ => None end.

Definition shouldIncludeGroup (group : ZoneGroup) (rooms : option (list JsValue)) : bool :=
  match rooms with
  | None | Some [] => true
  | Some rooms =>
      let zoneNames := toLowerCase <$> omap namedZone (ZoneGroupMember group) in
      let normalizedRooms := toLowerCase <$> omap stringRoom rooms in
      existsb (λ zone, existsb (String.eqb zone) normalizedRooms) zoneNames
  end.

(** ** Polling-only mode: [setListenersPolling] *)

Definition getCell (l : loc) : N PollCell :=
  h ← getH; mret (default emptyCell (cells h !! l)).

Definition updCell (l : loc) (f : PollCell → PollCell) : N unit :=
  modifyH (λ h, set_cells (alter f l (cells h)) h).

(** [x++] on a property that may be missing, and [x >= n]. *)
Definition js_incr (x : option JsNumber) : JsNumber :=
  match x with
  | Some (Int z) => Int (z + 1)
  | Some (Infinity b) => Infinity b
  | Some NaN | None => NaN
  end.

Definition js_ge (x : JsNumber) (n : Z) : bool :=
  match x with
  | Int z => z >=? n
  | Infinity negative => negb negative
  | NaN => false
  end.

Definition triggerPollingRediscovery : N unit :=
  h ← getH;
  if isRediscovering (core h) then
    lift (debugLog MsgRediscoveryInProgress)
  else
    lift (modify (set_isRediscovering true)) ;;
    logH LWarn HMsgPollingRediscovery ;;
    clearPollingIntervals ;;
    lift (modify (set_asyncDevice false)) ;;
    (if listening (core h) then out (Core EStopListener) else skipH) ;;
    lift (setTimeout RestartDiscovery 5000) ;;
    skipH.

(** The body of [groups.forEach] in [setListenersPolling]. *)
Definition registerPolling (maxFailures : Z) (apiTimeout pollingTimeout : option Z)
    (group : Group) : N unit :=
  logH LLog (HMsgRegisteringPolling (Name group) (host group)) ;;
  sonos ← lift (CoordinatorDevice group);
  cell ← lift fresh;
  modifyH (λ h, set_cells (<[cell := emptyCell]> (cells h)) h) ;;
  modifyH (λ h, set_pollingFailureCounts
                  (<[ID group := Int 0]> (pollingFailureCounts h)) h) ;;
  intervalId ← lift fresh;
  out (OSetInterval intervalId
         (PollingTick (mkPollingClosure group sonos cell maxFailures apiTimeout))
         pollingTimeout) ;;
  modifyH (λ h, set_pollingIntervals (pollingIntervals h ++ [intervalId]) h).

Definition setListenersPolling (groups : list Group) (pollingTimeout : option Z) : N unit :=
  clearPollingIntervals ;;
  h ← getH;
  forEachH (registerPolling (maxFailures (core h)) (apiTimeout (core h)) pollingTimeout)
    groups.

(** The body of the interval timer, up to the point where the four
    fetches are in flight. *)
Definition pollingTick (c : PollingClosure) : N unit :=
  let deadline := Some (pc_apiTimeout c) in
  out (Core (EDeviceCall (pc_sonos c) currentTrack deadline)) ;;
  out (Core (EDeviceCall (pc_sonos c) getVolume deadline)) ;;
  out (Core (EDeviceCall (pc_sonos c) getMuted deadline)) ;;
  out (Core (EDeviceCall (pc_sonos c) getCurrentState deadline)).

(** [results.filter(r => r.status === 'rejected').length] *)
Definition failedCount (r : PollResults) : nat :=
  length (List.filter negb [fulfilled (r_track r); fulfilled (r_volume r);
                            fulfilled (r_muted r); fulfilled (r_state r)]).

(** The part of the continuation that handles the track.  The result
    is [false] when it threw: a fulfilled fetch whose value is [null]
    makes [track.title] throw before anything is logged or sent. *)
Definition pollingTrack (c : PollingClosure) (r : Settled (option Track)) : N bool :=
  let group := pc_group c in
  match r with
  | Fulfilled None => mret false
  | Fulfilled (Some track) =>
      cell ← getCell (pc_cell c);
      (if trackChanged (c_lastTrack cell) track then
         logH LLog (HMsgTrackChanged (Name group) (host group) (title track) (artist track)) ;;
         updCell (pc_cell c) (set_c_lastTrack (Some track)) ;;
         out (Core (ESendSocketNotification (SET_SONOS_CURRENT_TRACK group track)))
       else skipH) ;;
      mret true
  | Rejected => logH LError (HMsgTrackFailed (Name group)) ;; mret true
  end.

Definition pollingVolume (c : PollingClosure) (r : Settled Z) : N unit :=
  let group := pc_group c in
  match r with
  | Fulfilled volume =>
      cell ← getCell (pc_cell c);
      if negb (bool_decide (c_lastVolume cell = Some volume)) then
        debugLogH (HMsgVolumeChanged (Name group) (host group) volume) ;;
        updCell (pc_cell c) (set_c_lastVolume (Some volume)) ;;
        out (Core (ESendSocketNotification (SET_SONOS_VOLUME group volume)))
      else skipH
  | Rejected => logH LError (HMsgVolumeFailed (Name group))
  end.

Definition muteLabel (isMuted : bool) : string :=
  if isMuted then "muted" else "unmuted".

Definition pollingMute (c : PollingClosure) (r : Settled bool) : N unit :=
  let group := pc_group c in
  match r with
  | Fulfilled isMuted =>
      let currentIsMuted := muteLabel isMuted in
      cell ← getCell (pc_cell c);
      if negb (bool_decide (c_lastMute cell = Some currentIsMuted)) then
        debugLogH (HMsgMuteChanged (Name group) (host group) currentIsMuted) ;;
        updCell (pc_cell c) (set_c_lastMute (Some currentIsMuted)) ;;
        out (Core (ESendSocketNotification (SET_SONOS_MUTE group isMuted)))
      else skipH
  | Rejected => logH LError (HMsgMuteFailed (Name group))
  end.

Definition pollingState (c : PollingClosure) (r : Settled string) : N unit :=
  let group := pc_group c in
  match r with
  | Fulfilled state =>
      cell ← getCell (pc_cell c);
      if negb (bool_decide (c_lastState cell = Some state)) then
        logH LLog (HMsgStateChanged (Name group) (host group) state) ;;
        updCell (pc_cell c) (set_c_lastState (Some state)) ;;
        out (Core (ESendSocketNotification (SET_SONOS_PLAY_STATE group state)))
      else skipH
  | Rejected => logH LError (HMsgStateFailed (Name group))
  end.

(** The failure count of the tick.  The result is [false] when the
    callback returns after [triggerPollingRediscovery]. *)
Definition pollingCount (c : PollingClosure) (results : PollResults) : N bool :=
  let group := pc_group c in
  if Nat.eqb (failedCount results) 4 then
    h ← getH;
    let count := js_incr (pollingFailureCounts h !! ID group) in
    modifyH (set_pollingFailureCounts (<[ID group := count]> (pollingFailureCounts h))) ;;
    logH LError (HMsgAllPollingFailed (Name group) count (pc_maxFailures c)) ;;
    if js_ge count (pc_maxFailures c) then
      logH LError (HMsgMaxFailuresReached (Name group)) ;;
      triggerPollingRediscovery ;;
      mret false
    else mret true
  else
    modifyH (λ h, set_pollingFailureCounts
                    (<[ID group := Int 0]> (pollingFailureCounts h)) h) ;;
    mret true.

(** The continuation of the tick, run when all four fetches have
    settled. *)
Definition pollingTick_then (c : PollingClosure) (results : PollResults) : N unit :=
  proceed ← pollingCount c results;
  if (proceed : bool) then
    handled ← pollingTrack c (r_track results);
    if (handled : bool) then
      pollingVolume c (r_volume results) ;;
      pollingMute c (r_muted results) ;;
      pollingState c (r_state results)
    else skipH
  else skipH.

(** ** Events-only mode: [setListeners] *)

Definition subscribeGroupEvents (group : Group) : N (Group * Device) :=
  logH LLog (HMsgRegisteringListeners (Name group) (host group)) ;;
  sonos ← lift (CoordinatorDevice group);
  out (Core (ESubscribeTo sonos)) ;;
  mret (group, sonos).

(** [setListeners], up to the point where every subscription is in
    flight. *)
Definition setListeners (groups : list Group) : N (list (Group * Device)) :=
  h ← getH;
  lift (forEach removeDeviceListeners (subscribedDevices (core h))) ;;
  lift (modify (set_subscribedDevices [])) ;;
  mapMH subscribeGroupEvents groups.

(** The continuations of one group's [subscribeTo]. *)
Definition eventsSubscribed_then (group : Group) (sonos : Device) : N unit :=
  lift (modify (λ s, set_subscribedDevices (subscribedDevices s ++ [sonos]) s)) ;;
  lift (debugLog (MsgSubscriptionCreated (Name group))) ;;
  out (OOn sonos ErrorEvent group) ;;
  out (OOn sonos CurrentTrack group) ;;
  out (OOn sonos Volume group) ;;
  out (OOn sonos Muted group) ;;
  out (OOn sonos PlayState group).

Definition eventsSubscribed_catch (group : Group) : N unit :=
  lift (Log LError (MsgSubscribeFailed (Name group))).

(** The handlers [setListeners] registers. *)
Definition eventsOnError (group : Group) : N unit :=
  logH LError (HMsgDeviceError (Name group) (host group)).

Definition eventsOnCurrentTrack (group : Group) (track : Track) : N unit :=
  logH LLog (HMsgTrackChanged (Name group) (host group) (title track) (artist track)) ;;
  out (Core (ESendSocketNotification (SET_SONOS_CURRENT_TRACK group track))).

Definition eventsOnVolume (group : Group) (volume : Z) : N unit :=
  debugLogH (HMsgVolumeChanged (Name group) (host group) volume) ;;
  out (Core (ESendSocketNotification (SET_SONOS_VOLUME group volume))).

Definition eventsOnMuted (group : Group) (isMuted : bool) : N unit :=
  debugLogH (HMsgMuteChanged (Name group) (host group) (muteLabel isMuted)) ;;
  out (Core (ESendSocketNotification (SET_SONOS_MUTE group isMuted))).

Definition eventsOnPlayState (group : Group) (state : string) : N unit :=
  logH LLog (HMsgStateChanged (Name group) (host group) state) ;;
  out (Core (ESendSocketNotification (SET_SONOS_PLAY_STATE group state))).

(** ** The first fetch: [setGroups] *)

(** A group whose four fetches are in flight. *)
Record GroupFetch := mkGroupFetch { gf_group : ZoneGroup; gf_sonos : Device }.

Definition fetchGroup (apiTimeout : option Z) (group : ZoneGroup) : N GroupFetch :=
  sonos ← lift (CoordinatorDevice (zg_group group));
  out (Core (EDeviceCall sonos currentTrack (Some apiTimeout))) ;;
  out (Core (EDeviceCall sonos getCurrentState (Some apiTimeout))) ;;
  out (Core (EDeviceCall sonos getVolume (Some apiTimeout))) ;;
  out (Core (EDeviceCall sonos getMuted (Some apiTimeout))) ;;
  mret (mkGroupFetch group sonos).

(** [setGroups], up to the point where the fetches of every selected
    group are in flight.  The result is [None] when it threw: with no
    configuration, reading [this.config.rooms] for the first group
    throws. *)
Definition setGroups (groups : list ZoneGroup) : N (option (list GroupFetch)) :=
  h ← getH;
  match groups, config (core h) with
  | _ :: _, None => mret None
  | _, _ =>
      let filteredGroups :=
        List.filter (λ group, shouldIncludeGroup group (cfg_rooms (settings h))) groups in
      let apiTimeout := t_apiCall (helperTimeouts h) in
      fetches ← mapMH (fetchGroup apiTimeout) filteredGroups;
      mret (Some fetches)
  end.

Definition settledOr {A} (r : Settled A) (d : A) : A :=
  match r with Fulfilled value => value | Rejected => d end.

Definition logRejected {A} (r : Settled A) (op : DeviceOp) (group : Group) : N unit :=
  match r with
  | Rejected => logH LError (HMsgFetchFailed op (Name group))
  | Fulfilled _ => skipH
  end.

(** The continuation of one group's fetches: the item, with the
    defaults for what failed. *)
Definition groupFetched (f : GroupFetch) (results : PollResults) : N Item :=
  let group := zg_group (gf_group f) in
  logRejected (r_track results) currentTrack group ;;
  logRejected (r_state results) getCurrentState group ;;
  logRejected (r_volume results) getVolume group ;;
  logRejected (r_muted results) getMuted group ;;
  mret {| it_group := gf_group f;
          it_track := settledOr (r_track results) None;
          it_state := settledOr (r_state results) "unknown";
          it_volume := settledOr (r_volume results) 0;
          it_isMuted := settledOr (r_muted results) false |}.

Definition itemId (item : Item) : string := ID (zg_group (it_group item)).

(** The continuation of all items.  The result is [None] when it
    threw. *)
Definition groupsFetched (items : list Item) : N (option (list Item)) :=
  let validItems := List.filter (λ item, bool_decide (is_Some (it_track item))) items in
  if Nat.eqb (length validItems) 0 && Nat.ltb 0 (length items) then
    logH LWarn HMsgAllGroupsFailed ;;
    mret None
  else
    lift (modify (set_groupsById
            (foldl (λ map item, <[itemId item := zg_group (it_group item)]> map)
               ∅ validItems))) ;;
    out (OSendGroups (foldl (λ map item, <[itemId item := item]> map) ∅ validItems)) ;;
    mret (Some validItems).

(** What [setGroups] started in the end. *)
Inductive Started :=
| StartedNothing
| StartedPolling
| StartedHybrid (subs : list (Group * Device))
| StartedEvents (subs : list (Group * Device)).

(** The continuation on the valid items: the mode. *)
Definition startListening (validGroups : list Item) : N Started :=
  if Nat.eqb (length validGroups) 0 then
    logH LWarn HMsgNoValidGroups ;;
    mret StartedNothing
  else
    h ← getH;
    let groups := (λ item, zg_group (it_group item)) <$> validGroups in
    if bool_decide (is_Some (config (core h))) && cfg_listenWithPolling (settings h) then
      logH LLog HMsgPollingMode ;;
      setListenersPolling groups (cfg_pollingTime (settings h)) ;;
      mret StartedPolling
    else if bool_decide (is_Some (config (core h))) && cfg_hybridMode (settings h) then
      logH LLog HMsgHybridMode ;;
      subs ← lift (setListenersHybrid groups);
      mret (StartedHybrid subs)
    else
      logH LLog HMsgEventsMode ;;
      subs ← setListeners groups;
      mret (StartedEvents subs).

(** The [catch] of [setGroups]. *)
Definition setGroups_catch : N unit :=
  logH LError HMsgSetGroupsError ;;
  t ← lift fresh;
  out (OSetTimeout t RediscoverGroups 10000).

(** ** [socketNotificationReceived] *)

Inductive SocketNotification :=
| SONOS_START (payload : Config) (rest : Settings)
| SONOS_TOGGLE_PLAY_PAUSE (groupId : string)
| SONOS_NEXT (groupId : string)
| SONOS_SET_VOLUME (groupId : string) (volume : JsValue)
| OtherNotification (id : string).

Definition socketNotificationReceived (n : SocketNotification)
    : N (option PendingDiscovery) :=
  match n with
  | SONOS_START payload rest =>
      lift (modify (set_config (Some payload))) ;;
      modifyH (set_settings rest) ;;
      lift (modify (set_debug (cfg_debug payload))) ;;
      p ← discoverGroups 0;
      mret (Some p)
  | SONOS_TOGGLE_PLAY_PAUSE groupId =>
      lift (handleTogglePlayPause groupId) ;; mret None
  | SONOS_NEXT groupId =>
      lift (handleNext groupId) ;; mret None
  | SONOS_SET_VOLUME groupId volume =>
      lift (handleSetVolume groupId volume) ;; mret None
  | OtherNotification id =>
      logH LLog (HMsgUnsupported id) ;; mret None
  end.

(** * Derived notions

    Definitions used to state the properties: closed forms of what the
    code computes, scenario drivers and example states. *)

(** The debug lines a state produces for a message. *)
Definition dbg (s : State) (m : LogMsg) : list Effect :=
  if debug s then [ELog LDebug m] else [].

Definition listenerRemovals (d : Device) : list Effect :=
  [ERemoveAllListeners d CurrentTrack; ERemoveAllListeners d Volume;
   ERemoveAllListeners d Muted; ERemoveAllListeners d PlayState;
   ERemoveAllListeners d ErrorEvent].

(** The state and the trace of a teardown that is not skipped. *)
Definition teardownState (s : State) : State :=
  {| config := config s; debug := debug s; asyncDevice := false;
     subscribedDevices := []; groupsById := groupsById s; groups := [];
     groupHealth := ∅; subscriptionCheckTimer := None; pollTimeout := None;
     isRediscovering := true; listening := listening s;
     deviceSubscriptions := (λ _, []) <$> deviceSubscriptions s;
     heap := heap s; nextObj := S (nextObj s) |}.

Definition teardownTrace (s : State) : list Effect :=
  ELog LWarn MsgTriggeringFullRediscovery ::
  dbg s MsgClearingHealthCheckTimer ++
  from_option (λ t, [EClearInterval t]) [] (subscriptionCheckTimer s) ++
  dbg s (MsgClearingPollTimeout (pollTimeout s)) ++
  from_option (λ t, [EClearTimeout t]) [] (pollTimeout s) ++
  dbg s MsgCleaningUp ++
  flat_map listenerRemovals (subscribedDevices s) ++
  (if listening s then [EStopListener] else []) ++
  [ESetTimeout (nextObj s) RestartDiscovery 2000].

(** The socket notifications of a trace, in order. *)
Definition notifications (tr : list Effect) : list Notification :=
  omap (λ e, match e with ESendSocketNotification n => Some n | _ => None end) tr.

(** The device calls of a trace, in order. *)
Definition deviceCalls (tr : list Effect) : list DeviceOp :=
  omap (λ e, match e with EDeviceCall _ op _ => Some op | _ => None end) tr.

Definition isLogLine (e : Effect) : bool :=
  match e with ELog _ _ => true | _ => false end.

(** The effects of a teardown: a timer cleared, listeners removed, the
    listener stopped, a timer set. *)
Definition isTeardownEffect (e : Effect) : bool :=
  match e with
  | EClearTimeout _ | EClearInterval _ | ERemoveAllListeners _ _
  | EStopListener | ESetTimeout _ _ _ | ESetInterval _ _ _ => true
  | _ => false
  end.

Definition isPollTimer (e : Effect) : bool :=
  match e with ESetTimeout _ PollTimerFired _ => true | _ => false end.

(** The state in which the record at [l] holds [h]. *)
Definition withRecord (s : State) (l : loc) (h : Health) : State :=
  set_heap (<[l := h]> (heap s)) s.

(** *** The change detector, field by field

    What the poll continuation does to a record and what it emits, as
    functions of the record alone. *)

Definition detectTrack (s : State) (g : Group) (r : Settled (option Track))
    (h : Health) : Health * list Effect :=
  match r with
  | Fulfilled (Some track) =>
      let changed := trackChanged (lastTrack h) track in
      (if changed then set_lastTrack (Some track) h else h,
       dbg s (MsgPollTrack (Name g) (title track) changed) ++
       if changed then [ESendSocketNotification (SET_SONOS_CURRENT_TRACK g track)] else [])
  | _ => (h, [])
  end.

Definition detectVolume (g : Group) (r : Settled Z) (h : Health) : Health * list Effect :=
  match r with
  | Fulfilled volume =>
      if bool_decide (lastVolume h = Some volume) then (h, [])
      else (set_lastVolume (Some volume) h,
            [ESendSocketNotification (SET_SONOS_VOLUME g volume)])
  | Rejected => (h, [])
  end.

Definition detectMuted (g : Group) (r : Settled bool) (h : Health) : Health * list Effect :=
  match r with
  | Fulfilled isMuted =>
      if bool_decide (lastMuted h = Some isMuted) then (h, [])
      else (set_lastMuted (Some isMuted) h,
            [ESendSocketNotification (SET_SONOS_MUTE g isMuted)])
  | Rejected => (h, [])
  end.

Definition detectState (g : Group) (r : Settled string) (h : Health) : Health * list Effect :=
  match r with
  | Fulfilled state =>
      if String.eqb (playState h) state then (h, [])
      else (set_playState state h,
            [ESendSocketNotification (SET_SONOS_PLAY_STATE g state)])
  | Rejected => (h, [])
  end.

Definition detectAll (s : State) (g : Group) (r : PollResults) (h : Health)
    : Health * list Effect :=
  let h0 := set_consecutiveFailures 0 h in
  let '(h1, t1) := detectTrack s g (r_track r) h0 in
  let '(h2, t2) := detectVolume g (r_volume r) h1 in
  let '(h3, t3) := detectMuted g (r_muted r) h2 in
  let '(h4, t4) := detectState g (r_state r) h3 in
  (h4,
   dbg s (MsgPollResults (Name g) (fulfilled (r_track r)) (fulfilled (r_volume r))
            (fulfilled (r_muted r)) (fulfilled (r_state r))) ++ t1 ++ t2 ++ t3 ++ t4).

(** The four fields of an observation, and the notifications of a trace
    that report a given field. *)
Inductive Field := FTrack | FVolume | FMuted | FState.

Definition reports (f : Field) (n : Notification) : bool :=
  match f, n with
  | FTrack, SET_SONOS_CURRENT_TRACK _ _
  | FVolume, SET_SONOS_VOLUME _ _
  | FMuted, SET_SONOS_MUTE _ _
  | FState, SET_SONOS_PLAY_STATE _ _ => true
  | _, _ => false
  end.

Definition fieldNotifications (f : Field) (tr : list Effect) : list Notification :=
  List.filter (reports f) (notifications tr).

(** Equality of two tracks as the poll sees it. *)
Definition sameMetadata (a b : Track) : Prop :=
  title a = title b ∧ artist a = artist b ∧ album a = album b ∧
  duration a = duration b.

(** The interval the configuration names for the playing or the idle
    case, as the specification words the delay. *)
Definition configuredInterval (playing : bool) (s : State) : option Z :=
  c ← config s;
  if playing then cfg_pollingIntervalPlaying c else cfg_pollingIntervalIdle c.

(** Some tracked group's record says it is playing. *)
Definition somePlaying (s : State) : Prop :=
  ∃ gid l h, groupHealth s !! gid = Some l ∧ heap s !! l = Some h ∧
             playState h = "playing"%string.

(** The renewals started in a trace. *)
Definition renewals (tr : list Effect) : list (Device * Group * Z) :=
  omap (λ e, match e with
             | ERenewAllSubscriptions d g dl => Some (d, g, dl)
             | _ => None
             end) tr.

(** A numeric input, in the specification's sense, to [setVolume]: a
    number other than [NaN], or a string that holds a decimal numeral (an
    optional sign, digits, an optional fraction) and nothing else. *)
Definition isDigit (c : ascii) : bool :=
  match digitValue c with Some _ => true | None => false end.

Fixpoint isNumeral (s : string) (seenDot seenDigit : bool) : bool :=
  match s with
  | EmptyString => seenDigit
  | String c rest =>
      if isDigit c then isNumeral rest seenDot true
      else if Ascii.eqb c "." && negb seenDot then isNumeral rest true seenDigit
      else false
  end.

Definition isNumeric (v : JsValue) : bool :=
  match v with
  | JNumber NaN => false
  | JNumber _ => true
  | JString (String "-" rest) | JString (String "+" rest) => isNumeral rest false false
  | JString s => isNumeral s false false
  | _ => false
  end.

(** [n] calls of [triggerRediscovery] in a row. *)
Fixpoint triggerTimes (n : nat) : M unit :=
  match n with
  | O => skip
  | S k => triggerRediscovery ;; triggerTimes k
  end.

(** The callbacks that can run between a teardown and the restart it
    scheduled: everything but the restart timer itself and the
    continuations of start-up. *)
Inductive Event :=
| ListenerError
| PollSettled (p : PendingPoll) (r : PollResults)
| PollCycleDone
| PushTrack (g : Group) (t : Track)
| PushVolume (g : Group) (v : Z)
| PushMuted (g : Group) (m : bool)
| PushState (g : Group) (st : string)
| HealthCheckTick
| RenewalSucceeded (g : Group)
| RenewalFailed (g : Group)
| TogglePlayPause (groupId : string)
| Next (groupId : string)
| SetVolume (groupId : string) (v : JsValue).

Definition handle (ev : Event) : M unit :=
  match ev with
  | ListenerError => handleListenerError
  | PollSettled p r => pollGroup_then p r
  | PollCycleDone => pollCycleFinally
  | PushTrack g t => onCurrentTrack g t
  | PushVolume g v => onVolume g v
  | PushMuted g m => onMuted g m
  | PushState g st => onPlayState g st
  | HealthCheckTick => subscriptionCheckTick
  | RenewalSucceeded g => renewal_then g
  | RenewalFailed g => renewal_catch g
  | TogglePlayPause gid => handleTogglePlayPause gid
  | Next gid => handleNext gid
  | SetVolume gid v => handleSetVolume gid v
  end.

Definition run (evs : list Event) : M unit := forEach handle evs.

(** An invariant [I] kept, and a trace predicate [T] met, by a
    computation. *)
Definition preserves {A} (I : State → Prop) (T : Effect → Prop) (m : M A) : Prop :=
  ∀ s, I s → I (final (m s)) ∧ Forall T (trace (m s)).

(** Hybrid start-up in which every subscription succeeds: the handles
    are subscribed, the listener records a subscription for each, and
    polling and the health check are started. *)
Definition startHybrid (gs : list Group) : M unit :=
  subs ← setListenersHybrid gs;
  forEach (λ gd, subscribed_then gd.1 gd.2) subs ;;
  modify (λ s, set_deviceSubscriptions
                 (Some (default [] (deviceSubscriptions s) ++ subs.*2)) s) ;;
  hybridStarted.

(** *** Example states *)

Definition kitchen : Group := mkGroup "RINCON_A" "Kitchen" "192.168.1.20".
Definition den : Group := mkGroup "RINCON_B" "Den" "192.168.1.21".

Definition exampleConfig : Config :=
  {| cfg_debug := false;
     cfg_pollingIntervalPlaying := Some 15000;
     cfg_pollingIntervalIdle := Some 60000;
     cfg_subscriptionCheckInterval := Some 300000;
     cfg_autoResubscribe := true;
     cfg_maxConsecutiveFailures := Some 3;
     cfg_timeouts := None |}.

(** After discovery, before the hybrid listeners are set. *)
Definition discovered : State :=
  {| config := Some exampleConfig; debug := false; asyncDevice := true;
     subscribedDevices := [];
     groupsById := <["RINCON_A" := kitchen]> (<["RINCON_B" := den]> ∅);
     groups := []; groupHealth := ∅;
     subscriptionCheckTimer := None; pollTimeout := None;
     isRediscovering := false; listening := true;
     deviceSubscriptions := Some []; heap := ∅; nextObj := 0 |}.

(** Both groups tracked, subscribed, polling and health check running;
    the listener holds a subscription per handle. *)
Definition tracked : State := final (startHybrid [kitchen; den] discovered).

(** [tracked] after a teardown, waiting for the restart timer. *)
Definition rediscovering : State := final (triggerRediscovery tracked).

(** The same start-up under a configuration whose idle interval is
    zero. *)
Definition zeroIdleConfig : Config :=
  {| cfg_debug := false;
     cfg_pollingIntervalPlaying := Some 15000;
     cfg_pollingIntervalIdle := Some 0;
     cfg_subscriptionCheckInterval := Some 300000;
     cfg_autoResubscribe := true;
     cfg_maxConsecutiveFailures := Some 3;
     cfg_timeouts := None |}.

Definition zeroIdle : State :=
  final (startHybrid [kitchen; den] (set_config (Some zeroIdleConfig) discovered)).

(** [tracked] after the kitchen reported that it plays. *)
Definition kitchenPlaying : State := final (onPlayState kitchen "playing" tracked).

Definition song1 : Track :=
  {| title := "Song1"; artist := "ArtistX"; album := "AlbumY"; duration := 180;
     uri := "x-sonos-spotify:track1"; position := 0 |}.

(** ** Notions for the further properties *)

(** The four fetches of a poll, in the order they are issued. *)
Definition pollFetches : list DeviceOp :=
  [currentTrack; getVolume; getMuted; getCurrentState].

(** The handlers [attachEventHandlers] registers on a handle. *)
Definition handlerRegistrations (g : Group) (d : Device) : list Effect :=
  [EOn d ErrorEvent g; EOn d CurrentTrack g; EOn d Volume g;
   EOn d Muted g; EOn d PlayState g].

(** A check of this group ends in a call of [triggerRediscovery]: no
    handle is stored, or the listener holds no subscription for it. *)
Definition checkEscalates (s : State) (g : Group) : Prop :=
  ∀ dev, storedDevice s g = Some dev → findDeviceSubscription s dev = None.

(** A check of this group starts a renewal. *)
Definition checkRenews (s : State) (g : Group) : Prop :=
  ∃ dev sub, storedDevice s g = Some dev ∧ findDeviceSubscription s dev = Some sub.

(** The pending polls [pollAllGroups] hands to its continuations. *)
Definition pendingPolls (s : State) (gs : list Group) : list (option PendingPoll) :=
  (λ g, (λ l, mkPending g l (maxFailures s)) <$> groupHealth s !! ID g) <$> gs.

(** The fetches [pollAllGroups] issues: four under the API-call deadline
    for every group with a record, on a handle created for that poll. *)
Fixpoint pollFetchTrace (s : State) (n : nat) (gs : list Group) : list Effect :=
  match gs with
  | [] => []
  | g :: gs' =>
      match groupHealth s !! ID g with
      | Some _ =>
          (λ op, EDeviceCall (mkDevice n (host g)) op (Some (apiTimeout s))) <$> pollFetches
      | None => dbg s (MsgNoHealthState (Name g))
      end ++ pollFetchTrace s (S n) gs'
  end.

(** The handles [setListenersHybrid] creates, one per group, numbered
    from [n]. *)
Fixpoint subscribedHandles (n : nat) (gs : list Group) : list (Group * Device) :=
  match gs with
  | [] => []
  | g :: gs' => (g, mkDevice n (host g)) :: subscribedHandles (S n) gs'
  end.

Definition subscribeTrace (gd : Group * Device) : list Effect :=
  [ELog LLog (MsgRegisteringHybrid (Name gd.1) (host gd.1)); ESubscribeTo gd.2].

(** Every entry of [groupHealth] points to a record created before now. *)
Definition storeClosed (s : State) : Prop :=
  ∀ gid l, groupHealth s !! gid = Some l → (l < nextObj s)%nat.


(** The continuations of a series of polls of one group, run one after
    the other with the results given. *)
Definition pollSeries (p : PendingPoll) (rs : list PollResults) : M unit :=
  forEach (pollGroup_then p) rs.

(** The error lines of [n] polls that failed in whole, the first of
    which brought the count to [c + 1]. *)
Fixpoint failureLines (p : PendingPoll) (c : Z) (n : nat) : list Effect :=
  match n with
  | O => []
  | S k =>
      ELog LError (MsgPollFailed (Name (pp_group p)) (c + 1) (pp_maxFailures p)) ::
      failureLines p (c + 1) k
  end.

(** *** The timers in flight

    The timers a trace leaves pending, by the callback they carry.  A
    timer is pending from the call that sets it until it is cleared or,
    for a timeout, until it has fired.  [clearTimeout] and
    [clearInterval] cancel a timer of either sort. *)
Record Timers := mkTimers {
  polls : list TimerId;
  checks : list TimerId;
  restarts : list TimerId
}.

Definition noTimers : Timers := mkTimers [] [] [].

Definition without (t : TimerId) (ts : list TimerId) : list TimerId :=
  List.filter (λ x, negb (Nat.eqb x t)) ts.

Definition addTimer (cb : Callback) (t : TimerId) (ts : Timers) : Timers :=
  match cb with
  | PollTimerFired => mkTimers (polls ts ++ [t]) (checks ts) (restarts ts)
  | SubscriptionCheckTick => mkTimers (polls ts) (checks ts ++ [t]) (restarts ts)
  | RestartDiscovery => mkTimers (polls ts) (checks ts) (restarts ts ++ [t])
  end.

Definition clearTimer (t : TimerId) (ts : Timers) : Timers :=
  mkTimers (without t (polls ts)) (without t (checks ts)) (without t (restarts ts)).

Definition timerEffect (ts : Timers) (e : Effect) : Timers :=
  match e with
  | ESetTimeout t cb _ | ESetInterval t cb _ => addTimer cb t ts
  | EClearTimeout t | EClearInterval t => clearTimer t ts
  | _ => ts
  end.

Definition timersAfter (ts : Timers) (tr : list Effect) : Timers :=
  foldl timerEffect ts tr.

(** What happens to the helper in hybrid mode between its start and a
    [stop]: a callback of [handle], the poll timer or the restart timer
    firing, and the steps of start-up.  The health check's interval
    firing is the callback [HealthCheckTick]. *)
Inductive Occurrence :=
| Called (ev : Event)
| PollTimerFires (t : TimerId)
| RestartTimerFires (t : TimerId)
| HybridSet (gs : list Group)
| Subscribed (g : Group) (dev : Device)
| SubscribeFailed (g : Group)
| SubscriptionsSettled.

Definition ran {A} (ts : Timers) (r : A * State * list Effect) : Timers * State :=
  (timersAfter ts (trace r), final r).

(** A timeout fires only while it is pending, and is no longer pending
    when its callback runs. *)
Definition occur (c : Timers * State) (o : Occurrence) : Timers * State :=
  match o with
  | Called ev => ran c.1 (handle ev c.2)
  | PollTimerFires t =>
      if bool_decide (t ∈ polls c.1)
      then ran (mkTimers (without t (polls c.1)) (checks c.1) (restarts c.1))
               (pollTimerFired c.2)
      else c
  | RestartTimerFires t =>
      if bool_decide (t ∈ restarts c.1)
      then ran (mkTimers (polls c.1) (checks c.1) (without t (restarts c.1)))
               (restartDiscovery c.2)
      else c
  | HybridSet gs => ran c.1 (setListenersHybrid gs c.2)
  | Subscribed g dev => ran c.1 (subscribed_then g dev c.2)
  | SubscribeFailed g => ran c.1 (subscribed_catch g c.2)
  | SubscriptionsSettled => ran c.1 (hybridStarted c.2)
  end.

Definition atMostOne (P : TimerId → Prop) (ts : list TimerId) : Prop :=
  (length ts ≤ 1)%nat ∧ ∀ t, t ∈ ts → P t.

(** At most one timer of each sort is pending, and the helper's fields
    name it: the pending poll timer is [pollTimeout], the pending check
    interval is [subscriptionCheckTimer], and a restart is only pending
    while [isRediscovering] is set. *)
Definition timersTracked (c : Timers * State) : Prop :=
  atMostOne (λ t, pollTimeout c.2 = Some t) (polls c.1) ∧
  atMostOne (λ t, subscriptionCheckTimer c.2 = Some t) (checks c.1) ∧
  atMostOne (λ _, isRediscovering c.2 = true) (restarts c.1).

Definition setsTimer (e : Effect) : bool :=
  match e with ESetTimeout _ _ _ | ESetInterval _ _ _ => true | _ => false end.

Definition clears (t : TimerId) (e : Effect) : bool :=
  match e with EClearTimeout x | EClearInterval x => Nat.eqb t x | _ => false end.

(** What is left of a list of pending timers after the clears of a
    trace. *)
Definition remaining (tr : list Effect) (ts : list TimerId) : list TimerId :=
  List.filter (λ t, negb (existsb (clears t) tr)) ts.

(** A computation keeps the timers tracked. *)
Definition keeps {A} (m : M A) : Prop :=
  ∀ ts s, timersTracked (ts, s) → timersTracked (ran ts (m s)).

(** ** Notions for the rest of the helper *)

(** The debug lines a helper produces for a message. *)
Definition dbgH (h : Helper) (m : HelperMsg) : list Output :=
  if debug (core h) then [OLog LDebug m] else [].

Definition clearIntervals (ids : list TimerId) : list Output :=
  (λ id, Core (EClearInterval id)) <$> ids.

(** The state and the trace of [stop]. *)
Definition stoppedState (h : Helper) : Helper :=
  let s := core h in
  {| core :=
       {| config := config s; debug := debug s; asyncDevice := asyncDevice s;
          subscribedDevices := []; groupsById := groupsById s; groups := [];
          groupHealth := ∅; subscriptionCheckTimer := None; pollTimeout := None;
          isRediscovering := false; listening := listening s;
          deviceSubscriptions := deviceSubscriptions s;
          heap := heap s; nextObj := nextObj s |};
     settings := settings h; pollingIntervals := []; pollingFailureCounts := ∅;
     cells := cells h |}.

Definition stopTrace (h : Helper) : list Output :=
  let s := core h in
  (Core <$> from_option (λ t, [EClearInterval t]) [] (subscriptionCheckTimer s)) ++
  (Core <$> from_option (λ t, [EClearTimeout t]) [] (pollTimeout s)) ++
  clearIntervals (pollingIntervals h) ++
  (Core <$> flat_map listenerRemovals (subscribedDevices s)) ++
  (if listening s then [Core EStopListener] else []).

(** The state and the trace of a [triggerPollingRediscovery] that is
    not skipped. *)
Definition pollingTeardownState (h : Helper) : Helper :=
  let s := core h in
  {| core :=
       {| config := config s; debug := debug s; asyncDevice := false;
          subscribedDevices := subscribedDevices s; groupsById := groupsById s;
          groups := groups s; groupHealth := groupHealth s;
          subscriptionCheckTimer := subscriptionCheckTimer s;
          pollTimeout := pollTimeout s;
          isRediscovering := true; listening := listening s;
          deviceSubscriptions := deviceSubscriptions s;
          heap := heap s; nextObj := S (nextObj s) |};
     settings := settings h; pollingIntervals := []; pollingFailureCounts := ∅;
     cells := cells h |}.

Definition pollingTeardownTrace (h : Helper) : list Output :=
  OLog LWarn HMsgPollingRediscovery ::
  clearIntervals (pollingIntervals h) ++
  (if listening (core h) then [Core EStopListener] else []) ++
  [Core (ESetTimeout (nextObj (core h)) RestartDiscovery 5000)].

(** The effects of a trace that belong to the hybrid part. *)
Definition coreEffects (tr : list Output) : list Effect :=
  omap (λ o, match o with Core e => Some e | _ => None end) tr.

(** The helper in which the closure variables at [l] hold [c]. *)
Definition withCell (h : Helper) (l : loc) (c : PollCell) : Helper :=
  set_cells (<[l := c]> (cells h)) h.

Definition withCount (h : Helper) (gid : string) (n : JsNumber) : Helper :=
  set_pollingFailureCounts (<[gid := n]> (pollingFailureCounts h)) h.

(** *** The change detector of polling-only mode, field by field

    What the continuation of a tick does to the closure variables and
    what it emits, as functions of the variables alone. *)

Definition cellTrack (c : PollingClosure) (r : Settled (option Track)) (cell : PollCell)
    : PollCell * list Output :=
  let g := pc_group c in
  match r with
  | Fulfilled (Some track) =>
      if trackChanged (c_lastTrack cell) track
      then (set_c_lastTrack (Some track) cell,
            [OLog LLog (HMsgTrackChanged (Name g) (host g) (title track) (artist track));
             Core (ESendSocketNotification (SET_SONOS_CURRENT_TRACK g track))])
      else (cell, [])
  | Fulfilled None => (cell, [])
  | Rejected => (cell, [OLog LError (HMsgTrackFailed (Name g))])
  end.

Definition cellVolume (h : Helper) (c : PollingClosure) (r : Settled Z) (cell : PollCell)
    : PollCell * list Output :=
  let g := pc_group c in
  match r with
  | Fulfilled volume =>
      if bool_decide (c_lastVolume cell = Some volume) then (cell, [])
      else (set_c_lastVolume (Some volume) cell,
            dbgH h (HMsgVolumeChanged (Name g) (host g) volume) ++
            [Core (ESendSocketNotification (SET_SONOS_VOLUME g volume))])
  | Rejected => (cell, [OLog LError (HMsgVolumeFailed (Name g))])
  end.

Definition cellMute (h : Helper) (c : PollingClosure) (r : Settled bool) (cell : PollCell)
    : PollCell * list Output :=
  let g := pc_group c in
  match r with
  | Fulfilled isMuted =>
      if bool_decide (c_lastMute cell = Some (muteLabel isMuted)) then (cell, [])
      else (set_c_lastMute (Some (muteLabel isMuted)) cell,
            dbgH h (HMsgMuteChanged (Name g) (host g) (muteLabel isMuted)) ++
            [Core (ESendSocketNotification (SET_SONOS_MUTE g isMuted))])
  | Rejected => (cell, [OLog LError (HMsgMuteFailed (Name g))])
  end.

Definition cellState (c : PollingClosure) (r : Settled string) (cell : PollCell)
    : PollCell * list Output :=
  let g := pc_group c in
  match r with
  | Fulfilled state =>
      if bool_decide (c_lastState cell = Some state) then (cell, [])
      else (set_c_lastState (Some state) cell,
            [OLog LLog (HMsgStateChanged (Name g) (host g) state);
             Core (ESendSocketNotification (SET_SONOS_PLAY_STATE g state))])
  | Rejected => (cell, [OLog LError (HMsgStateFailed (Name g))])
  end.

Definition cellAll (h : Helper) (c : PollingClosure) (r : PollResults) (cell : PollCell)
    : PollCell * list Output :=
  let '(c1, t1) := cellTrack c (r_track r) cell in
  let '(c2, t2) := cellVolume h c (r_volume r) c1 in
  let '(c3, t3) := cellMute h c (r_muted r) c2 in
  let '(c4, t4) := cellState c (r_state r) c3 in
  (c4, t1 ++ t2 ++ t3 ++ t4).

(** A fulfilled track fetch whose value is [null]. *)
Definition nullTrack (r : PollResults) : bool :=
  match r_track r with Fulfilled None => true | _ => false end.

(** The socket notifications of a helper's trace. *)
Definition notificationsH (tr : list Output) : list Notification :=
  notifications (coreEffects tr).

(** The closure variables of a polling-only group and the health
    record of a hybrid group hold the same last-known values. *)
Definition sameKnown (cell : PollCell) (hl : Health) : Prop :=
  c_lastTrack cell = lastTrack hl ∧
  c_lastVolume cell = lastVolume hl ∧
  c_lastMute cell = muteLabel <$> lastMuted hl ∧
  c_lastState cell = Some (playState hl).

(** One notification for every field whose fetch was fulfilled, in the
    order the tick handles them. *)
Definition reported (g : Group) (r : PollResults) : list Notification :=
  match r_track r with
  | Fulfilled (Some t) => [SET_SONOS_CURRENT_TRACK g t]
  | _ => []
  end ++
  match r_volume r with Fulfilled v => [SET_SONOS_VOLUME g v] | Rejected => [] end ++
  match r_muted r with Fulfilled m => [SET_SONOS_MUTE g m] | Rejected => [] end ++
  match r_state r with Fulfilled st => [SET_SONOS_PLAY_STATE g st] | Rejected => [] end.

(** The continuations of a series of ticks of one group, run one after
    the other with the results given. *)
Definition pollingSeries (c : PollingClosure) (rs : list PollResults) : N unit :=
  forEachH (pollingTick_then c) rs.

(** The lines of a tick that failed in whole and did not escalate. *)
Definition failedTickLines (c : PollingClosure) (count : JsNumber) : list Output :=
  let g := Name (pc_group c) in
  [OLog LError (HMsgAllPollingFailed g count (pc_maxFailures c));
   OLog LError (HMsgTrackFailed g); OLog LError (HMsgVolumeFailed g);
   OLog LError (HMsgMuteFailed g); OLog LError (HMsgStateFailed g)].

Definition isLogLineH (o : Output) : bool :=
  match o with OLog _ _ => true | _ => false end.

(** *** The polling intervals in flight

    The intervals of polling-only mode that a trace leaves running: an
    interval runs from the [setInterval] that creates it until it is
    cleared. *)
Definition intervalEffect (live : list TimerId) (o : Output) : list TimerId :=
  match o with
  | OSetInterval t _ _ => live ++ [t]
  | Core (EClearInterval t) | Core (EClearTimeout t) => without t live
  | _ => live
  end.

Definition liveIntervals (live : list TimerId) (tr : list Output) : list TimerId :=
  foldl intervalEffect live tr.

(** Whatever can happen to the helper in polling-only mode. *)
Inductive PollingStep :=
| StartPolling (gs : list Group) (pollingTimeout : option Z)
| TickFires (c : PollingClosure)
| TickSettled (c : PollingClosure) (r : PollResults)
| ListenerFails
| Stops
| RestartFires
| Received (n : SocketNotification).

Definition ranH {A} (live : list TimerId) (r : A * Helper * list Output)
    : list TimerId * Helper :=
  (liveIntervals live (traceH r), finalH r).

Definition pollingStep (c : list TimerId * Helper) (st : PollingStep)
    : list TimerId * Helper :=
  match st with
  | StartPolling gs pollingTimeout => ranH c.1 (setListenersPolling gs pollingTimeout c.2)
  | TickFires cl => ranH c.1 (pollingTick cl c.2)
  | TickSettled cl r => ranH c.1 (pollingTick_then cl r c.2)
  | ListenerFails => ranH c.1 (onListenerFailure c.2)
  | Stops => ranH c.1 (stop c.2)
  | RestartFires => ranH c.1 (restartDiscoveryH c.2)
  | Received n => ranH c.1 (socketNotificationReceived n c.2)
  end.

(** The intervals running are the ones listed in [pollingIntervals],
    and the two timers of hybrid mode are not set. *)
Definition intervalsTracked (c : list TimerId * Helper) : Prop :=
  c.1 = pollingIntervals c.2 ∧
  pollTimeout (core c.2) = None ∧
  subscriptionCheckTimer (core c.2) = None.

Definition keepsIntervals {A} (m : N A) : Prop :=
  ∀ live h, intervalsTracked (live, h) → intervalsTracked (ranH live (m h)).

(** An effect of the hybrid part that clears no timer. *)
Definition clearsNothing (e : Effect) : Prop :=
  match e with EClearTimeout _ | EClearInterval _ => False | _ => True end.

Definition hybridTimersUnset (s : State) : Prop :=
  pollTimeout s = None ∧ subscriptionCheckTimer s = None.

(** The closures of the polling intervals a trace sets, in order. *)
Definition registeredClosures (tr : list Output) : list PollingClosure :=
  omap (λ o, match o with OSetInterval _ (PollingTick c) _ => Some c | _ => None end) tr.

(** The delays of the polling intervals a trace sets. *)
Definition registeredDelays (tr : list Output) : list (option Z) :=
  omap (λ o, match o with OSetInterval _ (PollingTick _) ms => Some ms | _ => None end) tr.

(** *** Discovery that keeps failing *)

(** One call of [discoverGroups] whose chain ends in its [catch]. *)
Definition failedAttempt (attempts : Z) : N unit :=
  p ← discoverGroups attempts;
  discoverGroups_catch p.

(** [n] such calls in a row, each one made by the retry timer the one
    before it set. *)
Fixpoint failedAttempts (n : nat) (attempts : Z) : N unit :=
  match n with
  | O => skipH
  | S k => failedAttempt attempts ;; failedAttempts k (attempts + 1)
  end.

(** The retry timers of a trace: the attempt count each carries and its
    delay. *)
Definition retryTimers (tr : list Output) : list (Z * Z) :=
  omap (λ o, match o with
             | OSetTimeout _ (RetryDiscovery attempts) ms => Some (attempts, ms)
             | _ => None
             end) tr.

(** The discoveries started in a trace. *)
Definition discoveries (tr : list Output) : nat :=
  length (List.filter (λ o, match o with ODiscover _ => true | _ => false end) tr).

(** The delay before the retry that follows the [k]-th failure in a row,
    in milliseconds. *)
Definition backoff (k : Z) : Z := 1000 * Z.min (k * k) 30.

(** *** The first fetch *)

(** The item [groupFetched] builds from the results of one group. *)
Definition itemOf (f : GroupFetch) (r : PollResults) : Item :=
  {| it_group := gf_group f;
     it_track := settledOr (r_track r) None;
     it_state := settledOr (r_state r) "unknown";
     it_volume := settledOr (r_volume r) 0;
     it_isMuted := settledOr (r_muted r) false |}.

Definition rejectionLines (f : GroupFetch) (r : PollResults) : list Output :=
  let g := Name (zg_group (gf_group f)) in
  (if fulfilled (r_track r) then [] else [OLog LError (HMsgFetchFailed currentTrack g)]) ++
  (if fulfilled (r_state r) then [] else [OLog LError (HMsgFetchFailed getCurrentState g)]) ++
  (if fulfilled (r_volume r) then [] else [OLog LError (HMsgFetchFailed getVolume g)]) ++
  (if fulfilled (r_muted r) then [] else [OLog LError (HMsgFetchFailed getMuted g)]).

Definition validItem (item : Item) : bool := bool_decide (is_Some (it_track item)).

(** [validItems.reduce((map, item) => { map[item.group.ID] = v(item);
    return map }, {})] *)
Definition byId {V} (v : Item → V) (items : list Item) : gmap string V :=
  foldl (λ map item, <[itemId item := v item]> map) ∅ items.

(** The last item of a list that carries a given group id. *)
Definition lastWithId (gid : string) (items : list Item) : option Item :=
  last (List.filter (λ item, String.eqb (itemId item) gid) items).

(** The subscriptions a trace starts, in order. *)
Definition subscriptions (tr : list Output) : list Device :=
  omap (λ o, match o with Core (ESubscribeTo d) => Some d | _ => None end) tr.

Definition eventsSubscribeTrace (gd : Group * Device) : list Output :=
  [OLog LLog (HMsgRegisteringListeners (Name gd.1) (host gd.1)); Core (ESubscribeTo gd.2)].

(** The groups of the valid items, as [setGroups] hands them on. *)
Definition itemGroups (items : list Item) : list Group :=
  (λ item, zg_group (it_group item)) <$> items.

(** Two code units that are one letter, case aside: equal, or a capital
    and the code unit 32 places after it. *)
Definition sameLetter (a b : ascii) : Prop :=
  a = b ∨
  (isCapital a = true ∧ nat_of_ascii b = (nat_of_ascii a + 32)%nat) ∨
  (isCapital b = true ∧ nat_of_ascii a = (nat_of_ascii b + 32)%nat).

(** Two strings that are equal letter for letter, case aside. *)
Fixpoint sameLetters (s t : string) : Prop :=
  match s, t with
  | EmptyString, EmptyString => True
  | String a s', String b t' => sameLetter a b ∧ sameLetters s' t'
  | _, _ => False
  end.

(** A room name written in lower case; other entries are kept. *)
Definition lowerRoom (r : JsValue) : JsValue :=
  match r with JString s => JString (toLowerCase s) | _ => r end.

(** The device calls of a helper's trace, in order. *)
Definition deviceCallsH (tr : list Output) : list DeviceOp := deviceCalls (coreEffects tr).

(** The four fetches of [setGroups], in the order they are issued. *)
Definition firstFetches : list DeviceOp :=
  [currentTrack; getCurrentState; getVolume; getMuted].

Definition fetchTrace (apiTimeout : option Z) (f : GroupFetch) : list Output :=
  (λ op, Core (EDeviceCall (gf_sonos f) op (Some apiTimeout))) <$> firstFetches.

(** The handles [setGroups] creates, one per selected group, numbered
    from [n]. *)
Fixpoint groupFetches (n : nat) (gs : list ZoneGroup) : list GroupFetch :=
  match gs with
  | [] => []
  | g :: gs' => mkGroupFetch g (mkDevice n (host (zg_group g))) :: groupFetches (S n) gs'
  end.

(** *** The handlers on device handles *)

(** A handler registered on a handle: the handle's identity and the
    event. *)
Definition Registration : Type := nat * EventName.

Definition sameEvent (a b : EventName) : bool :=
  match a, b with
  | CurrentTrack, CurrentTrack | Volume, Volume | Muted, Muted
  | PlayState, PlayState | ErrorEvent, ErrorEvent => true
  | _, _ => false
  end.

(** [d.removeAllListeners(ev)] removes the registrations of [ev] on
    [d]. *)
Definition removed (d : Device) (ev : EventName) (r : Registration) : bool :=
  Nat.eqb r.1 (dev_obj d) && sameEvent r.2 ev.

Definition registered (o : Output) : option Registration :=
  match o with
  | Core (EOn d ev _) | OOn d ev _ => Some (dev_obj d, ev)
  | _ => None
  end.

Definition handlerEffect (live : list Registration) (o : Output) : list Registration :=
  match o with
  | Core (EOn d ev _) | OOn d ev _ => live ++ [(dev_obj d, ev)]
  | Core (ERemoveAllListeners d ev) => List.filter (λ r, negb (removed d ev r)) live
  | _ => live
  end.

(** The handlers registered and not removed since, after a trace. *)
Definition liveHandlers (live : list Registration) (tr : list Output) : list Registration :=
  foldl handlerEffect live tr.

(** The handlers [setListeners] registers on a handle. *)
Definition eventsRegistrations (g : Group) (d : Device) : list Output :=
  [OOn d ErrorEvent g; OOn d CurrentTrack g; OOn d Volume g; OOn d Muted g;
   OOn d PlayState g].

(** A push event as events-only mode receives it. *)
Inductive EventsPush :=
| EventsError (g : Group)
| EventsTrack (g : Group) (t : Track)
| EventsVolume (g : Group) (v : Z)
| EventsMuted (g : Group) (m : bool)
| EventsState (g : Group) (st : string).

Definition eventsHandle (e : EventsPush) : N unit :=
  match e with
  | EventsError g => eventsOnError g
  | EventsTrack g t => eventsOnCurrentTrack g t
  | EventsVolume g v => eventsOnVolume g v
  | EventsMuted g m => eventsOnMuted g m
  | EventsState g st => eventsOnPlayState g st
  end.

(** Whatever can happen to the helper once groups are known, in any of
    the three modes. *)
Inductive HelperStep :=
| InPollingMode (st : PollingStep)
| InHybridMode (o : Occurrence)
| EventsStart (gs : list Group)
| EventsSubscribed (g : Group) (sonos : Device)
| EventsSubscribeFailed (g : Group)
| EventsPushed (e : EventsPush).

Definition ranR {A} (live : list Registration) (r : A * Helper * list Output)
    : list Registration * Helper :=
  (liveHandlers live (traceH r), finalH r).

Definition helperStep (c : list Registration * Helper) (st : HelperStep)
    : list Registration * Helper :=
  match st with
  | InPollingMode (StartPolling gs pollingTimeout) =>
      ranR c.1 (setListenersPolling gs pollingTimeout c.2)
  | InPollingMode (TickFires cl) => ranR c.1 (pollingTick cl c.2)
  | InPollingMode (TickSettled cl r) => ranR c.1 (pollingTick_then cl r c.2)
  | InPollingMode ListenerFails => ranR c.1 (onListenerFailure c.2)
  | InPollingMode Stops => ranR c.1 (stop c.2)
  | InPollingMode RestartFires => ranR c.1 (restartDiscoveryH c.2)
  | InPollingMode (Received n) => ranR c.1 (socketNotificationReceived n c.2)
  | InHybridMode (Called ev) => ranR c.1 (lift (handle ev) c.2)
  | InHybridMode (PollTimerFires _) => ranR c.1 (lift pollTimerFired c.2)
  | InHybridMode (RestartTimerFires _) => ranR c.1 (lift restartDiscovery c.2)
  | InHybridMode (HybridSet gs) => ranR c.1 (lift (setListenersHybrid gs) c.2)
  | InHybridMode (Subscribed g dev) => ranR c.1 (lift (subscribed_then g dev) c.2)
  | InHybridMode (SubscribeFailed g) => ranR c.1 (lift (subscribed_catch g) c.2)
  | InHybridMode SubscriptionsSettled => ranR c.1 (lift hybridStarted c.2)
  | EventsStart gs => ranR c.1 (setListeners gs c.2)
  | EventsSubscribed g sonos => ranR c.1 (eventsSubscribed_then g sonos c.2)
  | EventsSubscribeFailed g => ranR c.1 (eventsSubscribed_catch g c.2)
  | EventsPushed e => ranR c.1 (eventsHandle e c.2)
  end.

(** Every handler still registered is on a handle listed in
    [subscribedDevices]. *)
Definition handlersOn (live : list Registration) (ds : list Device) : Prop :=
  ∀ r, r ∈ live → r.1 ∈ dev_obj <$> ds.

Definition handlersTracked (c : list Registration * Helper) : Prop :=
  handlersOn c.1 (subscribedDevices (core c.2)).

Definition keepsHandlersM {A} (m : M A) : Prop :=
  ∀ live s, handlersOn live (subscribedDevices s) →
    handlersOn (liveHandlers live (Core <$> trace (m s))) (subscribedDevices (final (m s))).

Definition keepsHandlers {A} (m : N A) : Prop :=
  ∀ live h, handlersTracked (live, h) → handlersTracked (ranR live (m h)).

(** An effect of the hybrid part that registers no handler. *)
Definition notOn (e : Effect) : Prop :=
  match e with EOn _ _ _ => False | _ => True end.

(** *** The steps of the helper, with what they leave behind *)

Definition ends {A} (r : A * Helper * list Output) : Helper * list Output :=
  (finalH r, traceH r).

(** One step run on the helper: the helper after it, and its trace. *)
Definition helperRun (st : HelperStep) (h : Helper) : Helper * list Output :=
  match st with
  | InPollingMode (StartPolling gs pollingTimeout) =>
      ends (setListenersPolling gs pollingTimeout h)
  | InPollingMode (TickFires cl) => ends (pollingTick cl h)
  | InPollingMode (TickSettled cl r) => ends (pollingTick_then cl r h)
  | InPollingMode ListenerFails => ends (onListenerFailure h)
  | InPollingMode Stops => ends (stop h)
  | InPollingMode RestartFires => ends (restartDiscoveryH h)
  | InPollingMode (Received n) => ends (socketNotificationReceived n h)
  | InHybridMode (Called ev) => ends (lift (handle ev) h)
  | InHybridMode (PollTimerFires _) => ends (lift pollTimerFired h)
  | InHybridMode (RestartTimerFires _) => ends (lift restartDiscovery h)
  | InHybridMode (HybridSet gs) => ends (lift (setListenersHybrid gs) h)
  | InHybridMode (Subscribed g dev) => ends (lift (subscribed_then g dev) h)
  | InHybridMode (SubscribeFailed g) => ends (lift (subscribed_catch g) h)
  | InHybridMode SubscriptionsSettled => ends (lift hybridStarted h)
  | EventsStart gs => ends (setListeners gs h)
  | EventsSubscribed g sonos => ends (eventsSubscribed_then g sonos h)
  | EventsSubscribeFailed g => ends (eventsSubscribed_catch g h)
  | EventsPushed e => ends (eventsHandle e h)
  end.





(** A helper in hybrid mode around the state [s]. *)
Definition hybridHelper (s : State) : Helper :=
  mkHelper s (mkSettings None false true None) [] ∅ ∅.
(** * Properties *)

(** ** Proof support *)

Ltac munfold :=
  unfold mbind, mret, M_bind, M_ret, get, modify, emit, skip, Log, fresh,
    setTimeout, setInterval, CoordinatorDevice in *.

Lemma debugLog_run (m : LogMsg) (s : State) : debugLog m s = (tt, s, dbg s m).
Proof. unfold debugLog, dbg. munfold. cbn. by destruct (debug s). Qed.

#[global] Arguments debugLog : simpl never.

Ltac unfold_setters :=
  unfold set_asyncDevice, set_subscribedDevices, set_groups, set_groupHealth,
    set_subscriptionCheckTimer, set_pollTimeout, set_isRediscovering,
    set_deviceSubscriptions, set_heap, set_nextObj, set_config in *.

Ltac mstep := repeat (munfold; unfold_setters; cbn; rewrite ?debugLog_run).

Lemma removeDeviceListeners_run (d : Device) (s : State) :
  removeDeviceListeners d s = (tt, s, listenerRemovals d).
Proof. reflexivity. Qed.

#[global] Arguments removeDeviceListeners : simpl never.

Lemma forEach_removeDeviceListeners (l : list Device) (s : State) :
  forEach removeDeviceListeners l s = (tt, s, flat_map listenerRemovals l).
Proof.
  induction l as [|d l IH]; [done|].
  cbn [forEach flat_map]. munfold.
  by rewrite removeDeviceListeners_run, IH.
Qed.

Lemma triggerRediscovery_run (s : State) :
  triggerRediscovery s =
    if isRediscovering s then (tt, s, dbg s MsgRediscoveryInProgress)
    else (tt, teardownState s, teardownTrace s).
Proof.
  unfold triggerRediscovery, teardownState, teardownTrace.
  destruct s as [cfg dbgOn ad sd gbi gs gh sct pt [|] lis ds hp nx]; mstep; [done|].
  destruct sct, pt, lis, ds; mstep;
    rewrite forEach_removeDeviceListeners; unfold dbg; cbn;
    rewrite ?app_nil_r, <- ?app_assoc; reflexivity.
Qed.

#[global] Arguments triggerRediscovery : simpl never.

Lemma triggerRediscovery_heap (s : State) :
  heap (final (triggerRediscovery s)) = heap s.
Proof. rewrite triggerRediscovery_run. by destruct (isRediscovering s). Qed.

Lemma notifications_app (t1 t2 : list Effect) :
  notifications (t1 ++ t2) = notifications t1 ++ notifications t2.
Proof. apply omap_app. Qed.

Lemma notifications_dbg (s : State) (m : LogMsg) : notifications (dbg s m) = [].
Proof. unfold dbg. by destruct (debug s). Qed.

Lemma notifications_listenerRemovals (l : list Device) :
  notifications (flat_map listenerRemovals l) = [].
Proof. induction l as [|d l IH]; [done|]. cbn. exact IH. Qed.

Lemma triggerRediscovery_notifications (s : State) :
  notifications (trace (triggerRediscovery s)) = [].
Proof.
  rewrite triggerRediscovery_run.
  destruct (isRediscovering s); cbn; [apply notifications_dbg|].
  unfold teardownTrace.
  rewrite !notifications_app, !notifications_dbg, notifications_listenerRemovals.
  by destruct (subscriptionCheckTimer s), (pollTimeout s), (listening s).
Qed.

(** *** Writing through a record reference *)

#[global] Arguments withRecord : simpl never.

Lemma withRecord_id (s : State) (l : loc) (h : Health) :
  heap s !! l = Some h → withRecord s l h = s.
Proof.
  intros H. destruct s. unfold withRecord, set_heap. cbn in *.
  by rewrite insert_id.
Qed.

Lemma withRecord_lookup (s : State) (l : loc) (h : Health) :
  heap (withRecord s l h) !! l = Some h.
Proof. unfold withRecord. cbn. apply lookup_insert_eq. Qed.

Lemma updHealth_run (s : State) (l : loc) (h : Health) (f : Health → Health) :
  updHealth l f (withRecord s l h) = (tt, withRecord s l (f h), []).
Proof.
  unfold updHealth. munfold. unfold withRecord, set_heap. cbn.
  rewrite alter_insert_eq. reflexivity.
Qed.

Lemma withHealth_run (s : State) (l : loc) (h : Health) (k : Health → M unit) :
  withHealth l k (withRecord s l h) = k h (withRecord s l h).
Proof.
  unfold withHealth. munfold. cbn. rewrite withRecord_lookup.
  by destruct (k h _) as [[[] s2] t2].
Qed.

Lemma dbg_withRecord (s : State) (l : loc) (h : Health) (m : LogMsg) :
  dbg (withRecord s l h) m = dbg s m.
Proof. reflexivity. Qed.

#[global] Arguments updHealth : simpl never.
#[global] Arguments withHealth : simpl never.

Ltac hstep :=
  repeat (munfold; cbn;
          rewrite ?debugLog_run, ?updHealth_run, ?withHealth_run, ?dbg_withRecord).

Lemma pollGroup_then_success (p : PendingPoll) (r : PollResults) (s : State) (h : Health) :
  heap s !! pp_health p = Some h →
  anySucceeded r = true →
  pollGroup_then p r s =
    (tt, withRecord s (pp_health p) (detectAll s (pp_group p) r h).1,
     (detectAll s (pp_group p) r h).2).
Proof.
  intros Hh Hany. unfold pollGroup_then. rewrite Hany. cbn [negb].
  rewrite <- (withRecord_id s _ _ Hh) at 1.
  destruct p as [g l mx], r as [rt rv rm rs]. cbn [pp_group pp_health] in *.
  unfold detectAll, detectTrack, detectVolume, detectMuted, detectState.
  cbn [r_track r_volume r_muted r_state].
  destruct rt as [[track|]|], rv as [v|], rm as [m|], rs as [st|]; hstep;
    repeat (match goal with
            | |- context [trackChanged ?a ?b] => destruct (trackChanged a b)
            | |- context [bool_decide ?P] => destruct (bool_decide P)
            | |- context [String.eqb ?a ?b] => destruct (String.eqb a b)
            end; hstep);
    rewrite ?app_nil_r, <- ?app_assoc; reflexivity.
Qed.

Lemma pollGroup_then_failure (p : PendingPoll) (r : PollResults) (s : State) (h : Health) :
  heap s !! pp_health p = Some h →
  anySucceeded r = false →
  let h' := set_consecutiveFailures (consecutiveFailures h + 1) h in
  let s' := withRecord s (pp_health p) h' in
  let line := ELog LError (MsgPollFailed (Name (pp_group p)) (consecutiveFailures h + 1)
                             (pp_maxFailures p)) in
  pollGroup_then p r s =
    if consecutiveFailures h + 1 >=? pp_maxFailures p
    then (tt, final (triggerRediscovery s'), line :: trace (triggerRediscovery s'))
    else (tt, s', [line]).
Proof.
  intros Hh Hany. unfold pollGroup_then. rewrite Hany. cbn [negb].
  rewrite <- (withRecord_id s _ _ Hh) at 1.
  hstep.
  destruct (consecutiveFailures h + 1 >=? pp_maxFailures p); [|reflexivity].
  destruct (triggerRediscovery _) as [[[] s2] t2]. reflexivity.
Qed.

Lemma pollGroup_run (g : Group) (s : State) :
  pollGroup g s =
    let dev := mkDevice (nextObj s) (host g) in
    let s' := set_nextObj (S (nextObj s)) s in
    match groupHealth s !! ID g with
    | None => (None, s', dbg s (MsgNoHealthState (Name g)))
    | Some l =>
        (Some (mkPending g l (maxFailures s)), s',
         [EDeviceCall dev currentTrack (Some (apiTimeout s));
          EDeviceCall dev getVolume (Some (apiTimeout s));
          EDeviceCall dev getMuted (Some (apiTimeout s));
          EDeviceCall dev getCurrentState (Some (apiTimeout s))])
    end.
Proof.
  unfold pollGroup. mstep.
  destruct (groupHealth s !! ID g); [reflexivity|].
  mstep. by rewrite app_nil_r.
Qed.

(** ** Invariants kept by the callbacks *)

Section Preserves.
Context (I : State → Prop) (T : Effect → Prop).

Lemma preserves_mret {A} (a : A) : preserves I T (mret a).
Proof. intros s Hs. split; [exact Hs | constructor]. Qed.

Lemma preserves_bind {A B} (m : M A) (f : A → M B) :
  preserves I T m → (∀ a, preserves I T (f a)) → preserves I T (m ≫= f).
Proof.
  intros Hm Hf s Hs. unfold mbind, M_bind.
  destruct (Hm s Hs) as [H1 H2]. destruct (m s) as [[a s1] t1]. cbn in H1, H2.
  destruct (Hf a s1 H1) as [H3 H4]. destruct (f a s1) as [[b s2] t2]. cbn in *.
  split; [exact H3 | by apply Forall_app].
Qed.

Lemma preserves_get : preserves I T get.
Proof. intros s Hs. split; [exact Hs | constructor]. Qed.

Lemma preserves_emit (e : Effect) : T e → preserves I T (emit e).
Proof. intros He s Hs. split; [exact Hs | by repeat constructor]. Qed.

Lemma preserves_modify (f : State → State) :
  (∀ s, I s → I (f s)) → preserves I T (modify f).
Proof. intros Hf s Hs. split; [by apply Hf | constructor]. Qed.

Lemma preserves_forEach {A} (f : A → M unit) (xs : list A) :
  (∀ x, preserves I T (f x)) → preserves I T (forEach f xs).
Proof.
  intros Hf. induction xs as [|x xs IH]; cbn [forEach].
  - apply preserves_mret.
  - apply preserves_bind; [apply Hf | intros _; exact IH].
Qed.

Hypothesis I_heap : ∀ s hp, I s → I (set_heap hp s).
Hypothesis I_nextObj : ∀ s n, I s → I (set_nextObj n s).
Hypothesis T_log : ∀ lvl m, T (ELog lvl m).
Hypothesis T_notify : ∀ n, T (ESendSocketNotification n).
Hypothesis T_call : ∀ d op dl, T (EDeviceCall d op dl).
Hypothesis T_renew : ∀ d g dl, T (ERenewAllSubscriptions d g dl).
Hypothesis T_throw : ∀ x, T (EThrow x).
Hypothesis trigger_ok : preserves I T triggerRediscovery.
Hypothesis finally_ok : preserves I T pollCycleFinally.

Lemma preserves_debugLog (m : LogMsg) : preserves I T (debugLog m).
Proof.
  unfold debugLog. apply preserves_bind; [apply preserves_get | intros s0].
  destruct (debug s0); [apply preserves_emit, T_log | apply preserves_mret].
Qed.

Ltac pres :=
  repeat first
    [ apply preserves_mret
    | apply preserves_get
    | apply preserves_debugLog
    | apply trigger_ok
    | apply preserves_emit;
        first [apply T_log | apply T_notify | apply T_call | apply T_renew | apply T_throw]
    | apply preserves_modify; intros ? ?; first [by apply I_heap | by apply I_nextObj]
    | apply preserves_bind; [| intros ?]
    | match goal with
      | |- preserves _ _ (match ?x with _ => _ end) => destruct x
      end ].

Lemma preserves_updHealth (l : loc) (f : Health → Health) :
  preserves I T (updHealth l f).
Proof. unfold updHealth. pres. Qed.

Lemma preserves_syncHealth (gid : string) (f : Health → Health) :
  preserves I T (syncHealth gid f).
Proof. unfold syncHealth. pres; apply preserves_updHealth. Qed.

Lemma preserves_pollGroup_then (p : PendingPoll) (r : PollResults) :
  preserves I T (pollGroup_then p r).
Proof.
  unfold pollGroup_then, withHealth, Log, skip.
  pres; try apply preserves_updHealth; pres; try apply preserves_updHealth.
Qed.

Lemma preserves_checkGroup (g : Group) : preserves I T (checkGroup g).
Proof. unfold checkGroup, renewDeviceSubscriptions. pres. Qed.

Lemma preserves_handle (ev : Event) : preserves I T (handle ev).
Proof.
  destruct ev; cbn [handle]; try exact finally_ok;
    try apply preserves_pollGroup_then;
    unfold handleListenerError, onCurrentTrack, onVolume, onMuted, onPlayState,
      subscriptionCheckTick, renewal_then, renewal_catch, handleTogglePlayPause,
      handleNext, handleSetVolume, CoordinatorDevice, fresh, Log, skip;
    pres; try apply preserves_syncHealth.
  apply preserves_forEach, preserves_checkGroup.
Qed.

Lemma preserves_run (evs : list Event) : preserves I T (run evs).
Proof. apply preserves_forEach, preserves_handle. Qed.
End Preserves.

Lemma Forall_dbg (T : Effect → Prop) (s : State) (m : LogMsg) :
  T (ELog LDebug m) → Forall T (dbg s m).
Proof. intros H. unfold dbg. destruct (debug s); by repeat constructor. Qed.

Lemma Forall_listenerRemovals (T : Effect → Prop) (l : list Device) :
  (∀ d e, T (ERemoveAllListeners d e)) → Forall T (flat_map listenerRemovals l).
Proof.
  intros H. induction l as [|d l IH]; [constructor|].
  cbn. by repeat (constructor; [apply H|]).
Qed.

Lemma teardownTrace_no_poll_timer (s : State) :
  Forall (λ e, isPollTimer e = false) (teardownTrace s).
Proof.
  unfold teardownTrace. constructor; [done|].
  repeat (apply Forall_app; split); try by apply Forall_dbg.
  - by destruct (subscriptionCheckTimer s); repeat constructor.
  - by destruct (pollTimeout s); repeat constructor.
  - by apply Forall_listenerRemovals.
  - by destruct (listening s); repeat constructor.
  - by repeat constructor.
Qed.

#[global] Arguments getPollingInterval : simpl never.

Lemma schedulePoll_run (s : State) :
  schedulePoll s =
    (tt, set_pollTimeout (Some (nextObj s)) (set_nextObj (S (nextObj s)) s),
     from_option (λ t, [EClearTimeout t]) [] (pollTimeout s) ++
     dbg s (MsgSchedulingPoll (getPollingInterval s)) ++
     [ESetTimeout (nextObj s) PollTimerFired (getPollingInterval s)]).
Proof.
  unfold schedulePoll. destruct s as [cfg dbgOn ad sd gbi gs gh sct [t|] rd lis ds hp nx];
    mstep; unfold dbg; cbn; rewrite ?app_nil_r; reflexivity.
Qed.

Lemma pollCycleFinally_run (s : State) :
  pollCycleFinally s =
    match pollTimeout s with
    | Some _ => schedulePoll s
    | None => (tt, s, dbg s MsgPollChainStopped)
    end.
Proof.
  unfold pollCycleFinally. munfold.
  destruct (pollTimeout s).
  - by destruct (schedulePoll s) as [[[] s2] t2].
  - by rewrite debugLog_run.
Qed.

(** While the marker is null nothing reschedules the poll chain. *)
Lemma cancelled_stays_cancelled (evs : list Event) :
  preserves (λ s, pollTimeout s = None) (λ e, isPollTimer e = false) (run evs).
Proof.
  apply preserves_run; try done.
  - intros s Hs. rewrite triggerRediscovery_run.
    destruct (isRediscovering s); cbn; split; try done.
    + by apply Forall_dbg.
    + apply teardownTrace_no_poll_timer.
  - intros s Hs. rewrite pollCycleFinally_run, Hs. split; [done|by apply Forall_dbg].
Qed.

(** While a rediscovery is pending no callback tears down again. *)
Lemma rediscovering_stays (evs : list Event) :
  preserves (λ s, isRediscovering s = true ∧ pollTimeout s = None)
            (λ e, isTeardownEffect e = false) (run evs).
Proof.
  apply preserves_run; try done.
  - intros s [Hr Hp]. rewrite triggerRediscovery_run, Hr. split; [done|by apply Forall_dbg].
  - intros s [Hr Hp]. rewrite pollCycleFinally_run, Hp. split; [done|by apply Forall_dbg].
Qed.

Lemma triggerTimes_guarded (n : nat) (s : State) :
  isRediscovering s = true →
  final (triggerTimes n s) = s ∧ forallb isLogLine (trace (triggerTimes n s)) = true.
Proof.
  intros Hr. induction n as [|n [IH1 IH2]]; [done|].
  cbn [triggerTimes]. munfold. rewrite triggerRediscovery_run, Hr.
  destruct (triggerTimes n s) as [[[] s2] t2]. cbn in *. subst s2.
  split; [done|]. rewrite forallb_app, IH2. unfold dbg. by destruct (debug s).
Qed.

(** ** Recovery *)

(** C1: while a rediscovery is in progress ([isRediscovering] set), a
    call of [triggerRediscovery] returns at once: the state is unchanged
    and the only output is the debug line.  The same holds for any number
    of calls in a row and for every origin of the call (listener error,
    renewal failure, missing device handle, poll failure threshold, where
    the poll only counts the failure in the record it holds).  No callback
    that runs before the restart timer clears a timer, removes listeners,
    stops the listener or sets a timer, and the marker stays set until
    the restart timer's callback resets it. *)
Theorem triggerRediscovery_guarded (s : State) :
  isRediscovering s = true →
  triggerRediscovery s = (tt, s, dbg s MsgRediscoveryInProgress) ∧
  (∀ n, final (triggerTimes n s) = s ∧
        forallb isLogLine (trace (triggerTimes n s)) = true) ∧
  handleListenerError s =
    (tt, s, ELog LError MsgHandlingListenerError :: dbg s MsgRediscoveryInProgress) ∧
  (∀ g, renewal_catch g s =
    (tt, s, ELog LWarn (MsgRenewalFailed (Name g)) :: dbg s MsgRediscoveryInProgress)) ∧
  (∀ g, storedDevice s g = None →
    checkGroup g s =
      (tt, s, dbg s (MsgNoDeviceReference (Name g)) ++ dbg s MsgRediscoveryInProgress)) ∧
  (∀ p r h, heap s !! pp_health p = Some h → anySucceeded r = false →
    final (pollGroup_then p r s) =
      withRecord s (pp_health p)
        (set_consecutiveFailures (consecutiveFailures h + 1) h) ∧
    forallb isLogLine (trace (pollGroup_then p r s)) = true) ∧
  (pollTimeout s = None → ∀ evs,
    isRediscovering (final (run evs s)) = true ∧
    Forall (λ e, isTeardownEffect e = false) (trace (run evs s))) ∧
  isRediscovering (final (restartDiscovery s)) = false.
Proof.
  intros Hr.
  assert (Ht : triggerRediscovery s = (tt, s, dbg s MsgRediscoveryInProgress))
    by (by rewrite triggerRediscovery_run, Hr).
  repeat split.
  - exact Ht.
  - by apply triggerTimes_guarded.
  - by apply triggerTimes_guarded.
  - unfold handleListenerError. mstep. by rewrite Ht.
  - intros g. unfold renewal_catch. mstep. by rewrite Ht.
  - intros g Hd. unfold checkGroup. munfold. rewrite Hd. mstep.
    by rewrite Ht.
  - rewrite (pollGroup_then_failure p r s h) by done.
    cbn zeta. rewrite triggerRediscovery_run.
    change (isRediscovering (withRecord _ _ _)) with (isRediscovering s). rewrite Hr.
    by destruct (_ >=? _).
  - rewrite (pollGroup_then_failure p r s h) by done.
    cbn zeta. rewrite triggerRediscovery_run.
    change (isRediscovering (withRecord _ _ _)) with (isRediscovering s). rewrite Hr.
    destruct (_ >=? _); [|done].
    cbn. unfold dbg. by destruct (debug _).
  - by apply (rediscovering_stays evs s).
  - by apply (rediscovering_stays evs s).
Qed.

Lemma triggerRediscovery_guarded_witness :
  isRediscovering rediscovering = true ∧
  triggerRediscovery rediscovering =
    (tt, rediscovering, dbg rediscovering MsgRediscoveryInProgress).
Proof.
  split; [vm_compute; reflexivity|].
  apply (triggerRediscovery_guarded rediscovering). vm_compute. reflexivity.
Defined.

(** The teardown itself: it sets the marker and schedules one timer,
    the restart two seconds later. *)
Lemma teardown_schedules_restart (s : State) :
  isRediscovering s = false →
  isRediscovering (final (triggerRediscovery s)) = true ∧
  ∃ pre, trace (triggerRediscovery s) =
           pre ++ [ESetTimeout (nextObj s) RestartDiscovery 2000] ∧
         Forall (λ e, ∀ t cb ms, e ≠ ESetTimeout t cb ms) pre.
Proof.
  intros Hr. rewrite triggerRediscovery_run, Hr. split; [done|].
  cbn [trace snd]. unfold teardownTrace.
  rewrite app_comm_cons, !app_assoc. eexists. split; [reflexivity|].
  repeat (apply Forall_app; split); try by apply Forall_dbg.
  - constructor; [done|by apply Forall_dbg].
  - by destruct (subscriptionCheckTimer s); repeat constructor.
  - by destruct (pollTimeout s); repeat constructor.
  - by apply Forall_listenerRemovals.
  - by destruct (listening s); repeat constructor.
Qed.

(** ** The poll continuation *)

(** C3: when all four fetches of a group's poll fail, the record's
    failure counter goes up by exactly one, its stored track, volume,
    mute and play state (and device handle) keep their values, no
    notification is sent, and [triggerRediscovery] is called exactly when
    the new count has reached the maximum taken from the configuration
    at the start of the poll: below it the state differs from the old
    one in the counter only and the trace is the error line. *)
Theorem poll_total_failure (p : PendingPoll) (r : PollResults) (s : State) (h : Health) :
  heap s !! pp_health p = Some h →
  anySucceeded r = false →
  let res := pollGroup_then p r s in
  let h' := set_consecutiveFailures (consecutiveFailures h + 1) h in
  let s' := withRecord s (pp_health p) h' in
  let line := ELog LError (MsgPollFailed (Name (pp_group p)) (consecutiveFailures h + 1)
                             (pp_maxFailures p)) in
  heap (final res) !! pp_health p = Some h' ∧
  consecutiveFailures h' = consecutiveFailures h + 1 ∧
  lastTrack h' = lastTrack h ∧ lastVolume h' = lastVolume h ∧
  lastMuted h' = lastMuted h ∧ playState h' = playState h ∧
  device h' = device h ∧
  notifications (trace res) = [] ∧
  (consecutiveFailures h + 1 < pp_maxFailures p → res = (tt, s', [line])) ∧
  (consecutiveFailures h + 1 >= pp_maxFailures p →
     res = (tt, final (triggerRediscovery s'), line :: trace (triggerRediscovery s'))) ∧
  (∀ s0 g, result (pollGroup g s0) = Some p →
     pp_maxFailures p = or_default (config s0 ≫= cfg_maxConsecutiveFailures) 3).
Proof.
  intros Hh Hany res h' s' line. subst res.
  assert (Hmax : ∀ s0 g, result (pollGroup g s0) = Some p →
            pp_maxFailures p = or_default (config s0 ≫= cfg_maxConsecutiveFailures) 3).
  { intros s0 g. rewrite pollGroup_run. cbn zeta.
    destruct (groupHealth s0 !! ID g); [|done]. by intros [= <-]. }
  rewrite (pollGroup_then_failure p r s h Hh Hany). cbn zeta.
  fold h'. fold s'. fold line.
  destruct (consecutiveFailures h + 1 >=? pp_maxFailures p) eqn:Hge.
  - apply Z.geb_le in Hge.
    split; [|split; [|split; [|split; [|split; [|split; [|split; [|split; [|split; [|split]]]]]]]]];
      try done; try lia.
    + cbn [final fst snd]. rewrite triggerRediscovery_heap. apply withRecord_lookup.
    + cbn [trace snd]. change (line :: ?t) with ([line] ++ t).
      by rewrite notifications_app, triggerRediscovery_notifications.
  - assert (consecutiveFailures h + 1 < pp_maxFailures p).
    { destruct (Z.geb_spec (consecutiveFailures h + 1) (pp_maxFailures p)); [done|lia]. }
    split; [|split; [|split; [|split; [|split; [|split; [|split; [|split; [|split; [|split]]]]]]]]];
      try done; try lia.
    apply withRecord_lookup.
Qed.

Lemma poll_total_failure_witness :
  let p := mkPending kitchen 0%nat 3 in
  let r := mkResults Rejected Rejected Rejected Rejected in
  heap tracked !! pp_health p = Some (set_device (Some (mkDevice 2%nat "192.168.1.20")) initialHealth) ∧
  anySucceeded r = false ∧
  notifications (trace (pollGroup_then p r tracked)) = [].
Proof.
  intros p r.
  assert (H1 : heap tracked !! pp_health p =
               Some (set_device (Some (mkDevice 2%nat "192.168.1.20")) initialHealth))
    by (vm_compute; reflexivity).
  assert (H2 : anySucceeded r = false) by reflexivity.
  split; [exact H1|]. split; [exact H2|].
  apply (poll_total_failure p r tracked _ H1 H2).
Defined.

Lemma trackChanged_false (last : option Track) (track : Track) :
  trackChanged last track = false ↔ ∃ lt, last = Some lt ∧ sameMetadata lt track.
Proof.
  unfold trackChanged, sameMetadata. destruct last as [lt|].
  - rewrite !orb_false_iff, !negb_false_iff, !String.eqb_eq, Z.eqb_eq.
    split.
    + intros (((?&?)&?)&?). eauto 10.
    + intros (lt' & [= <-] & ? & ? & ? & ?). done.
  - split; [done|]. by intros (lt & ? & _).
Qed.

(** What a poll with at least one success does to the record and which
    notifications it sends, field by field. *)
Lemma poll_success_fields (p : PendingPoll) (r : PollResults) (s : State) (h : Health) :
  heap s !! pp_health p = Some h →
  anySucceeded r = true →
  let res := pollGroup_then p r s in
  ∃ h', final res = withRecord s (pp_health p) h' ∧
    consecutiveFailures h' = 0 ∧ device h' = device h ∧
    match r_track r with
    | Fulfilled (Some t) =>
        if trackChanged (lastTrack h) t
        then lastTrack h' = Some t ∧
             fieldNotifications FTrack (trace res) = [SET_SONOS_CURRENT_TRACK (pp_group p) t]
        else lastTrack h' = lastTrack h ∧ fieldNotifications FTrack (trace res) = []
    | _ => lastTrack h' = lastTrack h ∧ fieldNotifications FTrack (trace res) = []
    end ∧
    match r_volume r with
    | Fulfilled v =>
        lastVolume h' = Some v ∧
        fieldNotifications FVolume (trace res) =
          if bool_decide (lastVolume h = Some v) then []
          else [SET_SONOS_VOLUME (pp_group p) v]
    | Rejected => lastVolume h' = lastVolume h ∧ fieldNotifications FVolume (trace res) = []
    end ∧
    match r_muted r with
    | Fulfilled m =>
        lastMuted h' = Some m ∧
        fieldNotifications FMuted (trace res) =
          if bool_decide (lastMuted h = Some m) then []
          else [SET_SONOS_MUTE (pp_group p) m]
    | Rejected => lastMuted h' = lastMuted h ∧ fieldNotifications FMuted (trace res) = []
    end ∧
    match r_state r with
    | Fulfilled st =>
        playState h' = st ∧
        fieldNotifications FState (trace res) =
          if String.eqb (playState h) st then []
          else [SET_SONOS_PLAY_STATE (pp_group p) st]
    | Rejected => playState h' = playState h ∧ fieldNotifications FState (trace res) = []
    end.
Proof.
  intros Hh Hany res. subst res.
  rewrite (pollGroup_then_success p r s h Hh Hany). cbn [final trace fst snd].
  eexists. split; [reflexivity|].
  destruct p as [g l mx], r as [rt rv rm rs], h as [dv ps cf lt lv lm].
  unfold detectAll, detectTrack, detectVolume, detectMuted, detectState, dbg,
    fieldNotifications.
  cbn [r_track r_volume r_muted r_state pp_group pp_health lastTrack lastVolume
       lastMuted playState set_consecutiveFailures device consecutiveFailures].
  destruct (debug s), rt as [[t|]|], rv as [v|], rm as [m|], rs as [st|]; cbn;
    repeat (match goal with
            | |- context [trackChanged ?a ?b] => destruct (trackChanged a b) eqn:?
            | |- context [bool_decide ?P] => destruct (bool_decide_reflect P)
            | |- context [String.eqb ?a ?b] => destruct (String.eqb_spec a b)
            end; cbn);
    repeat split; congruence.
Qed.

(** C2: when at least one but not all of the four fetches of a group's
    poll succeed, the failure counter of the record is reset to 0; a
    field whose fetch failed keeps its stored value and no notification
    is sent for it; a field whose fetch succeeded is compared with the
    stored value, and exactly when it differs the record takes the new
    value and one notification for that field is sent (a track fetch
    that resolved to no track leaves the stored track alone). *)
Theorem poll_partial_success (p : PendingPoll) (r : PollResults) (s : State) (h : Health) :
  heap s !! pp_health p = Some h →
  anySucceeded r = true →
  allSucceeded r = false →
  let res := pollGroup_then p r s in
  ∃ h', final res = withRecord s (pp_health p) h' ∧
    heap (final res) !! pp_health p = Some h' ∧
    consecutiveFailures h' = 0 ∧
    match r_track r with
    | Fulfilled (Some t) =>
        if trackChanged (lastTrack h) t
        then lastTrack h' = Some t ∧
             fieldNotifications FTrack (trace res) = [SET_SONOS_CURRENT_TRACK (pp_group p) t]
        else lastTrack h' = lastTrack h ∧ fieldNotifications FTrack (trace res) = []
    | _ => lastTrack h' = lastTrack h ∧ fieldNotifications FTrack (trace res) = []
    end ∧
    match r_volume r with
    | Fulfilled v =>
        lastVolume h' = Some v ∧
        fieldNotifications FVolume (trace res) =
          if bool_decide (lastVolume h = Some v) then []
          else [SET_SONOS_VOLUME (pp_group p) v]
    | Rejected => lastVolume h' = lastVolume h ∧ fieldNotifications FVolume (trace res) = []
    end ∧
    match r_muted r with
    | Fulfilled m =>
        lastMuted h' = Some m ∧
        fieldNotifications FMuted (trace res) =
          if bool_decide (lastMuted h = Some m) then []
          else [SET_SONOS_MUTE (pp_group p) m]
    | Rejected => lastMuted h' = lastMuted h ∧ fieldNotifications FMuted (trace res) = []
    end ∧
    match r_state r with
    | Fulfilled st =>
        playState h' = st ∧
        fieldNotifications FState (trace res) =
          if String.eqb (playState h) st then []
          else [SET_SONOS_PLAY_STATE (pp_group p) st]
    | Rejected => playState h' = playState h ∧ fieldNotifications FState (trace res) = []
    end.
Proof.
  intros Hh Hany _ res.
  destruct (poll_success_fields p r s h Hh Hany) as (h' & Hfin & Hcf & _ & Hfields).
  exists h'. fold res in Hfin, Hfields.
  split; [exact Hfin|]. split; [rewrite Hfin; apply withRecord_lookup|].
  split; [exact Hcf|exact Hfields].
Qed.

Lemma poll_partial_success_witness :
  let p := mkPending kitchen 0%nat 3 in
  let r := mkResults Rejected (Fulfilled 30) Rejected (Fulfilled "playing"%string) in
  heap tracked !! pp_health p =
    Some (set_device (Some (mkDevice 2%nat "192.168.1.20")) initialHealth) ∧
  anySucceeded r = true ∧ allSucceeded r = false ∧
  ∃ h', heap (final (pollGroup_then p r tracked)) !! pp_health p = Some h' ∧
        consecutiveFailures h' = 0.
Proof.
  intros p r.
  assert (H1 : heap tracked !! pp_health p =
               Some (set_device (Some (mkDevice 2%nat "192.168.1.20")) initialHealth))
    by (vm_compute; reflexivity).
  assert (H2 : anySucceeded r = true) by reflexivity.
  assert (H3 : allSucceeded r = false) by reflexivity.
  split; [exact H1|]. split; [exact H2|]. split; [exact H3|].
  destruct (poll_partial_success p r tracked _ H1 H2 H3) as (h' & _ & Hl & Hc & _).
  exists h'. split; [exact Hl | exact Hc].
Defined.

(** C4: the poll decides that the track changed by comparing title,
    artist, album and duration with the stored track, and by nothing
    else.  For a poll whose track fetch delivered [track]: when the
    record stores a track with the same four values, no track
    notification is sent and the stored track object stays, whatever the
    two tracks' URI or position; a track notification is sent exactly
    when the record stores no track or one of the four values differs,
    and then it carries [track], which the record now stores. *)
Theorem track_change_by_metadata (p : PendingPoll) (r : PollResults) (s : State)
    (h : Health) (track : Track) :
  heap s !! pp_health p = Some h →
  r_track r = Fulfilled (Some track) →
  let res := pollGroup_then p r s in
  (∀ lt, lastTrack h = Some lt → sameMetadata lt track →
     fieldNotifications FTrack (trace res) = [] ∧
     lastTrack <$> heap (final res) !! pp_health p = Some (Some lt)) ∧
  (fieldNotifications FTrack (trace res) ≠ [] ↔
     lastTrack h = None ∨
     ∃ lt, lastTrack h = Some lt ∧
       (title lt ≠ title track ∨ artist lt ≠ artist track ∨
        album lt ≠ album track ∨ duration lt ≠ duration track)) ∧
  (fieldNotifications FTrack (trace res) ≠ [] →
     fieldNotifications FTrack (trace res) = [SET_SONOS_CURRENT_TRACK (pp_group p) track] ∧
     lastTrack <$> heap (final res) !! pp_health p = Some (Some track)).
Proof.
  intros Hh Ht res.
  assert (Hany : anySucceeded r = true) by (unfold anySucceeded; by rewrite Ht).
  destruct (poll_success_fields p r s h Hh Hany) as (h' & Hfin & _ & _ & Htr & _).
  fold res in Hfin, Htr. rewrite Ht in Htr. rewrite Hfin, withRecord_lookup. cbn [fmap option_fmap option_map].
  destruct (trackChanged (lastTrack h) track) eqn:Hc; destruct Htr as [Hl Hn]; rewrite Hn, Hl.
  - assert (Hnot : ¬ ∃ lt, lastTrack h = Some lt ∧ sameMetadata lt track).
    { rewrite <- trackChanged_false. congruence. }
    split; [|split].
    + intros lt Hlt Hsame. destruct Hnot. eauto.
    + split; [intros _|done].
      destruct (lastTrack h) as [lt|] eqn:Hlt; [right|by left].
      exists lt. split; [done|].
      destruct (decide (title lt = title track)); [|tauto].
      destruct (decide (artist lt = artist track)); [|tauto].
      destruct (decide (album lt = album track)); [|tauto].
      destruct (decide (duration lt = duration track)); [|tauto].
      destruct Hnot. exists lt. by repeat split.
    + done.
  - apply trackChanged_false in Hc as (lt0 & Hlt0 & Hsame0).
    split; [|split].
    + intros lt Hlt _. split; [done|congruence].
    + split; [done|].
      intros [Hnone | (lt & Hlt & Hdiff)]; [congruence|].
      assert (lt = lt0) by congruence. subst lt0.
      destruct Hsame0 as (?&?&?&?). tauto.
    + done.
Qed.

Lemma track_change_by_metadata_witness :
  let p := mkPending kitchen 0%nat 3 in
  let r := mkResults (Fulfilled (Some song1)) Rejected Rejected Rejected in
  heap tracked !! pp_health p =
    Some (set_device (Some (mkDevice 2%nat "192.168.1.20")) initialHealth) ∧
  r_track r = Fulfilled (Some song1) ∧
  (fieldNotifications FTrack (trace (pollGroup_then p r tracked)) ≠ [] ↔
     lastTrack (set_device (Some (mkDevice 2%nat "192.168.1.20")) initialHealth) = None ∨
     ∃ lt, lastTrack (set_device (Some (mkDevice 2%nat "192.168.1.20")) initialHealth) = Some lt ∧
       (title lt ≠ title song1 ∨ artist lt ≠ artist song1 ∨
        album lt ≠ album song1 ∨ duration lt ≠ duration song1)).
Proof.
  intros p r.
  assert (H1 : heap tracked !! pp_health p =
               Some (set_device (Some (mkDevice 2%nat "192.168.1.20")) initialHealth))
    by (vm_compute; reflexivity).
  split; [exact H1|]. split; [reflexivity|].
  apply (track_change_by_metadata p r tracked _ song1 H1 eq_refl).
Defined.

(** The same track under another URI is not a change. *)
Example same_metadata_other_uri :
  let other := {| title := "Song1"; artist := "ArtistX"; album := "AlbumY";
                  duration := 180; uri := "x-rincon-stream:other"; position := 42 |} in
  other ≠ song1 ∧ trackChanged (Some song1) other = false.
Proof. split; [discriminate|reflexivity]. Qed.

(** ** Adaptive interval *)

Lemma isAnyGroupPlaying_spec (s : State) :
  isAnyGroupPlaying s = true ↔ somePlaying s.
Proof.
  unfold isAnyGroupPlaying, healthValues, somePlaying.
  rewrite existsb_exists. split.
  - intros (h & Hin & Hp). apply list_elem_of_In, list_elem_of_omap in Hin.
    destruct Hin as ([gid l] & Hgl & Hh). apply elem_of_map_to_list in Hgl.
    apply String.eqb_eq in Hp. eauto 10.
  - intros (gid & l & h & Hg & Hh & Hp). exists h. split.
    + apply list_elem_of_In, list_elem_of_omap. exists (gid, l).
      split; [by apply elem_of_map_to_list|done].
    + by apply String.eqb_eq.
Qed.

(** C5, as the code has it: the delay is the playing interval when some
    tracked group's record says "playing" and the idle interval
    otherwise, where each interval is the configured number, or its
    default (15000 playing, 60000 idle) when the configuration leaves it
    out or gives zero.  With 15000 and 60000 configured, one playing
    group gives 15000 and no playing group gives 60000. *)
Theorem polling_interval_adaptive (s : State) (c : Config) :
  config s = Some c →
  let playingInterval := or_default (cfg_pollingIntervalPlaying c) 15000 in
  let idleInterval := or_default (cfg_pollingIntervalIdle c) 60000 in
  (somePlaying s → getPollingInterval s = playingInterval) ∧
  (¬ somePlaying s → getPollingInterval s = idleInterval) ∧
  (∀ p, cfg_pollingIntervalPlaying c = Some p → p ≠ 0 → playingInterval = p) ∧
  (∀ i, cfg_pollingIntervalIdle c = Some i → i ≠ 0 → idleInterval = i) ∧
  (cfg_pollingIntervalPlaying c = Some 15000 → cfg_pollingIntervalIdle c = Some 60000 →
     (somePlaying s → getPollingInterval s = 15000) ∧
     (¬ somePlaying s → getPollingInterval s = 60000)).
Proof.
  intros Hc pI iI.
  assert (Hp : somePlaying s → getPollingInterval s = pI).
  { intros H. apply isAnyGroupPlaying_spec in H.
    unfold getPollingInterval. by rewrite H, Hc. }
  assert (Hi : ¬ somePlaying s → getPollingInterval s = iI).
  { intros H. rewrite <- isAnyGroupPlaying_spec in H.
    unfold getPollingInterval. destruct (isAnyGroupPlaying s); [done|by rewrite Hc]. }
  split; [exact Hp|]. split; [exact Hi|]. split; [|split].
  - intros p Hcp Hne. subst pI. rewrite Hcp. cbn.
    by destruct (Z.eqb_spec p 0).
  - intros i Hci Hne. subst iI. rewrite Hci. cbn.
    by destruct (Z.eqb_spec i 0).
  - intros H1 H2. subst pI iI. rewrite H1 in Hp. rewrite H2 in Hi. done.
Qed.

Lemma polling_interval_adaptive_witness :
  config kitchenPlaying = Some exampleConfig ∧
  (somePlaying kitchenPlaying → getPollingInterval kitchenPlaying = 15000).
Proof.
  assert (H : config kitchenPlaying = Some exampleConfig) by (vm_compute; reflexivity).
  split; [exact H|].
  apply (polling_interval_adaptive kitchenPlaying exampleConfig H); reflexivity.
Defined.

Example one_playing_15000 :
  somePlaying kitchenPlaying ∧ getPollingInterval kitchenPlaying = 15000.
Proof.
  split; [|vm_compute; reflexivity].
  apply isAnyGroupPlaying_spec. vm_compute. reflexivity.
Qed.

Example all_idle_60000 :
  ¬ somePlaying tracked ∧ getPollingInterval tracked = 60000.
Proof.
  split; [|vm_compute; reflexivity].
  rewrite <- isAnyGroupPlaying_spec. vm_compute. discriminate.
Qed.

(** C5 as stated fails: with an idle interval of zero configured and no
    group playing, the delay is 60000, not the configured zero; the
    start-up under that configuration sets its poll timer to 60000. *)
Lemma idle_interval_zero_not_used :
  isAnyGroupPlaying zeroIdle = false ∧
  configuredInterval (isAnyGroupPlaying zeroIdle) zeroIdle = Some 0 ∧
  getPollingInterval zeroIdle = 60000 ∧
  configuredInterval (isAnyGroupPlaying zeroIdle) zeroIdle
    ≠ Some (getPollingInterval zeroIdle) ∧
  List.filter isPollTimer
    (trace (startHybrid [kitchen; den] (set_config (Some zeroIdleConfig) discovered))) =
    [ESetTimeout 4%nat PollTimerFired 60000].
Proof. vm_compute. repeat split; discriminate. Qed.

(** ** Control commands *)

(** A command for a group id under which [groupsById] has no property,
    own or inherited, logs the error and returns: the state is unchanged
    and the trace holds the log line only, so no device call is made. *)
Lemma absent_group_is_ignored (s : State) (groupId : string) (volume : JsValue) :
  getProperty (groupsById s) groupId = Undefined →
  handleTogglePlayPause groupId s = (tt, s, [ELog LError (MsgGroupNotFound groupId)]) ∧
  handleNext groupId s = (tt, s, [ELog LError (MsgGroupNotFound groupId)]) ∧
  handleSetVolume groupId volume s = (tt, s, [ELog LError (MsgGroupNotFound groupId)]) ∧
  deviceCalls (trace (handleTogglePlayPause groupId s)) = [] ∧
  deviceCalls (trace (handleNext groupId s)) = [] ∧
  deviceCalls (trace (handleSetVolume groupId volume s)) = [].
Proof.
  intros H.
  unfold handleTogglePlayPause, handleNext, handleSetVolume. munfold.
  rewrite H. by repeat split.
Qed.

Lemma getProperty_Undefined (m : gmap string Group) (groupId : string) :
  getProperty m groupId = Undefined ↔ m !! groupId = None ∧ groupId ∉ objectPrototypeNames.
Proof.
  unfold getProperty. destruct (m !! groupId); [by split; [|intros [? _]]|].
  case_bool_decide; split; try done. by intros [_ ?].
Qed.

(** C10 does not hold for every id that is not a key of [groupsById]:
    ["constructor"] is no key, yet the lookup finds the member every
    object inherits, so the three handlers do not log the error.
    [handleTogglePlayPause] and [handleNext] throw at
    [group.CoordinatorDevice()]; [handleSetVolume] throws there too
    when the volume parses, and logs the invalid volume when it does
    not.  No device call is made and the state is unchanged. *)
Theorem inherited_name_is_not_ignored :
  groupsById tracked !! "constructor"%string = None ∧
  handleTogglePlayPause "constructor" tracked = (tt, tracked, [EThrow TypeError]) ∧
  handleNext "constructor" tracked = (tt, tracked, [EThrow TypeError]) ∧
  handleSetVolume "constructor" (JNumber (Int 40)) tracked =
    (tt, tracked, [EThrow TypeError]) ∧
  handleSetVolume "constructor" (JString "abc") tracked =
    (tt, tracked, [ELog LError MsgInvalidVolume]).
Proof. repeat split; vm_compute; reflexivity. Qed.

(** ** Push events and the poll on one record *)

Lemma syncHealth_run (s : State) (gid : string) (l : loc) (h : Health)
    (f : Health → Health) :
  groupHealth s !! gid = Some l → heap s !! l = Some h →
  syncHealth gid f s = (tt, withRecord s l (f h), []).
Proof.
  intros Hg Hh. unfold syncHealth. munfold. rewrite Hg.
  rewrite <- (withRecord_id s l h Hh) at 1. by rewrite updHealth_run.
Qed.

#[global] Arguments syncHealth : simpl never.

(** C8, as the code has it: a push event always sends its notification
    and, when the group has a record, stores the received value in it;
    the next poll of that group works on the same record, and when it
    then observes an equal value (the same title, artist, album and
    duration for a track) it sends no notification for that field. *)
Theorem push_then_poll_no_duplicate (s : State) (g : Group) (l : loc) (h : Health) :
  groupHealth s !! ID g = Some l →
  heap s !! l = Some h →
  (∀ v,
     let push := onVolume g v s in
     notifications (trace push) = [SET_SONOS_VOLUME g v] ∧
     final push = withRecord s l (set_lastVolume (Some v) h) ∧
     (∃ p, result (pollGroup g (final push)) = Some p ∧ pp_health p = l) ∧
     ∀ p r, pp_health p = l → r_volume r = Fulfilled v →
       fieldNotifications FVolume (trace (pollGroup_then p r (final push))) = []) ∧
  (∀ m,
     let push := onMuted g m s in
     notifications (trace push) = [SET_SONOS_MUTE g m] ∧
     final push = withRecord s l (set_lastMuted (Some m) h) ∧
     ∀ p r, pp_health p = l → r_muted r = Fulfilled m →
       fieldNotifications FMuted (trace (pollGroup_then p r (final push))) = []) ∧
  (∀ st,
     let push := onPlayState g st s in
     notifications (trace push) = [SET_SONOS_PLAY_STATE g st] ∧
     final push = withRecord s l (set_playState st h) ∧
     ∀ p r, pp_health p = l → r_state r = Fulfilled st →
       fieldNotifications FState (trace (pollGroup_then p r (final push))) = []) ∧
  (∀ t,
     let push := onCurrentTrack g t s in
     notifications (trace push) = [SET_SONOS_CURRENT_TRACK g t] ∧
     final push = withRecord s l (set_lastTrack (Some t) h) ∧
     ∀ p r t', pp_health p = l → r_track r = Fulfilled (Some t') →
       sameMetadata t t' →
       fieldNotifications FTrack (trace (pollGroup_then p r (final push))) = []).
Proof.
  intros Hg Hh.
  split; [|split; [|split]].
  - intros v push.
    assert (Hrun : push = (tt, withRecord s l (set_lastVolume (Some v) h),
                           dbg s (MsgPushVolume (Name g) v) ++ [ESendSocketNotification (SET_SONOS_VOLUME g v)])).
    { subst push. unfold onVolume. mstep.
      rewrite (syncHealth_run s (ID g) l h _ Hg Hh). reflexivity. }
    rewrite Hrun. cbn [final trace fst snd].
    split; [by rewrite notifications_app, notifications_dbg|].
    split; [done|]. split.
    + rewrite pollGroup_run. cbn zeta.
      change (groupHealth (withRecord _ _ _)) with (groupHealth s). rewrite Hg.
      eexists. split; reflexivity.
    + intros p r Hp Hr.
      assert (Hany : anySucceeded r = true).
      { unfold anySucceeded. rewrite Hr. cbn. by rewrite orb_true_r. }
      subst l. pose proof (withRecord_lookup s (pp_health p) (set_lastVolume (Some v) h)) as Hl.
      destruct (poll_success_fields p r _ _ Hl Hany) as (h' & _ & _ & _ & _ & Hv & _).
      rewrite Hr in Hv. destruct Hv as [_ Hv]. rewrite Hv.
      cbn. by rewrite bool_decide_eq_true_2.
  - intros m push.
    assert (Hrun : push = (tt, withRecord s l (set_lastMuted (Some m) h),
                           dbg s (MsgPushMuted (Name g) m) ++ [ESendSocketNotification (SET_SONOS_MUTE g m)])).
    { subst push. unfold onMuted. mstep.
      rewrite (syncHealth_run s (ID g) l h _ Hg Hh). reflexivity. }
    rewrite Hrun. cbn [final trace fst snd].
    split; [by rewrite notifications_app, notifications_dbg|].
    split; [done|].
    intros p r Hp Hr.
    assert (Hany : anySucceeded r = true).
    { unfold anySucceeded. rewrite Hr. cbn. by rewrite orb_true_r. }
    subst l. pose proof (withRecord_lookup s (pp_health p) (set_lastMuted (Some m) h)) as Hl.
    destruct (poll_success_fields p r _ _ Hl Hany) as (h' & _ & _ & _ & _ & _ & Hm & _).
    rewrite Hr in Hm. destruct Hm as [_ Hm]. rewrite Hm.
    cbn. by rewrite bool_decide_eq_true_2.
  - intros st push.
    assert (Hrun : push = (tt, withRecord s l (set_playState st h),
                           [ELog LLog (MsgPushState (Name g) st);
                            ESendSocketNotification (SET_SONOS_PLAY_STATE g st)])).
    { subst push. unfold onPlayState. mstep.
      rewrite (syncHealth_run s (ID g) l h _ Hg Hh). reflexivity. }
    rewrite Hrun. cbn [final trace fst snd].
    split; [done|]. split; [done|].
    intros p r Hp Hr.
    assert (Hany : anySucceeded r = true).
    { unfold anySucceeded. rewrite Hr. cbn. by rewrite !orb_true_r. }
    subst l. pose proof (withRecord_lookup s (pp_health p) (set_playState st h)) as Hl.
    destruct (poll_success_fields p r _ _ Hl Hany) as (h' & _ & _ & _ & _ & _ & _ & Hs).
    rewrite Hr in Hs. destruct Hs as [_ Hs]. rewrite Hs.
    cbn. by rewrite String.eqb_refl.
  - intros t push.
    assert (Hrun : push = (tt, withRecord s l (set_lastTrack (Some t) h),
                           [ELog LLog (MsgPushTrack (Name g) (title t));
                            ESendSocketNotification (SET_SONOS_CURRENT_TRACK g t)])).
    { subst push. unfold onCurrentTrack. mstep.
      rewrite (syncHealth_run s (ID g) l h _ Hg Hh). reflexivity. }
    rewrite Hrun. cbn [final trace fst snd].
    split; [done|]. split; [done|].
    intros p r t' Hp Hr Hsame.
    assert (Hany : anySucceeded r = true).
    { unfold anySucceeded. by rewrite Hr. }
    subst l. pose proof (withRecord_lookup s (pp_health p) (set_lastTrack (Some t) h)) as Hl.
    destruct (poll_success_fields p r _ _ Hl Hany) as (h' & _ & _ & _ & Ht & _).
    rewrite Hr in Ht.
    assert (Hc : trackChanged (lastTrack (set_lastTrack (Some t) h)) t' = false).
    { apply trackChanged_false. by exists t. }
    rewrite Hc in Ht. by destruct Ht.
Qed.

Lemma push_then_poll_no_duplicate_witness :
  groupHealth tracked !! ID kitchen = Some 0%nat ∧
  heap tracked !! 0%nat =
    Some (set_device (Some (mkDevice 2%nat "192.168.1.20")) initialHealth) ∧
  ∀ p r, pp_health p = 0%nat → r_volume r = Fulfilled 30 →
    fieldNotifications FVolume
      (trace (pollGroup_then p r (final (onVolume kitchen 30 tracked)))) = [].
Proof.
  assert (H1 : groupHealth tracked !! ID kitchen = Some 0%nat) by (vm_compute; reflexivity).
  assert (H2 : heap tracked !! 0%nat =
               Some (set_device (Some (mkDevice 2%nat "192.168.1.20")) initialHealth))
    by (vm_compute; reflexivity).
  split; [exact H1|]. split; [exact H2|].
  apply (push_then_poll_no_duplicate tracked kitchen 0%nat _ H1 H2).
Defined.

(** The end-to-end run of the specification: two groups are discovered
    and get their records, a push event reports the kitchen's track and
    is forwarded, and the poll that then observes the same track sends
    no track notification. *)
Example push_then_identical_poll :
  ∃ p, result (pollGroup kitchen (final (onCurrentTrack kitchen song1 tracked))) = Some p ∧
    notifications (trace (onCurrentTrack kitchen song1 tracked)) =
      [SET_SONOS_CURRENT_TRACK kitchen song1] ∧
    notifications
      (trace (pollGroup_then p
                (mkResults (Fulfilled (Some song1)) Rejected Rejected Rejected)
                (final (pollGroup kitchen (final (onCurrentTrack kitchen song1 tracked))))))
      = [].
Proof.
  exists (mkPending kitchen 0%nat 3). vm_compute. by repeat split.
Qed.

(** C8 as stated fails in the other order: a poll that is in flight
    reports volume 30 and sends the notification, then the push event for
    the same volume arrives and sends it again: two notifications for
    one value. *)
Lemma push_after_poll_duplicates :
  ∃ p, result (pollGroup kitchen tracked) = Some p ∧
    let r := mkResults Rejected (Fulfilled 30) Rejected Rejected in
    let tr := trace ((pollGroup_then p r ;; onVolume kitchen 30)
                       (final (pollGroup kitchen tracked))) in
    fieldNotifications FVolume tr =
      [SET_SONOS_VOLUME kitchen 30; SET_SONOS_VOLUME kitchen 30] ∧
    ¬ NoDup (fieldNotifications FVolume tr).
Proof.
  exists (mkPending kitchen 0%nat 3). split; [vm_compute; reflexivity|].
  intros r tr.
  assert (H : fieldNotifications FVolume tr =
              [SET_SONOS_VOLUME kitchen 30; SET_SONOS_VOLUME kitchen 30])
    by (vm_compute; reflexivity).
  split; [exact H|]. rewrite H. intros Hnd.
  apply NoDup_cons in Hnd as [Hnotin _]. apply Hnotin. by left.
Qed.

(** ** Subscription health check *)

Lemma renewDeviceSubscriptions_run (dev : Device) (g : Group) (s : State) :
  renewDeviceSubscriptions dev g s =
    match findDeviceSubscription s dev with
    | Some sub =>
        (tt, s, dbg s (MsgDeviceInfo (Name g) (dev_host dev)) ++
                dbg s (MsgAttemptingRenewal (Name g)) ++
                [ERenewAllSubscriptions sub g (renewTimeout s)])
    | None =>
        (tt, final (triggerRediscovery s),
         dbg s (MsgDeviceInfo (Name g) (dev_host dev)) ++
         dbg s (MsgNoDeviceSubscription (Name g)) ++ trace (triggerRediscovery s))
    end.
Proof.
  unfold renewDeviceSubscriptions. mstep.
  destruct (findDeviceSubscription s dev); mstep; [reflexivity|].
  by destruct (triggerRediscovery s) as [[[] s2] t2].
Qed.

Lemma checkGroup_run (g : Group) (s : State) :
  checkGroup g s =
    match storedDevice s g with
    | Some dev => renewDeviceSubscriptions dev g s
    | None =>
        (tt, final (triggerRediscovery s),
         dbg s (MsgNoDeviceReference (Name g)) ++ trace (triggerRediscovery s))
    end.
Proof.
  unfold checkGroup. munfold.
  destruct (storedDevice s g).
  - by destruct (renewDeviceSubscriptions d g s) as [[[] s2] t2].
  - mstep. by destruct (triggerRediscovery s) as [[[] s2] t2].
Qed.

#[global] Arguments checkGroup : simpl never.
#[global] Arguments renewDeviceSubscriptions : simpl never.
#[global] Arguments isAnyGroupPlaying : simpl never.

Lemma subscriptionCheckTick_run (s : State) :
  subscriptionCheckTick s =
    if negb (isAnyGroupPlaying s) then
      (tt, s, dbg s MsgHealthCheckTriggered ++ dbg s MsgSkippingCheckNotPlaying)
    else if Nat.eqb (length (groups s)) 0 then
      (tt, s, dbg s MsgHealthCheckTriggered ++ dbg s MsgNoGroupsToCheck)
    else
      (tt, final (forEach checkGroup (groups s) s),
       dbg s MsgHealthCheckTriggered ++
       dbg s (MsgRunningHealthCheck (length (groups s))) ++
       dbg s (MsgListenerSubscriptions (length (default [] (deviceSubscriptions s)))) ++
       trace (forEach checkGroup (groups s) s)).
Proof.
  unfold subscriptionCheckTick. mstep.
  destruct (isAnyGroupPlaying s); cbn [negb]; mstep; [|reflexivity].
  destruct (Nat.eqb _ _); mstep; [reflexivity|].
  by destruct (forEach checkGroup (groups s) s) as [[[] s2] t2].
Qed.

(** When every group has its handle and the listener knows it, a check
    starts one renewal per group and changes nothing. *)
Lemma healthy_check_renews_all (s : State) (gs : list Group) :
  Forall (λ g, ∃ dev sub, storedDevice s g = Some dev ∧
                          findDeviceSubscription s dev = Some sub) gs →
  final (forEach checkGroup gs s) = s ∧
  (renewals (trace (forEach checkGroup gs s))).*1.*2 = gs.
Proof.
  induction 1 as [|g gs (dev & sub & Hd & Hsub) _ [IH1 IH2]]; [done|].
  cbn [forEach]. munfold.
  rewrite checkGroup_run, Hd, renewDeviceSubscriptions_run, Hsub.
  destruct (forEach checkGroup gs s) as [[[] s2] t2]. cbn in *.
  split; [done|]. unfold renewals, dbg in *.
  rewrite !omap_app. destruct (debug s); cbn; by rewrite IH2.
Qed.

Lemma startSubscriptionHealthCheck_run (s : State) :
  startSubscriptionHealthCheck s =
    if negb (autoResubscribe s) then (tt, s, dbg s MsgAutoResubscribeDisabled)
    else
      let checkInterval := or_default (config s ≫= cfg_subscriptionCheckInterval) 300000 in
      (tt, set_subscriptionCheckTimer (Some (nextObj s)) (set_nextObj (S (nextObj s)) s),
       from_option (λ t, [EClearInterval t]) [] (subscriptionCheckTimer s) ++
       [ESetInterval (nextObj s) SubscriptionCheckTick checkInterval;
        ELog LLog (MsgHealthCheckStarted checkInterval)]).
Proof.
  unfold startSubscriptionHealthCheck. mstep.
  destruct (autoResubscribe s); cbn [negb]; mstep; [|reflexivity].
  by destruct (subscriptionCheckTimer s).
Qed.

Example check_renews_when_playing :
  renewals (trace (subscriptionCheckTick kitchenPlaying)) =
    [(mkDevice 2%nat "192.168.1.20", kitchen, 5000);
     (mkDevice 3%nat "192.168.1.21", den, 5000)] ∧
  final (subscriptionCheckTick kitchenPlaying) = kitchenPlaying.
Proof. split; vm_compute; reflexivity. Qed.

Example check_idle_is_silent :
  subscriptionCheckTick tracked = (tt, tracked, []).
Proof. vm_compute. reflexivity. Qed.

(** ** Setting the volume *)

Lemma leadingDigits_of_uint_acc (d : Decimal.uint) (acc : positive) :
  leadingDigits (DecimalString.NilEmpty.string_of_uint d) (Some (Z.pos acc)) =
    Some (Z.pos (Pos.of_uint_acc d acc)).
Proof.
  revert acc. induction d as [|d IH|d IH|d IH|d IH|d IH|d IH|d IH|d IH|d IH|d IH];
    intros acc; [reflexivity|..];
    cbn [DecimalString.NilEmpty.string_of_uint leadingDigits Pos.of_uint_acc];
    change (digitValue _) with (Some 0) || change (digitValue _) with (Some 1) ||
    change (digitValue _) with (Some 2) || change (digitValue _) with (Some 3) ||
    change (digitValue _) with (Some 4) || change (digitValue _) with (Some 5) ||
    change (digitValue _) with (Some 6) || change (digitValue _) with (Some 7) ||
    change (digitValue _) with (Some 8) || change (digitValue _) with (Some 9);
    cbn [default from_option]; unfold id; rewrite <- IH; do 2 f_equal; lia.
Qed.

Lemma leadingDigits_of_uint (d : Decimal.uint) :
  d ≠ Decimal.Nil →
  leadingDigits (DecimalString.NilEmpty.string_of_uint d) None =
    Some (Z.of_N (Pos.of_uint d)).
Proof.
  induction d as [|d IH|d IH|d IH|d IH|d IH|d IH|d IH|d IH|d IH|d IH];
    intros Hne; [done|..];
    cbn [DecimalString.NilEmpty.string_of_uint leadingDigits Pos.of_uint].
  1: { change (digitValue _) with (Some 0). cbn [default from_option]. unfold id.
       destruct d; try (by apply IH).
       reflexivity. }
  all: change (digitValue _) with (Some 1) ||
       change (digitValue _) with (Some 2) || change (digitValue _) with (Some 3) ||
       change (digitValue _) with (Some 4) || change (digitValue _) with (Some 5) ||
       change (digitValue _) with (Some 6) || change (digitValue _) with (Some 7) ||
       change (digitValue _) with (Some 8) || change (digitValue _) with (Some 9);
       cbn [default from_option]; unfold id; cbn [Z.mul Z.add];
       apply leadingDigits_of_uint_acc.
Qed.

(** Reading the digits of an integer gives the integer. *)
Lemma parseIntOfString_decimal (z : Z) : parseIntOfString (decimal z) = Int z.
Proof.
  unfold decimal.
  destruct z as [|p|p]; [reflexivity|..]; cbn [Z.to_int DecimalString.NilZero.string_of_int].
  - pose proof (DecimalPos.Unsigned.to_uint_nonnil p) as Hne.
    pose proof (DecimalPos.Unsigned.of_to p) as Hof.
    pose proof (leadingDigits_of_uint (Pos.to_uint p) Hne) as Hld.
    rewrite Hof in Hld.
    destruct (Pos.to_uint p) as [|d|d|d|d|d|d|d|d|d|d]; [done|..];
      unfold parseIntOfString;
      cbn [DecimalString.NilZero.string_of_uint DecimalString.NilEmpty.string_of_uint trimStart] in *;
      change (isWhiteSpace _) with false; cbv iota;
      rewrite Hld; f_equal; lia.
  - pose proof (DecimalPos.Unsigned.to_uint_nonnil p) as Hne.
    pose proof (DecimalPos.Unsigned.of_to p) as Hof.
    pose proof (leadingDigits_of_uint (Pos.to_uint p) Hne) as Hld.
    rewrite Hof in Hld.
    unfold parseIntOfString. cbn [trimStart]. change (isWhiteSpace "-") with false. cbv iota.
    destruct (Pos.to_uint p) as [|d|d|d|d|d|d|d|d|d|d]; [done|..];
      cbn [DecimalString.NilZero.string_of_uint] in *;
      rewrite Hld; f_equal; lia.
Qed.

(** Printing an integer that every double holds exactly and reading it
    back gives the integer. *)
Lemma parseInt_decimal (z : Z) :
  Z.abs z <= 2 ^ 53 → parseInt (JNumber (Int z)) = Int z.
Proof.
  intros Hz. unfold parseInt, ToString, numberToString.
  destruct (Z.leb_spec (Z.abs z) (2 ^ 53)); [|lia].
  apply parseIntOfString_decimal.
Qed.

Lemma roundToDouble_small (c : Z) : c < 2 ^ 53 → roundToDouble c = c.
Proof.
  intros Hc. unfold roundToDouble. cbv zeta.
  destruct (Z.ltb_spec (Z.log2 c) 53) as [_|Hb]; [done|].
  exfalso. destruct (Z.le_gt_cases c 0) as [Hn|Hp].
  - rewrite Z.log2_nonpos in Hb by done. lia.
  - apply Z.log2_le_pow2 in Hb; [lia|done].
Qed.

Lemma roundToDouble_large (c : Z) : 10 ^ 21 <= c → 10 ^ 21 <= roundToDouble c.
Proof.
  intros Hc. unfold roundToDouble. cbv zeta.
  assert (Hpos : 0 < c) by lia.
  assert (Hb : 69 <= Z.log2 c) by (apply Z.log2_le_pow2; [done|lia]).
  destruct (Z.ltb_spec (Z.log2 c) 53) as [?|_]; [lia|].
  destruct (Z.log2_spec c Hpos) as [Hlo _].
  generalize dependent (Z.log2 c). intros b Hb Hlo.
  assert (Hsh : 0 < 2 ^ (b - 52)) by (apply Z.pow_pos_nonneg; lia).
  assert (Hq : 10 ^ 21 <= c / 2 ^ (b - 52) * 2 ^ (b - 52)).
  { destruct (Z.eq_dec b 69) as [->|Hne].
    - change (2 ^ (69 - 52)) with 131072. change (10 ^ 21) with 1000000000000000000000 in *.
      pose proof (Z.div_mod c 131072). pose proof (Z.mod_pos_bound c 131072).
      assert (7629394531250000 <= c / 131072) by (apply Z.div_le_lower_bound; lia).
      lia.
    - assert (H70 : 2 ^ 70 <= 2 ^ b) by (apply Z.pow_le_mono_r; lia).
      assert (Hsplit : 2 ^ b = 2 ^ 52 * 2 ^ (b - 52)).
      { rewrite <- Z.pow_add_r by lia. f_equal. lia. }
      assert (Hdiv : 2 ^ 52 <= c / 2 ^ (b - 52)).
      { apply Z.div_le_lower_bound; [done|]. rewrite Z.mul_comm, <- Hsplit. exact Hlo. }
      assert (2 ^ 52 * 2 ^ (b - 52) <= c / 2 ^ (b - 52) * 2 ^ (b - 52))
        by (apply Z.mul_le_mono_nonneg_r; lia).
      change (10 ^ 21) with 1000000000000000000000.
      change (2 ^ 70) with 1180591620717411303424 in H70. lia. }
  destruct (_ || _); [|exact Hq].
  rewrite Z.mul_add_distr_r. lia.
Qed.

(** The decimal found reads back as the double, or is the number
    itself. *)
Lemma shortestFrom_reads_back (fuel : nat) (k v : Z) :
  shortestFrom fuel k v = v ∨ roundToDouble (shortestFrom fuel k v) = v.
Proof.
  revert k. induction fuel as [|fuel IH]; intros k; [by left|].
  cbn [shortestFrom]. cbv zeta.
  destruct (Z.eqb_spec (roundToDouble (v / 10 ^ (digitCount v - k) * 10 ^ (digitCount v - k))) v)
    as [Hlo|_];
  destruct (Z.eqb_spec (roundToDouble (v / 10 ^ (digitCount v - k) * 10 ^ (digitCount v - k) +
                                      10 ^ (digitCount v - k))) v) as [Hhi|_].
  - destruct (_ <? _); [by right|].
    destruct (_ <? _); [by right|].
    destruct (Z.even _); by right.
  - by right.
  - by right.
  - apply IH.
Qed.

(** From 10^21 on a number is printed with an exponent, and [parseInt]
    reads the digits before the point or the [e]. *)
Example numberToString_exponent :
  numberToString (10 ^ 21) = "1e+21"%string ∧
  numberToString (2 ^ 70) = "1.1805916207174113e+21"%string ∧
  roundToDouble (10 ^ 21 - 1) = 10 ^ 21 ∧
  numberToString (2 ^ 69) = "590295810358705700000"%string ∧
  numberToString (2 ^ 64) = "18446744073709552000"%string ∧
  parseInt (JNumber (Int (10 ^ 21))) = Int 1 ∧
  parseInt (JNumber (Int (- 2 ^ 70))) = Int (-1).
Proof. repeat split; vm_compute; reflexivity. Qed.

(** An integer below 10^21 in magnitude is printed in full; what
    [parseInt] reads back is clamped by the helper like the integer. *)
Lemma parseInt_number (z : Z) :
  Z.abs z < 10 ^ 21 →
  ∃ c, parseInt (JNumber (Int z)) = Int c ∧
       Z.max 0 (Z.min 100 c) = Z.max 0 (Z.min 100 z).
Proof.
  intros Hz. destruct (Z.le_gt_cases (Z.abs z) (2 ^ 53)) as [Hs|Hl].
  { exists z. split; [by apply parseInt_decimal|done]. }
  unfold parseInt, ToString, numberToString.
  destruct (Z.leb_spec (Z.abs z) (2 ^ 53)); [lia|].
  cbv zeta. unfold shortestDecimal.
  pose proof (shortestFrom_reads_back 17 1 (Z.abs z)) as Hc.
  set (c := shortestFrom 17 1 (Z.abs z)) in *.
  assert (Hge : 2 ^ 53 <= c).
  { destruct (Z.le_gt_cases (2 ^ 53) c) as [?|Hlt]; [done|].
    rewrite (roundToDouble_small c) in Hc by lia. lia. }
  assert (Hlt : c < 10 ^ 21).
  { destruct (Z.lt_ge_cases c (10 ^ 21)) as [?|Hbig]; [done|].
    pose proof (roundToDouble_large c Hbig). lia. }
  destruct (Z.ltb_spec c (10 ^ 21)); [|lia].
  exists (Z.sgn z * c). split; [apply parseIntOfString_decimal|].
  change (2 ^ 53) with 9007199254740992 in *.
  destruct (Z.sgn_spec z) as [[? ->]|[[? ->]|[? ->]]]; lia.
Qed.

Lemma parseInt_cases (v : JsValue) : parseInt v = NaN ∨ ∃ z, parseInt v = Int z.
Proof.
  unfold parseInt, parseIntOfString.
  destruct (match trimStart (ToString v) with
            | String "-" rest => (-1, rest)
            | String "+" rest => (1, rest)
            | _ => (1, trimStart (ToString v))
            end) as [sign str].
  destruct (leadingDigits str None); eauto.
Qed.

#[global] Arguments parseInt : simpl never.

Lemma handleSetVolume_run (groupId : string) (volume : JsValue) (s : State) (g : Group) :
  groupsById s !! groupId = Some g →
  handleSetVolume groupId volume s =
    match parseInt volume with
    | Int z =>
        (tt, set_nextObj (S (nextObj s)) s,
         [EDeviceCall (mkDevice (nextObj s) (host g))
            (setVolume (Int (Z.max 0 (Z.min 100 z)))) None])
    | _ => (tt, s, [ELog LError MsgInvalidVolume])
    end.
Proof.
  intros Hg. unfold handleSetVolume, getProperty. munfold. rewrite Hg.
  destruct (parseInt_cases volume) as [Hn | [z Hz]].
  - by rewrite Hn.
  - rewrite Hz. cbn [Math_min Math_max isNaN]. mstep.
    reflexivity.
Qed.

(** C9, as the code has it: [handleSetVolume] forwards
    [parseInt(volume, 10)] clamped into 0..100 and makes no device call
    exactly when [parseInt] yields [NaN].  Whatever the input, a
    forwarded volume is an integer between 0 and 100; an integer [z] is
    forwarded as [z] clamped, so 150 as 100 and a negative integer as 0;
    "abc" is rejected without a call; but a string that merely starts
    with an integer, such as "12abc", is forwarded as that integer. *)
Theorem setVolume_clamps (s : State) (groupId : string) (g : Group) (volume : JsValue) :
  groupsById s !! groupId = Some g →
  let calls := deviceCalls (trace (handleSetVolume groupId volume s)) in
  (∀ op, op ∈ calls → ∃ c, op = setVolume (Int c) ∧ 0 <= c <= 100) ∧
  (∀ z, parseInt volume = Int z → calls = [setVolume (Int (Z.max 0 (Z.min 100 z)))]) ∧
  (parseInt volume = NaN →
     handleSetVolume groupId volume s = (tt, s, [ELog LError MsgInvalidVolume])) ∧
  (calls = [] ↔ parseInt volume = NaN) ∧
  (∀ z, Z.abs z < 10 ^ 21 → volume = JNumber (Int z) →
     calls = [setVolume (Int (Z.max 0 (Z.min 100 z)))]) ∧
  (volume = JNumber (Int 150) → calls = [setVolume (Int 100)]) ∧
  (∀ z, - 10 ^ 21 < z < 0 → volume = JNumber (Int z) → calls = [setVolume (Int 0)]) ∧
  (volume = JString "abc" → calls = []) ∧
  (volume = JString "12abc" → calls = [setVolume (Int 12)]).
Proof.
  intros Hg calls.
  assert (Hint : ∀ z, parseInt volume = Int z →
                      calls = [setVolume (Int (Z.max 0 (Z.min 100 z)))]).
  { intros z Hz. subst calls. by rewrite (handleSetVolume_run _ _ _ _ Hg), Hz. }
  assert (Hnan : parseInt volume = NaN → calls = []).
  { intros Hn. subst calls. by rewrite (handleSetVolume_run _ _ _ _ Hg), Hn. }
  split; [|split; [|split; [|split; [|split; [|split; [|split; [|split]]]]]]].
  - intros op Hop. destruct (parseInt_cases volume) as [Hn | [z Hz]].
    + rewrite (Hnan Hn) in Hop. by apply elem_of_nil in Hop.
    + rewrite (Hint z Hz) in Hop. apply list_elem_of_singleton in Hop.
      exists (Z.max 0 (Z.min 100 z)). split; [done|lia].
  - exact Hint.
  - intros Hn. by rewrite (handleSetVolume_run _ _ _ _ Hg), Hn.
  - split; [|exact Hnan].
    intros Hc. destruct (parseInt_cases volume) as [Hn | [z Hz]]; [done|].
    rewrite (Hint z Hz) in Hc. discriminate Hc.
  - intros z Hz ->. destruct (parseInt_number z Hz) as (c & Hc & Hcl).
    by rewrite (Hint c Hc), Hcl.
  - intros ->. apply (Hint 150). reflexivity.
  - intros z Hz ->.
    assert (Hb : Z.abs z < 10 ^ 21) by lia.
    destruct (parseInt_number z Hb) as (c & Hc & Hcl).
    rewrite (Hint c Hc), Hcl. do 2 f_equal. f_equal. lia.
  - intros ->. apply Hnan. reflexivity.
  - intros ->. apply (Hint 12). reflexivity.
Qed.

Lemma setVolume_clamps_witness :
  groupsById tracked !! "RINCON_A"%string = Some kitchen ∧
  deviceCalls (trace (handleSetVolume "RINCON_A" (JNumber (Int 150)) tracked)) =
    [setVolume (Int 100)].
Proof.
  assert (H : groupsById tracked !! "RINCON_A"%string = Some kitchen)
    by (vm_compute; reflexivity).
  split; [exact H|].
  apply (setVolume_clamps tracked "RINCON_A" kitchen (JNumber (Int 150)) H).
  reflexivity.
Defined.

(** C9 as stated fails for the non-numeric string "12abc": the call is
    made, with volume 12. *)
Lemma non_numeric_prefix_is_forwarded :
  isNumeric (JString "12abc") = false ∧
  deviceCalls (trace (handleSetVolume "RINCON_A" (JString "12abc") tracked)) =
    [setVolume (Int 12)] ∧
  deviceCalls (trace (handleSetVolume "RINCON_A" (JString "12abc") tracked)) ≠ [].
Proof. vm_compute. repeat split; discriminate. Qed.

Example numeric_inputs :
  isNumeric (JNumber (Int 150)) = true ∧ isNumeric (JString "-7") = true ∧
  isNumeric (JString "45.5") = true ∧ isNumeric (JString "abc") = false ∧
  isNumeric JNull = false ∧ isNumeric (JString "") = false.
Proof. by vm_compute. Qed.

(** * Further properties of the helper *)

(** ** Sequencing *)

Lemma forEach_app {A} (f : A → M unit) (xs ys : list A) (s : State) :
  forEach f (xs ++ ys) s =
    (tt, final (forEach f ys (final (forEach f xs s))),
     trace (forEach f xs s) ++ trace (forEach f ys (final (forEach f xs s)))).
Proof.
  revert s. induction xs as [|x xs IH]; intros s; cbn [forEach app].
  - cbn. by destruct (forEach f ys s) as [[[] s2] t2].
  - munfold. destruct (f x s) as [[[] s1] t1]. rewrite IH.
    destruct (forEach f xs s1) as [[[] s2] t2]. cbn.
    destruct (forEach f ys s2) as [[[] s3] t3]. cbn. by rewrite app_assoc.
Qed.

(** ** During a rediscovery *)

(** X1: a teardown leaves [groupsById] alone, so the control commands
    still reach the coordinator of every group known before it; a
    volume given as an integer of magnitude below 10^21 is forwarded
    clamped into 0..100. *)
Theorem commands_survive_teardown (s : State) (groupId : string) (g : Group) :
  isRediscovering s = false →
  groupsById s !! groupId = Some g →
  let s' := final (triggerRediscovery s) in
  groupsById s' = groupsById s ∧
  trace (handleTogglePlayPause groupId s') =
    [EDeviceCall (mkDevice (nextObj s') (host g)) togglePlayback None] ∧
  trace (handleNext groupId s') =
    [EDeviceCall (mkDevice (nextObj s') (host g)) next None] ∧
  ∀ z, Z.abs z < 10 ^ 21 →
    trace (handleSetVolume groupId (JNumber (Int z)) s') =
      [EDeviceCall (mkDevice (nextObj s') (host g))
         (setVolume (Int (Z.max 0 (Z.min 100 z)))) None].
Proof.
  intros Hr Hg s'.
  assert (Hg' : groupsById s' !! groupId = Some g).
  { subst s'. by rewrite triggerRediscovery_run, Hr. }
  split; [subst s'; by rewrite triggerRediscovery_run, Hr|].
  split; [|split].
  - unfold handleTogglePlayPause, getProperty. munfold. rewrite Hg'. by mstep.
  - unfold handleNext, getProperty. munfold. rewrite Hg'. by mstep.
  - intros z Hz. destruct (parseInt_number z Hz) as (c & Hc & Hcl).
    by rewrite (handleSetVolume_run _ _ _ _ Hg'), Hc, Hcl.
Qed.

Lemma commands_survive_teardown_witness :
  isRediscovering tracked = false ∧
  groupsById tracked !! "RINCON_A"%string = Some kitchen ∧
  groupsById (final (triggerRediscovery tracked)) = groupsById tracked.
Proof.
  assert (H1 : isRediscovering tracked = false) by (vm_compute; reflexivity).
  assert (H2 : groupsById tracked !! "RINCON_A"%string = Some kitchen)
    by (vm_compute; reflexivity).
  split; [exact H1|]. split; [exact H2|].
  apply (commands_survive_teardown tracked "RINCON_A" kitchen H1 H2).
Defined.

(** X2: after a teardown a poll of any group finds no record and issues
    no fetch, a poll cycle has no group to poll, and a push event that
    still arrives is forwarded without touching the state. *)
Theorem polls_skip_after_teardown (s : State) (g : Group) :
  isRediscovering s = false →
  let s' := final (triggerRediscovery s) in
  result (pollGroup g s') = None ∧
  deviceCalls (trace (pollGroup g s')) = [] ∧
  pollAllGroups s' = ([], s', dbg s' (MsgPollingGroups 0)) ∧
  (∀ v, final (onVolume g v s') = s' ∧
        notifications (trace (onVolume g v s')) = [SET_SONOS_VOLUME g v]) ∧
  (∀ t, final (onCurrentTrack g t s') = s' ∧
        notifications (trace (onCurrentTrack g t s')) = [SET_SONOS_CURRENT_TRACK g t]) ∧
  (∀ m, final (onMuted g m s') = s' ∧
        notifications (trace (onMuted g m s')) = [SET_SONOS_MUTE g m]) ∧
  (∀ st, final (onPlayState g st s') = s' ∧
         notifications (trace (onPlayState g st s')) = [SET_SONOS_PLAY_STATE g st]).
Proof.
  intros Hr s'.
  assert (Hs' : s' = teardownState s) by (subst s'; by rewrite triggerRediscovery_run, Hr).
  assert (Hgh : ∀ gid, groupHealth s' !! gid = None) by (intros gid; by rewrite Hs').
  assert (Hgs : groups s' = []) by (by rewrite Hs').
  assert (Hsync : ∀ f, syncHealth (ID g) f s' = (tt, s', [])).
  { intros f. unfold syncHealth. munfold. by rewrite Hgh. }
  split; [by rewrite pollGroup_run, Hgh|].
  split; [rewrite pollGroup_run, Hgh; cbn; unfold dbg; by destruct (debug _)|].
  split; [unfold pollAllGroups; mstep; rewrite Hgs; cbn; by rewrite app_nil_r|].
  split; [|split; [|split]].
  - intros v. unfold onVolume. mstep. rewrite Hsync. cbn.
    split; [done|]. unfold dbg. by destruct (debug _).
  - intros t. unfold onCurrentTrack. mstep. by rewrite Hsync.
  - intros m. unfold onMuted. mstep. rewrite Hsync. cbn.
    split; [done|]. unfold dbg. by destruct (debug _).
  - intros st. unfold onPlayState. mstep. by rewrite Hsync.
Qed.

Lemma polls_skip_after_teardown_witness :
  isRediscovering tracked = false ∧
  result (pollGroup kitchen (final (triggerRediscovery tracked))) = None.
Proof.
  assert (H1 : isRediscovering tracked = false) by (vm_compute; reflexivity).
  split; [exact H1|].
  apply (polls_skip_after_teardown tracked kitchen H1).
Defined.

(** ** Starting and running the poll *)

Lemma hybridStarted_run (s : State) :
  hybridStarted s =
    let playingInterval := nullish_default (config s ≫= cfg_pollingIntervalPlaying) 15000 in
    let idleInterval := nullish_default (config s ≫= cfg_pollingIntervalIdle) 60000 in
    if playingInterval =? 0 then
      (tt, final (startSubscriptionHealthCheck s),
       ELog LLog MsgHybridPollingDisabled :: trace (startSubscriptionHealthCheck s))
    else
      (tt, final (startSubscriptionHealthCheck (final (schedulePoll s))),
       ELog LLog (MsgHybridAdaptivePolling playingInterval idleInterval) ::
       trace (schedulePoll s) ++
       trace (startSubscriptionHealthCheck (final (schedulePoll s)))).
Proof.
  unfold hybridStarted. munfold. cbn zeta.
  destruct (_ =? 0); cbn.
  - by destruct (startSubscriptionHealthCheck s) as [[[] s2] t2].
  - destruct (schedulePoll s) as [[[] s1] t1]. cbn.
    by destruct (startSubscriptionHealthCheck s1) as [[[] s2] t2].
Qed.

Lemma filter_isPollTimer_dbg (s : State) (m : LogMsg) :
  List.filter isPollTimer (dbg s m) = [].
Proof. unfold dbg. by destruct (debug s). Qed.

Lemma startSubscriptionHealthCheck_no_poll_timer (s : State) :
  List.filter isPollTimer (trace (startSubscriptionHealthCheck s)) = [] ∧
  pollTimeout (final (startSubscriptionHealthCheck s)) = pollTimeout s.
Proof.
  rewrite startSubscriptionHealthCheck_run.
  destruct (autoResubscribe s); cbn [negb]; cbn.
  - split; [|done]. by destruct (subscriptionCheckTimer s).
  - split; [|done]. apply filter_isPollTimer_dbg.
Qed.

(** X3: the start of hybrid mode sets the poll timer unless the playing
    interval is configured as zero, in which case polling stays off:
    no poll timer is set and [pollTimeout] is left as it was.  A missing
    playing interval counts as 15000.  Either way the subscription
    health check is started when auto-resubscribe is configured. *)
Theorem zero_playing_interval_disables_polling (s : State) :
  let r := hybridStarted s in
  (config s ≫= cfg_pollingIntervalPlaying = Some 0 →
     List.filter isPollTimer (trace r) = [] ∧ pollTimeout (final r) = pollTimeout s) ∧
  (config s ≫= cfg_pollingIntervalPlaying ≠ Some 0 →
     List.filter isPollTimer (trace r) =
       [ESetTimeout (nextObj s) PollTimerFired (getPollingInterval s)] ∧
     pollTimeout (final r) = Some (nextObj s)) ∧
  (autoResubscribe s = true →
     ∃ t ms, ESetInterval t SubscriptionCheckTick ms ∈ trace r ∧
             subscriptionCheckTimer (final r) = Some t).
Proof.
  intros r. subst r. rewrite hybridStarted_run. cbn zeta.
  split; [|split].
  - intros Hz. rewrite Hz. cbn.
    apply startSubscriptionHealthCheck_no_poll_timer.
  - intros Hnz.
    assert (Hne : (nullish_default (config s ≫= cfg_pollingIntervalPlaying) 15000 =? 0) = false).
    { destruct (config s ≫= cfg_pollingIntervalPlaying) as [p|]; [|done].
      cbn. apply Z.eqb_neq. intros ->. by apply Hnz. }
    rewrite Hne. cbn [final trace fst snd].
    destruct (startSubscriptionHealthCheck_no_poll_timer (final (schedulePoll s))) as [H1 H2].
    rewrite H2. cbn [List.filter isPollTimer]. rewrite List.filter_app, H1, app_nil_r.
    rewrite schedulePoll_run. cbn [final trace fst snd].
    split; [|done].
    rewrite !List.filter_app, filter_isPollTimer_dbg. by destruct (pollTimeout s).
  - intros Ha.
    assert (Hstart : ∀ s0, autoResubscribe s0 = true →
              ∃ t ms, ESetInterval t SubscriptionCheckTick ms
                        ∈ trace (startSubscriptionHealthCheck s0) ∧
                      subscriptionCheckTimer (final (startSubscriptionHealthCheck s0)) = Some t).
    { intros s0 H0. rewrite startSubscriptionHealthCheck_run, H0. cbn.
      eexists _, _. split; [|reflexivity].
      apply elem_of_app. right. by left. }
    destruct (_ =? 0); cbn [final trace fst snd].
    + destruct (Hstart s Ha) as (t & ms & Hin & Ht). exists t, ms.
      split; [by right|done].
    + assert (Ha' : autoResubscribe (final (schedulePoll s)) = true)
        by (by rewrite schedulePoll_run).
      destruct (Hstart _ Ha') as (t & ms & Hin & Ht). exists t, ms.
      split; [|done]. right. apply elem_of_app. by right.
Qed.

Lemma pollFetchTrace_nextObj (s : State) (m n : nat) (gs : list Group) :
  pollFetchTrace (set_nextObj m s) n gs = pollFetchTrace s n gs.
Proof.
  revert n. induction gs as [|g gs IH]; intros n; [done|].
  cbn [pollFetchTrace]. by rewrite IH.
Qed.

Lemma mapM_pollGroup_run (gs : list Group) (s : State) :
  mapM pollGroup gs s =
    (pendingPolls s gs, set_nextObj (nextObj s + length gs)%nat s,
     pollFetchTrace s (nextObj s) gs).
Proof.
  revert s. induction gs as [|g gs IH]; intros s; cbn [mapM].
  - cbn. rewrite Nat.add_0_r. by destruct s.
  - munfold. rewrite pollGroup_run. cbn zeta.
    cbn [pendingPolls fmap list_fmap pollFetchTrace length].
    destruct (groupHealth s !! ID g) as [l|]; cbn;
      rewrite IH, pollFetchTrace_nextObj; cbn [nextObj set_nextObj];
      rewrite <- Nat.add_succ_comm, ?app_nil_r; reflexivity.
Qed.

(** X4: a poll cycle hands one entry per tracked group to its
    continuations, a pending poll for every group that has a record and
    nothing for a group without one; it issues the four fetches, under
    the API-call deadline, for exactly the groups with a record, and
    changes nothing in the helper's fields. *)
Theorem poll_cycle_fetches (s : State) :
  let r := pollTimerFired s in
  result r = pendingPolls s (groups s) ∧
  final r = set_nextObj (nextObj s + length (groups s))%nat s ∧
  deviceCalls (trace r) =
    flat_map (λ g, match groupHealth s !! ID g with
                   | Some _ => pollFetches
                   | None => []
                   end) (groups s) ∧
  (∀ d op dl, EDeviceCall d op dl ∈ trace r → dl = Some (apiTimeout s)) ∧
  notifications (trace r) = [].
Proof.
  intros r.
  assert (Hr : r = (pendingPolls s (groups s),
                    set_nextObj (nextObj s + length (groups s))%nat s,
                    dbg s MsgPollTimerFired ++ dbg s (MsgPollingGroups (length (groups s))) ++
                    pollFetchTrace s (nextObj s) (groups s))).
  { subst r. unfold pollTimerFired, pollAllGroups. mstep.
    rewrite mapM_pollGroup_run. reflexivity. }
  rewrite Hr. cbn [result final trace fst snd].
  split; [done|]. split; [done|].
  assert (Hdbg : ∀ m, deviceCalls (dbg s m) = []) by (intros m; unfold dbg; by destruct (debug s)).
  assert (Hdbgn : ∀ m, notifications (dbg s m) = []) by (intros m; apply notifications_dbg).
  assert (Hdbgi : ∀ m d op dl, EDeviceCall d op dl ∈ dbg s m → False).
  { intros m d op dl. unfold dbg. destruct (debug s); [|by intros ?%elem_of_nil].
    intros ?%list_elem_of_singleton. done. }
  unfold deviceCalls, notifications in *. rewrite !omap_app, !Hdbg, !Hdbgn. cbn [app].
  generalize (nextObj s) as n. generalize (groups s) as gs.
  induction gs as [|g gs IH]; intros n.
  - repeat split; try done. intros d op dl.
    rewrite !elem_of_app. intros [H|[H|H]]; [by destruct (Hdbgi _ _ _ _ H)..|].
    by apply elem_of_nil in H.
  - destruct (IH (S n)) as (IH1 & IH2 & IH3).
    cbn [pollFetchTrace flat_map]. rewrite !omap_app, IH1, IH3.
    destruct (groupHealth s !! ID g); cbn; rewrite ?Hdbg, ?Hdbgn; cbn.
    + repeat split; try done. intros d op dl.
      rewrite !elem_of_app, !elem_of_cons.
      intros [H|[H|H]]; [by destruct (Hdbgi _ _ _ _ H)..|].
      destruct H as [H|[H|[H|[H|H]]]]; try (by injection H as _ _ <-).
      apply (IH2 d op dl). rewrite !elem_of_app. tauto.
    + repeat split; try done. intros d op dl.
      rewrite !elem_of_app.
      intros [H|[H|[H|H]]]; [by destruct (Hdbgi _ _ _ _ H)..|].
      apply (IH2 d op dl). rewrite !elem_of_app. tauto.
Qed.

(** ** Subscriptions *)

Lemma attachEventHandlers_run (g : Group) (dev : Device) (s : State) :
  attachEventHandlers g dev s =
    (tt,
     if existsb (λ d, Nat.eqb (dev_obj d) (dev_obj dev)) (subscribedDevices s) then s
     else set_subscribedDevices (subscribedDevices s ++ [dev]) s,
     listenerRemovals dev ++ handlerRegistrations g dev).
Proof.
  unfold attachEventHandlers. munfold. rewrite removeDeviceListeners_run.
  by destruct (existsb _ _).
Qed.

Lemma existsb_dev_obj (dev : Device) (ds : list Device) :
  existsb (λ d, Nat.eqb (dev_obj d) (dev_obj dev)) ds = true ↔
  dev_obj dev ∈ dev_obj <$> ds.
Proof.
  rewrite existsb_exists, list_elem_of_fmap. split.
  - intros (d & Hin & Heq). apply Nat.eqb_eq in Heq.
    exists d. split; [done|by apply list_elem_of_In].
  - intros (d & Heq & Hin). exists d.
    split; [by apply list_elem_of_In|by apply Nat.eqb_eq].
Qed.

(** X5: attaching the handlers to a handle first removes the handle's
    listeners for the five events and then registers each handler once;
    the handle is in [subscribedDevices] afterwards, a handle that was
    already listed is not listed twice, and attaching again changes
    nothing in the list. *)
Theorem attach_lists_handle_once (s : State) (g : Group) (dev : Device) :
  NoDup (dev_obj <$> subscribedDevices s) →
  let s' := final (attachEventHandlers g dev s) in
  trace (attachEventHandlers g dev s) = listenerRemovals dev ++ handlerRegistrations g dev ∧
  NoDup (dev_obj <$> subscribedDevices s') ∧
  dev_obj dev ∈ dev_obj <$> subscribedDevices s' ∧
  (∀ d, d ∈ subscribedDevices s → d ∈ subscribedDevices s') ∧
  final (attachEventHandlers g dev s') = s'.
Proof.
  intros Hnd s'. subst s'. rewrite !attachEventHandlers_run. cbn [final trace fst snd].
  split; [done|].
  destruct (existsb _ (subscribedDevices s)) eqn:Hex.
  - rewrite Hex. repeat split; try done. by apply existsb_dev_obj.
  - assert (Hnot : dev_obj dev ∉ dev_obj <$> subscribedDevices s).
    { rewrite <- existsb_dev_obj. by rewrite Hex. }
    assert (Hin : dev_obj dev ∈ dev_obj <$> (subscribedDevices s ++ [dev])).
    { rewrite fmap_app. apply elem_of_app. right. by left. }
    cbn [subscribedDevices set_subscribedDevices].
    apply existsb_dev_obj in Hin as Hex'. rewrite Hex'.
    repeat split; try done.
    + rewrite fmap_app. apply NoDup_app. repeat split; try done.
      * intros x Hx Hx'. apply list_elem_of_singleton in Hx'. by subst x.
      * apply NoDup_singleton.
    + intros d Hd. apply elem_of_app. by left.
Qed.

Lemma attach_lists_handle_once_witness :
  NoDup (dev_obj <$> subscribedDevices tracked) ∧
  final (attachEventHandlers kitchen (mkDevice 2%nat "192.168.1.20")
           (final (attachEventHandlers kitchen (mkDevice 2%nat "192.168.1.20") tracked))) =
  final (attachEventHandlers kitchen (mkDevice 2%nat "192.168.1.20") tracked).
Proof.
  assert (H : NoDup (dev_obj <$> subscribedDevices tracked)).
  { vm_compute. apply NoDup_cons. split; [|apply NoDup_singleton].
    intros Hin. apply list_elem_of_singleton in Hin. discriminate Hin. }
  split; [exact H|].
  apply (attach_lists_handle_once tracked kitchen (mkDevice 2%nat "192.168.1.20") H).
Defined.

(** X6: when a subscription completes for a group that still has its
    record, the handle is stored in that record and the handlers are
    attached, so the next health check finds the handle; when the record
    is gone (a teardown came first) nothing is stored or attached and
    only the failure is logged. *)
Theorem subscription_completion (s : State) (g : Group) (dev : Device) :
  (∀ l h, groupHealth s !! ID g = Some l → heap s !! l = Some h →
     let r := subscribed_then g dev s in
     heap (final r) !! l = Some (set_device (Some dev) h) ∧
     storedDevice (final r) g = Some dev ∧
     dev_obj dev ∈ dev_obj <$> subscribedDevices (final r) ∧
     trace r = dbg s (MsgSubscriptionCreated (Name g)) ++
               listenerRemovals dev ++ handlerRegistrations g dev) ∧
  (groupHealth s !! ID g = None →
     subscribed_then g dev s =
       (tt, s, dbg s (MsgSubscriptionCreated (Name g)) ++
               [ELog LError (MsgSubscribeFailed (Name g))])).
Proof.
  split.
  - intros l h Hg Hh r.
    assert (Hr : r = (tt, final (attachEventHandlers g dev (withRecord s l (set_device (Some dev) h))),
                      dbg s (MsgSubscriptionCreated (Name g)) ++
                      listenerRemovals dev ++ handlerRegistrations g dev)).
    { subst r. unfold subscribed_then. mstep. rewrite Hg.
      rewrite <- (withRecord_id s l h Hh) at 1. hstep.
      by rewrite attachEventHandlers_run. }
    rewrite Hr. cbn [final trace fst snd]. rewrite attachEventHandlers_run.
    cbn [final fst snd].
    assert (Hheap : ∀ s0 : State,
      heap (if existsb (λ d, Nat.eqb (dev_obj d) (dev_obj dev)) (subscribedDevices s0)
            then s0 else set_subscribedDevices (subscribedDevices s0 ++ [dev]) s0) = heap s0 ∧
      groupHealth (if existsb (λ d, Nat.eqb (dev_obj d) (dev_obj dev)) (subscribedDevices s0)
            then s0 else set_subscribedDevices (subscribedDevices s0 ++ [dev]) s0) = groupHealth s0).
    { intros s0. by destruct (existsb _ _). }
    destruct (Hheap (withRecord s l (set_device (Some dev) h))) as [Hhp Hgh].
    split; [rewrite Hhp; apply withRecord_lookup|].
    split.
    { unfold storedDevice. rewrite Hgh, Hhp.
      change (groupHealth (withRecord _ _ _)) with (groupHealth s). rewrite Hg. cbn.
      by rewrite withRecord_lookup. }
    split; [|done].
    destruct (existsb _ _) eqn:Hex; [by apply existsb_dev_obj|].
    cbn. rewrite fmap_app. apply elem_of_app. right. by left.
  - intros Hg. unfold subscribed_then. mstep. rewrite Hg. by mstep.
Qed.

(** ** The health check over all groups *)

Lemma renewals_app (t1 t2 : list Effect) :
  renewals (t1 ++ t2) = renewals t1 ++ renewals t2.
Proof. apply omap_app. Qed.

Lemma renewals_dbg (s : State) (m : LogMsg) : renewals (dbg s m) = [].
Proof. unfold dbg. by destruct (debug s). Qed.

Lemma renewals_teardownTrace (s : State) : renewals (teardownTrace s) = [].
Proof.
  unfold teardownTrace. change (ELog ?l ?m :: ?t) with ([ELog l m] ++ t).
  rewrite !renewals_app, !renewals_dbg.
  assert (Hl : renewals (flat_map listenerRemovals (subscribedDevices s)) = []).
  { induction (subscribedDevices s) as [|d l IH]; [done|]. exact IH. }
  rewrite Hl. by destruct (subscriptionCheckTimer s), (pollTimeout s), (listening s).
Qed.

Lemma checkGroup_when_rediscovering (g : Group) (s : State) :
  isRediscovering s = true → groupHealth s = ∅ →
  final (checkGroup g s) = s ∧ renewals (trace (checkGroup g s)) = [].
Proof.
  intros Hr Hgh. rewrite checkGroup_run.
  assert (Hd : storedDevice s g = None) by (unfold storedDevice; by rewrite Hgh).
  rewrite Hd, triggerRediscovery_run, Hr. cbn [final trace fst snd].
  split; [done|]. by rewrite renewals_app, !renewals_dbg.
Qed.

Lemma forEach_checkGroup_when_rediscovering (gs : list Group) (s : State) :
  isRediscovering s = true → groupHealth s = ∅ →
  final (forEach checkGroup gs s) = s ∧ renewals (trace (forEach checkGroup gs s)) = [].
Proof.
  intros Hr Hgh. induction gs as [|g gs [IH1 IH2]]; [done|].
  cbn [forEach]. munfold.
  destruct (checkGroup_when_rediscovering g s Hr Hgh) as [H1 H2].
  destruct (checkGroup g s) as [[[] s1] t1]. cbn [final trace fst snd] in H1, H2. subst s1.
  destruct (forEach checkGroup gs s) as [[[] s2] t2]. cbn [final trace fst snd] in *.
  split; [done|]. by rewrite renewals_app, H2, IH2.
Qed.

(** X7: a health check handles the groups in order.  Up to the first
    group whose check escalates (no stored handle, or no subscription
    for it) every group gets its renewal; that group causes the
    teardown, and no group after it gets a renewal in this firing, even
    if its handle and subscription were in order. *)
Theorem check_stops_at_first_escalation (s : State) (good : list Group) (bad : Group)
    (rest : list Group) :
  isRediscovering s = false →
  Forall (checkRenews s) good →
  checkEscalates s bad →
  let r := forEach checkGroup (good ++ bad :: rest) s in
  final r = teardownState s ∧
  (renewals (trace r)).*1.*2 = good.
Proof.
  intros Hr Hgood Hbad r. subst r. rewrite forEach_app.
  destruct (healthy_check_renews_all s good Hgood) as [Hg1 Hg2].
  rewrite Hg1. cbn [final trace fst snd forEach]. munfold.
  assert (Hb : final (checkGroup bad s) = teardownState s ∧
               renewals (trace (checkGroup bad s)) = []).
  { rewrite checkGroup_run. unfold checkEscalates in Hbad.
    destruct (storedDevice s bad) as [dev|] eqn:Hdev.
    - rewrite renewDeviceSubscriptions_run, (Hbad dev eq_refl), triggerRediscovery_run, Hr.
      cbn [final trace fst snd]. split; [done|].
      by rewrite !renewals_app, !renewals_dbg, renewals_teardownTrace.
    - rewrite triggerRediscovery_run, Hr. cbn [final trace fst snd]. split; [done|].
      by rewrite !renewals_app, !renewals_dbg, renewals_teardownTrace. }
  destruct Hb as [Hb1 Hb2].
  destruct (checkGroup bad s) as [[[] s1] t1]. cbn [final trace fst snd] in Hb1, Hb2. subst s1.
  destruct (forEach_checkGroup_when_rediscovering rest (teardownState s) eq_refl eq_refl)
    as [Hr1 Hr2].
  destruct (forEach checkGroup rest (teardownState s)) as [[[] s2] t2].
  cbn [final trace fst snd] in *.
  split; [done|].
  by rewrite !renewals_app, Hb2, Hr2, !app_nil_r.
Qed.

Lemma check_stops_at_first_escalation_witness :
  let noHandle := mkGroup "RINCON_C" "Porch" "192.168.1.22" in
  isRediscovering kitchenPlaying = false ∧
  Forall (checkRenews kitchenPlaying) [kitchen] ∧
  checkEscalates kitchenPlaying noHandle ∧
  (renewals (trace (forEach checkGroup ([kitchen] ++ noHandle :: [den]) kitchenPlaying))).*1.*2
    = [kitchen].
Proof.
  intros noHandle.
  assert (H1 : isRediscovering kitchenPlaying = false) by (vm_compute; reflexivity).
  assert (H2 : Forall (checkRenews kitchenPlaying) [kitchen]).
  { constructor; [|constructor].
    exists (mkDevice 2%nat "192.168.1.20"), (mkDevice 2%nat "192.168.1.20").
    split; vm_compute; reflexivity. }
  assert (H3 : checkEscalates kitchenPlaying noHandle).
  { intros dev Hdev. vm_compute in Hdev. discriminate Hdev. }
  split; [exact H1|]. split; [exact H2|]. split; [exact H3|].
  apply (check_stops_at_first_escalation kitchenPlaying [kitchen] noHandle [den] H1 H2 H3).
Defined.

(** ** The health store at start-up *)

Lemma initGroupHealth_run (g : Group) (s : State) :
  initGroupHealth g s =
    (tt, set_groupHealth (<[ID g := nextObj s]> (groupHealth s))
           (set_heap (<[nextObj s := initialHealth]> (heap s))
              (set_nextObj (S (nextObj s)) s)), []).
Proof. reflexivity. Qed.

#[global] Arguments initGroupHealth : simpl never.

(** What initialising the records of [gs] does, from a state whose map
    only points to existing records: nothing but the map, the store and
    the identity counter change; old records and the entries of other
    group ids stay; every id of [gs] gets a new record with the initial
    values, and no two ids share a new record. *)
Lemma forEach_initGroupHealth (gs : list Group) (s : State) :
  storeClosed s →
  let r := forEach initGroupHealth gs s in
  trace r = [] ∧
  (∃ gh hp, final r = set_groupHealth gh (set_heap hp
                        (set_nextObj (nextObj s + length gs)%nat s))) ∧
  storeClosed (final r) ∧
  (∀ l, (l < nextObj s)%nat → heap (final r) !! l = heap s !! l) ∧
  (∀ gid, gid ∉ ID <$> gs → groupHealth (final r) !! gid = groupHealth s !! gid) ∧
  (∀ gid, gid ∈ ID <$> gs →
     ∃ l, groupHealth (final r) !! gid = Some l ∧ (nextObj s ≤ l)%nat ∧
          heap (final r) !! l = Some initialHealth) ∧
  (∀ gid1 gid2 l, (nextObj s ≤ l)%nat →
     groupHealth (final r) !! gid1 = Some l → groupHealth (final r) !! gid2 = Some l →
     gid1 = gid2).
Proof.
  revert s. induction gs as [|g gs IH]; intros s Hc r; subst r.
  - cbn. split; [done|]. split.
    { exists (groupHealth s), (heap s). rewrite Nat.add_0_r. by destruct s. }
    split; [done|]. split; [done|]. split; [done|].
    split; [by intros gid ?%elem_of_nil|].
    intros gid1 gid2 l Hl H1 _. apply Hc in H1. lia.
  - cbn [forEach]. munfold. rewrite initGroupHealth_run.
    set (s1 := set_groupHealth _ _).
    assert (Hc1 : storeClosed s1).
    { intros gid l. subst s1. cbn. rewrite lookup_insert.
      case_decide; [intros [= <-]; lia|]. intros Hlk. apply Hc in Hlk. lia. }
    destruct (IH s1 Hc1) as (Ht & (gh & hp & Hf) & Hc' & Hold & Hother & Hnew & Hinj).
    destruct (forEach initGroupHealth gs s1) as [[[] s2] t2].
    cbn [final trace fst snd] in *. subst t2.
    assert (Hn1 : nextObj s1 = S (nextObj s)) by done.
    split; [done|]. split.
    { exists gh, hp. rewrite Hf. subst s1. cbn. rewrite <- Nat.add_succ_comm. reflexivity. }
    split; [done|]. split.
    { intros l Hl. rewrite Hold by (rewrite Hn1; lia). subst s1. cbn.
      rewrite lookup_insert_ne; [done|lia]. }
    split.
    { intros gid Hgid. rewrite fmap_cons, not_elem_of_cons in Hgid. destruct Hgid as [Hne Hgid].
      rewrite (Hother gid Hgid). subst s1. cbn. by rewrite lookup_insert_ne. }
    split.
    { intros gid Hgid. rewrite fmap_cons, elem_of_cons in Hgid.
      destruct (decide (gid ∈ ID <$> gs)) as [Hin|Hnin].
      - destruct (Hnew gid Hin) as (l & H1 & H2 & H3). exists l.
        split; [done|]. split; [rewrite Hn1 in H2; lia|done].
      - destruct Hgid as [->|Hin]; [|done]. exists (nextObj s).
        split; [|split; [lia|]].
        + etrans; [apply (Hother _ Hnin)|]. subst s1. cbn. apply lookup_insert_eq.
        + etrans; [apply Hold; cbn; lia|]. subst s1. cbn. apply lookup_insert_eq. }
    intros gid1 gid2 l Hl H1 H2.
    destruct (decide (nextObj s1 ≤ l)%nat) as [Hge|Hlt]; [by apply (Hinj gid1 gid2 l)|].
    assert (l = nextObj s) by (rewrite Hn1 in Hlt; lia). subst l.
    assert (Hkey : ∀ gid, groupHealth s2 !! gid = Some (nextObj s) → gid = ID g).
    { intros gid Hgid. destruct (decide (gid ∈ ID <$> gs)) as [Hin|Hnin].
      - destruct (Hnew gid Hin) as (l & H1' & H2' & _).
        assert (Heq : Some l = Some (nextObj s)) by (etrans; [symmetry; exact H1'|exact Hgid]).
        injection Heq as ->. rewrite Hn1 in H2'. lia.
      - assert (Hg1 : groupHealth s1 !! gid = Some (nextObj s))
          by (etrans; [symmetry; apply (Hother _ Hnin)|exact Hgid]).
        subst s1. cbn in Hg1. apply lookup_insert_Some in Hg1.
        destruct Hg1 as [[Hid _]|[_ Hold']]; [done|].
        apply Hc in Hold'. lia. }
    by rewrite (Hkey _ H1), (Hkey _ H2).
Qed.

Lemma subscribeGroup_run (g : Group) (s : State) :
  subscribeGroup g s =
    ((g, mkDevice (nextObj s) (host g)), set_nextObj (S (nextObj s)) s,
     subscribeTrace (g, mkDevice (nextObj s) (host g))).
Proof. reflexivity. Qed.

#[global] Arguments subscribeGroup : simpl never.

Lemma mapM_subscribeGroup_run (gs : list Group) (s : State) :
  mapM subscribeGroup gs s =
    (subscribedHandles (nextObj s) gs, set_nextObj (nextObj s + length gs)%nat s,
     flat_map subscribeTrace (subscribedHandles (nextObj s) gs)).
Proof.
  revert s. induction gs as [|g gs IH]; intros s; cbn [mapM].
  - cbn. rewrite Nat.add_0_r. by destruct s.
  - munfold. rewrite subscribeGroup_run, IH. cbn.
    rewrite <- Nat.add_succ_comm, app_nil_r. reflexivity.
Qed.

Lemma setListenersHybrid_run (gs : list Group) (s : State) :
  setListenersHybrid gs s =
    let s0 := set_groupHealth ∅ (set_pollTimeout None
                (set_subscribedDevices [] (set_groups gs s))) in
    let s1 := final (forEach initGroupHealth gs s0) in
    (subscribedHandles (nextObj s1) gs, set_nextObj (nextObj s1 + length gs)%nat s1,
     flat_map listenerRemovals (subscribedDevices s) ++
     from_option (λ t, [EClearTimeout t]) [] (pollTimeout s) ++
     trace (forEach initGroupHealth gs s0) ++
     flat_map subscribeTrace (subscribedHandles (nextObj s1) gs)).
Proof.
  unfold setListenersHybrid.
  destruct s as [cfg dbgOn ad sd gbi gs0 gh sct pt rd lis ds hp nx].
  mstep. rewrite forEach_removeDeviceListeners.
  destruct pt as [t|]; mstep;
    destruct (forEach initGroupHealth gs _) as [[[] s1] t1]; cbn;
    rewrite mapM_subscribeGroup_run; cbn; rewrite <- ?app_assoc; reflexivity.
Qed.

Lemma subscribedHandles_fst (n : nat) (gs : list Group) :
  (subscribedHandles n gs).*1 = gs.
Proof. revert n. induction gs as [|g gs IH]; intros n; [done|]. cbn. by rewrite IH. Qed.

Lemma subscribeTo_in_trace (d : Device) (n : nat) (gs : list Group) :
  ESubscribeTo d ∈ flat_map subscribeTrace (subscribedHandles n gs)
  ↔ d ∈ (subscribedHandles n gs).*2.
Proof.
  revert n. induction gs as [|g gs IH]; intros n; cbn.
  - split; by intros ?%elem_of_nil.
  - rewrite !elem_of_cons, IH. split.
    + intros [H|[H|H]]; [done|left; by injection H|by right].
    + intros [->|H]; [right; by left|by do 2 right].
Qed.

(** X8: [setListenersHybrid] replaces the health store in whole: the
    tracked groups are the ones passed in, the map holds an entry for
    exactly their ids, every entry points to a record created by this
    call that holds the initial values (no handle, state "unknown", no
    failures, nothing last seen), two ids never share a record, and the
    records that existed before are left as they were.  The subscribed
    list and the poll marker are cleared, and one subscription per
    group, in order, is started. *)
Theorem hybrid_start_initialises_store (gs : list Group) (s : State) :
  let r := setListenersHybrid gs s in
  groups (final r) = gs ∧
  subscribedDevices (final r) = [] ∧
  pollTimeout (final r) = None ∧
  (∀ gid, is_Some (groupHealth (final r) !! gid) ↔ gid ∈ ID <$> gs) ∧
  (∀ gid l, groupHealth (final r) !! gid = Some l →
     (nextObj s ≤ l < nextObj (final r))%nat ∧
     heap (final r) !! l = Some initialHealth) ∧
  (∀ gid1 gid2 l, groupHealth (final r) !! gid1 = Some l →
     groupHealth (final r) !! gid2 = Some l → gid1 = gid2) ∧
  (∀ l, (l < nextObj s)%nat → heap (final r) !! l = heap s !! l) ∧
  (result r).*1 = gs ∧
  (∀ d, ESubscribeTo d ∈ trace r ↔ d ∈ (result r).*2).
Proof.
  intros r. subst r. rewrite setListenersHybrid_run. cbn zeta.
  set (s0 := set_groupHealth ∅ _).
  assert (Hc0 : storeClosed s0) by (intros gid l; subst s0; cbn; by rewrite lookup_empty).
  destruct (forEach_initGroupHealth gs s0 Hc0)
    as (Ht & (gh & hp & Hf) & Hc' & Hold & Hother & Hnew & Hinj).
  rewrite Ht. set (s1 := final (forEach initGroupHealth gs s0)) in *.
  cbn [final result trace fst snd].
  assert (Hn0 : nextObj s0 = nextObj s) by done.
  assert (Hdom : ∀ gid, is_Some (groupHealth s1 !! gid) ↔ gid ∈ ID <$> gs).
  { intros gid. split.
    - intros [l Hl]. destruct (decide (gid ∈ ID <$> gs)) as [|Hnin]; [done|].
      rewrite (Hother _ Hnin) in Hl. subst s0. cbn in Hl. by rewrite lookup_empty in Hl.
    - intros Hin. destruct (Hnew _ Hin) as (l & Hl & _). by exists l. }
  split; [by rewrite Hf|]. split; [by rewrite Hf|]. split; [by rewrite Hf|].
  split; [exact Hdom|]. split.
  { intros gid l Hl. cbn [groupHealth heap nextObj set_nextObj] in *.
    assert (Hin : gid ∈ ID <$> gs) by (apply Hdom; by exists l).
    destruct (Hnew _ Hin) as (l' & Hl' & Hge & Hinit).
    assert (Heq : Some l' = Some l) by (etrans; [symmetry; exact Hl'|exact Hl]).
    injection Heq as ->. rewrite Hn0 in Hge.
    split; [split; [exact Hge|apply Hc' in Hl; cbn; lia]|exact Hinit]. }
  split.
  { intros gid1 gid2 l H1 H2. cbn [groupHealth set_nextObj] in *.
    assert (Hin : gid1 ∈ ID <$> gs) by (apply Hdom; by exists l).
    destruct (Hnew _ Hin) as (l' & Hl' & Hge & _).
    assert (Heq : Some l' = Some l) by (etrans; [symmetry; exact Hl'|exact H1]).
    injection Heq as ->. apply (Hinj gid1 gid2 l); [exact Hge|exact H1|exact H2]. }
  split; [intros l Hl; cbn [heap set_nextObj]; apply Hold; by rewrite Hn0|].
  split; [apply subscribedHandles_fst|].
  intros d. rewrite !app_nil_l, !elem_of_app.
  assert (Hrem : ESubscribeTo d ∉ flat_map listenerRemovals (subscribedDevices s)).
  { induction (subscribedDevices s) as [|x l IH]; [by intros ?%elem_of_nil|].
    cbn. rewrite !not_elem_of_cons. by repeat split. }
  assert (Hclr : ESubscribeTo d ∉ from_option (λ t, [EClearTimeout t]) [] (pollTimeout s)).
  { destruct (pollTimeout s); cbn; [|by intros ?%elem_of_nil].
    by intros ?%list_elem_of_singleton. }
  rewrite <- subscribeTo_in_trace. tauto.
Qed.

(** ** Consecutive failures *)

Lemma withRecord_twice (s : State) (l : loc) (h1 h2 : Health) :
  withRecord (withRecord s l h1) l h2 = withRecord s l h2.
Proof.
  unfold withRecord. destruct s. unfold set_heap. cbn. f_equal. apply insert_insert_eq.
Qed.

Lemma pollSeries_below (p : PendingPoll) (rs : list PollResults) (s : State) (h : Health) :
  heap s !! pp_health p = Some h →
  Forall (λ r, anySucceeded r = false) rs →
  (rs ≠ [] → consecutiveFailures h + Z.of_nat (length rs) < pp_maxFailures p) →
  pollSeries p rs s =
    (tt,
     withRecord s (pp_health p)
       (set_consecutiveFailures (consecutiveFailures h + Z.of_nat (length rs)) h),
     failureLines p (consecutiveFailures h) (length rs)).
Proof.
  unfold pollSeries. revert s h.
  induction rs as [|r rs IH]; intros s h Hh Hall Hlt.
  - cbn. rewrite Z.add_0_r.
    replace (set_consecutiveFailures (consecutiveFailures h) h) with h by (by destruct h).
    by rewrite (withRecord_id s _ _ Hh).
  - apply Forall_cons in Hall as [Hr Hall].
    cbn [forEach]. munfold.
    rewrite (pollGroup_then_failure p r s h Hh Hr). cbn zeta.
    assert (Hlen : consecutiveFailures h + Z.of_nat (length (r :: rs)) < pp_maxFailures p)
      by (by apply Hlt).
    cbn [length] in Hlen.
    destruct (consecutiveFailures h + 1 >=? pp_maxFailures p) eqn:Hge;
      [apply Z.geb_le in Hge; lia|].
    set (h' := set_consecutiveFailures (consecutiveFailures h + 1) h).
    rewrite (IH (withRecord s (pp_health p) h') h').
    + rewrite withRecord_twice. cbn [length failureLines].
      replace (consecutiveFailures h' + Z.of_nat (length rs))
        with (consecutiveFailures h + Z.of_nat (S (length rs))) by (subst h'; cbn; lia).
      by destruct h.
    + apply withRecord_lookup.
    + exact Hall.
    + intros _. subst h'. cbn. lia.
Qed.

(** X9: the polls of a group that fail in whole one after the other
    only count up, each with its error line, until the failure that
    brings the count to the maximum taken at the start of the poll; that
    one tears down.  With the count at 0 and a maximum of [m >= 1] this
    is the [m]-th failure in a row; with a maximum below 1 it is the
    first. *)
Theorem failures_escalate_at_threshold (p : PendingPoll) (rs : list PollResults)
    (r : PollResults) (s : State) (h : Health) :
  heap s !! pp_health p = Some h →
  isRediscovering s = false →
  Forall (λ r, anySucceeded r = false) rs →
  anySucceeded r = false →
  (rs ≠ [] → consecutiveFailures h + Z.of_nat (length rs) < pp_maxFailures p) →
  pp_maxFailures p ≤ consecutiveFailures h + Z.of_nat (length rs) + 1 →
  let count n := set_consecutiveFailures (consecutiveFailures h + n) h in
  let s1 := withRecord s (pp_health p) (count (Z.of_nat (length rs))) in
  pollSeries p rs s = (tt, s1, failureLines p (consecutiveFailures h) (length rs)) ∧
  final (pollGroup_then p r s1) =
    teardownState (withRecord s (pp_health p) (count (Z.of_nat (length rs) + 1))) ∧
  ESetTimeout (nextObj s) RestartDiscovery 2000 ∈ trace (pollGroup_then p r s1).
Proof.
  intros Hh Hr Hall Hfail Hlt Hge count s1.
  split; [by apply pollSeries_below|].
  assert (Hh1 : heap s1 !! pp_health p = Some (count (Z.of_nat (length rs))))
    by apply withRecord_lookup.
  rewrite (pollGroup_then_failure p r s1 _ Hh1 Hfail). cbn zeta.
  replace (consecutiveFailures (count (Z.of_nat (length rs))) + 1 >=? pp_maxFailures p)
    with true by (symmetry; apply Z.geb_le; subst count; cbn; lia).
  subst s1. rewrite withRecord_twice, triggerRediscovery_run.
  replace (isRediscovering (withRecord s (pp_health p) _)) with false by (by rewrite <- Hr).
  cbn [final trace fst snd]. split.
  - f_equal. f_equal. subst count. destruct h. unfold set_consecutiveFailures. cbn.
    f_equal. lia.
  - unfold teardownTrace. rewrite elem_of_cons. right. rewrite elem_of_cons. right.
    rewrite !elem_of_app. do 7 right. apply list_elem_of_singleton. reflexivity.
Qed.

Lemma failures_escalate_at_threshold_witness :
  let p := mkPending kitchen 0%nat 3 in
  let failed := mkResults Rejected Rejected Rejected Rejected in
  let h := set_device (Some (mkDevice 2%nat "192.168.1.20")) initialHealth in
  heap tracked !! pp_health p = Some h ∧
  isRediscovering tracked = false ∧
  pollSeries p [failed; failed] tracked =
    (tt, withRecord tracked 0%nat (set_consecutiveFailures 2 h), failureLines p 0 2) ∧
  final (pollGroup_then p failed (withRecord tracked 0%nat (set_consecutiveFailures 2 h))) =
    teardownState (withRecord tracked 0%nat (set_consecutiveFailures 3 h)).
Proof.
  intros p failed h.
  assert (Hh : heap tracked !! pp_health p = Some h) by (vm_compute; reflexivity).
  assert (Hr : isRediscovering tracked = false) by (vm_compute; reflexivity).
  assert (Hf : anySucceeded failed = false) by reflexivity.
  split; [exact Hh|]. split; [exact Hr|].
  destruct (failures_escalate_at_threshold p [failed; failed] failed tracked h Hh Hr
              ltac:(repeat constructor) Hf ltac:(intros _; cbn; lia) ltac:(cbn; lia))
    as (H1 & H2 & _).
  split; [exact H1|exact H2].
Defined.

(** ** The timers in flight *)

Lemma timersAfter_app (ts : Timers) (t1 t2 : list Effect) :
  timersAfter ts (t1 ++ t2) = timersAfter (timersAfter ts t1) t2.
Proof. apply foldl_app. Qed.

Lemma remaining_nil (ts : list TimerId) : remaining [] ts = ts.
Proof. unfold remaining. induction ts as [|t ts IH]; cbn in *; [done|by rewrite IH]. Qed.

Lemma remaining_cons_clear (x : TimerId) (e : Effect) (tr : list Effect) (ts : list TimerId) :
  (e = EClearTimeout x ∨ e = EClearInterval x) →
  remaining (e :: tr) ts = remaining tr (without x ts).
Proof.
  intros He. unfold remaining, without.
  induction ts as [|t ts IH]; [done|]. cbn [List.filter existsb] in *.
  assert (Hc : clears t e = Nat.eqb t x) by (by destruct He as [->| ->]).
  rewrite Hc, IH. destruct (Nat.eqb t x); cbn; [done|].
  by destruct (existsb (clears t) tr).
Qed.

Lemma remaining_cons_other (e : Effect) (tr : list Effect) (ts : list TimerId) :
  (∀ t, clears t e = false) → remaining (e :: tr) ts = remaining tr ts.
Proof.
  intros He. unfold remaining. induction ts as [|t ts IH]; [done|].
  cbn [List.filter existsb] in *. by rewrite He, IH.
Qed.

(** A trace that sets no timer only removes pending ones. *)
Lemma timersAfter_no_sets (tr : list Effect) (ts : Timers) :
  forallb (λ e, negb (setsTimer e)) tr = true →
  timersAfter ts tr =
    mkTimers (remaining tr (polls ts)) (remaining tr (checks ts)) (remaining tr (restarts ts)).
Proof.
  revert ts. induction tr as [|e tr IH]; intros ts Hall.
  - cbn. rewrite !remaining_nil. by destruct ts.
  - cbn [forallb] in Hall. apply andb_prop in Hall as [He Hall].
    unfold timersAfter in *. cbn [foldl]. rewrite (IH _ Hall).
    destruct e; try discriminate He; cbn [timerEffect clearTimer polls checks restarts];
      first [ by rewrite !(remaining_cons_clear t) by auto
            | by rewrite !remaining_cons_other by done ].
Qed.

Lemma elem_of_remaining (t : TimerId) (tr : list Effect) (ts : list TimerId) :
  t ∈ remaining tr ts ↔ t ∈ ts ∧ existsb (clears t) tr = false.
Proof.
  unfold remaining. rewrite list_elem_of_In, List.filter_In, <- list_elem_of_In.
  by rewrite negb_true_iff.
Qed.

Lemma length_remaining (tr : list Effect) (ts : list TimerId) :
  (length (remaining tr ts) ≤ length ts)%nat.
Proof. apply List.filter_length_le. Qed.

Lemma atMostOne_nil (P : TimerId → Prop) : atMostOne P [].
Proof. split; [cbn; lia|]. by intros t ?%elem_of_nil. Qed.

Lemma atMostOne_impl (P Q : TimerId → Prop) (ts : list TimerId) :
  (∀ t, P t → Q t) → atMostOne P ts → atMostOne Q ts.
Proof. intros H [H1 H2]. split; [exact H1|]. intros t Ht. by apply H, H2. Qed.

Lemma atMostOne_remaining (P : TimerId → Prop) (tr : list Effect) (ts : list TimerId) :
  atMostOne P ts → atMostOne P (remaining tr ts).
Proof.
  intros [H1 H2]. split.
  - pose proof (length_remaining tr ts). lia.
  - intros t [Ht _]%elem_of_remaining. by apply H2.
Qed.

(** Pending timers that the trace all clears are gone. *)
Lemma remaining_cleared (P : TimerId → Prop) (tr : list Effect) (ts : list TimerId) :
  atMostOne P ts → (∀ t, P t → existsb (clears t) tr = true) → remaining tr ts = [].
Proof.
  intros [_ H2] Hc. destruct (remaining tr ts) as [|t l] eqn:E; [done|].
  assert (Ht : t ∈ remaining tr ts) by (rewrite E; left).
  apply elem_of_remaining in Ht as [Ht Hn]. by rewrite (Hc t (H2 t Ht)) in Hn.
Qed.

Lemma atMostOne_empty (P : TimerId → Prop) (ts : list TimerId) :
  atMostOne P ts → (∀ t, ¬ P t) → ts = [].
Proof.
  intros [_ H2] Hn. destruct ts as [|t l]; [done|]. exfalso. apply (Hn t), H2. left.
Qed.

Lemma atMostOne_singleton (P : TimerId → Prop) (t : TimerId) : P t → atMostOne P [t].
Proof.
  intros Ht. split; [cbn; lia|]. by intros x ->%list_elem_of_singleton.
Qed.

Lemma atMostOne_without (P : TimerId → Prop) (x : TimerId) (ts : list TimerId) :
  atMostOne P ts → atMostOne P (without x ts).
Proof.
  intros [H1 H2]. split.
  - unfold without. eapply Nat.le_trans; [apply List.filter_length_le|exact H1].
  - intros t Ht. apply H2. unfold without in Ht.
    apply list_elem_of_In, List.filter_In in Ht as [Ht _]. by apply list_elem_of_In.
Qed.

Lemma timersAfter_dbg (ts : Timers) (s : State) (m : LogMsg) :
  timersAfter ts (dbg s m) = ts.
Proof. unfold dbg. by destruct (debug s). Qed.

Lemma timersTracked_fields (ts : Timers) (s s' : State) :
  pollTimeout s' = pollTimeout s →
  subscriptionCheckTimer s' = subscriptionCheckTimer s →
  isRediscovering s' = isRediscovering s →
  timersTracked (ts, s) → timersTracked (ts, s').
Proof.
  unfold timersTracked. cbn [fst snd]. intros -> -> ->. done.
Qed.

Lemma keeps_mret {A} (a : A) : keeps (mret a).
Proof. intros ts s H. exact H. Qed.

Lemma keeps_bind {A B} (m : M A) (f : A → M B) :
  keeps m → (∀ a, keeps (f a)) → keeps (m ≫= f).
Proof.
  unfold keeps, ran. intros Hm Hf ts s H. unfold mbind, M_bind.
  specialize (Hm ts s H). destruct (m s) as [[a s1] t1]. cbn [trace final fst snd] in *.
  specialize (Hf a _ _ Hm). destruct (f a s1) as [[b s2] t2]. cbn [trace final fst snd] in *.
  rewrite timersAfter_app. exact Hf.
Qed.

Lemma keeps_get : keeps get.
Proof. intros ts s H. exact H. Qed.

Lemma keeps_emit (e : Effect) : setsTimer e = false → keeps (emit e).
Proof.
  intros He ts s (Hp & Hc & Hr). unfold ran, emit. cbn [trace final fst snd].
  rewrite timersAfter_no_sets by (cbn; by rewrite He).
  cbn [fst snd] in Hp, Hc, Hr.
  split; [|split]; cbn [fst snd polls checks restarts];
    apply (atMostOne_remaining _ [e]); assumption.
Qed.

Lemma keeps_modify (f : State → State) :
  (∀ s, pollTimeout (f s) = pollTimeout s) →
  (∀ s, subscriptionCheckTimer (f s) = subscriptionCheckTimer s) →
  (∀ s, isRediscovering (f s) = isRediscovering s) →
  keeps (modify f).
Proof.
  intros H1 H2 H3 ts s H. unfold ran, modify. cbn [trace final fst snd timersAfter foldl].
  by apply (timersTracked_fields ts s).
Qed.

Lemma keeps_forEach {A} (f : A → M unit) (xs : list A) :
  (∀ x, keeps (f x)) → keeps (forEach f xs).
Proof.
  intros Hf. induction xs as [|x xs IH]; cbn [forEach].
  - apply keeps_mret.
  - apply keeps_bind; [apply Hf | intros _; exact IH].
Qed.

Lemma keeps_mapM {A B} (f : A → M B) (xs : list A) :
  (∀ x, keeps (f x)) → keeps (mapM f xs).
Proof.
  intros Hf. induction xs as [|x xs IH]; cbn [mapM].
  - apply keeps_mret.
  - apply keeps_bind; [apply Hf | intros y].
    apply keeps_bind; [exact IH | intros ys; apply keeps_mret].
Qed.

Lemma keeps_debugLog (m : LogMsg) : keeps (debugLog m).
Proof.
  intros ts s H. unfold ran. rewrite debugLog_run. cbn [trace final fst snd].
  by rewrite timersAfter_dbg.
Qed.

Lemma forallb_no_sets_dbg (s : State) (m : LogMsg) :
  forallb (λ e, negb (setsTimer e)) (dbg s m) = true.
Proof. unfold dbg. by destruct (debug s). Qed.

Lemma forallb_no_sets_removals (ds : list Device) :
  forallb (λ e, negb (setsTimer e)) (flat_map listenerRemovals ds) = true.
Proof. induction ds as [|d ds IH]; [done|]. cbn. exact IH. Qed.

(** The effects of a teardown before its restart timer: no timer is
    set, and the timers named by the two fields are cleared. *)
Lemma teardownTrace_split (s : State) :
  ∃ pre, teardownTrace s = pre ++ [ESetTimeout (nextObj s) RestartDiscovery 2000] ∧
         forallb (λ e, negb (setsTimer e)) pre = true ∧
         (∀ t, pollTimeout s = Some t → existsb (clears t) pre = true) ∧
         (∀ t, subscriptionCheckTimer s = Some t → existsb (clears t) pre = true).
Proof.
  unfold teardownTrace. rewrite app_comm_cons, !app_assoc.
  eexists. split; [reflexivity|]. split; [|split].
  - rewrite !forallb_app. cbn [forallb setsTimer negb andb].
    rewrite !forallb_no_sets_dbg, forallb_no_sets_removals.
    by destruct (subscriptionCheckTimer s), (pollTimeout s), (listening s).
  - intros t Ht. rewrite Ht. rewrite !existsb_app. cbn [from_option existsb clears].
    rewrite Nat.eqb_refl. cbn. by rewrite !orb_true_r.
  - intros t Ht. rewrite Ht. rewrite !existsb_app. cbn [from_option existsb clears].
    rewrite Nat.eqb_refl. cbn. by rewrite !orb_true_r.
Qed.

Lemma keeps_triggerRediscovery : keeps triggerRediscovery.
Proof.
  intros ts s H. unfold ran. rewrite triggerRediscovery_run.
  destruct (isRediscovering s) eqn:E; cbn [trace final fst snd].
  { rewrite timersAfter_dbg. exact H. }
  destruct H as (Hp & Hc & Hr). cbn [fst snd] in Hp, Hc, Hr.
  - destruct (teardownTrace_split s) as (pre & -> & Hpre & Hcp & Hcc).
    rewrite timersAfter_app, (timersAfter_no_sets pre) by exact Hpre.
    cbn [timersAfter foldl timerEffect addTimer polls checks restarts].
    rewrite (remaining_cleared _ pre (polls ts) Hp Hcp).
    rewrite (remaining_cleared _ pre (checks ts) Hc Hcc).
    rewrite (atMostOne_empty _ (restarts ts) Hr) by (intros _; congruence).
    change (remaining pre []) with (@nil TimerId).
    split; [|split]; cbn [fst snd polls checks restarts].
    + apply atMostOne_nil.
    + apply atMostOne_nil.
    + by apply atMostOne_singleton.
Qed.

Lemma keeps_schedulePoll : keeps schedulePoll.
Proof.
  intros ts s (Hp & Hc & Hr). unfold ran. rewrite schedulePoll_run.
  cbn [fst snd] in Hp, Hc, Hr. cbn [trace final fst snd].
  rewrite app_assoc, timersAfter_app.
  set (pre := from_option (λ t, [EClearTimeout t]) [] (pollTimeout s) ++ dbg s _).
  assert (Hpre : forallb (λ e, negb (setsTimer e)) pre = true).
  { subst pre. rewrite forallb_app, forallb_no_sets_dbg. by destruct (pollTimeout s). }
  assert (Hcp : ∀ t, pollTimeout s = Some t → existsb (clears t) pre = true).
  { intros t Ht. subst pre. rewrite Ht, existsb_app. cbn. by rewrite Nat.eqb_refl. }
  rewrite (timersAfter_no_sets pre) by exact Hpre.
  cbn [timersAfter foldl timerEffect addTimer polls checks restarts].
  rewrite (remaining_cleared _ pre (polls ts) Hp Hcp).
  split; [|split]; cbn [fst snd polls checks restarts].
  - by apply atMostOne_singleton.
  - by apply atMostOne_remaining.
  - by apply atMostOne_remaining.
Qed.

Lemma keeps_startSubscriptionHealthCheck : keeps startSubscriptionHealthCheck.
Proof.
  intros ts s (Hp & Hc & Hr). unfold ran. rewrite startSubscriptionHealthCheck_run.
  cbn [fst snd] in Hp, Hc, Hr.
  destruct (negb (autoResubscribe s)); cbn [trace final fst snd].
  - by rewrite timersAfter_dbg.
  - set (pre := from_option (λ t, [EClearInterval t]) [] (subscriptionCheckTimer s)).
    assert (Hpre : forallb (λ e, negb (setsTimer e)) pre = true).
    { subst pre. by destruct (subscriptionCheckTimer s). }
    assert (Hcc : ∀ t, subscriptionCheckTimer s = Some t → existsb (clears t) pre = true).
    { intros t Ht. subst pre. rewrite Ht. cbn. by rewrite Nat.eqb_refl. }
    rewrite timersAfter_app, (timersAfter_no_sets pre) by exact Hpre.
    cbn [timersAfter foldl timerEffect addTimer polls checks restarts].
    rewrite (remaining_cleared _ pre (checks ts) Hc Hcc).
    split; [|split]; cbn [fst snd polls checks restarts].
    + by apply atMostOne_remaining.
    + by apply atMostOne_singleton.
    + by apply atMostOne_remaining.
Qed.

Lemma keeps_fresh : keeps fresh.
Proof.
  intros ts s H. unfold ran, fresh. cbn [trace final fst snd timersAfter foldl].
  by apply (timersTracked_fields ts s).
Qed.

Ltac keep :=
  repeat lazymatch goal with
    | |- keeps (mret _) => apply keeps_mret
    | |- keeps (mbind _ _) => apply keeps_bind; [| intros ?]
    | |- keeps get => apply keeps_get
    | |- keeps fresh => apply keeps_fresh
    | |- keeps (debugLog _) => apply keeps_debugLog
    | |- keeps triggerRediscovery => apply keeps_triggerRediscovery
    | |- keeps schedulePoll => apply keeps_schedulePoll
    | |- keeps startSubscriptionHealthCheck => apply keeps_startSubscriptionHealthCheck
    | |- keeps (emit _) => apply keeps_emit; reflexivity
    | |- keeps (modify _) => apply keeps_modify; intros ?; reflexivity
    | |- keeps (forEach _ _) => apply keeps_forEach; intros ?
    | |- keeps (mapM _ _) => apply keeps_mapM; intros ?
    | |- keeps (match ?x with _ => _ end) => destruct x
    end.

Lemma keeps_handle (ev : Event) : keeps (handle ev).
Proof.
  destruct ev; cbn [handle];
    unfold handleListenerError, pollGroup_then, pollCycleFinally, onCurrentTrack, onVolume,
      onMuted, onPlayState, subscriptionCheckTick, checkGroup, renewDeviceSubscriptions,
      renewal_then, renewal_catch, handleTogglePlayPause, handleNext, handleSetVolume,
      syncHealth, updHealth, withHealth, CoordinatorDevice, Log, skip;
    keep.
Qed.

Lemma keeps_pollTimerFired : keeps pollTimerFired.
Proof.
  unfold pollTimerFired, pollAllGroups, pollGroup, CoordinatorDevice. keep.
Qed.

Lemma keeps_subscribed_then (g : Group) (dev : Device) : keeps (subscribed_then g dev).
Proof.
  unfold subscribed_then, updHealth, attachEventHandlers, removeDeviceListeners, Log, skip.
  keep.
Qed.

Lemma keeps_hybridStarted : keeps hybridStarted.
Proof. unfold hybridStarted, Log. keep. Qed.

Lemma forallb_no_sets_subscribe (hs : list (Group * Device)) :
  forallb (λ e, negb (setsTimer e)) (flat_map subscribeTrace hs) = true.
Proof. induction hs as [|h hs IH]; [done|]. cbn. exact IH. Qed.

Lemma keeps_setListenersHybrid (gs : list Group) : keeps (setListenersHybrid gs).
Proof.
  intros ts s (Hp & Hc & Hr). unfold ran. rewrite setListenersHybrid_run. cbn zeta.
  cbn [fst snd] in Hp, Hc, Hr.
  set (s0 := set_groupHealth ∅ (set_pollTimeout None
               (set_subscribedDevices [] (set_groups gs s)))).
  assert (Hclosed : storeClosed s0).
  { intros gid l Hl. subst s0. cbn [groupHealth set_groupHealth] in Hl.
    by rewrite lookup_empty in Hl. }
  destruct (forEach_initGroupHealth gs s0 Hclosed) as (Htr & (gh & hp & Hfin) & _).
  rewrite Htr, Hfin. cbn [trace final fst snd]. rewrite app_nil_l.
  set (tr := flat_map listenerRemovals (subscribedDevices s) ++ _).
  assert (Hno : forallb (λ e, negb (setsTimer e)) tr = true).
  { subst tr. rewrite !forallb_app, forallb_no_sets_removals, forallb_no_sets_subscribe.
    by destruct (pollTimeout s). }
  assert (Hcp : ∀ t, pollTimeout s = Some t → existsb (clears t) tr = true).
  { intros t Ht. subst tr. rewrite Ht, !existsb_app. cbn.
    by rewrite Nat.eqb_refl, orb_true_r. }
  rewrite (timersAfter_no_sets tr) by exact Hno.
  rewrite (remaining_cleared _ tr (polls ts) Hp Hcp).
  split; [|split]; cbn [fst snd polls checks restarts].
  - apply atMostOne_nil.
  - by apply atMostOne_remaining.
  - by apply atMostOne_remaining.
Qed.

Lemma without_only (t : TimerId) (ts : list TimerId) :
  (length ts ≤ 1)%nat → t ∈ ts → without t ts = [].
Proof.
  destruct ts as [|x [|y ts]]; cbn; intros Hlen Hin.
  - done.
  - apply list_elem_of_singleton in Hin as ->. by rewrite Nat.eqb_refl.
  - lia.
Qed.

Lemma occur_tracked (c : Timers * State) (o : Occurrence) :
  timersTracked c → timersTracked (occur c o).
Proof.
  destruct c as [ts s]. intros H.
  destruct o as [ev|t|t|gs|g dev|g|]; cbn [occur fst snd].
  - by apply keeps_handle.
  - destruct (bool_decide (t ∈ polls ts)); [|exact H].
    apply keeps_pollTimerFired. destruct H as (Hp & Hc & Hr).
    split; [|split]; cbn [fst snd polls checks restarts] in *; try assumption.
    by apply atMostOne_without.
  - destruct (bool_decide (t ∈ restarts ts)) eqn:E; [|exact H].
    apply bool_decide_eq_true in E. destruct H as (Hp & Hc & Hr).
    cbn [fst snd] in Hp, Hc, Hr.
    rewrite (without_only t (restarts ts) (proj1 Hr) E).
    unfold ran, restartDiscovery. munfold. cbn [trace final fst snd timersAfter foldl].
    split; [|split]; cbn [fst snd polls checks restarts timerEffect].
    + exact Hp.
    + exact Hc.
    + apply atMostOne_nil.
  - by apply keeps_setListenersHybrid.
  - by apply keeps_subscribed_then.
  - unfold subscribed_catch, Log. by apply keeps_emit.
  - by apply keeps_hybridStarted.
Qed.

(** X10: in hybrid mode, as long as [stop] is not called, the helper
    does not have two timers of one sort in flight.  Whatever callbacks
    run and timers fire, in whatever order, at most one poll timer is
    pending, and it is the one in [pollTimeout]; at most one
    health-check interval is pending, and it is the one in
    [subscriptionCheckTimer]; at most one restart is pending, and only
    while [isRediscovering] is set.  ([stop] resets [isRediscovering]
    and leaves a pending restart in place, see X12; a teardown after it
    sets a second one.) *)
Theorem one_timer_of_each_kind (os : list Occurrence) (c : Timers * State) :
  timersTracked c →
  let c' := foldl occur c os in
  timersTracked c' ∧
  (length (polls c'.1) ≤ 1)%nat ∧
  (length (checks c'.1) ≤ 1)%nat ∧
  (length (restarts c'.1) ≤ 1)%nat.
Proof.
  intros H c'.
  assert (Hc' : timersTracked c').
  { subst c'. revert c H. induction os as [|o os IH]; intros c H; [exact H|].
    cbn [foldl]. apply IH. by apply occur_tracked. }
  split; [exact Hc'|].
  destruct Hc' as ((H1 & _) & (H2 & _) & (H3 & _)). done.
Qed.

Lemma one_timer_of_each_kind_witness :
  let os := [HybridSet [kitchen; den]; SubscriptionsSettled; PollTimerFires 4%nat;
             Called ListenerError; Called PollCycleDone; RestartTimerFires 6%nat] in
  timersTracked (noTimers, discovered) ∧
  timersTracked (foldl occur (noTimers, discovered) os).
Proof.
  intros os.
  assert (H0 : timersTracked (noTimers, discovered)).
  { split; [|split]; apply atMostOne_nil. }
  split; [exact H0|].
  apply (one_timer_of_each_kind os (noTimers, discovered) H0).
Defined.

(** ** The rest of the helper: proof support *)

Ltac nunfold :=
  unfold mbind, mret, N_bind, N_ret, getH, modifyH, out, skipH, logH in *.

(** One step of symbolic execution: the monad's operations and the
    setters are computed by value, so that a state is never copied
    before it is a record. *)
Ltac ncompute :=
  cbv beta iota zeta delta
    [mbind mret N_bind N_ret M_bind M_ret getH modifyH out skipH logH lift
     get modify emit skip Log fresh setTimeout setInterval CoordinatorDevice
     core settings pollingIntervals pollingFailureCounts cells
     set_core set_settings set_pollingIntervals set_pollingFailureCounts set_cells
     config debug asyncDevice subscribedDevices groupsById groups groupHealth
     subscriptionCheckTimer pollTimeout isRediscovering listening deviceSubscriptions
     heap nextObj
     set_config set_debug set_asyncDevice set_subscribedDevices set_groupsById set_groups
     set_groupHealth set_subscriptionCheckTimer set_pollTimeout set_isRediscovering
     set_deviceSubscriptions set_heap set_nextObj].

Ltac unfold_settersH :=
  unfold set_core, set_settings, set_pollingIntervals, set_pollingFailureCounts,
    set_cells in *.

Lemma debugLogH_run (m : HelperMsg) (h : Helper) : debugLogH m h = (tt, h, dbgH h m).
Proof. unfold debugLogH, dbgH. nunfold. cbn. by destruct (debug (core h)). Qed.

#[global] Arguments debugLogH : simpl never.

Lemma lift_run {A} (m : M A) (h : Helper) (a : A) (s : State) (t : list Effect) :
  m (core h) = (a, s, t) → lift m h = (a, set_core s h, Core <$> t).
Proof. intros H. unfold lift. by rewrite H. Qed.

Lemma set_core_id (h : Helper) : set_core (core h) h = h.
Proof. by destruct h. Qed.

Lemma forEachH_clear (ids : list TimerId) (h : Helper) :
  forEachH (λ id, out (Core (EClearInterval id))) ids h = (tt, h, clearIntervals ids).
Proof.
  induction ids as [|id ids IH]; [reflexivity|].
  cbn [forEachH]. nunfold. rewrite IH. reflexivity.
Qed.

Lemma clearPollingIntervals_run (h : Helper) :
  clearPollingIntervals h =
    (tt, set_pollingFailureCounts ∅ (set_pollingIntervals [] h),
     clearIntervals (pollingIntervals h)).
Proof.
  unfold clearPollingIntervals. ncompute. rewrite forEachH_clear. ncompute.
  by rewrite !app_nil_r.
Qed.

#[global] Arguments clearPollingIntervals : simpl never.

Lemma stop_run (h : Helper) : stop h = (tt, stoppedState h, stopTrace h).
Proof.
  unfold stop, stoppedState, stopTrace.
  destruct h as [[cfg dbgOn ad sd gbi gs gh sct pt rd lis ds hp nx] st pis pfc cs].
  cbn [core subscriptionCheckTimer pollTimeout subscribedDevices listening pollingIntervals].
  destruct sct, pt, lis;
    repeat (ncompute; rewrite ?clearPollingIntervals_run, ?forEach_removeDeviceListeners);
    rewrite ?app_nil_r, <- ?app_assoc; reflexivity.
Qed.

#[global] Arguments stop : simpl never.

Lemma elem_of_Core (e : Effect) (t : list Effect) : Core e ∈ Core <$> t ↔ e ∈ t.
Proof.
  rewrite list_elem_of_fmap. split.
  - by intros (e' & [= <-] & He).
  - intros He. by exists e.
Qed.

Lemma elem_of_clearIntervals (o : Output) (ids : list TimerId) :
  o ∈ clearIntervals ids ↔ ∃ id, o = Core (EClearInterval id) ∧ id ∈ ids.
Proof. unfold clearIntervals. apply list_elem_of_fmap. Qed.

Lemma elem_of_listenerRemovals (e : Effect) (ds : list Device) :
  e ∈ flat_map listenerRemovals ds ↔
  ∃ d ev, e = ERemoveAllListeners d ev ∧ d ∈ ds.
Proof.
  rewrite list_elem_of_In, List.in_flat_map. split.
  - intros (d & Hd & He). apply list_elem_of_In in Hd.
    unfold listenerRemovals in He. cbn in He.
    destruct He as [<-|[<-|[<-|[<-|[<-|[]]]]]]; eauto.
  - intros (d & ev & -> & Hd). exists d. split; [by apply list_elem_of_In|].
    unfold listenerRemovals. cbn. destruct ev; tauto.
Qed.

(** ** Shutdown *)

(** X11: [stop] clears the timers the helper keeps in its fields and
    nothing else: the poll timeout, the health-check interval and every
    polling interval; it removes the listeners of every subscribed
    handle and empties the health store, the group list and the failure
    counts.  [groupsById] and [asyncDevice] are left as they were.  A
    second [stop] finds nothing to clear. *)
Theorem stop_clears_what_is_tracked (h : Helper) :
  let r := stop h in
  let h' := finalH r in
  isRediscovering (core h') = false ∧
  subscriptionCheckTimer (core h') = None ∧
  pollTimeout (core h') = None ∧
  pollingIntervals h' = [] ∧
  pollingFailureCounts h' = ∅ ∧
  groupHealth (core h') = ∅ ∧
  groups (core h') = [] ∧
  subscribedDevices (core h') = [] ∧
  groupsById (core h') = groupsById (core h) ∧
  asyncDevice (core h') = asyncDevice (core h) ∧
  (∀ t, Core (EClearTimeout t) ∈ traceH r ↔ pollTimeout (core h) = Some t) ∧
  (∀ t, Core (EClearInterval t) ∈ traceH r ↔
        subscriptionCheckTimer (core h) = Some t ∨ t ∈ pollingIntervals h) ∧
  (∀ d ev, Core (ERemoveAllListeners d ev) ∈ traceH r ↔ d ∈ subscribedDevices (core h)) ∧
  stop h' = (tt, h', if listening (core h) then [Core EStopListener] else []).
Proof.
  intros r h'. subst h' r. rewrite stop_run. cbn [finalH traceH fst snd].
  do 10 (split; [reflexivity|]).
  assert (Hstop : ∀ o, o ∈ (if listening (core h) then [Core EStopListener] else [])
                       → o = Core EStopListener).
  { intros o. destruct (listening (core h)).
    - by intros ->%list_elem_of_singleton.
    - by intros ?%elem_of_nil. }
  split; [|split; [|split]].
  - intros t. unfold stopTrace. cbn zeta. rewrite !elem_of_app, !elem_of_Core.
    rewrite elem_of_clearIntervals, elem_of_listenerRemovals. split.
    + intros [H|[H|[H|[H|H]]]].
      * destruct (subscriptionCheckTimer (core h)); cbn in H.
        -- by apply list_elem_of_singleton in H.
        -- by apply elem_of_nil in H.
      * destruct (pollTimeout (core h)); cbn in H.
        -- apply list_elem_of_singleton in H. by injection H as ->.
        -- by apply elem_of_nil in H.
      * by destruct H as (id & [=] & _).
      * by destruct H as (d & ev & [=] & _).
      * by apply Hstop in H.
    + intros ->. right. left. cbn. by apply list_elem_of_singleton.
  - intros t. unfold stopTrace. cbn zeta. rewrite !elem_of_app, !elem_of_Core.
    rewrite elem_of_clearIntervals, elem_of_listenerRemovals. split.
    + intros [H|[H|[H|[H|H]]]].
      * destruct (subscriptionCheckTimer (core h)); cbn in H.
        -- apply list_elem_of_singleton in H. left. by injection H as ->.
        -- by apply elem_of_nil in H.
      * destruct (pollTimeout (core h)); cbn in H.
        -- by apply list_elem_of_singleton in H.
        -- by apply elem_of_nil in H.
      * destruct H as (id & [= ->] & Hid). by right.
      * by destruct H as (d & ev & [=] & _).
      * by apply Hstop in H.
    + intros [->|Ht].
      * left. cbn. by apply list_elem_of_singleton.
      * do 2 right. left. by exists t.
  - intros d ev. unfold stopTrace. cbn zeta. rewrite !elem_of_app, !elem_of_Core.
    rewrite elem_of_clearIntervals, elem_of_listenerRemovals. split.
    + intros [H|[H|[H|[H|H]]]].
      * destruct (subscriptionCheckTimer (core h)); cbn in H.
        -- by apply list_elem_of_singleton in H.
        -- by apply elem_of_nil in H.
      * destruct (pollTimeout (core h)); cbn in H.
        -- by apply list_elem_of_singleton in H.
        -- by apply elem_of_nil in H.
      * by destruct H as (id & [=] & _).
      * by destruct H as (d' & ev' & [= -> ->] & Hd).
      * by apply Hstop in H.
    + intros Hd. do 3 right. left. by exists d, ev.
  - rewrite stop_run. reflexivity.
Qed.

(** ** Discovery *)

Lemma discoverGroups_run (attempts : Z) (h : Helper) :
  discoverGroups attempts h =
    (mkPendingDiscovery attempts (helperTimeouts h),
     if asyncDevice (core h) then h else set_core (set_asyncDevice true (core h)) h,
     if asyncDevice (core h) then [] else [ODiscover (t_discovery (helperTimeouts h))]).
Proof.
  unfold discoverGroups. ncompute. destruct h as [s st pis pfc cs]. ncompute.
  destruct s as [cfg dbgOn [|] sd gbi gs gh sct pt rd lis ds hp nx]; reflexivity.
Qed.

#[global] Arguments discoverGroups : simpl never.

Lemma lift_triggerRediscovery_run (h : Helper) :
  lift triggerRediscovery h =
    if isRediscovering (core h)
    then (tt, h, Core <$> dbg (core h) MsgRediscoveryInProgress)
    else (tt, set_core (teardownState (core h)) h, Core <$> teardownTrace (core h)).
Proof.
  unfold lift. rewrite triggerRediscovery_run.
  destruct (isRediscovering (core h)); [|reflexivity]. by rewrite set_core_id.
Qed.

(** X12: a [stop] that comes while a rediscovery is pending does not
    cancel the restart: it clears no timeout, and it resets
    [isRediscovering]; when the restart timer fires two seconds after
    the teardown, discovery starts again on the stopped helper. *)
Theorem stop_leaves_restart_pending (h : Helper) :
  isRediscovering (core h) = false →
  let r1 := lift triggerRediscovery h in
  let r2 := stop (finalH r1) in
  let r3 := restartDiscoveryH (finalH r2) in
  Core (ESetTimeout (nextObj (core h)) RestartDiscovery 2000) ∈ traceH r1 ∧
  (∀ t, Core (EClearTimeout t) ∉ traceH r2) ∧
  isRediscovering (core (finalH r2)) = false ∧
  traceH r3 = [ODiscover (t_discovery (helperTimeouts h))] ∧
  asyncDevice (core (finalH r3)) = true.
Proof.
  intros Hr r1 r2 r3. subst r3 r2 r1.
  rewrite lift_triggerRediscovery_run, Hr. cbn [finalH traceH fst snd].
  rewrite stop_run. cbn [finalH traceH fst snd].
  split; [|split; [|split]].
  - apply elem_of_Core. unfold teardownTrace.
    rewrite elem_of_cons. right. rewrite !elem_of_app. do 7 right.
    by apply list_elem_of_singleton.
  - intros t. unfold stopTrace. cbn zeta. cbn [core set_core teardownState
      subscriptionCheckTimer pollTimeout subscribedDevices listening from_option flat_map].
    rewrite !elem_of_app, elem_of_clearIntervals.
    intros [H|[H|[H|[H|H]]]].
    + by apply elem_of_nil in H.
    + by apply elem_of_nil in H.
    + by destruct H as (id & [=] & _).
    + by apply elem_of_nil in H.
    + destruct (listening (core h)).
      * by apply list_elem_of_singleton in H.
      * by apply elem_of_nil in H.
  - reflexivity.
  - unfold restartDiscoveryH. ncompute. rewrite discoverGroups_run.
    split; reflexivity.
Qed.

Lemma stop_leaves_restart_pending_witness :
  let h := mkHelper tracked (mkSettings None false true None) [] ∅ ∅ in
  isRediscovering (core h) = false ∧
  traceH (restartDiscoveryH (finalH (stop (finalH (lift triggerRediscovery h))))) =
    [ODiscover (t_discovery (helperTimeouts h))].
Proof.
  intros h.
  assert (Hr : isRediscovering (core h) = false) by (vm_compute; reflexivity).
  split; [exact Hr|].
  exact (proj1 (proj2 (proj2 (proj2 (stop_leaves_restart_pending h Hr))))).
Defined.

(** ** Polling-only mode: recovery *)

Lemma triggerPollingRediscovery_run (h : Helper) :
  triggerPollingRediscovery h =
    if isRediscovering (core h)
    then (tt, h, Core <$> dbg (core h) MsgRediscoveryInProgress)
    else (tt, pollingTeardownState h, pollingTeardownTrace h).
Proof.
  unfold triggerPollingRediscovery, pollingTeardownState, pollingTeardownTrace.
  destruct h as [[cfg dbgOn ad sd gbi gs gh sct pt [|] lis ds hp nx] st pis pfc cs].
  - ncompute. rewrite debugLog_run. reflexivity.
  - destruct lis;
      repeat (ncompute; rewrite ?clearPollingIntervals_run);
      rewrite ?app_nil_r, <- ?app_assoc; reflexivity.
Qed.

#[global] Arguments triggerPollingRediscovery : simpl never.

(** X13: the two recoveries share one guard.  While [isRediscovering]
    is set, [triggerPollingRediscovery] only writes its debug line; when
    it runs, it clears every polling interval, empties the failure
    counts, drops the device promise and sets one restart, five seconds
    later, leaving the fields of hybrid mode alone; and from then until
    the restart neither it nor [triggerRediscovery] does anything, as
    after a [triggerRediscovery] it does nothing either. *)
Theorem rediscovery_guard_is_shared (h : Helper) :
  (isRediscovering (core h) = true →
     triggerPollingRediscovery h = (tt, h, Core <$> dbg (core h) MsgRediscoveryInProgress)) ∧
  (isRediscovering (core h) = false →
     let r := triggerPollingRediscovery h in
     let h' := finalH r in
     traceH r = OLog LWarn HMsgPollingRediscovery ::
                clearIntervals (pollingIntervals h) ++
                (if listening (core h) then [Core EStopListener] else []) ++
                [Core (ESetTimeout (nextObj (core h)) RestartDiscovery 5000)] ∧
     pollingIntervals h' = [] ∧ pollingFailureCounts h' = ∅ ∧
     asyncDevice (core h') = false ∧ isRediscovering (core h') = true ∧
     subscribedDevices (core h') = subscribedDevices (core h) ∧
     groupHealth (core h') = groupHealth (core h) ∧
     pollTimeout (core h') = pollTimeout (core h) ∧
     subscriptionCheckTimer (core h') = subscriptionCheckTimer (core h) ∧
     finalH (triggerPollingRediscovery h') = h' ∧
     finalH (lift triggerRediscovery h') = h' ∧
     let h2 := finalH (lift triggerRediscovery h) in
     finalH (triggerPollingRediscovery h2) = h2 ∧
     pollingIntervals h2 = pollingIntervals h).
Proof.
  split.
  - intros Hr. by rewrite triggerPollingRediscovery_run, Hr.
  - intros Hr r h'. subst h' r. rewrite triggerPollingRediscovery_run, Hr.
    cbn [finalH traceH fst snd].
    do 9 (split; [reflexivity|]).
    split; [by rewrite triggerPollingRediscovery_run|].
    split; [by rewrite lift_triggerRediscovery_run|].
    rewrite lift_triggerRediscovery_run, Hr.
    cbn [finalH fst snd]. split; [|reflexivity].
    by rewrite triggerPollingRediscovery_run.
Qed.

Lemma rediscovery_guard_is_shared_witness :
  let h := mkHelper discovered (mkSettings None true false (Some 5000)) [7%nat; 9%nat]
             (<["RINCON_A" := Int 2]> ∅) ∅ in
  isRediscovering (core h) = false ∧
  traceH (triggerPollingRediscovery h) =
    [OLog LWarn HMsgPollingRediscovery; Core (EClearInterval 7%nat);
     Core (EClearInterval 9%nat); Core EStopListener;
     Core (ESetTimeout 0%nat RestartDiscovery 5000)].
Proof.
  intros h.
  assert (Hr : isRediscovering (core h) = false) by reflexivity.
  split; [exact Hr|].
  exact (proj1 (proj2 (rediscovery_guard_is_shared h) Hr)).
Defined.

(** ** Polling-only mode: the tick *)

Lemma withCell_id (h : Helper) (l : loc) (c : PollCell) :
  cells h !! l = Some c → withCell h l c = h.
Proof.
  intros H. destruct h. unfold withCell, set_cells. cbn in *. by rewrite insert_id.
Qed.

Lemma withCell_twice (h : Helper) (l : loc) (c1 c2 : PollCell) :
  withCell (withCell h l c1) l c2 = withCell h l c2.
Proof.
  destruct h. unfold withCell, set_cells. cbn. f_equal. apply insert_insert_eq.
Qed.

Lemma getCell_run (h : Helper) (l : loc) (c : PollCell) :
  getCell l (withCell h l c) = (c, withCell h l c, []).
Proof.
  unfold getCell. nunfold. cbn. unfold withCell at 1. cbn [cells set_cells].
  by rewrite lookup_insert_eq.
Qed.

Lemma updCell_run (h : Helper) (l : loc) (c : PollCell) (f : PollCell → PollCell) :
  updCell l f (withCell h l c) = (tt, withCell h l (f c), []).
Proof.
  unfold updCell, modifyH, withCell. destruct h. unfold set_cells. cbn.
  by rewrite alter_insert_eq.
Qed.

#[global] Arguments getCell : simpl never.
#[global] Arguments updCell : simpl never.

Lemma dbgH_withCell (h : Helper) (l : loc) (c : PollCell) (m : HelperMsg) :
  dbgH (withCell h l c) m = dbgH h m.
Proof. reflexivity. Qed.

(** The binds of the helper's monad, without unfolding anything else. *)
Ltac nbind := cbv beta iota zeta delta [mbind mret N_bind N_ret skipH logH out].

Ltac cstep :=
  repeat (nbind; rewrite ?getCell_run, ?updCell_run, ?debugLogH_run, ?dbgH_withCell).

Lemma pollingTrack_run (c : PollingClosure) (r : Settled (option Track)) (h : Helper)
    (cell : PollCell) :
  pollingTrack c r (withCell h (pc_cell c) cell) =
    (match r with Fulfilled None => false | _ => true end,
     withCell h (pc_cell c) (cellTrack c r cell).1, (cellTrack c r cell).2).
Proof.
  unfold pollingTrack, cellTrack.
  destruct r as [[track|]|]; cstep; [|reflexivity|reflexivity].
  destruct (trackChanged (c_lastTrack cell) track); cstep; reflexivity.
Qed.

Lemma pollingVolume_run (c : PollingClosure) (r : Settled Z) (h : Helper) (cell : PollCell) :
  pollingVolume c r (withCell h (pc_cell c) cell) =
    (tt, withCell h (pc_cell c) (cellVolume h c r cell).1, (cellVolume h c r cell).2).
Proof.
  unfold pollingVolume, cellVolume.
  destruct r as [volume|]; cstep; [|reflexivity].
  destruct (bool_decide (c_lastVolume cell = Some volume)); cstep; cbn [negb fst snd];
    cstep; rewrite ?app_nil_r; reflexivity.
Qed.

Lemma pollingMute_run (c : PollingClosure) (r : Settled bool) (h : Helper) (cell : PollCell) :
  pollingMute c r (withCell h (pc_cell c) cell) =
    (tt, withCell h (pc_cell c) (cellMute h c r cell).1, (cellMute h c r cell).2).
Proof.
  unfold pollingMute, cellMute.
  destruct r as [isMuted|]; cstep; [|reflexivity].
  destruct (bool_decide (c_lastMute cell = Some (muteLabel isMuted))); cstep;
    cbn [negb fst snd]; cstep; rewrite ?app_nil_r; reflexivity.
Qed.

Lemma pollingState_run (c : PollingClosure) (r : Settled string) (h : Helper)
    (cell : PollCell) :
  pollingState c r (withCell h (pc_cell c) cell) =
    (tt, withCell h (pc_cell c) (cellState c r cell).1, (cellState c r cell).2).
Proof.
  unfold pollingState, cellState.
  destruct r as [state|]; cstep; [|reflexivity].
  destruct (bool_decide (c_lastState cell = Some state)); cstep; cbn [negb fst snd];
    cstep; reflexivity.
Qed.

#[global] Arguments pollingTrack : simpl never.
#[global] Arguments pollingVolume : simpl never.
#[global] Arguments pollingMute : simpl never.
#[global] Arguments pollingState : simpl never.

Lemma failedCount_all (r : PollResults) :
  Nat.eqb (failedCount r) 4 = negb (anySucceeded r).
Proof.
  unfold failedCount, anySucceeded.
  by destruct (fulfilled (r_track r)), (fulfilled (r_volume r)),
    (fulfilled (r_muted r)), (fulfilled (r_state r)).
Qed.

Lemma pollingCount_run (c : PollingClosure) (r : PollResults) (h : Helper) :
  pollingCount c r h =
    let gid := ID (pc_group c) in
    if anySucceeded r then (true, withCount h gid (Int 0), [])
    else
      let count := js_incr (pollingFailureCounts h !! gid) in
      let line := OLog LError (HMsgAllPollingFailed (Name (pc_group c)) count
                                 (pc_maxFailures c)) in
      if js_ge count (pc_maxFailures c) then
        (false, finalH (triggerPollingRediscovery (withCount h gid count)),
         line :: OLog LError (HMsgMaxFailuresReached (Name (pc_group c))) ::
         traceH (triggerPollingRediscovery (withCount h gid count)))
      else (true, withCount h gid count, [line]).
Proof.
  unfold pollingCount. rewrite failedCount_all. cbv zeta.
  destruct (anySucceeded r); cbn [negb]; [reflexivity|].
  nbind. unfold getH, modifyH. cbv beta iota zeta.
  destruct (js_ge _ _); [|reflexivity].
  fold (withCount h (ID (pc_group c)) (js_incr (pollingFailureCounts h !! ID (pc_group c)))).
  destruct (triggerPollingRediscovery _) as [[[] h2] t2].
  cbn [finalH traceH fst snd app]. by rewrite app_nil_r.
Qed.

#[global] Arguments pollingCount : simpl never.

(** A tick in which at least one fetch succeeded and the track is not
    [null]. *)
Lemma pollingTick_then_success (c : PollingClosure) (r : PollResults) (h : Helper)
    (cell : PollCell) :
  cells h !! pc_cell c = Some cell →
  anySucceeded r = true →
  nullTrack r = false →
  pollingTick_then c r h =
    (tt, withCell (withCount h (ID (pc_group c)) (Int 0)) (pc_cell c) (cellAll h c r cell).1,
     (cellAll h c r cell).2).
Proof.
  intros Hc Hany Hnull. unfold pollingTick_then. nbind.
  rewrite pollingCount_run, Hany. cbv zeta.
  assert (Hc0 : cells (withCount h (ID (pc_group c)) (Int 0)) !! pc_cell c = Some cell)
    by exact Hc.
  rewrite <- (withCell_id _ _ _ Hc0) at 1.
  set (h0 := withCount h (ID (pc_group c)) (Int 0)) in *.
  rewrite pollingTrack_run.
  unfold nullTrack in Hnull. unfold cellAll.
  assert (Hd : ∀ m, dbgH h0 m = dbgH h m) by reflexivity.
  destruct (r_track r) as [[track|]|]; [|discriminate|];
    destruct (cellTrack c _ cell) as [c1 t1]; cbn [fst snd];
    rewrite pollingVolume_run;
    unfold cellVolume at 1 2; fold (cellVolume h0 c (r_volume r) c1);
    change (cellVolume h0 c (r_volume r) c1) with (cellVolume h c (r_volume r) c1);
    destruct (cellVolume h c (r_volume r) c1) as [c2 t2]; cbn [fst snd];
    rewrite pollingMute_run;
    change (cellMute h0 c (r_muted r) c2) with (cellMute h c (r_muted r) c2);
    destruct (cellMute h c (r_muted r) c2) as [c3 t3]; cbn [fst snd];
    rewrite pollingState_run;
    destruct (cellState c (r_state r) c3) as [c4 t4]; cbn [fst snd];
    rewrite ?app_nil_r; reflexivity.
Qed.

Lemma notificationsH_app (t1 t2 : list Output) :
  notificationsH (t1 ++ t2) = notificationsH t1 ++ notificationsH t2.
Proof. unfold notificationsH, coreEffects. by rewrite omap_app, notifications_app. Qed.

Lemma notificationsH_dbgH (h : Helper) (m : HelperMsg) : notificationsH (dbgH h m) = [].
Proof. unfold dbgH. by destruct (debug (core h)). Qed.

Lemma muteLabel_inj (a b : bool) : muteLabel a = muteLabel b → a = b.
Proof. by destruct a, b. Qed.

Lemma trackChanged_same (t : Track) : trackChanged (Some t) t = false.
Proof. apply trackChanged_false. exists t. by split. Qed.

(** X14: in polling-only mode a track fetch that is fulfilled with
    [null] ends the tick where the track is read: the failure count is
    reset, and nothing is compared, stored or sent, not even a volume
    that changed.  The poll of hybrid mode skips such a track and goes
    on to the other fields. *)
Theorem null_track_aborts_polling_tick (c : PollingClosure) (r : PollResults) (h : Helper) :
  nullTrack r = true →
  pollingTick_then c r h = (tt, withCount h (ID (pc_group c)) (Int 0), []) ∧
  ∀ (p : PendingPoll) (s : State) (hl : Health) (v : Z),
    heap s !! pp_health p = Some hl →
    r_volume r = Fulfilled v →
    lastVolume hl ≠ Some v →
    SET_SONOS_VOLUME (pp_group p) v ∈ notifications (trace (pollGroup_then p r s)).
Proof.
  unfold nullTrack. intros Hnull.
  destruct (r_track r) as [[track|]|] eqn:Ht; try discriminate. clear Hnull.
  assert (Hany : anySucceeded r = true) by (unfold anySucceeded; by rewrite Ht).
  split.
  - unfold pollingTick_then. nbind. rewrite pollingCount_run, Hany. cbv zeta.
    unfold pollingTrack. rewrite Ht. reflexivity.
  - intros p s hl v Hh Hv Hne.
    rewrite (pollGroup_then_success p r s hl Hh Hany). cbn [trace snd].
    unfold detectAll. rewrite Ht, Hv. cbn [detectTrack detectVolume].
    rewrite bool_decide_eq_false_2 by exact Hne.
    destruct (detectMuted _ _ _) as [h3 t3]. destruct (detectState _ _ _) as [h4 t4].
    cbn [snd]. rewrite !notifications_app, notifications_dbg. cbn. left.
Qed.

Lemma null_track_aborts_polling_tick_witness :
  let c := mkPollingClosure kitchen (mkDevice 6%nat "192.168.1.20") 7%nat 3 None in
  let r := mkResults (Fulfilled None) (Fulfilled 25) Rejected Rejected in
  let h := mkHelper discovered (mkSettings None true false (Some 5000)) [8%nat]
             (<["RINCON_A" := Int 1]> ∅) (<[7%nat := emptyCell]> ∅) in
  nullTrack r = true ∧
  pollingTick_then c r h = (tt, withCount h "RINCON_A" (Int 0), []).
Proof.
  intros c r h.
  assert (Hn : nullTrack r = true) by reflexivity.
  split; [exact Hn|].
  exact (proj1 (null_track_aborts_polling_tick c r h Hn)).
Defined.

(** The two detectors on records that hold the same values, field by
    field. *)
Lemma cellTrack_detectTrack (s : State) (c : PollingClosure) (r : Settled (option Track))
    (cell : PollCell) (hl : Health) :
  sameKnown cell hl →
  r ≠ Fulfilled None →
  notificationsH (cellTrack c r cell).2 = notifications (detectTrack s (pc_group c) r hl).2 ∧
  sameKnown (cellTrack c r cell).1 (detectTrack s (pc_group c) r hl).1.
Proof.
  intros (Ht & Hv & Hm & Hs) Hnull. unfold cellTrack, detectTrack.
  destruct r as [[track|]|]; [|done|by repeat split].
  rewrite Ht. destruct (trackChanged (lastTrack hl) track); cbn [fst snd].
  - rewrite notifications_app, notifications_dbg. by repeat split.
  - rewrite notifications_app, notifications_dbg. by repeat split.
Qed.

Lemma cellVolume_detectVolume (h : Helper) (c : PollingClosure) (r : Settled Z)
    (cell : PollCell) (hl : Health) :
  sameKnown cell hl →
  notificationsH (cellVolume h c r cell).2 = notifications (detectVolume (pc_group c) r hl).2 ∧
  sameKnown (cellVolume h c r cell).1 (detectVolume (pc_group c) r hl).1.
Proof.
  intros (Ht & Hv & Hm & Hs). unfold cellVolume, detectVolume.
  destruct r as [v|]; [|by repeat split].
  rewrite Hv. destruct (bool_decide (lastVolume hl = Some v)); cbn [fst snd].
  - by repeat split.
  - rewrite notificationsH_app, notificationsH_dbgH. by repeat split.
Qed.

Lemma cellMute_detectMuted (h : Helper) (c : PollingClosure) (r : Settled bool)
    (cell : PollCell) (hl : Health) :
  sameKnown cell hl →
  notificationsH (cellMute h c r cell).2 = notifications (detectMuted (pc_group c) r hl).2 ∧
  sameKnown (cellMute h c r cell).1 (detectMuted (pc_group c) r hl).1.
Proof.
  intros (Ht & Hv & Hm & Hs). unfold cellMute, detectMuted.
  destruct r as [m|]; [|by repeat split].
  rewrite Hm.
  assert (Heq : bool_decide (muteLabel <$> lastMuted hl = Some (muteLabel m)) =
                bool_decide (lastMuted hl = Some m)).
  { apply bool_decide_ext. destruct (lastMuted hl) as [m0|]; cbn; [|done].
    split; [by intros [= ->%muteLabel_inj]|by intros [= ->]]. }
  rewrite Heq. destruct (bool_decide (lastMuted hl = Some m)); cbn [fst snd].
  - by repeat split.
  - rewrite notificationsH_app, notificationsH_dbgH. by repeat split.
Qed.

Lemma cellState_detectState (c : PollingClosure) (r : Settled string)
    (cell : PollCell) (hl : Health) :
  sameKnown cell hl →
  notificationsH (cellState c r cell).2 = notifications (detectState (pc_group c) r hl).2 ∧
  sameKnown (cellState c r cell).1 (detectState (pc_group c) r hl).1.
Proof.
  intros (Ht & Hv & Hm & Hs). unfold cellState, detectState.
  destruct r as [st|]; [|by repeat split].
  rewrite Hs.
  assert (Heq : bool_decide (Some (playState hl) = Some st) = String.eqb (playState hl) st).
  { destruct (String.eqb_spec (playState hl) st) as [->|Hne].
    - by apply bool_decide_eq_true_2.
    - apply bool_decide_eq_false_2. by intros [= ?]. }
  rewrite Heq. destruct (String.eqb (playState hl) st); cbn [fst snd]; by repeat split.
Qed.

Lemma cellAll_detectAll (h : Helper) (s : State) (c : PollingClosure) (r : PollResults)
    (cell : PollCell) (hl : Health) :
  sameKnown cell hl →
  nullTrack r = false →
  notificationsH (cellAll h c r cell).2 = notifications (detectAll s (pc_group c) r hl).2 ∧
  sameKnown (cellAll h c r cell).1 (detectAll s (pc_group c) r hl).1.
Proof.
  intros Hsame Hnull. unfold cellAll, detectAll.
  assert (Hnt : r_track r ≠ Fulfilled None).
  { unfold nullTrack in Hnull. intros E. by rewrite E in Hnull. }
  assert (H0 : sameKnown cell (set_consecutiveFailures 0 hl)) by exact Hsame.
  destruct (cellTrack_detectTrack s c (r_track r) cell _ H0 Hnt) as [N1 S1].
  destruct (cellTrack c (r_track r) cell) as [c1 t1].
  destruct (detectTrack s (pc_group c) (r_track r) _) as [h1 u1]. cbn [fst snd] in N1, S1.
  destruct (cellVolume_detectVolume h c (r_volume r) c1 h1 S1) as [N2 S2].
  destruct (cellVolume h c (r_volume r) c1) as [c2 t2].
  destruct (detectVolume (pc_group c) (r_volume r) h1) as [h2 u2]. cbn [fst snd] in N2, S2.
  destruct (cellMute_detectMuted h c (r_muted r) c2 h2 S2) as [N3 S3].
  destruct (cellMute h c (r_muted r) c2) as [c3 t3].
  destruct (detectMuted (pc_group c) (r_muted r) h2) as [h3 u3]. cbn [fst snd] in N3, S3.
  destruct (cellState_detectState c (r_state r) c3 h3 S3) as [N4 S4].
  destruct (cellState c (r_state r) c3) as [c4 t4].
  destruct (detectState (pc_group c) (r_state r) h3) as [h4 u4]. cbn [fst snd] in N4, S4.
  cbn [fst snd]. split; [|exact S4].
  rewrite !notificationsH_app, !notifications_app, notifications_dbg.
  by rewrite N1, N2, N3, N4.
Qed.

(** X15: on the last-known values they share, the change detector of
    polling-only mode and the one of hybrid mode are the same function:
    when a group's closure variables and a group's health record hold
    the same track, volume, mute and play state, a tick and a poll with
    the same results (some fetch fulfilled, the track not [null]) send
    the same notifications, in the same order, and leave the variables
    and the record holding the same values again. *)
Theorem polling_detector_agrees_with_hybrid (c : PollingClosure) (p : PendingPoll)
    (r : PollResults) (h : Helper) (s : State) (cell : PollCell) (hl : Health) :
  pc_group c = pp_group p →
  cells h !! pc_cell c = Some cell →
  heap s !! pp_health p = Some hl →
  sameKnown cell hl →
  anySucceeded r = true →
  nullTrack r = false →
  let rp := pollingTick_then c r h in
  let rh := pollGroup_then p r s in
  notificationsH (traceH rp) = notifications (trace rh) ∧
  ∃ cell' hl', cells (finalH rp) !! pc_cell c = Some cell' ∧
               heap (final rh) !! pp_health p = Some hl' ∧
               sameKnown cell' hl'.
Proof.
  intros Hg Hc Hh Hsame Hany Hnull rp rh. subst rp rh.
  rewrite (pollingTick_then_success c r h cell Hc Hany Hnull).
  rewrite (pollGroup_then_success p r s hl Hh Hany). cbn [finalH traceH final trace fst snd].
  destruct (cellAll_detectAll h s c r cell hl Hsame Hnull) as [HN HS].
  rewrite Hg in HN, HS. split; [exact HN|].
  eexists _, _. split; [|split; [|exact HS]].
  - unfold withCell. cbn [cells set_cells]. apply lookup_insert_eq.
  - apply withRecord_lookup.
Qed.

Lemma polling_detector_agrees_with_hybrid_witness :
  let c := mkPollingClosure kitchen (mkDevice 6%nat "192.168.1.20") 7%nat 3 None in
  let p := mkPending kitchen 0%nat 3 in
  let r := mkResults (Fulfilled (Some song1)) (Fulfilled 25) Rejected (Fulfilled "playing") in
  let cell := mkPollCell None None None (Some "unknown") in
  let h := mkHelper discovered (mkSettings None true false (Some 5000)) [8%nat]
             (<["RINCON_A" := Int 0]> ∅) (<[7%nat := cell]> ∅) in
  let hl := set_device (Some (mkDevice 2%nat "192.168.1.20")) initialHealth in
  sameKnown cell hl ∧
  notificationsH (traceH (pollingTick_then c r h)) =
    notifications (trace (pollGroup_then p r tracked)).
Proof.
  intros c p r cell h hl.
  assert (Hs : sameKnown cell hl) by (by repeat split).
  assert (Hh : heap tracked !! pp_health p = Some hl) by (vm_compute; reflexivity).
  assert (Hc : cells h !! pc_cell c = Some cell) by (vm_compute; reflexivity).
  split; [exact Hs|].
  exact (proj1 (polling_detector_agrees_with_hybrid c p r h tracked cell hl
                  eq_refl Hc Hh Hs eq_refl eq_refl)).
Defined.

(** Each part of the detector writes its own variable only, and finds
    nothing changed when it runs again on what it wrote. *)
Lemma cellTrack_others (c : PollingClosure) (r : Settled (option Track)) (x : PollCell) :
  c_lastVolume (cellTrack c r x).1 = c_lastVolume x ∧
  c_lastMute (cellTrack c r x).1 = c_lastMute x ∧
  c_lastState (cellTrack c r x).1 = c_lastState x.
Proof.
  unfold cellTrack. destruct r as [[t|]|]; try done.
  by destruct (trackChanged _ _).
Qed.

Lemma cellVolume_others (h : Helper) (c : PollingClosure) (r : Settled Z) (x : PollCell) :
  c_lastTrack (cellVolume h c r x).1 = c_lastTrack x ∧
  c_lastMute (cellVolume h c r x).1 = c_lastMute x ∧
  c_lastState (cellVolume h c r x).1 = c_lastState x.
Proof. unfold cellVolume. destruct r; try done. by destruct (bool_decide _). Qed.

Lemma cellMute_others (h : Helper) (c : PollingClosure) (r : Settled bool) (x : PollCell) :
  c_lastTrack (cellMute h c r x).1 = c_lastTrack x ∧
  c_lastVolume (cellMute h c r x).1 = c_lastVolume x ∧
  c_lastState (cellMute h c r x).1 = c_lastState x.
Proof. unfold cellMute. destruct r; try done. by destruct (bool_decide _). Qed.

Lemma cellState_others (c : PollingClosure) (r : Settled string) (x : PollCell) :
  c_lastTrack (cellState c r x).1 = c_lastTrack x ∧
  c_lastVolume (cellState c r x).1 = c_lastVolume x ∧
  c_lastMute (cellState c r x).1 = c_lastMute x.
Proof. unfold cellState. destruct r; try done. by destruct (bool_decide _). Qed.

Lemma cellTrack_settled (c : PollingClosure) (r : Settled (option Track)) (x y : PollCell) :
  c_lastTrack y = c_lastTrack (cellTrack c r x).1 →
  (cellTrack c r y).1 = y ∧ notificationsH (cellTrack c r y).2 = [].
Proof.
  unfold cellTrack. destruct r as [[t|]|]; try done.
  destruct (trackChanged (c_lastTrack x) t) eqn:E; cbn [fst snd set_c_lastTrack c_lastTrack].
  - intros ->. by rewrite trackChanged_same.
  - intros ->. by rewrite E.
Qed.

Lemma cellVolume_settled (h h' : Helper) (c : PollingClosure) (r : Settled Z)
    (x y : PollCell) :
  c_lastVolume y = c_lastVolume (cellVolume h c r x).1 →
  (cellVolume h' c r y).1 = y ∧ notificationsH (cellVolume h' c r y).2 = [].
Proof.
  unfold cellVolume. destruct r as [v|]; try done.
  destruct (bool_decide (c_lastVolume x = Some v)) eqn:E;
    cbn [fst snd set_c_lastVolume c_lastVolume].
  - intros ->. by rewrite E.
  - intros ->. by rewrite bool_decide_eq_true_2.
Qed.

Lemma cellMute_settled (h h' : Helper) (c : PollingClosure) (r : Settled bool)
    (x y : PollCell) :
  c_lastMute y = c_lastMute (cellMute h c r x).1 →
  (cellMute h' c r y).1 = y ∧ notificationsH (cellMute h' c r y).2 = [].
Proof.
  unfold cellMute. destruct r as [m|]; try done.
  destruct (bool_decide (c_lastMute x = Some (muteLabel m))) eqn:E;
    cbn [fst snd set_c_lastMute c_lastMute].
  - intros ->. by rewrite E.
  - intros ->. by rewrite bool_decide_eq_true_2.
Qed.

Lemma cellState_settled (c : PollingClosure) (r : Settled string) (x y : PollCell) :
  c_lastState y = c_lastState (cellState c r x).1 →
  (cellState c r y).1 = y ∧ notificationsH (cellState c r y).2 = [].
Proof.
  unfold cellState. destruct r as [st|]; try done.
  destruct (bool_decide (c_lastState x = Some st)) eqn:E;
    cbn [fst snd set_c_lastState c_lastState].
  - intros ->. by rewrite E.
  - intros ->. by rewrite bool_decide_eq_true_2.
Qed.

(** A second tick with the same results finds nothing changed. *)
Lemma cellAll_again (h h' : Helper) (c : PollingClosure) (r : PollResults) (cell : PollCell) :
  notificationsH (cellAll h' c r (cellAll h c r cell).1).2 = [].
Proof.
  unfold cellAll.
  pose proof (cellVolume_others h c (r_volume r) (cellTrack c (r_track r) cell).1)
    as (V1 & _ & _).
  destruct (cellTrack c (r_track r) cell) as [c1 t1] eqn:E1. cbn [fst snd] in *.
  pose proof (cellMute_others h c (r_muted r) (cellVolume h c (r_volume r) c1).1)
    as (M1 & M2 & _).
  destruct (cellVolume h c (r_volume r) c1) as [c2 t2] eqn:E2. cbn [fst snd] in *.
  pose proof (cellState_others c (r_state r) (cellMute h c (r_muted r) c2).1)
    as (S1 & S2 & S3).
  destruct (cellMute h c (r_muted r) c2) as [c3 t3] eqn:E3. cbn [fst snd] in *.
  destruct (cellState c (r_state r) c3) as [c4 t4] eqn:E4. cbn [fst snd] in *.
  destruct (cellTrack_settled c (r_track r) cell c4) as [A1 B1].
  { rewrite E1. cbn [fst]. congruence. }
  destruct (cellTrack c (r_track r) c4) as [d1 u1]. cbn [fst snd] in A1, B1. subst d1.
  destruct (cellVolume_settled h h' c (r_volume r) c1 c4) as [A2 B2].
  { rewrite E2. cbn [fst]. congruence. }
  destruct (cellVolume h' c (r_volume r) c4) as [d2 u2]. cbn [fst snd] in A2, B2. subst d2.
  destruct (cellMute_settled h h' c (r_muted r) c2 c4) as [A3 B3].
  { rewrite E3. cbn [fst]. congruence. }
  destruct (cellMute h' c (r_muted r) c4) as [d3 u3]. cbn [fst snd] in A3, B3. subst d3.
  destruct (cellState_settled c (r_state r) c3 c4) as [A4 B4].
  { rewrite E4. reflexivity. }
  destruct (cellState c (r_state r) c4) as [d4 u4]. cbn [fst snd] in A4, B4.
  cbn [snd]. by rewrite !notificationsH_app, B1, B2, B3, B4.
Qed.

(** The first tick reports every field it could fetch. *)
Lemma cellAll_first (h : Helper) (c : PollingClosure) (r : PollResults) :
  notificationsH (cellAll h c r emptyCell).2 = reported (pc_group c) r.
Proof.
  destruct r as [rt rv rm rs].
  unfold cellAll, cellTrack, cellVolume, cellMute, cellState, dbgH, reported, emptyCell.
  cbn [r_track r_volume r_muted r_state].
  destruct rt as [[track|]|], rv as [v|], rm as [m|], rs as [st|];
    cbn [fst snd c_lastTrack c_lastVolume c_lastMute c_lastState trackChanged];
    rewrite ?bool_decide_eq_false_2 by discriminate;
    cbn [fst snd c_lastTrack c_lastVolume c_lastMute c_lastState
         set_c_lastTrack set_c_lastVolume set_c_lastMute set_c_lastState];
    rewrite ?bool_decide_eq_false_2 by discriminate;
    destruct (debug (core h)); reflexivity.
Qed.

(** X16: a polling-only group reports a value once.  Take a tick in
    which at least one fetch is fulfilled and the track fetch is not
    fulfilled with [null] (such a tick throws, see X14).  Settling on
    variables that are all [null], as after registration, it sends one
    notification for every field whose fetch was fulfilled; and a tick
    that settles with the same results right after it sends nothing. *)
Theorem polling_tick_reports_once (c : PollingClosure) (r : PollResults) (h : Helper)
    (cell : PollCell) :
  cells h !! pc_cell c = Some cell →
  anySucceeded r = true →
  nullTrack r = false →
  let r1 := pollingTick_then c r h in
  notificationsH (traceH (pollingTick_then c r (finalH r1))) = [] ∧
  (cell = emptyCell → notificationsH (traceH r1) = reported (pc_group c) r).
Proof.
  intros Hc Hany Hnull r1. subst r1.
  rewrite (pollingTick_then_success c r h cell Hc Hany Hnull). cbn [finalH traceH fst snd].
  split.
  - erewrite pollingTick_then_success; [|apply lookup_insert_eq|exact Hany|exact Hnull].
    cbn [traceH snd]. apply cellAll_again.
  - intros ->. apply cellAll_first.
Qed.

Lemma polling_tick_reports_once_witness :
  let c := mkPollingClosure kitchen (mkDevice 6%nat "192.168.1.20") 7%nat 3 None in
  let r := mkResults (Fulfilled (Some song1)) (Fulfilled 25) Rejected (Fulfilled "playing") in
  let h := mkHelper discovered (mkSettings None true false (Some 5000)) [8%nat]
             (<["RINCON_A" := Int 0]> ∅) (<[7%nat := emptyCell]> ∅) in
  cells h !! pc_cell c = Some emptyCell ∧
  notificationsH (traceH (pollingTick_then c r (finalH (pollingTick_then c r h)))) = [] ∧
  notificationsH (traceH (pollingTick_then c r h)) =
    [SET_SONOS_CURRENT_TRACK kitchen song1; SET_SONOS_VOLUME kitchen 25;
     SET_SONOS_PLAY_STATE kitchen "playing"].
Proof.
  intros c r h.
  assert (Hc : cells h !! pc_cell c = Some emptyCell) by (vm_compute; reflexivity).
  split; [exact Hc|].
  destruct (polling_tick_reports_once c r h emptyCell Hc eq_refl eq_refl) as [H1 H2].
  split; [exact H1|exact (H2 eq_refl)].
Defined.

(** ** Polling-only mode: the failure count *)

Lemma allRejected (r : PollResults) :
  anySucceeded r = false →
  r_track r = Rejected ∧ r_volume r = Rejected ∧ r_muted r = Rejected ∧ r_state r = Rejected.
Proof.
  unfold anySucceeded.
  destruct (r_track r), (r_volume r), (r_muted r), (r_state r); try discriminate. done.
Qed.

Lemma pollingTick_then_failure (c : PollingClosure) (r : PollResults) (h : Helper) :
  anySucceeded r = false →
  pollingTick_then c r h =
    let gid := ID (pc_group c) in
    let count := js_incr (pollingFailureCounts h !! gid) in
    if js_ge count (pc_maxFailures c) then
      (tt, finalH (triggerPollingRediscovery (withCount h gid count)),
       OLog LError (HMsgAllPollingFailed (Name (pc_group c)) count (pc_maxFailures c)) ::
       OLog LError (HMsgMaxFailuresReached (Name (pc_group c))) ::
       traceH (triggerPollingRediscovery (withCount h gid count)))
    else (tt, withCount h gid count, failedTickLines c count).
Proof.
  intros Hany. destruct (allRejected r Hany) as (Ht & Hv & Hm & Hs).
  unfold pollingTick_then. nbind. rewrite pollingCount_run, Hany. cbv zeta.
  destruct (js_ge _ _).
  - cbn [app]. by rewrite app_nil_r.
  - rewrite Ht, Hv, Hm, Hs.
    unfold pollingTrack, pollingVolume, pollingMute, pollingState. nbind. reflexivity.
Qed.

Lemma withCount_twice (h : Helper) (gid : string) (a b : JsNumber) :
  withCount (withCount h gid a) gid b = withCount h gid b.
Proof.
  destruct h. unfold withCount, set_pollingFailureCounts. cbn. f_equal.
  apply insert_insert_eq.
Qed.

Lemma withCount_id (h : Helper) (gid : string) (a : JsNumber) :
  pollingFailureCounts h !! gid = Some a → withCount h gid a = h.
Proof.
  intros H. destruct h. unfold withCount, set_pollingFailureCounts. cbn in *.
  by rewrite insert_id.
Qed.

Lemma withCount_lookup (h : Helper) (gid : string) (a : JsNumber) :
  pollingFailureCounts (withCount h gid a) !! gid = Some a.
Proof. unfold withCount. cbn. apply lookup_insert_eq. Qed.

Lemma notificationsH_failedTickLines (c : PollingClosure) (n : JsNumber) :
  notificationsH (failedTickLines c n) = [].
Proof. reflexivity. Qed.

Lemma pollingSeries_below (c : PollingClosure) (rs : list PollResults) (h : Helper) (n0 : Z) :
  pollingFailureCounts h !! ID (pc_group c) = Some (Int n0) →
  Forall (λ r, anySucceeded r = false) rs →
  (rs ≠ [] → n0 + Z.of_nat (length rs) < pc_maxFailures c) →
  finalH (pollingSeries c rs h) =
    withCount h (ID (pc_group c)) (Int (n0 + Z.of_nat (length rs))) ∧
  notificationsH (traceH (pollingSeries c rs h)) = [].
Proof.
  unfold pollingSeries. revert h n0.
  induction rs as [|r rs IH]; intros h n0 Hn Hall Hlt.
  - cbn. rewrite Z.add_0_r. by rewrite (withCount_id _ _ _ Hn).
  - apply Forall_cons in Hall as [Hr Hall].
    cbn [forEachH]. nbind.
    rewrite (pollingTick_then_failure c r h Hr). cbv zeta. rewrite Hn. cbn [js_incr js_ge].
    assert (Hlen : n0 + Z.of_nat (length (r :: rs)) < pc_maxFailures c) by (by apply Hlt).
    cbn [length] in Hlen.
    destruct (n0 + 1 >=? pc_maxFailures c) eqn:Hge; [apply Z.geb_le in Hge; lia|].
    destruct (IH (withCount h (ID (pc_group c)) (Int (n0 + 1))) (n0 + 1)) as [IH1 IH2].
    + apply withCount_lookup.
    + exact Hall.
    + intros _. lia.
    + destruct (forEachH _ rs _) as [[[] h2] t2]. cbn [finalH traceH fst snd] in *.
      split.
      * rewrite IH1, withCount_twice. do 2 f_equal. cbn [length]. lia.
      * by rewrite notificationsH_app, notificationsH_failedTickLines, IH2.
Qed.

(** X17: in polling-only mode the ticks of a group that fail in whole
    one after the other only count up in [pollingFailureCounts], until
    the failure that brings the group's count to the maximum; that one
    runs [triggerPollingRediscovery] and returns at once, without the
    per-field error lines of the failures before it. *)
Theorem polling_failures_escalate_at_threshold (c : PollingClosure)
    (rs : list PollResults) (r : PollResults) (h : Helper) (n0 : Z) :
  pollingFailureCounts h !! ID (pc_group c) = Some (Int n0) →
  isRediscovering (core h) = false →
  Forall (λ r, anySucceeded r = false) rs →
  anySucceeded r = false →
  (rs ≠ [] → n0 + Z.of_nat (length rs) < pc_maxFailures c) →
  pc_maxFailures c ≤ n0 + Z.of_nat (length rs) + 1 →
  let gid := ID (pc_group c) in
  let h1 := withCount h gid (Int (n0 + Z.of_nat (length rs))) in
  let last := pollingTick_then c r h1 in
  finalH (pollingSeries c rs h) = h1 ∧
  notificationsH (traceH (pollingSeries c rs h)) = [] ∧
  finalH last =
    pollingTeardownState (withCount h gid (Int (n0 + Z.of_nat (length rs) + 1))) ∧
  Core (ESetTimeout (nextObj (core h)) RestartDiscovery 5000) ∈ traceH last ∧
  OLog LError (HMsgTrackFailed (Name (pc_group c))) ∉ traceH last.
Proof.
  intros Hn Hr Hall Hfail Hlt Hge gid h1 last. subst last h1 gid.
  set (h1 := withCount h (ID (pc_group c)) (Int (n0 + Z.of_nat (length rs)))).
  destruct (pollingSeries_below c rs h n0 Hn Hall Hlt) as [H1 H2].
  split; [exact H1|]. split; [exact H2|].
  rewrite (pollingTick_then_failure c r h1 Hfail). cbv zeta.
  subst h1. rewrite withCount_lookup, withCount_twice. cbn [js_incr js_ge].
  replace (n0 + Z.of_nat (length rs) + 1 >=? pc_maxFailures c) with true
    by (symmetry; apply Z.geb_le; lia).
  rewrite triggerPollingRediscovery_run.
  replace (isRediscovering (core (withCount h (ID (pc_group c))
             (Int (n0 + Z.of_nat (length rs) + 1)))))
    with false by (symmetry; exact Hr).
  cbn [finalH traceH fst snd].
  split; [reflexivity|]. split.
  - unfold pollingTeardownTrace. do 3 (rewrite elem_of_cons; right).
    rewrite !elem_of_app. do 2 right. by apply list_elem_of_singleton.
  - unfold pollingTeardownTrace. rewrite !not_elem_of_cons, !not_elem_of_app.
    repeat split; try done.
    + intros (id & [=] & _)%elem_of_clearIntervals.
    + destruct (listening _); [by intros ?%list_elem_of_singleton|by intros ?%elem_of_nil].
    + by intros ?%list_elem_of_singleton.
Qed.

Lemma polling_failures_escalate_at_threshold_witness :
  let c := mkPollingClosure kitchen (mkDevice 6%nat "192.168.1.20") 7%nat 3 None in
  let failed := mkResults Rejected Rejected Rejected Rejected in
  let h := mkHelper discovered (mkSettings None true false (Some 5000)) [8%nat]
             (<["RINCON_A" := Int 0]> ∅) (<[7%nat := emptyCell]> ∅) in
  pollingFailureCounts h !! ID (pc_group c) = Some (Int 0) ∧
  finalH (pollingSeries c [failed; failed] h) = withCount h "RINCON_A" (Int 2) ∧
  finalH (pollingTick_then c failed (withCount h "RINCON_A" (Int 2))) =
    pollingTeardownState (withCount h "RINCON_A" (Int 3)).
Proof.
  intros c failed h.
  assert (Hn : pollingFailureCounts h !! ID (pc_group c) = Some (Int 0))
    by (vm_compute; reflexivity).
  split; [exact Hn|].
  destruct (polling_failures_escalate_at_threshold c [failed; failed] failed h 0 Hn
              eq_refl ltac:(repeat constructor) eq_refl
              ltac:(intros _; cbn; lia) ltac:(cbn; lia)) as (H1 & _ & H3 & _).
  split; [exact H1|exact H3].
Defined.

Lemma pollingSeries_stale (c : PollingClosure) (rs : list PollResults) (h : Helper) :
  (pollingFailureCounts h !! ID (pc_group c) = None ∨
   pollingFailureCounts h !! ID (pc_group c) = Some NaN) →
  rs ≠ [] →
  Forall (λ r, anySucceeded r = false) rs →
  finalH (pollingSeries c rs h) = withCount h (ID (pc_group c)) NaN ∧
  forallb isLogLineH (traceH (pollingSeries c rs h)) = true.
Proof.
  unfold pollingSeries. revert h.
  induction rs as [|r rs IH]; intros h Hn Hne Hall; [done|].
  apply Forall_cons in Hall as [Hr Hall].
  cbn [forEachH]. nbind.
  rewrite (pollingTick_then_failure c r h Hr). cbv zeta.
  assert (Hincr : js_incr (pollingFailureCounts h !! ID (pc_group c)) = NaN).
  { by destruct Hn as [-> | ->]. }
  rewrite Hincr. cbn [js_ge].
  destruct rs as [|r' rs'].
  - cbn. by rewrite ?app_nil_r.
  - destruct (IH (withCount h (ID (pc_group c)) NaN)) as [IH1 IH2].
    + right. apply withCount_lookup.
    + done.
    + exact Hall.
    + destruct (forEachH _ (r' :: rs') _) as [[[] h2] t2]. cbn [finalH traceH fst snd] in *.
      split.
      * by rewrite IH1, withCount_twice.
      * rewrite forallb_app, IH2. reflexivity.
Qed.

(** X18: a tick that settles after the failure counts were emptied (by
    [stop] or by a rediscovery) and fails in whole finds no count for
    its group: the increment of the missing count gives [NaN], which is
    stored and never reaches the maximum.  However many such ticks
    follow, none runs [triggerPollingRediscovery]; each only writes its
    error lines. *)
Theorem stale_tick_never_escalates (c : PollingClosure) (rs : list PollResults)
    (h : Helper) :
  pollingFailureCounts h !! ID (pc_group c) = None →
  rs ≠ [] →
  Forall (λ r, anySucceeded r = false) rs →
  let res := pollingSeries c rs h in
  finalH res = withCount h (ID (pc_group c)) NaN ∧
  isRediscovering (core (finalH res)) = isRediscovering (core h) ∧
  pollingIntervals (finalH res) = pollingIntervals h ∧
  forallb isLogLineH (traceH res) = true.
Proof.
  intros Hn Hne Hall res. subst res.
  destruct (pollingSeries_stale c rs h (or_introl Hn) Hne Hall) as [H1 H2].
  rewrite H1. by repeat split.
Qed.

Lemma stale_tick_never_escalates_witness :
  let c := mkPollingClosure kitchen (mkDevice 6%nat "192.168.1.20") 7%nat 1 None in
  let failed := mkResults Rejected Rejected Rejected Rejected in
  let h0 := mkHelper discovered (mkSettings None true false (Some 5000)) [8%nat]
              (<["RINCON_A" := Int 0]> ∅) (<[7%nat := emptyCell]> ∅) in
  let h := finalH (stop h0) in
  pollingFailureCounts h !! ID (pc_group c) = None ∧
  finalH (pollingSeries c [failed; failed] h) = withCount h "RINCON_A" NaN.
Proof.
  intros c failed h0 h.
  assert (Hn : pollingFailureCounts h !! ID (pc_group c) = None)
    by (subst h; rewrite stop_run; reflexivity).
  split; [exact Hn|].
  exact (proj1 (stale_tick_never_escalates c [failed; failed] h Hn
                  ltac:(discriminate) ltac:(repeat constructor))).
Defined.

(** ** Polling-only mode: the intervals in flight *)

Lemma liveIntervals_app (live : list TimerId) (t1 t2 : list Output) :
  liveIntervals live (t1 ++ t2) = liveIntervals (liveIntervals live t1) t2.
Proof. apply foldl_app. Qed.

Lemma liveIntervals_Core (live : list TimerId) (t : list Effect) :
  Forall clearsNothing t → liveIntervals live (Core <$> t) = live.
Proof.
  induction 1 as [|e t He _ IH]; [done|].
  cbn. unfold liveIntervals in IH. destruct e; try done; destruct He.
Qed.

Lemma without_all (ids live : list TimerId) :
  (∀ x, x ∈ live → x ∈ ids) → foldl (λ l t, without t l) live ids = [].
Proof.
  revert live. induction ids as [|id ids IH]; intros live Hsub; cbn.
  - destruct live as [|x live]; [done|]. exfalso.
    by apply (elem_of_nil x), Hsub; left.
  - apply IH. intros x Hx. unfold without in Hx.
    apply list_elem_of_In, List.filter_In in Hx as [Hx Hne].
    apply list_elem_of_In, Hsub, elem_of_cons in Hx as [->|Hx]; [|done].
    by rewrite Nat.eqb_refl in Hne.
Qed.

Lemma liveIntervals_clear (live ids : list TimerId) :
  liveIntervals live (clearIntervals ids) = foldl (λ l t, without t l) live ids.
Proof.
  revert live. induction ids as [|id ids IH]; intros live; [done|].
  cbn. apply IH.
Qed.

Lemma keepsIntervals_mret {A} (a : A) : keepsIntervals (mret a).
Proof. intros live h H. exact H. Qed.

Lemma keepsIntervals_bind {A B} (m : N A) (f : A → N B) :
  keepsIntervals m → (∀ a, keepsIntervals (f a)) → keepsIntervals (m ≫= f).
Proof.
  unfold keepsIntervals, ranH. intros Hm Hf live h H. unfold mbind, N_bind.
  specialize (Hm live h H). destruct (m h) as [[a h1] t1]. cbn [traceH finalH fst snd] in *.
  specialize (Hf a _ _ Hm). destruct (f a h1) as [[b h2] t2]. cbn [traceH finalH fst snd] in *.
  rewrite liveIntervals_app. exact Hf.
Qed.

Lemma keepsIntervals_getH : keepsIntervals getH.
Proof. intros live h H. exact H. Qed.

Lemma keepsIntervals_out (o : Output) :
  (∀ live, intervalEffect live o = live) → keepsIntervals (out o).
Proof.
  intros Ho live h H. unfold ranH, out, intervalsTracked in *. cbn [traceH finalH fst snd liveIntervals foldl].
  by rewrite Ho.
Qed.

Lemma keepsIntervals_modifyH (f : Helper → Helper) :
  (∀ h, pollingIntervals (f h) = pollingIntervals h) →
  (∀ h, pollTimeout (core (f h)) = pollTimeout (core h)) →
  (∀ h, subscriptionCheckTimer (core (f h)) = subscriptionCheckTimer (core h)) →
  keepsIntervals (modifyH f).
Proof.
  intros H1 H2 H3 live h (Hl & Hp & Hc). unfold ranH, modifyH, intervalsTracked.
  cbn [traceH finalH fst snd liveIntervals foldl] in *.
  split; [|split]; by rewrite ?H1, ?H2, ?H3.
Qed.

Lemma keepsIntervals_lift {A} (m : M A) :
  preserves hybridTimersUnset clearsNothing m → keepsIntervals (lift m).
Proof.
  intros Hm live h (Hl & Hp & Hc). cbn [fst snd] in *.
  destruct (Hm (core h) (conj Hp Hc)) as [[Hp' Hc'] HT].
  unfold ranH, lift, intervalsTracked. destruct (m (core h)) as [[a s] t].
  cbn [finalH traceH final trace fst snd] in *.
  rewrite liveIntervals_Core by exact HT.
  split; [|split]; done.
Qed.

Lemma keepsIntervals_forEachH {A} (f : A → N unit) (xs : list A) :
  (∀ x, keepsIntervals (f x)) → keepsIntervals (forEachH f xs).
Proof.
  intros Hf. induction xs as [|x xs IH]; cbn [forEachH].
  - apply keepsIntervals_mret.
  - apply keepsIntervals_bind; [apply Hf | intros _; exact IH].
Qed.

Lemma keepsIntervals_debugLogH (m : HelperMsg) : keepsIntervals (debugLogH m).
Proof.
  intros live h H. unfold ranH, intervalsTracked. rewrite debugLogH_run. cbn [traceH finalH fst snd].
  unfold dbgH. by destruct (debug (core h)).
Qed.

Lemma keepsIntervals_clearPollingIntervals : keepsIntervals clearPollingIntervals.
Proof.
  intros live h (Hl & Hp & Hc). unfold ranH, intervalsTracked. rewrite clearPollingIntervals_run.
  cbn [traceH finalH fst snd] in *. subst live.
  rewrite liveIntervals_clear, without_all by done. by split.
Qed.

(** The computations of the hybrid part that a polling-only helper
    runs leave the two hybrid timers unset and clear nothing. *)
Lemma unset_triggerRediscovery :
  preserves hybridTimersUnset clearsNothing triggerRediscovery.
Proof.
  intros s [Hp Hc]. rewrite triggerRediscovery_run.
  destruct (isRediscovering s); cbn [final trace fst snd].
  - split; [by split|]. by apply Forall_dbg.
  - split; [by split|]. unfold teardownTrace. rewrite Hp, Hc. cbn [from_option].
    constructor; [done|].
    repeat (apply Forall_app; split); try (by apply Forall_dbg); try (by constructor).
    all: first [ by apply Forall_listenerRemovals
               | by destruct (listening s); repeat constructor
               | by repeat constructor ].
Qed.

Lemma unset_pollCycleFinally :
  preserves hybridTimersUnset clearsNothing pollCycleFinally.
Proof.
  intros s [Hp Hc]. rewrite pollCycleFinally_run, Hp. cbn [final trace fst snd].
  split; [by split|]. by apply Forall_dbg.
Qed.

Lemma unset_handle (ev : Event) : preserves hybridTimersUnset clearsNothing (handle ev).
Proof.
  apply preserves_handle; try done.
  - apply unset_triggerRediscovery.
  - apply unset_pollCycleFinally.
Qed.

Ltac keepI :=
  repeat lazymatch goal with
    | |- keepsIntervals (mret _) => apply keepsIntervals_mret
    | |- keepsIntervals (mbind _ _) => apply keepsIntervals_bind; [| intros ?]
    | |- keepsIntervals getH => apply keepsIntervals_getH
    | |- keepsIntervals (debugLogH _) => apply keepsIntervals_debugLogH
    | |- keepsIntervals clearPollingIntervals => apply keepsIntervals_clearPollingIntervals
    | |- keepsIntervals (out _) => apply keepsIntervals_out; intros ?; reflexivity
    | |- keepsIntervals (modifyH _) => apply keepsIntervals_modifyH; intros ?; reflexivity
    | |- keepsIntervals (forEachH _ _) => apply keepsIntervals_forEachH; intros ?
    | |- keepsIntervals (match ?x with _ => _ end) => destruct x
    end.

Lemma keepsIntervals_lift_modify (f : State → State) :
  (∀ s, pollTimeout (f s) = pollTimeout s) →
  (∀ s, subscriptionCheckTimer (f s) = subscriptionCheckTimer s) →
  keepsIntervals (lift (modify f)).
Proof.
  intros H1 H2. apply keepsIntervals_lift. intros s [Hp Hc]. cbn.
  split; [|constructor]. split; by rewrite ?H1, ?H2.
Qed.

Lemma keepsIntervals_lift_fresh : keepsIntervals (lift fresh).
Proof.
  apply keepsIntervals_lift. intros s [Hp Hc]. cbn. split; [by split|constructor].
Qed.

Lemma keepsIntervals_triggerPollingRediscovery : keepsIntervals triggerPollingRediscovery.
Proof.
  intros live h (Hl & Hp & Hc). unfold ranH, intervalsTracked. rewrite triggerPollingRediscovery_run.
  cbn [fst snd] in *.
  destruct (isRediscovering (core h)); cbn [traceH finalH fst snd].
  - rewrite liveIntervals_Core by (by apply Forall_dbg). by split.
  - unfold pollingTeardownTrace. cbn [liveIntervals foldl intervalEffect].
    fold (liveIntervals live (clearIntervals (pollingIntervals h) ++
            (if listening (core h) then [Core EStopListener] else []) ++
            [Core (ESetTimeout (nextObj (core h)) RestartDiscovery 5000)])).
    rewrite liveIntervals_app, liveIntervals_clear. subst live.
    rewrite without_all by done.
    split; [|by split]. by destruct (listening (core h)).
Qed.

Lemma keepsIntervals_registerPolling (mx : Z) (a p : option Z) (g : Group) :
  keepsIntervals (registerPolling mx a p g).
Proof.
  intros live h (Hl & Hp & Hc). cbn [fst snd] in *. unfold ranH, registerPolling, intervalsTracked.
  destruct h as [[cfg dbgOn ad sd gbi gs gh sct pt rd lis ds hp nx] st pis pfc cs].
  ncompute. cbn [traceH finalH fst snd liveIntervals foldl intervalEffect app] in *.
  subst live. by split.
Qed.

Lemma keepsIntervals_setListenersPolling (gs : list Group) (p : option Z) :
  keepsIntervals (setListenersPolling gs p).
Proof.
  unfold setListenersPolling. keepI. apply keepsIntervals_registerPolling.
Qed.

Lemma keepsIntervals_pollingTick_then (c : PollingClosure) (r : PollResults) :
  keepsIntervals (pollingTick_then c r).
Proof.
  unfold pollingTick_then, pollingCount, pollingTrack, pollingVolume, pollingMute,
    pollingState, getCell, updCell, logH, skipH.
  keepI; apply keepsIntervals_triggerPollingRediscovery.
Qed.

Lemma keepsIntervals_stop : keepsIntervals stop.
Proof.
  intros live h (Hl & Hp & Hc). unfold ranH, intervalsTracked. rewrite stop_run.
  cbn [traceH finalH fst snd] in *. unfold stopTrace. cbv zeta.
  rewrite Hp, Hc. cbn [from_option fmap list_fmap app].
  rewrite liveIntervals_app, liveIntervals_clear. subst live.
  rewrite without_all by done. rewrite liveIntervals_app.
  rewrite liveIntervals_Core by (apply Forall_listenerRemovals; done).
  split; [|by split]. by destruct (listening (core h)).
Qed.

Lemma keepsIntervals_discoverGroups (n : Z) : keepsIntervals (discoverGroups n).
Proof.
  intros live h (Hl & Hp & Hc). unfold ranH, intervalsTracked. rewrite discoverGroups_run.
  cbn [traceH finalH fst snd] in *.
  destruct (asyncDevice (core h)); by split.
Qed.

Lemma keepsIntervals_pollingTick (c : PollingClosure) : keepsIntervals (pollingTick c).
Proof. unfold pollingTick. keepI. Qed.

Lemma keepsIntervals_onListenerFailure : keepsIntervals onListenerFailure.
Proof.
  unfold onListenerFailure, logH. keepI.
  apply keepsIntervals_lift, (unset_handle ListenerError).
Qed.

Lemma keepsIntervals_restartDiscoveryH : keepsIntervals restartDiscoveryH.
Proof.
  unfold restartDiscoveryH.
  apply keepsIntervals_bind; [by apply keepsIntervals_lift_modify|intros _].
  apply keepsIntervals_discoverGroups.
Qed.

Lemma keepsIntervals_socketNotificationReceived (n : SocketNotification) :
  keepsIntervals (socketNotificationReceived n).
Proof.
  unfold socketNotificationReceived, logH.
  destruct n as [payload rest|gid|gid|gid v|id].
  - apply keepsIntervals_bind; [by apply keepsIntervals_lift_modify|intros _].
    apply keepsIntervals_bind; [by apply keepsIntervals_modifyH|intros _].
    apply keepsIntervals_bind; [by apply keepsIntervals_lift_modify|intros _].
    apply keepsIntervals_bind; [apply keepsIntervals_discoverGroups|intros p].
    apply keepsIntervals_mret.
  - apply keepsIntervals_bind; [|intros _; apply keepsIntervals_mret].
    apply keepsIntervals_lift, (unset_handle (TogglePlayPause gid)).
  - apply keepsIntervals_bind; [|intros _; apply keepsIntervals_mret].
    apply keepsIntervals_lift, (unset_handle (Next gid)).
  - apply keepsIntervals_bind; [|intros _; apply keepsIntervals_mret].
    apply keepsIntervals_lift, (unset_handle (SetVolume gid v)).
  - keepI.
Qed.

Lemma pollingStep_tracked (c : list TimerId * Helper) (st : PollingStep) :
  intervalsTracked c → intervalsTracked (pollingStep c st).
Proof.
  destruct c as [live h]. intros H.
  destruct st as [gs p|cl|cl r| | | |n]; cbn [pollingStep fst snd].
  - by apply keepsIntervals_setListenersPolling.
  - by apply keepsIntervals_pollingTick.
  - by apply keepsIntervals_pollingTick_then.
  - by apply keepsIntervals_onListenerFailure.
  - by apply keepsIntervals_stop.
  - by apply keepsIntervals_restartDiscoveryH.
  - by apply keepsIntervals_socketNotificationReceived.
Qed.

(** X19: polling-only mode does not lose an interval.  Whatever happens
    (groups are registered again, ticks fire and settle, the listener
    fails, the helper is stopped, a restart fires, notifications
    arrive), the intervals that were set and not cleared are the ones
    listed in [pollingIntervals], in order; so [stop] and a polling
    rediscovery, which clear that list, leave no interval running. *)
Theorem polling_intervals_tracked (steps : list PollingStep) (c : list TimerId * Helper) :
  intervalsTracked c →
  let c' := foldl pollingStep c steps in
  intervalsTracked c' ∧
  (pollingStep c' Stops).1 = [] ∧
  liveIntervals c'.1 (traceH (triggerPollingRediscovery c'.2)) =
    (if isRediscovering (core c'.2) then c'.1 else []).
Proof.
  intros H c'.
  assert (Hc' : intervalsTracked c').
  { subst c'. revert c H. induction steps as [|st steps IH]; intros c H; [exact H|].
    cbn [foldl]. apply IH. by apply pollingStep_tracked. }
  split; [exact Hc'|]. clearbody c'. destruct c' as [live h]. split.
  - destruct (keepsIntervals_stop live h Hc') as (Hl & _).
    unfold ranH in *. cbn [pollingStep fst snd] in *. unfold ranH.
    cbn [fst]. rewrite Hl, stop_run. reflexivity.
  - destruct (keepsIntervals_triggerPollingRediscovery live h Hc') as (Hl & _).
    unfold ranH in Hl. cbn [fst snd] in *. rewrite Hl.
    rewrite triggerPollingRediscovery_run.
    destruct (isRediscovering (core h)); cbn [finalH fst snd]; [|reflexivity].
    destruct Hc' as (Hlive & _). cbn [fst snd] in Hlive. by rewrite Hlive.
Qed.

Lemma polling_intervals_tracked_witness :
  let h := mkHelper discovered (mkSettings None true false (Some 5000)) [] ∅ ∅ in
  let failed := mkResults Rejected Rejected Rejected Rejected in
  let c := mkPollingClosure kitchen (mkDevice 0%nat "192.168.1.20") 1%nat 1 None in
  let steps := [StartPolling [kitchen; den] (Some 5000); TickFires c;
                StartPolling [kitchen] (Some 5000); TickSettled c failed; ListenerFails] in
  intervalsTracked ([], h) ∧
  intervalsTracked (foldl pollingStep ([], h) steps).
Proof.
  intros h failed c steps.
  assert (H0 : intervalsTracked ([], h)) by (by repeat split).
  split; [exact H0|].
  exact (proj1 (polling_intervals_tracked steps ([], h) H0)).
Defined.

(** ** Polling-only mode: registration *)

Lemma registerPolling_run (mx : Z) (a p : option Z) (g : Group) (h : Helper) :
  registerPolling mx a p g h =
    let n := nextObj (core h) in
    (tt,
     {| core := set_nextObj (S (S (S n))) (core h);
        settings := settings h;
        pollingIntervals := pollingIntervals h ++ [S (S n)];
        pollingFailureCounts := <[ID g := Int 0]> (pollingFailureCounts h);
        cells := <[S n := emptyCell]> (cells h) |},
     [OLog LLog (HMsgRegisteringPolling (Name g) (host g));
      OSetInterval (S (S n))
        (PollingTick (mkPollingClosure g (mkDevice n (host g)) (S n) mx a)) p]).
Proof.
  unfold registerPolling.
  destruct h as [[cfg dbgOn ad sd gbi gs gh sct pt rd lis ds hp nx] st pis pfc cs].
  ncompute. reflexivity.
Qed.

#[global] Arguments registerPolling : simpl never.

Lemma forEachH_registerPolling (mx : Z) (a p : option Z) (gs : list Group) (h : Helper) :
  let r := forEachH (registerPolling mx a p) gs h in
  let cls := registeredClosures (traceH r) in
  pc_group <$> cls = gs ∧
  registeredDelays (traceH r) = replicate (length gs) p ∧
  (∃ ids, pollingIntervals (finalH r) = pollingIntervals h ++ ids ∧ length ids = length gs) ∧
  (nextObj (core h) ≤ nextObj (core (finalH r)))%nat ∧
  Forall (λ c, (nextObj (core h) ≤ pc_cell c < nextObj (core (finalH r)))%nat ∧
               cells (finalH r) !! pc_cell c = Some emptyCell ∧
               pc_maxFailures c = mx ∧ pc_apiTimeout c = a) cls ∧
  NoDup (pc_cell <$> cls) ∧
  (∀ l, (l < nextObj (core h))%nat → cells (finalH r) !! l = cells h !! l) ∧
  (∀ gid, pollingFailureCounts (finalH r) !! gid =
          if bool_decide (gid ∈ ID <$> gs) then Some (Int 0)
          else pollingFailureCounts h !! gid).
Proof.
  revert h. induction gs as [|g gs IH]; intros h r cls; subst cls r.
  - cbn. repeat split; try done.
    + exists []. by rewrite app_nil_r.
    + constructor.
  - cbn [forEachH]. nbind. rewrite registerPolling_run. cbv zeta.
    set (n := nextObj (core h)).
    set (h1 := mkHelper _ _ _ _ _).
    specialize (IH h1). cbv zeta in IH.
    destruct IH as (G & D & (ids & I1 & I2) & Hn & F & ND & Hc & Hp).
    destruct (forEachH _ gs h1) as [[[] h2] t2]. cbn [finalH traceH fst snd] in *.
    assert (Hn1 : nextObj (core h1) = S (S (S n))).
    { subst h1. destruct h as [s ? ? ? ?]. by destruct s. }
    rewrite Hn1 in *.
    unfold registeredClosures, registeredDelays in *.
    cbn [omap list_omap app].
    split; [cbn [fmap list_fmap pc_group]; by rewrite G|].
    split; [cbn [length replicate]; by rewrite D|].
    split.
    { exists (S (S n) :: ids). rewrite I1. subst h1. cbn [pollingIntervals].
      rewrite <- app_assoc. split; [done|]. cbn. by rewrite I2. }
    split; [lia|].
    split.
    { constructor.
      - cbn [pc_cell pc_maxFailures pc_apiTimeout]. repeat split; try lia.
        rewrite Hc by lia. subst h1. cbn [cells]. apply lookup_insert_eq.
      - eapply Forall_impl; [exact F|]. cbn beta. intros c (? & ? & ? & ?).
        repeat split; try done; lia. }
    split.
    { cbn [fmap list_fmap pc_cell]. constructor; [|exact ND].
      intros Hin. apply list_elem_of_fmap in Hin as (c & Hc1 & Hc2).
      rewrite Forall_forall in F. apply F in Hc2.
      destruct Hc2 as (Hc2 & _). rewrite <- Hc1 in Hc2. lia. }
    split.
    { intros l Hl. rewrite Hc by lia. subst h1. cbn [cells].
      apply lookup_insert_ne. lia. }
    intros gid. rewrite Hp. subst h1. cbn [pollingFailureCounts].
    destruct (decide (gid = ID g)) as [->|Hne].
    + rewrite lookup_insert_eq.
      rewrite (bool_decide_eq_true_2 (ID g ∈ ID <$> g :: gs)) by (cbn; left).
      by destruct (bool_decide _).
    + rewrite lookup_insert_ne by done.
      destruct (bool_decide (gid ∈ ID <$> gs)) eqn:E.
      * apply bool_decide_eq_true in E.
        by rewrite bool_decide_eq_true_2 by (cbn; by right).
      * apply bool_decide_eq_false in E.
        rewrite bool_decide_eq_false_2; [done|].
        cbn. rewrite not_elem_of_cons. by split.
Qed.

Lemma registeredClosures_clear (ids : list TimerId) (t : list Output) :
  registeredClosures (clearIntervals ids ++ t) = registeredClosures t.
Proof. induction ids as [|x l IH]; [done|]. cbn. exact IH. Qed.

Lemma registeredDelays_clear (ids : list TimerId) (t : list Output) :
  registeredDelays (clearIntervals ids ++ t) = registeredDelays t.
Proof. induction ids as [|x l IH]; [done|]. cbn. exact IH. Qed.

(** X20: [setListenersPolling] clears the intervals of an earlier
    registration and sets one interval per group, in order, with the
    delay it was given.  Each callback closes over its group, over the
    maximum and the API deadline read at registration, and over
    variables of its own that start out [null]; the failure count of
    every group registered is 0, and there is no count for any other
    group. *)
Theorem polling_registration (gs : list Group) (p : option Z) (h : Helper) :
  let r := setListenersPolling gs p h in
  let cls := registeredClosures (traceH r) in
  (∀ id, id ∈ pollingIntervals h → Core (EClearInterval id) ∈ traceH r) ∧
  pc_group <$> cls = gs ∧
  registeredDelays (traceH r) = replicate (length gs) p ∧
  length (pollingIntervals (finalH r)) = length gs ∧
  Forall (λ c, cells (finalH r) !! pc_cell c = Some emptyCell ∧
               pollingFailureCounts (finalH r) !! ID (pc_group c) = Some (Int 0) ∧
               pc_maxFailures c = maxFailures (core h) ∧
               pc_apiTimeout c = apiTimeout (core h)) cls ∧
  NoDup (pc_cell <$> cls) ∧
  (∀ gid, gid ∉ ID <$> gs → pollingFailureCounts (finalH r) !! gid = None).
Proof.
  intros r cls. subst cls r. unfold setListenersPolling. nbind.
  rewrite clearPollingIntervals_run. unfold getH. cbv beta iota zeta.
  set (h0 := set_pollingFailureCounts ∅ (set_pollingIntervals [] h)).
  change (maxFailures (core h0)) with (maxFailures (core h)).
  change (apiTimeout (core h0)) with (apiTimeout (core h)).
  pose proof (forEachH_registerPolling (maxFailures (core h)) (apiTimeout (core h)) p gs h0)
    as IH. cbv zeta in IH.
  destruct IH as (G & D & (ids & I1 & I2) & Hn & F & ND & Hc & Hp).
  destruct (forEachH _ gs h0) as [[[] h2] t2]. cbn [finalH traceH fst snd] in *.
  cbn [app]. rewrite registeredClosures_clear, registeredDelays_clear.
  split.
  { intros id Hid. rewrite elem_of_app. left. apply elem_of_clearIntervals. by exists id. }
  split; [exact G|]. split; [exact D|].
  split; [by rewrite I1|].
  split.
  { rewrite Forall_forall in F. apply Forall_forall. intros c Hin.
    destruct (F c Hin) as (_ & H1 & H2 & H3). repeat split; try done.
    rewrite Hp. rewrite bool_decide_eq_true_2; [done|]. rewrite <- G.
    apply list_elem_of_fmap. exists (pc_group c). split; [done|].
    apply list_elem_of_fmap. exists c. split; [done|]. exact Hin. }
  split; [exact ND|].
  intros gid Hgid. rewrite Hp. rewrite bool_decide_eq_false_2 by exact Hgid.
  subst h0. cbn [pollingFailureCounts set_pollingFailureCounts set_pollingIntervals].
  apply lookup_empty.
Qed.

(** ** Discovery: retries *)

Lemma discoverGroups_catch_run (p : PendingDiscovery) (h : Helper) :
  discoverGroups_catch p h =
    let attempts := pd_attempts p + 1 in
    let timeout := Z.min (attempts ^ 2) 30 in
    (tt, set_core (set_asyncDevice false (set_nextObj (S (nextObj (core h))) (core h))) h,
     OLog LError (HMsgGetGroupsFailed timeout) ::
     (if listening (core h) then [Core EStopListener] else []) ++
     [OSetTimeout (nextObj (core h)) (RetryDiscovery attempts) (timeout * 1000)]).
Proof.
  unfold discoverGroups_catch.
  destruct h as [[cfg dbgOn ad sd gbi gs gh sct pt rd [|] ds hp nx] st pis pfc cs];
    ncompute; reflexivity.
Qed.

#[global] Arguments discoverGroups_catch : simpl never.

Lemma failedAttempt_run (a : Z) (h : Helper) :
  failedAttempt a h =
    (tt, set_core (set_asyncDevice false (set_nextObj (S (nextObj (core h))) (core h))) h,
     (if asyncDevice (core h) then [] else [ODiscover (t_discovery (helperTimeouts h))]) ++
     OLog LError (HMsgGetGroupsFailed (Z.min ((a + 1) ^ 2) 30)) ::
     (if listening (core h) then [Core EStopListener] else []) ++
     [OSetTimeout (nextObj (core h)) (RetryDiscovery (a + 1))
        (Z.min ((a + 1) ^ 2) 30 * 1000)]).
Proof.
  unfold failedAttempt. nbind. rewrite discoverGroups_run, discoverGroups_catch_run.
  destruct h as [[cfg dbgOn [|] sd gbi gs gh sct pt rd lis ds hp nx] st pis pfc cs];
    reflexivity.
Qed.

Lemma retryTimers_app (t1 t2 : list Output) :
  retryTimers (t1 ++ t2) = retryTimers t1 ++ retryTimers t2.
Proof. apply omap_app. Qed.

Lemma discoveries_app (t1 t2 : list Output) :
  discoveries (t1 ++ t2) = (discoveries t1 + discoveries t2)%nat.
Proof. unfold discoveries. by rewrite List.filter_app, length_app. Qed.

Lemma failedAttempts_run (n : nat) (a : Z) (h : Helper) :
  let r := failedAttempts n a h in
  retryTimers (traceH r) = (λ k, (a + Z.of_nat k, backoff (a + Z.of_nat k))) <$> seq 1 n ∧
  discoveries (traceH r) = (n - (if asyncDevice (core h) then 1 else 0))%nat ∧
  asyncDevice (core (finalH r)) =
    match n with O => asyncDevice (core h) | S _ => false end.
Proof.
  revert a h. induction n as [|n IH]; intros a h r; subst r.
  - cbn; repeat split; try by destruct (asyncDevice (core h)).
  - cbn [failedAttempts]. nbind. rewrite failedAttempt_run.
    set (h1 := set_core _ h).
    destruct (IH (a + 1) h1) as (R & D & A).
    destruct (failedAttempts n (a + 1) h1) as [[[] h2] t2]. cbn [finalH traceH fst snd] in *.
    split; [|split].
    + rewrite retryTimers_app. rewrite R.
      assert (Hhead : retryTimers
                ((if asyncDevice (core h) then []
                  else [ODiscover (t_discovery (helperTimeouts h))]) ++
                 OLog LError (HMsgGetGroupsFailed (Z.min ((a + 1) ^ 2) 30)) ::
                 (if listening (core h) then [Core EStopListener] else []) ++
                 [OSetTimeout (nextObj (core h)) (RetryDiscovery (a + 1))
                    (Z.min ((a + 1) ^ 2) 30 * 1000)])
              = [(a + 1, backoff (a + 1))]).
      { unfold backoff. replace ((a + 1) * (a + 1)) with ((a + 1) ^ 2) by lia.
        rewrite (Z.mul_comm 1000).
        by destruct (asyncDevice (core h)), (listening (core h)). }
      rewrite Hhead. cbn [seq fmap list_fmap app]. f_equal.
      rewrite <- (fmap_S_seq 1), <- list_fmap_compose.
      apply list_fmap_ext. intros i k _. cbn.
      replace (a + 1 + Z.of_nat k) with (a + Z.of_nat (S k)) by lia. done.
    + rewrite discoveries_app, D.
      assert (Hdisc : discoveries
                ((if asyncDevice (core h) then []
                  else [ODiscover (t_discovery (helperTimeouts h))]) ++
                 OLog LError (HMsgGetGroupsFailed (Z.min ((a + 1) ^ 2) 30)) ::
                 (if listening (core h) then [Core EStopListener] else []) ++
                 [OSetTimeout (nextObj (core h)) (RetryDiscovery (a + 1))
                    (Z.min ((a + 1) ^ 2) 30 * 1000)])
              = if asyncDevice (core h) then 0%nat else 1%nat).
      { by destruct (asyncDevice (core h)), (listening (core h)). }
      rewrite Hdisc.
      assert (Ha1 : asyncDevice (core h1) = false).
      { subst h1. destruct h as [s ? ? ? ?]. by destruct s. }
      rewrite Ha1. destruct (asyncDevice (core h)); lia.
    + destruct n; [|exact A].
      rewrite A. subst h1. destruct h as [s ? ? ? ?]. by destruct s.
Qed.

Lemma backoff_bounds (k : Z) :
  1 ≤ k →
  1000 ≤ backoff k ≤ 30000 ∧ backoff k ≤ backoff (k + 1) ∧ (6 ≤ k → backoff k = 30000).
Proof. unfold backoff. intros Hk. nia. Qed.

(** X21: a discovery that keeps failing is retried with a growing
    delay.  After the [k]-th failure in a row the retry is set
    [min(k * k, 30)] seconds later: 1, 4, 9, 16, 25 seconds and from the
    sixth failure on 30 seconds, never less than one second and never
    more than thirty.  The retry carries the count on, and every
    failure drops the device promise, so each retry starts a new
    discovery. *)
Theorem discovery_backoff (n : nat) (h : Helper) :
  let r := failedAttempts n 0 h in
  retryTimers (traceH r) = (λ k, (Z.of_nat k, backoff (Z.of_nat k))) <$> seq 1 n ∧
  (∀ a ms, (a, ms) ∈ retryTimers (traceH r) →
     ms = backoff a ∧ 1000 ≤ ms ≤ 30000 ∧ ms ≤ backoff (a + 1) ∧ (6 ≤ a → ms = 30000)) ∧
  discoveries (traceH r) = (n - (if asyncDevice (core h) then 1 else 0))%nat ∧
  (n ≠ O → asyncDevice (core (finalH r)) = false).
Proof.
  intros r. subst r.
  destruct (failedAttempts_run n 0 h) as (R & D & A). cbv zeta in *.
  assert (R' : retryTimers (traceH (failedAttempts n 0 h)) =
               (λ k, (Z.of_nat k, backoff (Z.of_nat k))) <$> seq 1 n).
  { rewrite R. apply list_fmap_ext. intros i k _. cbn. done. }
  split; [exact R'|]. split; [|split; [exact D|]].
  - intros a ms Hin. rewrite R' in Hin.
    apply list_elem_of_fmap in Hin as (k & [= -> ->] & Hk).
    apply elem_of_seq in Hk.
    destruct (backoff_bounds (Z.of_nat k)) as (B1 & B2 & B3); [lia|].
    repeat split; try done; lia.
  - intros Hn. destruct n; [done|exact A].
Qed.

(** ** The first fetch *)

Lemma groupFetched_run (f : GroupFetch) (r : PollResults) (h : Helper) :
  groupFetched f r h = (itemOf f r, h, rejectionLines f r).
Proof.
  unfold groupFetched, itemOf, rejectionLines, logRejected.
  destruct r as [[t|] [v|] [m|] [st|]]; reflexivity.
Qed.

Lemma groupsFetched_run (items : list Item) (h : Helper) :
  groupsFetched items h =
    let validItems := List.filter validItem items in
    if Nat.eqb (length validItems) 0 && Nat.ltb 0 (length items) then
      (None, h, [OLog LWarn HMsgAllGroupsFailed])
    else
      (Some validItems,
       set_core (set_groupsById (byId (λ item, zg_group (it_group item)) validItems)
                   (core h)) h,
       [OSendGroups (byId id validItems)]).
Proof.
  unfold groupsFetched. cbv zeta. fold validItem.
  destruct (Nat.eqb _ 0 && Nat.ltb 0 _); [reflexivity|].
  destruct h as [[cfg dbgOn ad sd gbi gs gh sct pt rd lis ds hp nx] st pis pfc cs].
  reflexivity.
Qed.

Lemma setGroups_catch_run (h : Helper) :
  setGroups_catch h =
    (tt, set_core (set_nextObj (S (nextObj (core h))) (core h)) h,
     [OLog LError HMsgSetGroupsError; OSetTimeout (nextObj (core h)) RediscoverGroups 10000]).
Proof.
  unfold setGroups_catch.
  destruct h as [[cfg dbgOn ad sd gbi gs gh sct pt rd lis ds hp nx] st pis pfc cs].
  reflexivity.
Qed.

#[global] Arguments groupFetched : simpl never.
#[global] Arguments groupsFetched : simpl never.
#[global] Arguments setGroups_catch : simpl never.

Lemma filter_validItem_none (items : list Item) :
  Forall (λ item, it_track item = None) items → List.filter validItem items = [].
Proof.
  induction 1 as [|item items Hi _ IH]; [done|].
  cbn. unfold validItem at 1. rewrite Hi.
  rewrite bool_decide_eq_false_2 by (by intros [? ?]). exact IH.
Qed.

(** X22: when groups were selected and the track fetch of every one of
    them failed, [setGroups] sends no group list and leaves
    [groupsById] as it was; it warns and throws, and its [catch] sets a
    retry ten seconds later.  The retry calls [discoverGroups] with the
    count at 0 and, the device promise being still in place, starts no
    new discovery. *)
Theorem all_groups_failed_retries (fs : list GroupFetch) (rs : list PollResults)
    (h : Helper) :
  fs ≠ [] →
  length rs = length fs →
  Forall (λ r, settledOr (r_track r) None = None) rs →
  let items := zip_with itemOf fs rs in
  let h' := finalH (setGroups_catch h) in
  groupsFetched items h = (None, h, [OLog LWarn HMsgAllGroupsFailed]) ∧
  traceH (setGroups_catch h) =
    [OLog LError HMsgSetGroupsError; OSetTimeout (nextObj (core h)) RediscoverGroups 10000] ∧
  groupsById (core h') = groupsById (core h) ∧
  pd_attempts (resultH (rediscoverGroups h')) = 0 ∧
  (asyncDevice (core h) = true → traceH (rediscoverGroups h') = []).
Proof.
  intros Hne Hlen Hall items h'. subst h' items.
  rewrite groupsFetched_run, setGroups_catch_run. cbv zeta.
  assert (Hitems : Forall (λ item, it_track item = None) (zip_with itemOf fs rs)).
  { clear Hne. revert rs Hlen Hall. induction fs as [|f fs IH]; intros [|r rs] Hlen Hall;
      try done; cbn.
    apply Forall_cons in Hall as [Hr Hall]. constructor; [exact Hr|].
    apply IH; [by injection Hlen|exact Hall]. }
  rewrite (filter_validItem_none _ Hitems).
  assert (Hlen' : Nat.ltb 0 (length (zip_with itemOf fs rs)) = true).
  { apply Nat.ltb_lt. rewrite length_zip_with, Hlen.
    destruct fs; [done|cbn; lia]. }
  rewrite Hlen'. cbn [length Nat.eqb andb finalH traceH fst snd].
  split; [reflexivity|]. split; [reflexivity|]. split; [by destruct h as [[] ? ? ? ?]|].
  unfold rediscoverGroups. rewrite discoverGroups_run. cbn [resultH traceH fst snd pd_attempts].
  split; [reflexivity|].
  intros Ha.
  destruct h as [[cfg dbgOn ad sd gbi gs gh sct pt rd lis ds hp nx] st pis pfc cs].
  cbn in Ha. subst ad. reflexivity.
Qed.

Lemma all_groups_failed_retries_witness :
  let h := mkHelper discovered (mkSettings None false true None) [] ∅ ∅ in
  let f := mkGroupFetch (mkZoneGroup kitchen []) (mkDevice 0%nat "192.168.1.20") in
  let r := mkResults Rejected (Fulfilled 25) (Fulfilled false) (Fulfilled "playing") in
  [f] ≠ [] ∧ length [r] = length [f] ∧
  groupsFetched (zip_with itemOf [f] [r]) h = (None, h, [OLog LWarn HMsgAllGroupsFailed]).
Proof.
  intros h f r.
  assert (H1 : [f] ≠ []) by discriminate.
  assert (H2 : length [r] = length [f]) by reflexivity.
  split; [exact H1|]. split; [exact H2|].
  exact (proj1 (all_groups_failed_retries [f] [r] h H1 H2 ltac:(repeat constructor))).
Defined.

Lemma lastWithId_snoc (gid : string) (items : list Item) (x : Item) :
  lastWithId gid (items ++ [x]) =
    if String.eqb (itemId x) gid then Some x else lastWithId gid items.
Proof.
  unfold lastWithId. rewrite List.filter_app. cbn [List.filter].
  destruct (String.eqb (itemId x) gid).
  - apply last_snoc.
  - by rewrite app_nil_r.
Qed.

Lemma foldl_insert_lookup {V} (v : Item → V) (items : list Item) (m0 : gmap string V)
    (gid : string) :
  foldl (λ map item, <[itemId item := v item]> map) m0 items !! gid =
    match lastWithId gid items with
    | Some item => Some (v item)
    | None => m0 !! gid
    end.
Proof.
  induction items as [|x items IH] using rev_ind; [done|].
  rewrite foldl_app, lastWithId_snoc. cbn [foldl].
  destruct (String.eqb_spec (itemId x) gid) as [->|Hne].
  - apply lookup_insert_eq.
  - rewrite lookup_insert_ne by done. exact IH.
Qed.

Lemma byId_lookup {V} (v : Item → V) (items : list Item) (gid : string) :
  byId v items !! gid = v <$> lastWithId gid items.
Proof.
  unfold byId. rewrite foldl_insert_lookup, lookup_empty.
  by destruct (lastWithId gid items).
Qed.

Lemma lastWithId_Some (gid : string) (items : list Item) (item : Item) :
  lastWithId gid items = Some item → item ∈ items ∧ itemId item = gid.
Proof.
  unfold lastWithId. intros H. apply last_Some_elem_of in H.
  apply list_elem_of_In, List.filter_In in H as [H1 H2].
  split; [by apply list_elem_of_In|by apply String.eqb_eq].
Qed.

Lemma lastWithId_is_Some (gid : string) (items : list Item) :
  is_Some (lastWithId gid items) ↔ ∃ item, item ∈ items ∧ itemId item = gid.
Proof.
  split.
  - intros [item H]. exists item. by apply lastWithId_Some.
  - intros (item & Hin & Hid). unfold lastWithId.
    destruct (last _) eqn:E; [done|]. apply last_None in E.
    assert (Hf : item ∈ List.filter (λ i, String.eqb (itemId i) gid) items).
    { apply list_elem_of_In, List.filter_In. split; [by apply list_elem_of_In|].
      by apply String.eqb_eq. }
    rewrite E in Hf. by apply elem_of_nil in Hf.
Qed.

(** X23: when at least one selected group returned a track, or no
    group was selected at all, [setGroups] replaces [groupsById] in
    whole by the groups whose track fetch succeeded, keyed by their id
    (for two groups with one id the later one), and sends the items of
    exactly those groups.  A group whose track fetch failed is in
    neither, whatever its other fetches gave, and a control command for
    its id is then treated as for an unknown group: the error is
    logged, or, when the id names a member that every object inherits,
    the handler throws. *)
Theorem valid_groups_are_controllable (items : list Item) (h : Helper) :
  List.filter validItem items ≠ [] ∨ items = [] →
  let r := groupsFetched items h in
  let valid := List.filter validItem items in
  resultH r = Some valid ∧
  traceH r = [OSendGroups (byId id valid)] ∧
  (∀ gid, groupsById (core (finalH r)) !! gid =
          (λ item, zg_group (it_group item)) <$> lastWithId gid valid) ∧
  (∀ gid, byId id valid !! gid = lastWithId gid valid) ∧
  (∀ gid, is_Some (groupsById (core (finalH r)) !! gid) ↔
          ∃ item, item ∈ items ∧ is_Some (it_track item) ∧ itemId item = gid) ∧
  (∀ gid, (∀ item, item ∈ items → itemId item = gid → it_track item = None) →
     lift (handleNext gid) (finalH r) =
       (tt, finalH r,
        [Core (if bool_decide (gid ∈ objectPrototypeNames) then EThrow TypeError
               else ELog LError (MsgGroupNotFound gid))])).
Proof.
  intros Hok r valid. subst r valid. rewrite groupsFetched_run. cbv zeta.
  assert (Hcond : Nat.eqb (length (List.filter validItem items)) 0 &&
                  Nat.ltb 0 (length items) = false).
  { destruct Hok as [Hv| ->]; [|reflexivity].
    destruct (List.filter validItem items); [done|reflexivity]. }
  rewrite Hcond. cbn [resultH finalH traceH fst snd].
  assert (Hg : ∀ gid, groupsById (core (set_core (set_groupsById
                  (byId (λ item, zg_group (it_group item)) (List.filter validItem items))
                  (core h)) h)) !! gid =
               (λ item, zg_group (it_group item)) <$>
                 lastWithId gid (List.filter validItem items)).
  { intros gid. destruct h as [[] ? ? ? ?]. cbn [core set_core groupsById set_groupsById].
    apply byId_lookup. }
  assert (Hvalid : ∀ item, item ∈ List.filter validItem items ↔
                           item ∈ items ∧ is_Some (it_track item)).
  { intros item. rewrite !list_elem_of_In, List.filter_In. unfold validItem.
    by rewrite bool_decide_eq_true. }
  split; [reflexivity|]. split; [reflexivity|]. split; [exact Hg|].
  split.
  { intros gid. rewrite byId_lookup. by destruct (lastWithId _ _). }
  split.
  { intros gid. rewrite Hg, fmap_is_Some, lastWithId_is_Some. split.
    - intros (item & Hin & Hid). apply Hvalid in Hin as [? ?]. by exists item.
    - intros (item & Hin & Ht & Hid). exists item. split; [|done]. by apply Hvalid. }
  intros gid Hnone.
  assert (Hl : groupsById (core (set_core (set_groupsById
                  (byId (λ item, zg_group (it_group item)) (List.filter validItem items))
                  (core h)) h)) !! gid = None).
  { rewrite Hg. destruct (lastWithId gid _) as [item|] eqn:E; [|done].
    apply lastWithId_Some in E as [Hin Hid]. apply Hvalid in Hin as [Hin [t Ht]].
    by rewrite (Hnone item Hin Hid) in Ht. }
  unfold lift, handleNext, getProperty. munfold. cbv beta iota zeta.
  rewrite Hl. case_bool_decide; unfold emit; cbv beta iota zeta;
    by rewrite set_core_id.
Qed.

Lemma valid_groups_are_controllable_witness :
  let h := mkHelper discovered (mkSettings None false true None) [] ∅ ∅ in
  let good := mkItem (mkZoneGroup kitchen []) (Some song1) "playing" 25 false in
  let bad := mkItem (mkZoneGroup den []) None "playing" 10 false in
  (List.filter validItem [good; bad] ≠ [] ∨ [good; bad] = []) ∧
  resultH (groupsFetched [good; bad] h) = Some [good] ∧
  lift (handleNext "RINCON_B") (finalH (groupsFetched [good; bad] h)) =
    (tt, finalH (groupsFetched [good; bad] h),
     [Core (ELog LError (MsgGroupNotFound "RINCON_B"))]).
Proof.
  intros h good bad.
  assert (H0 : List.filter validItem [good; bad] ≠ [] ∨ [good; bad] = [])
    by (left; discriminate).
  split; [exact H0|].
  destruct (valid_groups_are_controllable [good; bad] h H0) as (H1 & _ & _ & _ & _ & H6).
  split; [exact H1|].
  apply (H6 "RINCON_B"%string). intros item Hin Hid.
  apply elem_of_cons in Hin as [->|Hin]; [discriminate Hid|].
  apply list_elem_of_singleton in Hin as ->. reflexivity.
Defined.

(** ** The mode *)

Lemma subscribeGroupEvents_run (g : Group) (h : Helper) :
  subscribeGroupEvents g h =
    ((g, mkDevice (nextObj (core h)) (host g)),
     set_core (set_nextObj (S (nextObj (core h))) (core h)) h,
     eventsSubscribeTrace (g, mkDevice (nextObj (core h)) (host g))).
Proof.
  unfold subscribeGroupEvents.
  destruct h as [[cfg dbgOn ad sd gbi gs gh sct pt rd lis ds hp nx] st pis pfc cs].
  reflexivity.
Qed.

#[global] Arguments subscribeGroupEvents : simpl never.

Lemma mapMH_subscribeGroupEvents_run (gs : list Group) (h : Helper) :
  mapMH subscribeGroupEvents gs h =
    (subscribedHandles (nextObj (core h)) gs,
     set_core (set_nextObj (nextObj (core h) + length gs)%nat (core h)) h,
     flat_map eventsSubscribeTrace (subscribedHandles (nextObj (core h)) gs)).
Proof.
  revert h. induction gs as [|g gs IH]; intros h.
  - cbn. rewrite Nat.add_0_r. destruct h as [[] ? ? ? ?]. reflexivity.
  - cbn [mapMH]. nbind. rewrite subscribeGroupEvents_run. rewrite IH.
    destruct h as [[cfg dbgOn ad sd gbi gs0 gh sct pt rd lis ds hp nx] st pis pfc cs].
    cbn [core set_core nextObj set_nextObj length subscribedHandles flat_map].
    unfold set_core, set_nextObj. cbn [core settings pollingIntervals pollingFailureCounts
      cells config debug asyncDevice subscribedDevices groupsById groups groupHealth
      subscriptionCheckTimer pollTimeout isRediscovering listening deviceSubscriptions heap
      nextObj].
    rewrite app_nil_r. do 4 f_equal. lia.
Qed.

Lemma setListeners_run (gs : list Group) (h : Helper) :
  setListeners gs h =
    (subscribedHandles (nextObj (core h)) gs,
     set_core (set_subscribedDevices []
                 (set_nextObj (nextObj (core h) + length gs)%nat (core h))) h,
     (Core <$> flat_map listenerRemovals (subscribedDevices (core h))) ++
     flat_map eventsSubscribeTrace (subscribedHandles (nextObj (core h)) gs)).
Proof.
  unfold setListeners. nbind. unfold getH, lift. cbv beta iota zeta.
  rewrite forEach_removeDeviceListeners. unfold modify. cbv beta iota zeta.
  rewrite mapMH_subscribeGroupEvents_run.
  destruct h as [[cfg dbgOn ad sd gbi gs0 gh sct pt rd lis ds hp nx] st pis pfc cs].
  cbn [core set_core nextObj set_nextObj set_subscribedDevices subscribedDevices].
  rewrite ?app_nil_r. reflexivity.
Qed.

#[global] Arguments setListeners : simpl never.

Lemma subscriptions_app (t1 t2 : list Output) :
  subscriptions (t1 ++ t2) = subscriptions t1 ++ subscriptions t2.
Proof. apply omap_app. Qed.

Lemma registeredClosures_app (t1 t2 : list Output) :
  registeredClosures (t1 ++ t2) = registeredClosures t1 ++ registeredClosures t2.
Proof. apply omap_app. Qed.

Lemma subscriptions_removals (ds : list Device) :
  subscriptions (Core <$> flat_map listenerRemovals ds) = [].
Proof. induction ds as [|d ds IH]; [done|]. cbn. exact IH. Qed.

Lemma registeredClosures_Core (t : list Effect) : registeredClosures (Core <$> t) = [].
Proof. induction t as [|e t IH]; [done|]. cbn. exact IH. Qed.

Lemma subscriptions_events (hs : list (Group * Device)) :
  subscriptions (flat_map eventsSubscribeTrace hs) = hs.*2.
Proof. induction hs as [|[g d] hs IH]; [done|]. cbn. by rewrite <- IH. Qed.

Lemma registeredClosures_events (hs : list (Group * Device)) :
  registeredClosures (flat_map eventsSubscribeTrace hs) = [].
Proof. induction hs as [|[g d] hs IH]; [done|]. cbn. exact IH. Qed.

Lemma subscriptions_hybrid (hs : list (Group * Device)) :
  subscriptions (Core <$> flat_map subscribeTrace hs) = hs.*2.
Proof. induction hs as [|[g d] hs IH]; [done|]. cbn. by rewrite <- IH. Qed.

Lemma subscriptions_clearIntervals (ids : list TimerId) :
  subscriptions (clearIntervals ids) = [].
Proof. induction ids as [|x l IH]; [done|]. cbn. exact IH. Qed.

Lemma forEachH_registerPolling_subscriptions (mx : Z) (a p : option Z) (gs : list Group)
    (h : Helper) :
  subscriptions (traceH (forEachH (registerPolling mx a p) gs h)) = [].
Proof.
  revert h. induction gs as [|g gs IH]; intros h; [done|].
  cbn [forEachH]. nbind. rewrite registerPolling_run. cbv beta iota zeta.
  set (h1 := mkHelper _ _ _ _ _). specialize (IH h1).
  destruct (forEachH _ gs h1) as [[[] h2] t2]. cbn [traceH snd] in *.
  cbn. exact IH.
Qed.

Lemma startListening_empty (h : Helper) :
  startListening [] h = (StartedNothing, h, [OLog LWarn HMsgNoValidGroups]).
Proof. reflexivity. Qed.

(** X24: with at least one valid group, [setGroups] starts exactly one
    of the three modes, on the groups of the valid items in order:
    polling-only when [listenWithPolling] is set, whatever [hybridMode]
    says (one interval per group and no subscription); otherwise hybrid
    when [hybridMode] is set (one subscription per group, and the
    groups become the tracked ones); otherwise events-only (one
    subscription per group, no interval, the health store untouched). *)
Theorem listening_mode_precedence (valid : list Item) (h : Helper) :
  valid ≠ [] →
  is_Some (config (core h)) →
  let r := startListening valid h in
  match resultH r with
  | StartedPolling =>
      cfg_listenWithPolling (settings h) = true ∧
      pc_group <$> registeredClosures (traceH r) = itemGroups valid ∧
      subscriptions (traceH r) = []
  | StartedHybrid subs =>
      cfg_listenWithPolling (settings h) = false ∧
      cfg_hybridMode (settings h) = true ∧
      subs.*1 = itemGroups valid ∧
      subscriptions (traceH r) = subs.*2 ∧
      registeredClosures (traceH r) = [] ∧
      groups (core (finalH r)) = itemGroups valid
  | StartedEvents subs =>
      cfg_listenWithPolling (settings h) = false ∧
      cfg_hybridMode (settings h) = false ∧
      subs.*1 = itemGroups valid ∧
      subscriptions (traceH r) = subs.*2 ∧
      registeredClosures (traceH r) = [] ∧
      groupHealth (core (finalH r)) = groupHealth (core h) ∧
      groups (core (finalH r)) = groups (core h)
  | StartedNothing => False
  end.
Proof.
  intros Hne Hcfg r. subst r. unfold startListening.
  destruct valid as [|item0 valid0]; [done|]. clear Hne.
  set (valid := item0 :: valid0). cbn [length Nat.eqb valid].
  fold valid. fold (itemGroups valid).
  nbind. unfold getH. cbv beta iota zeta.
  rewrite (bool_decide_eq_true_2 _ Hcfg). cbn [andb].
  destruct (cfg_listenWithPolling (settings h)) eqn:Hp.
  - (* polling-only *)
    unfold setListenersPolling. nbind. rewrite clearPollingIntervals_run.
    unfold getH. cbv beta iota zeta.
    set (h0 := set_pollingFailureCounts ∅ (set_pollingIntervals [] h)).
    pose proof (forEachH_registerPolling (maxFailures (core h0)) (apiTimeout (core h0))
                  (cfg_pollingTime (settings h)) (itemGroups valid) h0) as IH.
    pose proof (forEachH_registerPolling_subscriptions (maxFailures (core h0))
                  (apiTimeout (core h0)) (cfg_pollingTime (settings h))
                  (itemGroups valid) h0) as IS.
    cbv zeta in IH. destruct IH as (G & _).
    destruct (forEachH _ (itemGroups valid) h0) as [[[] h2] t2].
    cbn [resultH finalH traceH fst snd] in *.
    split; [reflexivity|]. split.
    + rewrite app_nil_l, app_nil_r, registeredClosures_app, registeredClosures_clear.
      exact G.
    + rewrite app_nil_l, app_nil_r, !subscriptions_app, subscriptions_clearIntervals, IS.
      reflexivity.
  - destruct (cfg_hybridMode (settings h)) eqn:Hh.
    + (* hybrid *)
      unfold lift. rewrite setListenersHybrid_run. cbv zeta.
      set (s0 := set_groupHealth ∅ (set_pollTimeout None
                   (set_subscribedDevices [] (set_groups (itemGroups valid) (core h))))).
      assert (Hclosed : storeClosed s0).
      { intros gid l Hl. subst s0. cbn [groupHealth set_groupHealth] in Hl.
        by rewrite lookup_empty in Hl. }
      destruct (forEach_initGroupHealth (itemGroups valid) s0 Hclosed)
        as (Htr & (gh & hp & Hfin) & _).
      rewrite Htr, Hfin. cbn [resultH finalH traceH fst snd app].
      split; [reflexivity|]. split; [reflexivity|].
      split; [apply subscribedHandles_fst|].
      split.
      { rewrite app_nil_r.
        change (subscriptions (OLog LLog HMsgHybridMode :: ?t)) with (subscriptions t).
        rewrite !fmap_app, !subscriptions_app, subscriptions_removals, subscriptions_hybrid.
        by destruct (pollTimeout (core h)). }
      split.
      { rewrite app_nil_r.
        change (registeredClosures (OLog LLog HMsgHybridMode :: ?t))
          with (registeredClosures t).
        apply registeredClosures_Core. }
      reflexivity.
    + (* events-only *)
      rewrite setListeners_run. cbn [resultH finalH traceH fst snd app].
      split; [reflexivity|]. split; [reflexivity|].
      split; [apply subscribedHandles_fst|].
      split.
      { rewrite app_nil_r.
        change (subscriptions (OLog LLog HMsgEventsMode :: ?t)) with (subscriptions t).
        by rewrite subscriptions_app, subscriptions_removals, subscriptions_events. }
      split.
      { rewrite app_nil_r.
        change (registeredClosures (OLog LLog HMsgEventsMode :: ?t))
          with (registeredClosures t).
        by rewrite registeredClosures_app, registeredClosures_Core,
          registeredClosures_events. }
      by destruct h as [[] ? ? ? ?].
Qed.

Lemma listening_mode_precedence_witness :
  let h := mkHelper discovered (mkSettings None true true (Some 5000)) [] ∅ ∅ in
  let item := mkItem (mkZoneGroup kitchen []) (Some song1) "playing" 25 false in
  [item] ≠ [] ∧ is_Some (config (core h)) ∧
  resultH (startListening [item] h) = StartedPolling.
Proof.
  intros h item.
  assert (H1 : [item] ≠ []) by discriminate.
  assert (H2 : is_Some (config (core h))) by (by eexists).
  split; [exact H1|]. split; [exact H2|].
  pose proof (listening_mode_precedence [item] h H1 H2) as H. cbv zeta in H.
  destruct (resultH (startListening [item] h)) as [| |subs|subs] eqn:E.
  - destruct H.
  - reflexivity.
  - destruct H as (H & _). discriminate H.
  - destruct H as (H & _). discriminate H.
Defined.

(** ** Selection by room *)

Lemma nat_of_ascii_bound (c : ascii) : (nat_of_ascii c < 256)%nat.
Proof. apply nat_ascii_bounded. Qed.

Lemma isCapital_range (c : ascii) :
  isCapital c = true ↔
  (65 ≤ nat_of_ascii c ≤ 90 ∨
   (192 ≤ nat_of_ascii c ≤ 222 ∧ nat_of_ascii c ≠ 215))%nat.
Proof.
  unfold isCapital. cbv zeta.
  rewrite orb_true_iff, !andb_true_iff, !Nat.leb_le, negb_true_iff, Nat.eqb_neq.
  tauto.
Qed.

Lemma nat_of_lowerCodeUnit (c : ascii) :
  nat_of_ascii (lowerCodeUnit c) =
    if isCapital c then (nat_of_ascii c + 32)%nat else nat_of_ascii c.
Proof.
  unfold lowerCodeUnit. destruct (isCapital c) eqn:E; [|done].
  apply isCapital_range in E. apply nat_ascii_embedding. lia.
Qed.

Lemma nat_of_ascii_inj (a b : ascii) : nat_of_ascii a = nat_of_ascii b → a = b.
Proof. intros H. by rewrite <- (ascii_nat_embedding a), <- (ascii_nat_embedding b), H. Qed.

Lemma lowerCodeUnit_eq (a b : ascii) :
  lowerCodeUnit a = lowerCodeUnit b ↔ sameLetter a b.
Proof.
  unfold sameLetter. split.
  - intros H. apply (f_equal nat_of_ascii) in H. rewrite !nat_of_lowerCodeUnit in H.
    destruct (isCapital a) eqn:Ea, (isCapital b) eqn:Eb.
    + left. apply nat_of_ascii_inj. lia.
    + right. left. split; [done|lia].
    + right. right. split; [done|lia].
    + left. by apply nat_of_ascii_inj.
  - intros H. apply nat_of_ascii_inj. rewrite !nat_of_lowerCodeUnit.
    destruct H as [->|[[Ha Hb]|[Hb Ha]]]; [done| |].
    + rewrite Ha. destruct (isCapital b) eqn:Eb; [|done].
      apply isCapital_range in Ha, Eb. lia.
    + rewrite Hb. destruct (isCapital a) eqn:Ea; [|done].
      apply isCapital_range in Hb, Ea. lia.
Qed.

Lemma toLowerCase_eq (s t : string) :
  toLowerCase s = toLowerCase t ↔ sameLetters s t.
Proof.
  revert t. induction s as [|a s IH]; intros [|b t]; cbn [toLowerCase sameLetters];
    try (split; [discriminate|done]); [done|].
  rewrite <- IH, <- lowerCodeUnit_eq. split.
  - by intros [= -> ->].
  - by intros [-> ->].
Qed.

Lemma lowerCodeUnit_idemp (c : ascii) : lowerCodeUnit (lowerCodeUnit c) = lowerCodeUnit c.
Proof.
  destruct (isCapital c) eqn:E.
  - assert (E' : isCapital (lowerCodeUnit c) = false).
    { apply not_true_is_false. intros H%isCapital_range.
      rewrite nat_of_lowerCodeUnit, E in H. apply isCapital_range in E. lia. }
    unfold lowerCodeUnit at 1. by rewrite E'.
  - unfold lowerCodeUnit. rewrite E. cbv iota. by rewrite E.
Qed.

Lemma toLowerCase_idemp (s : string) : toLowerCase (toLowerCase s) = toLowerCase s.
Proof. induction s as [|c s IH]; [done|]. cbn. by rewrite lowerCodeUnit_idemp, IH. Qed.

Lemma namedZone_Some (m : ZoneMember) (name : string) :
  namedZone m = Some name ↔ ZoneName m = Some name ∧ name ≠ EmptyString.
Proof.
  unfold namedZone. destruct (ZoneName m) as [[|c s]|]; split; try done.
  - by intros [[= <-] ?].
  - by intros [= <-].
  - by intros [[= <-] _].
  - by intros [? _].
Qed.

Lemma stringRoom_Some (r : JsValue) (s : string) : stringRoom r = Some s ↔ r = JString s.
Proof. destruct r; split; try done; by intros [= ->]. Qed.

Lemma existsb_eqb_elem (x : string) (l : list string) :
  existsb (String.eqb x) l = true ↔ x ∈ l.
Proof.
  rewrite List.existsb_exists. split.
  - intros (y & Hy & ->%String.eqb_eq). by apply list_elem_of_In.
  - intros Hx. exists x. split; [by apply list_elem_of_In|apply String.eqb_refl].
Qed.

Lemma shouldIncludeGroup_Some (g : ZoneGroup) (rs : list JsValue) :
  rs ≠ [] →
  (shouldIncludeGroup g (Some rs) = true ↔
   ∃ m name r, m ∈ ZoneGroupMember g ∧ ZoneName m = Some name ∧ name ≠ EmptyString ∧
               JString r ∈ rs ∧ sameLetters name r).
Proof.
  intros Hne. destruct rs as [|r0 rs]; [done|].
  unfold shouldIncludeGroup. cbv zeta. rewrite List.existsb_exists. split.
  - intros (zone & Hz & He). apply list_elem_of_In in Hz.
    apply existsb_eqb_elem in He.
    apply list_elem_of_fmap in Hz as (name & -> & Hname).
    apply list_elem_of_omap in Hname as (m & Hm & Hnamed).
    apply namedZone_Some in Hnamed as [Hzn Hnz].
    apply list_elem_of_fmap in He as (r & Hr & Hrs).
    apply list_elem_of_omap in Hrs as (v & Hv & ->%stringRoom_Some).
    exists m, name, r. repeat split; try done. by apply toLowerCase_eq.
  - intros (m & name & r & Hm & Hzn & Hnz & Hr & Heq).
    apply toLowerCase_eq in Heq.
    exists (toLowerCase name). split.
    + apply list_elem_of_In, list_elem_of_fmap. exists name. split; [done|].
      apply list_elem_of_omap. exists m. split; [done|]. by apply namedZone_Some.
    + apply existsb_eqb_elem, list_elem_of_fmap. exists r. split; [done|].
      apply list_elem_of_omap. exists (JString r). by split.
Qed.

(** X25: the room filter.  With no room list, or an empty one, every
    group is selected.  With a list that is not empty, a group is
    selected exactly when one of its members has a non-empty zone name
    that is, letter for letter and case aside, one of the strings of the
    list.  So such a list holding no string selects no group; writing
    its names in lower case changes nothing; and adding a room to it
    never drops a group. *)
Theorem room_selection (g : ZoneGroup) (rs : list JsValue) :
  rs ≠ [] →
  (shouldIncludeGroup g (Some rs) = true ↔
   ∃ m name r, m ∈ ZoneGroupMember g ∧ ZoneName m = Some name ∧ name ≠ EmptyString ∧
               JString r ∈ rs ∧ sameLetters name r) ∧
  (omap stringRoom rs = [] → shouldIncludeGroup g (Some rs) = false) ∧
  shouldIncludeGroup g (Some (lowerRoom <$> rs)) = shouldIncludeGroup g (Some rs) ∧
  (∀ r, shouldIncludeGroup g (Some rs) = true →
        shouldIncludeGroup g (Some (rs ++ [r])) = true) ∧
  shouldIncludeGroup g None = true ∧
  shouldIncludeGroup g (Some []) = true.
Proof.
  intros Hne.
  pose proof (shouldIncludeGroup_Some g rs Hne) as Hchar.
  split; [exact Hchar|]. split; [|split; [|split; [|by split]]].
  - intros Hnone. apply not_true_is_false. intros Ht.
    apply Hchar in Ht as (m & name & r & _ & _ & _ & Hr & _).
    assert (Hin : r ∈ omap stringRoom rs).
    { apply list_elem_of_omap. by exists (JString r). }
    rewrite Hnone in Hin. by apply elem_of_nil in Hin.
  - assert (Hl : ∀ l : list JsValue, toLowerCase <$> omap stringRoom (lowerRoom <$> l) =
                                     toLowerCase <$> omap stringRoom l).
    { induction l as [|x l IH]; [done|].
      destruct x; cbn; try exact IH. by rewrite toLowerCase_idemp, IH. }
    destruct rs as [|r0 rs]; [done|].
    specialize (Hl (r0 :: rs)). unfold shouldIncludeGroup.
    rewrite fmap_cons. cbv beta iota zeta. rewrite <- fmap_cons. by rewrite Hl.
  - intros r Ht.
    assert (Hne' : rs ++ [r] ≠ []) by (by destruct rs).
    apply (shouldIncludeGroup_Some g _ Hne'). apply Hchar in Ht.
    destruct Ht as (m & name & r' & Hm & Hzn & Hn & Hr & Heq).
    exists m, name, r'. repeat split; try done. apply elem_of_app. by left.
Qed.

Lemma room_selection_witness :
  let u := ascii_of_nat 220 in
  let l := ascii_of_nat 252 in
  let zone := String "K" (String l "che") in
  let room := String "K" (String u "CHE") in
  let g := mkZoneGroup kitchen [mkZoneMember None; mkZoneMember (Some zone)] in
  let rs := [JNumber (Int 1); JString room] in
  rs ≠ [] ∧
  shouldIncludeGroup g (Some rs) = true ∧
  shouldIncludeGroup g (Some [JString "Kitchen"]) = false.
Proof.
  intros u l zone room g rs.
  assert (H0 : rs ≠ []) by discriminate.
  assert (H1 : [JString "Kitchen"] ≠ []) by discriminate.
  split; [exact H0|]. split.
  - apply (proj1 (room_selection g rs H0)).
    exists (mkZoneMember (Some zone)), zone, room.
    split; [right; left|]. split; [reflexivity|]. split; [discriminate|].
    split; [right; left|].
    cbn [sameLetters zone room]. unfold sameLetter.
    repeat split; try (by left).
    + right. right. split; vm_compute; reflexivity.
    + right. right. split; vm_compute; reflexivity.
    + right. right. split; vm_compute; reflexivity.
    + right. right. split; vm_compute; reflexivity.
  - apply not_true_is_false. intros Ht.
    apply (proj1 (room_selection g [JString "Kitchen"] H1)) in Ht.
    destruct Ht as (m & name & r & Hm & Hzn & _ & Hr & Hs).
    apply list_elem_of_singleton in Hr as [= ->].
    apply elem_of_cons in Hm as [->|Hm]; [discriminate Hzn|].
    apply list_elem_of_singleton in Hm as ->. cbn in Hzn. injection Hzn as <-.
    cbn [sameLetters zone] in Hs. destruct Hs as (_ & Hs & _).
    unfold sameLetter in Hs. vm_compute in Hs.
    destruct Hs as [Hs|[[Hs _]|[_ Hs]]]; discriminate Hs.
Defined.

(** ** The first fetch: the groups selected *)

Lemma fetchGroup_run (a : option Z) (g : ZoneGroup) (h : Helper) :
  fetchGroup a g h =
    let f := mkGroupFetch g (mkDevice (nextObj (core h)) (host (zg_group g))) in
    (f, set_core (set_nextObj (S (nextObj (core h))) (core h)) h, fetchTrace a f).
Proof.
  unfold fetchGroup.
  destruct h as [[cfg dbgOn ad sd gbi gs gh sct pt rd lis ds hp nx] st pis pfc cs].
  reflexivity.
Qed.

#[global] Arguments fetchGroup : simpl never.

Lemma mapMH_fetchGroup_run (a : option Z) (gs : list ZoneGroup) (h : Helper) :
  mapMH (fetchGroup a) gs h =
    (groupFetches (nextObj (core h)) gs,
     set_core (set_nextObj (nextObj (core h) + length gs)%nat (core h)) h,
     flat_map (fetchTrace a) (groupFetches (nextObj (core h)) gs)).
Proof.
  revert h. induction gs as [|g gs IH]; intros h.
  - cbn. rewrite Nat.add_0_r. destruct h as [[] ? ? ? ?]. reflexivity.
  - cbn [mapMH]. nbind. rewrite fetchGroup_run. cbv beta iota zeta. rewrite IH.
    destruct h as [[cfg dbgOn ad sd gbi gs0 gh sct pt rd lis ds hp nx] st pis pfc cs].
    cbn [core set_core nextObj set_nextObj length groupFetches flat_map].
    unfold set_core, set_nextObj. cbn [core settings pollingIntervals pollingFailureCounts
      cells config debug asyncDevice subscribedDevices groupsById groups groupHealth
      subscriptionCheckTimer pollTimeout isRediscovering listening deviceSubscriptions heap
      nextObj].
    rewrite app_nil_r. do 4 f_equal. lia.
Qed.

Lemma groupFetches_groups (n : nat) (gs : list ZoneGroup) :
  gf_group <$> groupFetches n gs = gs.
Proof. revert n. induction gs as [|g gs IH]; intros n; [done|]. cbn. by rewrite IH. Qed.

Lemma deviceCallsH_fetches (a : option Z) (fs : list GroupFetch) :
  deviceCallsH (flat_map (fetchTrace a) fs) = flat_map (λ _, firstFetches) fs.
Proof. induction fs as [|f fs IH]; [done|]. cbn. by rewrite <- IH. Qed.

Lemma elem_of_fetches (a : option Z) (fs : list GroupFetch) (d : Device) (op : DeviceOp)
    (dl : option (option Z)) :
  Core (EDeviceCall d op dl) ∈ flat_map (fetchTrace a) fs → dl = Some a.
Proof.
  induction fs as [|f fs IH]; [by intros ?%elem_of_nil|].
  cbn [flat_map]. rewrite elem_of_app. intros [H|H]; [|by apply IH].
  unfold fetchTrace, firstFetches in H. cbn in H.
  repeat (apply elem_of_cons in H as [[= _ _ <-]|H]; [done|]).
  by apply elem_of_nil in H.
Qed.

Lemma flat_map_groupFetches {A} (l : list A) (n : nat) (gs : list ZoneGroup) :
  flat_map (λ _, l) (groupFetches n gs) = flat_map (λ _, l) gs.
Proof. revert n. induction gs as [|g gs IH]; intros n; [done|]. cbn. by rewrite IH. Qed.

(** X26: [setGroups] fetches the groups the room filter selects, and
    only those: one new handle per selected group, in order, and on it
    the four fetches [currentTrack], [getCurrentState], [getVolume],
    [getMuted], each under the API-call deadline.  When no room list is
    configured every group is fetched; when every group is filtered
    out nothing is fetched, and what follows sends an empty group list,
    forgets the groups known before and starts no listener and no
    retry. *)
Theorem selected_groups_are_fetched (groups : list ZoneGroup) (h : Helper) :
  is_Some (config (core h)) →
  let r := setGroups groups h in
  let selected := List.filter (λ g, shouldIncludeGroup g (cfg_rooms (settings h))) groups in
  (∃ fs, resultH r = Some fs ∧ gf_group <$> fs = selected) ∧
  deviceCallsH (traceH r) = flat_map (λ _, firstFetches) selected ∧
  (∀ d op dl, Core (EDeviceCall d op dl) ∈ traceH r →
     dl = Some (t_apiCall (helperTimeouts h))) ∧
  (cfg_rooms (settings h) = None → selected = groups) ∧
  (selected = [] →
     r = (Some [], h, []) ∧
     traceH (groupsFetched [] h) = [OSendGroups ∅] ∧
     groupsById (core (finalH (groupsFetched [] h))) = ∅ ∧
     ∀ h', startListening [] h' = (StartedNothing, h', [OLog LWarn HMsgNoValidGroups])).
Proof.
  intros [cfg Hcfg] r selected. subst r.
  assert (Hrun : setGroups groups h =
            (Some (groupFetches (nextObj (core h)) selected),
             set_core (set_nextObj (nextObj (core h) + length selected)%nat (core h)) h,
             flat_map (fetchTrace (t_apiCall (helperTimeouts h)))
               (groupFetches (nextObj (core h)) selected))).
  { unfold setGroups. nbind. unfold getH. cbv beta iota zeta. rewrite Hcfg.
    fold selected.
    destruct groups as [|g0 groups0]; rewrite mapMH_fetchGroup_run;
      cbv beta iota zeta; by rewrite app_nil_r. }
  rewrite Hrun. cbn [resultH finalH traceH fst snd].
  split; [eexists; split; [reflexivity|apply groupFetches_groups]|].
  split.
  { rewrite deviceCallsH_fetches. apply flat_map_groupFetches. }
  split; [intros d op dl; apply elem_of_fetches|].
  split.
  { intros Hrooms. subst selected. rewrite Hrooms.
    clear. induction groups as [|g gs IH]; [done|].
    cbn [List.filter]. change (shouldIncludeGroup g None) with true.
    cbv iota. by rewrite IH. }
  intros Hsel. rewrite Hsel. cbn [groupFetches flat_map length].
  rewrite Nat.add_0_r.
  split; [by destruct h as [[] ? ? ? ?]|].
  rewrite groupsFetched_run. cbn.
  split; [reflexivity|]. split; [by destruct h as [[] ? ? ? ?]|].
  intros h'. reflexivity.
Qed.

Lemma selected_groups_are_fetched_witness :
  let h := mkHelper discovered (mkSettings (Some [JString "KITCHEN"]) false true None)
             [] ∅ ∅ in
  let zk := mkZoneGroup kitchen [mkZoneMember (Some "Kitchen")] in
  let zd := mkZoneGroup den [mkZoneMember (Some "Den"); mkZoneMember None] in
  is_Some (config (core h)) ∧
  deviceCallsH (traceH (setGroups [zk; zd] h)) = firstFetches.
Proof.
  intros h zk zd.
  assert (H0 : is_Some (config (core h))) by (by eexists).
  split; [exact H0|].
  exact (proj1 (proj2 (selected_groups_are_fetched [zk; zd] h H0))).
Defined.

(** ** The handlers on device handles *)

Lemma liveHandlers_app (live : list Registration) (t1 t2 : list Output) :
  liveHandlers live (t1 ++ t2) = liveHandlers (liveHandlers live t1) t2.
Proof. apply foldl_app. Qed.

Lemma sameEvent_refl (ev : EventName) : sameEvent ev ev = true.
Proof. by destruct ev. Qed.

Lemma elem_of_handlerEffect (r : Registration) (live : list Registration) (o : Output) :
  r ∈ handlerEffect live o → r ∈ live ∨ registered o = Some r.
Proof.
  destruct o as [e|?|?|?|?|?|?|?|d ev g|?|?]; try (by left).
  - destruct e; try (by left); cbn [handlerEffect registered].
    + intros H. left. apply list_elem_of_In, List.filter_In in H as [H _].
      by apply list_elem_of_In.
    + intros [H|H%list_elem_of_singleton]%elem_of_app; [by left|right]. by subst.
  - cbn [handlerEffect registered].
    intros [H|H%list_elem_of_singleton]%elem_of_app; [by left|right]. by subst.
Qed.

Lemma elem_of_liveHandlers (r : Registration) (live : list Registration)
    (tr : list Output) :
  r ∈ liveHandlers live tr → r ∈ live ∨ r ∈ omap registered tr.
Proof.
  revert live. induction tr as [|o tr IH]; intros live H; [by left|].
  cbn [liveHandlers foldl] in H. apply IH in H as [H|H].
  - apply elem_of_handlerEffect in H as [H|H]; [by left|right].
    cbn [omap list_omap]. rewrite H. by left.
  - right. cbn [omap list_omap]. destruct (registered o); [by right|done].
Qed.

Lemma liveHandlers_removed (r : Registration) (live : list Registration)
    (tr : list Output) (d : Device) (ev : EventName) :
  omap registered tr = [] →
  r ∈ liveHandlers live tr →
  Core (ERemoveAllListeners d ev) ∈ tr →
  removed d ev r = false.
Proof.
  revert live. induction tr as [|o tr IH]; intros live Hno Hr Hin.
  { by apply elem_of_nil in Hin. }
  cbn [omap list_omap] in Hno.
  destruct (registered o) eqn:Ho; [done|].
  cbn [liveHandlers foldl] in Hr.
  apply elem_of_cons in Hin as [<-|Hin]; [|by apply (IH _ Hno Hr)].
  apply elem_of_liveHandlers in Hr as [Hr|Hr].
  - cbn [handlerEffect] in Hr.
    apply list_elem_of_In, List.filter_In in Hr as [_ Hr].
    by apply negb_true_iff in Hr.
  - rewrite Hno in Hr. by apply elem_of_nil in Hr.
Qed.

(** One step: the handlers registered are on handles listed afterwards,
    and either every handle listed before is still listed, or the
    handlers of every handle listed before were removed. *)
Lemma handlersOn_step (live : list Registration) (ds ds' : list Device)
    (tr : list Output) :
  handlersOn live ds →
  (∀ r, r ∈ omap registered tr → r.1 ∈ dev_obj <$> ds') →
  ((∀ d, d ∈ ds → dev_obj d ∈ dev_obj <$> ds') ∨
   (omap registered tr = [] ∧ ∀ d ev, d ∈ ds → Core (ERemoveAllListeners d ev) ∈ tr)) →
  handlersOn (liveHandlers live tr) ds'.
Proof.
  intros Hlive Hreg Hcase r Hr.
  destruct (elem_of_liveHandlers _ _ _ Hr) as [Hin|Hin]; [|by apply Hreg].
  apply Hlive, list_elem_of_fmap in Hin as (d & Hd & Hds).
  destruct Hcase as [Hsub|[Hno Hrem]].
  - rewrite Hd. by apply Hsub.
  - pose proof (liveHandlers_removed r live tr d r.2 Hno Hr (Hrem d r.2 Hds)) as Hf.
    unfold removed in Hf. by rewrite Hd, Nat.eqb_refl, sameEvent_refl in Hf.
Qed.

Lemma handlersOn_swept (live : list Registration) (ds : list Device) (tr : list Output) :
  handlersOn live ds →
  omap registered tr = [] →
  (∀ d ev, d ∈ ds → Core (ERemoveAllListeners d ev) ∈ tr) →
  liveHandlers live tr = [].
Proof.
  intros Hlive Hno Hrem.
  assert (H : handlersOn (liveHandlers live tr) []).
  { apply (handlersOn_step live ds); [done| |right; by split].
    rewrite Hno. by intros r ?%elem_of_nil. }
  destruct (liveHandlers live tr) as [|r l]; [done|].
  exfalso. apply (elem_of_nil r.1). apply (H r). by left.
Qed.

Lemma registered_Core (t : list Effect) :
  Forall notOn t → omap registered (Core <$> t) = [].
Proof.
  induction 1 as [|e t He _ IH]; [done|].
  rewrite fmap_cons. cbn [omap list_omap registered].
  by destruct e.
Qed.

Lemma registered_clearIntervals (ids : list TimerId) :
  omap registered (clearIntervals ids) = [].
Proof. induction ids as [|id ids IH]; [done|]. exact IH. Qed.

Lemma registered_events (hs : list (Group * Device)) :
  omap registered (flat_map eventsSubscribeTrace hs) = [].
Proof. induction hs as [|x hs IH]; [done|]. exact IH. Qed.

Lemma listenerRemovals_all (d : Device) (ev : EventName) (ds : list Device) :
  d ∈ ds → ERemoveAllListeners d ev ∈ flat_map listenerRemovals ds.
Proof.
  intros Hd. apply list_elem_of_In, in_flat_map. exists d.
  split; [by apply list_elem_of_In|].
  destruct ev; cbn; tauto.
Qed.

Lemma keepsHandlersM_quiet {A} (m : M A) :
  (∀ s, subscribedDevices (final (m s)) = subscribedDevices s ∧ Forall notOn (trace (m s))) →
  keepsHandlersM m.
Proof.
  intros Hm live s H. destruct (Hm s) as [Hs Ht]. rewrite Hs.
  apply (handlersOn_step live (subscribedDevices s)); [done| |left].
  - rewrite registered_Core by done. by intros r ?%elem_of_nil.
  - intros d Hd. apply list_elem_of_fmap. by exists d.
Qed.

Lemma keepsHandlersM_mret {A} (a : A) : keepsHandlersM (mret a).
Proof. intros live s H. exact H. Qed.

Lemma keepsHandlersM_bind {A B} (m : M A) (f : A → M B) :
  keepsHandlersM m → (∀ a, keepsHandlersM (f a)) → keepsHandlersM (m ≫= f).
Proof.
  unfold keepsHandlersM. intros Hm Hf live s H. unfold mbind, M_bind.
  specialize (Hm live s H). destruct (m s) as [[a s1] t1]. cbn [trace final fst snd] in *.
  specialize (Hf a _ _ Hm). destruct (f a s1) as [[b s2] t2]. cbn [trace final fst snd] in *.
  rewrite fmap_app, liveHandlers_app. exact Hf.
Qed.

Lemma keepsHandlersM_get : keepsHandlersM get.
Proof. intros live s H. exact H. Qed.

Lemma keepsHandlersM_emit (e : Effect) : notOn e → keepsHandlersM (emit e).
Proof.
  intros He. apply keepsHandlersM_quiet. intros s. split; [done|]. by constructor.
Qed.

Lemma keepsHandlersM_modify (f : State → State) :
  (∀ s, subscribedDevices (f s) = subscribedDevices s) → keepsHandlersM (modify f).
Proof.
  intros Hf. apply keepsHandlersM_quiet. intros s. split; [apply Hf|constructor].
Qed.

Lemma keepsHandlersM_fresh : keepsHandlersM fresh.
Proof. apply keepsHandlersM_quiet. intros s. split; [done|constructor]. Qed.

Lemma keepsHandlersM_debugLog (m : LogMsg) : keepsHandlersM (debugLog m).
Proof.
  apply keepsHandlersM_quiet. intros s. rewrite debugLog_run.
  split; [done|]. by apply Forall_dbg.
Qed.

Lemma keepsHandlersM_forEach {A} (f : A → M unit) (xs : list A) :
  (∀ x, keepsHandlersM (f x)) → keepsHandlersM (forEach f xs).
Proof.
  intros Hf. induction xs as [|x xs IH]; cbn [forEach].
  - apply keepsHandlersM_mret.
  - apply keepsHandlersM_bind; [apply Hf | intros _; exact IH].
Qed.

Lemma keepsHandlersM_mapM {A B} (f : A → M B) (xs : list A) :
  (∀ x, keepsHandlersM (f x)) → keepsHandlersM (mapM f xs).
Proof.
  intros Hf. induction xs as [|x xs IH]; cbn [mapM].
  - apply keepsHandlersM_mret.
  - apply keepsHandlersM_bind; [apply Hf | intros y].
    apply keepsHandlersM_bind; [exact IH | intros ys; apply keepsHandlersM_mret].
Qed.

Lemma teardownTrace_notOn (s : State) : Forall notOn (teardownTrace s).
Proof.
  unfold teardownTrace. constructor; [done|].
  repeat (apply Forall_app; split); try (by apply Forall_dbg).
  all: first [ by apply Forall_listenerRemovals
             | by destruct (subscriptionCheckTimer s); repeat constructor
             | by destruct (pollTimeout s); repeat constructor
             | by destruct (listening s); repeat constructor
             | by repeat constructor ].
Qed.

Lemma teardownTrace_removals (s : State) (d : Device) (ev : EventName) :
  d ∈ subscribedDevices s → ERemoveAllListeners d ev ∈ teardownTrace s.
Proof.
  intros Hd. pose proof (listenerRemovals_all d ev _ Hd) as Hin.
  unfold teardownTrace. rewrite elem_of_cons, !elem_of_app. tauto.
Qed.

(** A rediscovery removes the handlers of every handle listed. *)
Lemma triggerRediscovery_sweeps (live : list Registration) (s : State) :
  handlersOn live (subscribedDevices s) →
  isRediscovering s = false →
  liveHandlers live (Core <$> trace (triggerRediscovery s)) = [].
Proof.
  intros H Hr. rewrite triggerRediscovery_run, Hr. cbn [trace fst snd].
  apply (handlersOn_swept live (subscribedDevices s)); [done| |].
  - apply registered_Core, teardownTrace_notOn.
  - intros d ev Hd. apply list_elem_of_fmap. eexists. split; [reflexivity|].
    by apply teardownTrace_removals.
Qed.

Lemma keepsHandlersM_triggerRediscovery : keepsHandlersM triggerRediscovery.
Proof.
  intros live s H. destruct (isRediscovering s) eqn:E.
  - rewrite triggerRediscovery_run, E. cbn [trace final fst snd].
    apply (handlersOn_step live (subscribedDevices s)); [done| |left].
    + rewrite registered_Core by (by apply Forall_dbg). by intros r ?%elem_of_nil.
    + intros d Hd. apply list_elem_of_fmap. by exists d.
  - rewrite (triggerRediscovery_sweeps live s H E). by intros r ?%elem_of_nil.
Qed.

Lemma keepsHandlersM_attachEventHandlers (g : Group) (dev : Device) :
  keepsHandlersM (attachEventHandlers g dev).
Proof.
  intros live s H. rewrite attachEventHandlers_run. cbn [trace final fst snd].
  set (ds' := subscribedDevices (if existsb _ (subscribedDevices s) then s else _)).
  assert (Hdev : dev_obj dev ∈ dev_obj <$> ds').
  { subst ds'. destruct (existsb _ (subscribedDevices s)) eqn:Hex.
    - by apply existsb_dev_obj.
    - cbn [subscribedDevices set_subscribedDevices]. rewrite fmap_app.
      apply elem_of_app. right. by left. }
  apply (handlersOn_step live (subscribedDevices s)); [done| |left].
  - intros r Hr. rewrite fmap_app, omap_app in Hr.
    rewrite (registered_Core (listenerRemovals dev)) in Hr
      by (by repeat constructor).
    cbn in Hr. repeat (apply elem_of_cons in Hr as [->|Hr]; [exact Hdev|]).
    by apply elem_of_nil in Hr.
  - intros d Hd. subst ds'. destruct (existsb _ (subscribedDevices s)).
    + apply list_elem_of_fmap. by exists d.
    + cbn [subscribedDevices set_subscribedDevices]. rewrite fmap_app.
      apply elem_of_app. left. apply list_elem_of_fmap. by exists d.
Qed.

Lemma subscribeTrace_notOn (hs : list (Group * Device)) :
  Forall notOn (flat_map subscribeTrace hs).
Proof. induction hs as [|x hs IH]; [constructor|]. cbn. by repeat constructor. Qed.

Lemma initGroupHealth_notOn (gs : list Group) (s : State) :
  Forall notOn (trace (forEach initGroupHealth gs s)).
Proof.
  revert s. induction gs as [|g gs IH]; intros s; [constructor|].
  cbn [forEach]. unfold mbind, M_bind. rewrite initGroupHealth_run.
  cbv beta iota zeta.
  specialize (IH (set_groupHealth (<[ID g := nextObj s]> (groupHealth s))
                    (set_heap (<[nextObj s := initialHealth]> (heap s))
                       (set_nextObj (S (nextObj s)) s)))).
  destruct (forEach initGroupHealth gs _) as [[[] s1] t1]. exact IH.
Qed.

(** Registering hybrid mode removes the handlers of every handle
    listed. *)
Lemma setListenersHybrid_sweeps (live : list Registration) (gs : list Group) (s : State) :
  handlersOn live (subscribedDevices s) →
  liveHandlers live (Core <$> trace (setListenersHybrid gs s)) = [].
Proof.
  intros H. rewrite setListenersHybrid_run. cbv zeta. cbn [trace fst snd].
  apply (handlersOn_swept live (subscribedDevices s)); [done| |].
  - apply registered_Core.
    repeat (apply Forall_app; split).
    + by apply Forall_listenerRemovals.
    + by destruct (pollTimeout s); repeat constructor.
    + apply initGroupHealth_notOn.
    + apply subscribeTrace_notOn.
  - intros d ev Hd. apply list_elem_of_fmap. eexists. split; [reflexivity|].
    apply elem_of_app. left. by apply listenerRemovals_all.
Qed.

Lemma keepsHandlersM_setListenersHybrid (gs : list Group) :
  keepsHandlersM (setListenersHybrid gs).
Proof.
  intros live s H. rewrite (setListenersHybrid_sweeps live gs s H).
  by intros r ?%elem_of_nil.
Qed.

Ltac keepM :=
  repeat lazymatch goal with
    | |- keepsHandlersM (mret _) => apply keepsHandlersM_mret
    | |- keepsHandlersM (mbind _ _) => apply keepsHandlersM_bind; [| intros ?]
    | |- keepsHandlersM get => apply keepsHandlersM_get
    | |- keepsHandlersM fresh => apply keepsHandlersM_fresh
    | |- keepsHandlersM (debugLog _) => apply keepsHandlersM_debugLog
    | |- keepsHandlersM triggerRediscovery => apply keepsHandlersM_triggerRediscovery
    | |- keepsHandlersM (attachEventHandlers _ _) =>
        apply keepsHandlersM_attachEventHandlers
    | |- keepsHandlersM (emit _) => apply keepsHandlersM_emit; exact I
    | |- keepsHandlersM (modify _) => apply keepsHandlersM_modify; intros ?; reflexivity
    | |- keepsHandlersM (forEach _ _) => apply keepsHandlersM_forEach; intros ?
    | |- keepsHandlersM (mapM _ _) => apply keepsHandlersM_mapM; intros ?
    | |- keepsHandlersM (let _ := _ in _) => cbv zeta
    | |- keepsHandlersM (match ?x with _ => _ end) => destruct x
    end.

Lemma keepsHandlersM_handle (ev : Event) : keepsHandlersM (handle ev).
Proof.
  destruct ev; cbn [handle];
    unfold handleListenerError, pollGroup_then, pollCycleFinally, schedulePoll, onCurrentTrack,
      onVolume, onMuted, onPlayState, subscriptionCheckTick, checkGroup,
      renewDeviceSubscriptions, renewal_then, renewal_catch, handleTogglePlayPause,
      handleNext, handleSetVolume, syncHealth, updHealth, withHealth, CoordinatorDevice,
      setTimeout, Log, skip;
    keepM.
Qed.

Lemma keepsHandlersM_pollTimerFired : keepsHandlersM pollTimerFired.
Proof. unfold pollTimerFired, pollAllGroups, pollGroup, CoordinatorDevice. keepM. Qed.

Lemma keepsHandlersM_subscribed_then (g : Group) (dev : Device) :
  keepsHandlersM (subscribed_then g dev).
Proof. unfold subscribed_then, updHealth, Log, skip. keepM. Qed.

Lemma keepsHandlersM_hybridStarted : keepsHandlersM hybridStarted.
Proof.
  unfold hybridStarted, schedulePoll, startSubscriptionHealthCheck, setTimeout, setInterval,
    Log, skip.
  keepM.
Qed.

Lemma keepsHandlers_mret {A} (a : A) : keepsHandlers (mret a).
Proof. intros live h H. exact H. Qed.

Lemma keepsHandlers_bind {A B} (m : N A) (f : A → N B) :
  keepsHandlers m → (∀ a, keepsHandlers (f a)) → keepsHandlers (m ≫= f).
Proof.
  unfold keepsHandlers, ranR. intros Hm Hf live h H. unfold mbind, N_bind.
  specialize (Hm live h H). destruct (m h) as [[a h1] t1]. cbn [traceH finalH fst snd] in *.
  specialize (Hf a _ _ Hm). destruct (f a h1) as [[b h2] t2]. cbn [traceH finalH fst snd] in *.
  rewrite liveHandlers_app. exact Hf.
Qed.

Lemma keepsHandlers_getH : keepsHandlers getH.
Proof. intros live h H. exact H. Qed.

Lemma keepsHandlers_out (o : Output) : registered o = None → keepsHandlers (out o).
Proof.
  intros Ho live h H. unfold ranR, out, handlersTracked in *.
  cbn [traceH finalH fst snd] in *.
  apply (handlersOn_step live (subscribedDevices (core h))); [done| |left].
  - cbn [omap list_omap]. rewrite Ho. by intros r ?%elem_of_nil.
  - intros d Hd. apply list_elem_of_fmap. by exists d.
Qed.

Lemma keepsHandlers_modifyH (f : Helper → Helper) :
  (∀ h, subscribedDevices (core (f h)) = subscribedDevices (core h)) →
  keepsHandlers (modifyH f).
Proof.
  intros Hf live h H. unfold ranR, modifyH, handlersTracked in *.
  cbn [traceH finalH fst snd liveHandlers foldl] in *. by rewrite Hf.
Qed.

Lemma keepsHandlers_lift {A} (m : M A) : keepsHandlersM m → keepsHandlers (lift m).
Proof.
  intros Hm live h H. unfold handlersTracked in H. cbn [fst snd] in H.
  specialize (Hm live (core h) H).
  unfold ranR, lift, handlersTracked. destruct (m (core h)) as [[a s] t].
  cbn [finalH traceH final trace fst snd] in *. by destruct h.
Qed.

Lemma keepsHandlers_forEachH {A} (f : A → N unit) (xs : list A) :
  (∀ x, keepsHandlers (f x)) → keepsHandlers (forEachH f xs).
Proof.
  intros Hf. induction xs as [|x xs IH]; cbn [forEachH].
  - apply keepsHandlers_mret.
  - apply keepsHandlers_bind; [apply Hf | intros _; exact IH].
Qed.

Lemma keepsHandlers_debugLogH (m : HelperMsg) : keepsHandlers (debugLogH m).
Proof.
  intros live h H. unfold ranR, handlersTracked. rewrite debugLogH_run.
  cbn [traceH finalH fst snd]. unfold dbgH. by destruct (debug (core h)).
Qed.

Ltac keepN :=
  repeat lazymatch goal with
    | |- keepsHandlers (mret _) => apply keepsHandlers_mret
    | |- keepsHandlers (mbind _ _) => apply keepsHandlers_bind; [| intros ?]
    | |- keepsHandlers getH => apply keepsHandlers_getH
    | |- keepsHandlers (debugLogH _) => apply keepsHandlers_debugLogH
    | |- keepsHandlers (out _) => apply keepsHandlers_out; reflexivity
    | |- keepsHandlers (modifyH _) => apply keepsHandlers_modifyH; intros ?; reflexivity
    | |- keepsHandlers (lift _) => apply keepsHandlers_lift; keepM
    | |- keepsHandlers (forEachH _ _) => apply keepsHandlers_forEachH; intros ?
    | |- keepsHandlers (let _ := _ in _) => cbv zeta
    | |- keepsHandlers (match ?x with _ => _ end) => destruct x
    end.

Lemma keepsHandlers_triggerPollingRediscovery : keepsHandlers triggerPollingRediscovery.
Proof.
  unfold triggerPollingRediscovery, clearPollingIntervals, setTimeout, logH, skipH. keepN.
Qed.

Lemma keepsHandlers_setListenersPolling (gs : list Group) (p : option Z) :
  keepsHandlers (setListenersPolling gs p).
Proof.
  unfold setListenersPolling, registerPolling, clearPollingIntervals, CoordinatorDevice,
    logH, skipH.
  keepN.
Qed.

Lemma keepsHandlers_pollingTick_then (c : PollingClosure) (r : PollResults) :
  keepsHandlers (pollingTick_then c r).
Proof.
  unfold pollingTick_then, pollingCount, pollingTrack, pollingVolume, pollingMute,
    pollingState, getCell, updCell, logH, skipH.
  keepN; apply keepsHandlers_triggerPollingRediscovery.
Qed.

Lemma keepsHandlers_discoverGroups (n : Z) : keepsHandlers (discoverGroups n).
Proof. unfold discoverGroups, skipH. keepN. Qed.

Lemma keepsHandlers_socketNotificationReceived (n : SocketNotification) :
  keepsHandlers (socketNotificationReceived n).
Proof.
  unfold socketNotificationReceived, logH.
  destruct n as [payload rest|gid|gid|gid v|id].
  - apply keepsHandlers_bind; [keepN|intros _].
    apply keepsHandlers_bind; [keepN|intros _].
    apply keepsHandlers_bind; [keepN|intros _].
    apply keepsHandlers_bind; [apply keepsHandlers_discoverGroups|intros p].
    apply keepsHandlers_mret.
  - apply keepsHandlers_bind; [|intros _; apply keepsHandlers_mret].
    apply keepsHandlers_lift, (keepsHandlersM_handle (TogglePlayPause gid)).
  - apply keepsHandlers_bind; [|intros _; apply keepsHandlers_mret].
    apply keepsHandlers_lift, (keepsHandlersM_handle (Next gid)).
  - apply keepsHandlers_bind; [|intros _; apply keepsHandlers_mret].
    apply keepsHandlers_lift, (keepsHandlersM_handle (SetVolume gid v)).
  - keepN.
Qed.

Lemma stopTrace_registered (h : Helper) : omap registered (stopTrace h) = [].
Proof.
  unfold stopTrace. cbv zeta. rewrite !omap_app, registered_clearIntervals.
  rewrite !registered_Core.
  - by destruct (listening (core h)).
  - by apply Forall_listenerRemovals.
  - by destruct (pollTimeout (core h)); repeat constructor.
  - by destruct (subscriptionCheckTimer (core h)); repeat constructor.
Qed.

(** [stop] removes the handlers of every handle listed. *)
Lemma stop_sweeps (live : list Registration) (h : Helper) :
  handlersTracked (live, h) → liveHandlers live (traceH (stop h)) = [].
Proof.
  intros H. rewrite stop_run. cbn [traceH fst snd].
  apply (handlersOn_swept live (subscribedDevices (core h))); [done| |].
  - apply stopTrace_registered.
  - intros d ev Hd. unfold stopTrace. cbv zeta. rewrite !elem_of_app.
    right. right. right. left. apply list_elem_of_fmap. eexists. split; [reflexivity|].
    by apply listenerRemovals_all.
Qed.

(** Registering events-only mode removes the handlers of every handle
    listed. *)
Lemma setListeners_sweeps (live : list Registration) (gs : list Group) (h : Helper) :
  handlersTracked (live, h) → liveHandlers live (traceH (setListeners gs h)) = [].
Proof.
  intros H. rewrite setListeners_run. cbn [traceH fst snd].
  apply (handlersOn_swept live (subscribedDevices (core h))); [done| |].
  - rewrite omap_app, registered_events, registered_Core; [done|].
    by apply Forall_listenerRemovals.
  - intros d ev Hd. apply elem_of_app. left.
    apply list_elem_of_fmap. eexists. split; [reflexivity|].
    by apply listenerRemovals_all.
Qed.

Lemma eventsSubscribed_then_run (g : Group) (sonos : Device) (h : Helper) :
  eventsSubscribed_then g sonos h =
    (tt, set_core (set_subscribedDevices (subscribedDevices (core h) ++ [sonos]) (core h)) h,
     (Core <$> dbg (core h) (MsgSubscriptionCreated (Name g))) ++
     eventsRegistrations g sonos).
Proof.
  unfold eventsSubscribed_then, eventsRegistrations, dbg.
  destruct h as [[cfg dbgOn ad sd gbi gs gh sct pt rd lis ds hp nx] st pis pfc cs].
  by destruct dbgOn.
Qed.

Lemma keepsHandlers_eventsSubscribed_then (g : Group) (sonos : Device) :
  keepsHandlers (eventsSubscribed_then g sonos).
Proof.
  intros live h H. unfold ranR, handlersTracked in *. rewrite eventsSubscribed_then_run.
  cbn [traceH finalH fst snd] in *.
  assert (Hds : subscribedDevices (core (set_core (set_subscribedDevices
                  (subscribedDevices (core h) ++ [sonos]) (core h)) h)) =
                subscribedDevices (core h) ++ [sonos]) by (by destruct h as [[] ? ? ? ?]).
  rewrite Hds.
  apply (handlersOn_step live (subscribedDevices (core h))); [done| |left].
  - intros r Hr. rewrite omap_app, registered_Core in Hr by (by apply Forall_dbg).
    cbn in Hr. rewrite fmap_app. apply elem_of_app. right.
    repeat (apply elem_of_cons in Hr as [->|Hr]; [by left|]).
    by apply elem_of_nil in Hr.
  - intros d Hd. rewrite fmap_app. apply elem_of_app. left.
    apply list_elem_of_fmap. by exists d.
Qed.

Lemma helperStep_tracked (c : list Registration * Helper) (st : HelperStep) :
  handlersTracked c → handlersTracked (helperStep c st).
Proof.
  destruct c as [live h]. intros H.
  destruct st as [[gs p|cl|cl r| | | |n]|[ev|t|t|gs|g dev|g|]|gs|g sonos|g|e];
    cbn [helperStep fst snd].
  - by apply keepsHandlers_setListenersPolling.
  - revert live h H. change (keepsHandlers (pollingTick cl)). unfold pollingTick. keepN.
  - by apply keepsHandlers_pollingTick_then.
  - revert live h H. change (keepsHandlers onListenerFailure).
    unfold onListenerFailure, logH.
    apply keepsHandlers_bind; [keepN|intros _].
    apply keepsHandlers_lift, (keepsHandlersM_handle ListenerError).
  - unfold ranR, handlersTracked. cbn [fst snd]. rewrite (stop_sweeps live h H).
    by intros r ?%elem_of_nil.
  - revert live h H. change (keepsHandlers restartDiscoveryH). unfold restartDiscoveryH.
    apply keepsHandlers_bind; [keepN|intros _]. apply keepsHandlers_discoverGroups.
  - by apply keepsHandlers_socketNotificationReceived.
  - by apply (keepsHandlers_lift _ (keepsHandlersM_handle ev)).
  - by apply (keepsHandlers_lift _ keepsHandlersM_pollTimerFired).
  - revert live h H. change (keepsHandlers (lift restartDiscovery)).
    unfold restartDiscovery. keepN.
  - by apply (keepsHandlers_lift _ (keepsHandlersM_setListenersHybrid gs)).
  - by apply (keepsHandlers_lift _ (keepsHandlersM_subscribed_then g dev)).
  - revert live h H. change (keepsHandlers (lift (subscribed_catch g))).
    unfold subscribed_catch, Log. keepN.
  - by apply (keepsHandlers_lift _ keepsHandlersM_hybridStarted).
  - unfold ranR, handlersTracked. cbn [fst snd]. rewrite (setListeners_sweeps live gs h H).
    by intros r ?%elem_of_nil.
  - by apply keepsHandlers_eventsSubscribed_then.
  - revert live h H. change (keepsHandlers (eventsSubscribed_catch g)).
    unfold eventsSubscribed_catch, Log. keepN.
  - revert live h H. change (keepsHandlers (eventsHandle e)).
    destruct e; cbn [eventsHandle];
      unfold eventsOnError, eventsOnCurrentTrack, eventsOnVolume, eventsOnMuted,
        eventsOnPlayState, logH;
      keepN.
Qed.

Lemma lift_trace {A} (m : M A) (h : Helper) :
  traceH (lift m h) = Core <$> trace (m (core h)).
Proof. unfold lift. by destruct (m (core h)) as [[a s] t]. Qed.

Lemma liveHandlers_clearIntervals (live : list Registration) (ids : list TimerId) :
  liveHandlers live (clearIntervals ids) = live.
Proof. induction ids as [|id ids IH]; [done|]. exact IH. Qed.

Lemma forEachH_registerPolling_handlers (live : list Registration) (mx : Z)
    (a p : option Z) (gs : list Group) (h : Helper) :
  liveHandlers live (traceH (forEachH (registerPolling mx a p) gs h)) = live.
Proof.
  revert h. induction gs as [|g gs IH]; intros h; [done|].
  cbn [forEachH]. nbind. rewrite registerPolling_run. cbv beta iota zeta.
  set (h1 := mkHelper _ _ _ _ _). specialize (IH h1).
  destruct (forEachH (registerPolling mx a p) gs h1) as [[[] h2] t2].
  cbn [traceH fst snd] in *. exact IH.
Qed.

(** Registering polling-only mode removes no handler. *)
Lemma setListenersPolling_handlers (live : list Registration) (gs : list Group)
    (p : option Z) (h : Helper) :
  liveHandlers live (traceH (setListenersPolling gs p h)) = live.
Proof.
  unfold setListenersPolling. nbind.
  rewrite clearPollingIntervals_run. unfold getH. cbv beta iota zeta.
  set (h0 := set_pollingFailureCounts ∅ (set_pollingIntervals [] h)).
  pose proof (forEachH_registerPolling_handlers live (maxFailures (core h0))
                (apiTimeout (core h0)) p gs h0) as IH.
  destruct (forEachH _ gs h0) as [[[] h2] t2]. cbn [traceH fst snd] in *.
  by rewrite app_nil_l, liveHandlers_app, liveHandlers_clearIntervals.
Qed.

(** X27: no handler on a device handle is lost track of.  Whatever
    happens in whatever mode (registrations, subscriptions that
    complete or fail, push events, polls, health checks, commands,
    listener failures, restarts, notifications, a stop), every handler
    that was registered and not removed since is on a handle listed in
    [subscribedDevices].  So a stop, a new registration of events-only
    or of hybrid mode and a rediscovery of hybrid mode each leave no
    handler registered; a registration of polling-only mode removes
    none. *)
Theorem handlers_are_tracked (steps : list HelperStep) (c : list Registration * Helper) :
  handlersTracked c →
  let c' := foldl helperStep c steps in
  handlersTracked c' ∧
  (helperStep c' (InPollingMode Stops)).1 = [] ∧
  (∀ gs, (helperStep c' (EventsStart gs)).1 = []) ∧
  (∀ gs, (helperStep c' (InHybridMode (HybridSet gs))).1 = []) ∧
  (isRediscovering (core c'.2) = false →
   (helperStep c' (InHybridMode (Called ListenerError))).1 = []) ∧
  (∀ gs p, (helperStep c' (InPollingMode (StartPolling gs p))).1 = c'.1).
Proof.
  intros H c'.
  assert (Hc' : handlersTracked c').
  { subst c'. revert c H. induction steps as [|st steps IH]; intros c H; [exact H|].
    cbn [foldl]. apply IH. by apply helperStep_tracked. }
  split; [exact Hc'|]. destruct c' as [live h].
  cbn [helperStep fst snd ranR]. unfold handlersTracked in Hc'. cbn [fst snd] in Hc'.
  split; [by apply stop_sweeps|].
  split; [intros gs; by apply setListeners_sweeps|].
  split; [intros gs; rewrite lift_trace; by apply setListenersHybrid_sweeps|].
  split.
  - intros Hr. rewrite lift_trace. cbn [handle]. unfold handleListenerError, Log.
    unfold mbind, M_bind, emit.
    pose proof (triggerRediscovery_sweeps live (core h) Hc' Hr) as Hs.
    destruct (triggerRediscovery (core h)) as [[[] s1] t1]. cbn [trace fst snd] in *.
    exact Hs.
  - intros gs p. apply setListenersPolling_handlers.
Qed.

Lemma handlers_are_tracked_witness :
  let h := mkHelper discovered (mkSettings None false false None) [] ∅ ∅ in
  let sonos := mkDevice 7%nat "192.168.1.20" in
  let steps := [EventsStart [kitchen]; EventsSubscribed kitchen sonos;
                EventsPushed (EventsVolume kitchen 20)] in
  handlersTracked ([], h) ∧
  handlersTracked (foldl helperStep ([], h) steps).
Proof.
  intros h sonos steps.
  assert (H0 : handlersTracked ([], h)) by (by intros r ?%elem_of_nil).
  split; [exact H0|].
  exact (proj1 (handlers_are_tracked steps ([], h) H0)).
Defined.

(** ** Recovery and the poll chain *)

Section PreservesH.
Context (I : State → Prop) (T : Output → Prop).









End PreservesH.














(** ** The subscription health check *)

Lemma triggerRediscovery_config (s : State) :
  config (final (triggerRediscovery s)) = config s.
Proof. rewrite triggerRediscovery_run. by destruct (isRediscovering s). Qed.

Lemma triggerRediscovery_renewals (s : State) :
  renewals (trace (triggerRediscovery s)) = [].
Proof.
  rewrite triggerRediscovery_run.
  destruct (isRediscovering s); cbn [trace snd];
    [apply renewals_dbg | apply renewals_teardownTrace].
Qed.

(** Every renewal a check starts runs under [renewTimeout]. *)
Lemma checkGroup_deadline (g : Group) (s : State) :
  config (final (checkGroup g s)) = config s ∧
  Forall (λ x, x.2 = renewTimeout s) (renewals (trace (checkGroup g s))).
Proof.
  rewrite checkGroup_run. destruct (storedDevice s g) as [dev|].
  - rewrite renewDeviceSubscriptions_run.
    destruct (findDeviceSubscription s dev) as [sub|]; cbn [final trace fst snd].
    + split; [done|]. rewrite !renewals_app, !renewals_dbg. by repeat constructor.
    + split; [apply triggerRediscovery_config|].
      by rewrite !renewals_app, !renewals_dbg, triggerRediscovery_renewals.
  - cbn [final trace fst snd]. split; [apply triggerRediscovery_config|].
    by rewrite !renewals_app, !renewals_dbg, triggerRediscovery_renewals.
Qed.

Lemma forEach_checkGroup_deadline (gs : list Group) (s : State) :
  config (final (forEach checkGroup gs s)) = config s ∧
  Forall (λ x, x.2 = renewTimeout s) (renewals (trace (forEach checkGroup gs s))).
Proof.
  revert s. induction gs as [|g gs IH]; intros s; [by split|].
  cbn [forEach]. munfold.
  destruct (checkGroup_deadline g s) as [H1 H2].
  destruct (checkGroup g s) as [[[] s1] t1]. cbn [final trace fst snd] in H1, H2.
  destruct (IH s1) as [H3 H4].
  destruct (forEach checkGroup gs s1) as [[[] s2] t2]. cbn [final trace fst snd] in *.
  split; [congruence|]. rewrite renewals_app. apply Forall_app. split; [done|].
  unfold renewTimeout in *. by rewrite <- H1.
Qed.

Lemma first_escalation (s : State) (good : list Group) (bad : Group) (rest : list Group) :
  isRediscovering s = false →
  Forall (checkRenews s) good →
  checkEscalates s bad →
  final (forEach checkGroup (good ++ bad :: rest) s) = teardownState s ∧
  (renewals (trace (forEach checkGroup (good ++ bad :: rest) s))).*1.*2 = good.
Proof.
  intros Hr Hgood Hbad. rewrite forEach_app.
  destruct (healthy_check_renews_all s good Hgood) as [Hg1 Hg2].
  rewrite Hg1. cbn [final trace fst snd forEach]. munfold.
  assert (Hb : final (checkGroup bad s) = teardownState s ∧
               renewals (trace (checkGroup bad s)) = []).
  { rewrite checkGroup_run. unfold checkEscalates in Hbad.
    destruct (storedDevice s bad) as [dev|] eqn:Hdev.
    - rewrite renewDeviceSubscriptions_run, (Hbad dev eq_refl), triggerRediscovery_run, Hr.
      cbn [final trace fst snd]. split; [done|].
      by rewrite !renewals_app, !renewals_dbg, renewals_teardownTrace.
    - rewrite triggerRediscovery_run, Hr. cbn [final trace fst snd]. split; [done|].
      by rewrite !renewals_app, !renewals_dbg, renewals_teardownTrace. }
  destruct Hb as [Hb1 Hb2].
  destruct (checkGroup bad s) as [[[] s1] t1]. cbn [final trace fst snd] in Hb1, Hb2. subst s1.
  destruct (forEach_checkGroup_when_rediscovering rest (teardownState s) eq_refl eq_refl)
    as [Hr1 Hr2].
  destruct (forEach checkGroup rest (teardownState s)) as [[[] s2] t2].
  cbn [final trace fst snd] in *.
  split; [done|].
  by rewrite !renewals_app, Hb2, Hr2, !app_nil_r.
Qed.

(** C7, as the code has it: the health check timer is installed by
    [startSubscriptionHealthCheck], and only when auto-resubscribe is
    configured at that moment; the firing itself does not look at the
    setting.  A firing while no tracked group's record says "playing"
    (or while no group is tracked) only writes debug lines.  A firing
    that runs handles the tracked groups in order.  A group whose
    record stores a handle the listener holds a subscription for gets
    its renewal, under [timeouts.apiCall || 5000]: the API-call timeout
    when that is set and not zero, and 5000 otherwise, whereas the
    fetches of a poll run under [timeouts.apiCall] itself.  The first
    group without a stored handle, or without a subscription for it,
    makes the check call [triggerRediscovery]; the teardown drops every
    record, so no group after it gets a renewal in this firing.  When a
    renewal fails or times out, its [catch] calls
    [triggerRediscovery]. *)
Theorem subscription_health_check (s : State) :
  (autoResubscribe s = false →
     startSubscriptionHealthCheck s = (tt, s, dbg s MsgAutoResubscribeDisabled)) ∧
  (∀ t cb ms, ESetInterval t cb ms ∈ trace (startSubscriptionHealthCheck s) →
     autoResubscribe s = true ∧ cb = SubscriptionCheckTick) ∧
  (isAnyGroupPlaying s = false →
     subscriptionCheckTick s =
       (tt, s, dbg s MsgHealthCheckTriggered ++ dbg s MsgSkippingCheckNotPlaying)) ∧
  (groups s = [] →
     final (subscriptionCheckTick s) = s ∧
     forallb isLogLine (trace (subscriptionCheckTick s)) = true) ∧
  (isAnyGroupPlaying s = true → groups s ≠ [] →
     subscriptionCheckTick s =
       (tt, final (forEach checkGroup (groups s) s),
        dbg s MsgHealthCheckTriggered ++
        dbg s (MsgRunningHealthCheck (length (groups s))) ++
        dbg s (MsgListenerSubscriptions (length (default [] (deviceSubscriptions s)))) ++
        trace (forEach checkGroup (groups s) s))) ∧
  (∀ gs, Forall (checkRenews s) gs →
     final (forEach checkGroup gs s) = s ∧
     (renewals (trace (forEach checkGroup gs s))).*1.*2 = gs) ∧
  (∀ good bad rest,
     isRediscovering s = false → Forall (checkRenews s) good → checkEscalates s bad →
     final (forEach checkGroup (good ++ bad :: rest) s) = teardownState s ∧
     (renewals (trace (forEach checkGroup (good ++ bad :: rest) s))).*1.*2 = good) ∧
  (∀ gs, Forall (λ x, x.2 = renewTimeout s) (renewals (trace (forEach checkGroup gs s)))) ∧
  renewTimeout s = or_default (apiTimeout s) 5000 ∧
  (∀ g, storedDevice s g = None →
     checkGroup g s =
       (tt, final (triggerRediscovery s),
        dbg s (MsgNoDeviceReference (Name g)) ++ trace (triggerRediscovery s))) ∧
  (∀ g dev, storedDevice s g = Some dev →
     checkGroup g s = renewDeviceSubscriptions dev g s ∧
     (∀ sub, findDeviceSubscription s dev = Some sub →
        renewDeviceSubscriptions dev g s =
          (tt, s, dbg s (MsgDeviceInfo (Name g) (dev_host dev)) ++
                  dbg s (MsgAttemptingRenewal (Name g)) ++
                  [ERenewAllSubscriptions sub g (renewTimeout s)])) ∧
     (findDeviceSubscription s dev = None →
        renewDeviceSubscriptions dev g s =
          (tt, final (triggerRediscovery s),
           dbg s (MsgDeviceInfo (Name g) (dev_host dev)) ++
           dbg s (MsgNoDeviceSubscription (Name g)) ++ trace (triggerRediscovery s)))) ∧
  (∀ g, renewal_catch g s =
     (tt, final (triggerRediscovery s),
      ELog LWarn (MsgRenewalFailed (Name g)) :: trace (triggerRediscovery s))) ∧
  (∀ g, renewal_then g s = (tt, s, dbg s (MsgRenewalSucceeded (Name g)))).
Proof.
  split; [|split; [|split; [|split; [|split; [|split; [|split; [|split; [|split;
    [|split; [|split; [|split]]]]]]]]]]].
  - intros H. by rewrite startSubscriptionHealthCheck_run, H.
  - intros t cb ms. rewrite startSubscriptionHealthCheck_run.
    destruct (autoResubscribe s); cbn [negb trace snd].
    + rewrite elem_of_app, elem_of_cons, list_elem_of_singleton.
      intros [Hin | [Heq | Heq]];
        [|injection Heq as _ H2 _; split; [reflexivity|exact H2]|discriminate Heq].
      destruct (subscriptionCheckTimer s); cbn in Hin;
        [apply list_elem_of_singleton in Hin; discriminate Hin | by apply elem_of_nil in Hin].
    + unfold dbg. destruct (debug s); intros Hin;
        [apply list_elem_of_singleton in Hin; discriminate Hin | by apply elem_of_nil in Hin].
  - intros H. by rewrite subscriptionCheckTick_run, H.
  - intros H. rewrite subscriptionCheckTick_run, H.
    destruct (isAnyGroupPlaying s); cbn; split; try done;
      unfold dbg; by destruct (debug s).
  - intros H Hne. rewrite subscriptionCheckTick_run, H. cbn [negb].
    by destruct (groups s).
  - intros gs. apply healthy_check_renews_all.
  - intros good bad rest. apply first_escalation.
  - intros gs. apply forEach_checkGroup_deadline.
  - reflexivity.
  - intros g H. by rewrite checkGroup_run, H.
  - intros g dev H. rewrite checkGroup_run, H. split; [done|].
    rewrite renewDeviceSubscriptions_run.
    split; [intros sub Hsub | intros Hsub]; by rewrite Hsub.
  - intros g. unfold renewal_catch. mstep.
    by destruct (triggerRediscovery s) as [[[] s2] t2].
  - intros g. unfold renewal_then. by rewrite debugLog_run.
Qed.

Lemma subscription_health_check_witness :
  let porch := mkGroup "RINCON_C" "Porch" "192.168.1.22" in
  isRediscovering kitchenPlaying = false ∧
  Forall (checkRenews kitchenPlaying) [kitchen] ∧
  checkEscalates kitchenPlaying porch ∧
  (renewals (trace (forEach checkGroup ([kitchen] ++ porch :: [den]) kitchenPlaying))).*1.*2
    = [kitchen].
Proof.
  intros porch.
  assert (H1 : isRediscovering kitchenPlaying = false) by (vm_compute; reflexivity).
  assert (H2 : Forall (checkRenews kitchenPlaying) [kitchen]).
  { constructor; [|constructor].
    exists (mkDevice 2%nat "192.168.1.20"), (mkDevice 2%nat "192.168.1.20").
    split; vm_compute; reflexivity. }
  assert (H3 : checkEscalates kitchenPlaying porch).
  { intros dev Hdev. vm_compute in Hdev. discriminate Hdev. }
  split; [exact H1|]. split; [exact H2|]. split; [exact H3|].
  destruct (subscription_health_check kitchenPlaying) as (_ & _ & _ & _ & _ & _ & H & _).
  exact (proj2 (H [kitchen] porch [den] H1 H2 H3)).
Defined.

(** C7 as stated fails in four ways.  With the API-call timeout
    configured as 0 the renewals run under 5000 ms while the fetches of
    a poll run under 0.  With a group that has no stored handle in
    front of one that does, the check escalates at the first and the
    second gets no renewal.  After a [SONOS_START] that turns
    auto-resubscribe off the installed timer is still there, and its
    firing renews as before.  And a group with a stored handle that the
    listener holds no subscription for gets no renewal: the check tears
    down at once. *)
Lemma health_check_differs :
  let zeroTimeouts := mkTimeouts (Some 10000) (Some 5000) (Some 0) (Some 10000) in
  let zero := set_config (Some (mkConfig false (Some 15000) (Some 60000) (Some 300000)
                                   true (Some 3) (Some zeroTimeouts))) kitchenPlaying in
  let porch := mkGroup "RINCON_C" "Porch" "192.168.1.22" in
  let waiting := set_groups [kitchen; porch; den] kitchenPlaying in
  let off := mkConfig false (Some 15000) (Some 60000) (Some 300000) false (Some 3) None in
  let h := (helperRun (InPollingMode (Received (SONOS_START off
                                        (mkSettings None false true None))))
              (hybridHelper kitchenPlaying)).1 in
  let unsubscribed := set_deviceSubscriptions (Some []) kitchenPlaying in
  (apiTimeout zero = Some 0 ∧
   (renewals (trace (subscriptionCheckTick zero))).*2 = [5000; 5000] ∧
   trace (pollGroup kitchen zero) =
     [EDeviceCall (mkDevice 6%nat "192.168.1.20") currentTrack (Some (Some 0));
      EDeviceCall (mkDevice 6%nat "192.168.1.20") getVolume (Some (Some 0));
      EDeviceCall (mkDevice 6%nat "192.168.1.20") getMuted (Some (Some 0));
      EDeviceCall (mkDevice 6%nat "192.168.1.20") getCurrentState (Some (Some 0))]) ∧
  (isAnyGroupPlaying waiting = true ∧
   storedDevice waiting den = Some (mkDevice 3%nat "192.168.1.21") ∧
   storedDevice waiting porch = None ∧
   (renewals (trace (subscriptionCheckTick waiting))).*1.*2 = [kitchen]) ∧
  (autoResubscribe (core h) = false ∧
   subscriptionCheckTimer (core h) = Some 5%nat ∧
   (renewals (coreEffects (helperRun (InHybridMode (Called HealthCheckTick)) h).2)).*1.*2 =
     [kitchen; den]) ∧
  (storedDevice unsubscribed kitchen = Some (mkDevice 2%nat "192.168.1.20") ∧
   renewals (trace (subscriptionCheckTick unsubscribed)) = [] ∧
   final (subscriptionCheckTick unsubscribed) = teardownState unsubscribed).
Proof. vm_compute. repeat split. Qed.
